(* ===== verification/_CoqProject ===== *)
-Q . S2P
Prelude.v
EnvelopeFormat.v
EnvelopeName.v
EnvelopeKey.v
Envelope.v
EnvelopeProofs.v
EnvelopeCanon.v
Gf256.v
Coding.v
CheckoutContract.v
CheckoutLedger.v
CheckoutService.v
CheckoutHttp.v
CheckoutProofs.v
CheckoutInvariants.v
CheckoutTheorems.v
ReplicaPolicy.v
ReplicaState.v
ReplicaEngine.v
ReplicaSteps.v
ReplicaProofs.v
ReplicaRuns.v
ReplicaProgress.v
ReplicaPolicyProofs.v
ReplicaTheorems.v
GrantEvent.v
GrantEventProofs.v
GrantDb.v
GrantWorld.v
GrantClaims.v
GrantClaimsProofs.v
GrantService.v
GrantDeviceAuth.v
GrantProofs.v
GrantSteps.v
GrantLedger.v
GrantInvariant.v
GrantGate.v
GrantTheorems.v
PoolReceipt.v
PoolTransport.v
PoolTransportProofs.v
PoolReceiptProofs.v
PoolRepair.v
PoolProofs.v
PoolRestores.v
PoolTheorems.v
DirectText.v
DirectFrames.v
DirectJson.v
DirectJsonReader.v
DirectMessages.v
DirectMessagesProofs.v
DirectPath.v
DirectReceived.v
DirectReceivedProofs.v
DirectSink.v
DirectSinkProofs.v
DirectTheorems.v
DropLayout.v
DropLayoutProofs.v
DropConflict.v
DropLayoutTheorems.v
DropKeyList.v
DropKeyListProofs.v
DropMerge.v
DropKeyListWire.v
DropKeyListWireProofs.v
DropWireReader.v
DropKeyListTheorems.v
DropWatch.v
DropWatchTheorems.v
DropWalk.v
DropFolder.v
DropFolderProofs.v
DropFolderTheorems.v
