(* ===== verification/Prelude.v ===== *)
(** * Wildbloom Node: a verification development

    Wildbloom Node stores encrypted files for a household and its friends.  A
    client seals a file into an envelope ([crates/envelope]) before it leaves
    the machine; the daemon ([crates/wildbloomd]) keeps copies of the sealed
    blobs on other nodes, whole or as parts of an erasure code, by signed
    policies ([replicas/]); owners lend storage to devices by signed grants
    ([grants/]), whose keys a gate in front of the core lets write; an
    operator may sell storage ([crates/wildbloom-checkout]), taking Lightning
    payments or signed notes and activating an allowance for each paid order;
    and the desktop application receives files sent directly from a browser
    page ([desktop/src-tauri/src/drop/direct]), and keeps the owner's folder and
    the list of its files' keys the same on all the owner's computers ([drop/]).
    This development models those parts as executable definitions and proves
    what makes them correct.

    ** Files

    [Prelude.v] is shared by all: Rust results and the question mark, machine
    integers, bytes, strings, the state-and-error monad of the stateful parts,
    relations every run of a computation respects, and Hoare triples.

    The envelope ([crates/envelope/src]).
    - [EnvelopeFormat.v]: constants, limits and errors of [lib.rs].
    - [EnvelopeName.v]: [name.rs], file names and media types.
    - [EnvelopeKey.v]: [key.rs], the WBK1 text of a key.
    - [Envelope.v]: [stream.rs], layout, the record loops of [encrypt_with]
      and [decrypt] with failing readers and writers, and [seal_bytes] and
      [open_bytes].
    - [EnvelopeProofs.v], [EnvelopeCanon.v]: the loops compute what one pass
      over the whole plaintext would; round trip; an envelope opens exactly
      when the encoder produced it.

    The erasure code ([replicas/coding.rs]).
    - [Gf256.v]: the field tables and that they are a field.
    - [Coding.v]: the systematic generator made from a Vandermonde matrix,
      Gauss-Jordan inversion, and the striped reconstruction [regenerate] over
      files that may be missing, short or unwritable; any [k] distinct parts
      rebuild all [n], because any [k] rows of the generator are invertible.

    The checkout ([crates/wildbloom-checkout/src]).
    - [CheckoutContract.v]: [contract.rs], [auth.rs] and the errors and ids of
      [lib.rs].
    - [CheckoutLedger.v]: [ledger.rs], each statement on the orders table.
    - [CheckoutService.v]: [service.rs], each handler over the ledger and an
      arbitrary outside (store, Lightning backend, note issuers, clock).
    - [CheckoutHttp.v]: admission, dispatch and status codes of [http.rs].
    - [CheckoutProofs.v]: the order state machine as a step relation, and that
      handlers only take its steps.
    - [CheckoutInvariants.v], [CheckoutTheorems.v]: invariants of reachable
      ledgers and the properties, with a worked sale.

    The replica coordinator ([crates/wildbloomd/src/replicas]).
    - [ReplicaPolicy.v]: [policy.rs] and the origin rules of [transport.rs].
    - [ReplicaState.v]: [state.rs], the snapshot in memory and on disk and the
      directory of pending requests.
    - [ReplicaEngine.v]: [engine.rs], the maintenance pass.
    - [ReplicaSteps.v]: what bookkeeping leaves alone, proved once for every
      relation of the class [Benign].
    - [ReplicaProofs.v]: the byte and attempt budget of a pass and what its
      observations rest on.
    - [ReplicaRuns.v]: many passes; the accepted policy only moves forward.
    - [ReplicaProgress.v]: failed passes, and that no blob starves.
    - [ReplicaPolicyProofs.v]: the declarative reading of policies, what
      signatures bind, and the base32 decoder.
    - [ReplicaTheorems.v]: the properties and a worked coordinator.

    Coded and mirrored pools ([replicas/pool.rs], [pool_repair.rs] and the HTTP
    client of [transport.rs]).
    - [PoolReceipt.v]: [pool.rs], the checks of an owner-signed receipt.
    - [PoolTransport.v], [PoolTransportProofs.v]: the [Transport] trait as a
      record of operations with its law as a class, the HTTP client that
      implements it over responses in arbitrary chunks, and the address filter
      of its resolver; what a read accepts.
    - [PoolReceiptProofs.v]: the declarative reading of a receipt, and what
      losses a pool survives.
    - [PoolRepair.v]: [pool_repair.rs], the repair pass and the process.
    - [PoolProofs.v]: a program logic on the log of calls, and what a pass may
      do wherever it stops.
    - [PoolRestores.v]: that a pass succeeds in a cooperative world.
    - [PoolTheorems.v]: the properties, and a worked pool repaired over HTTP.

    Device grants ([crates/wildbloomd/src/grants]).
    - [GrantEvent.v], [GrantEventProofs.v]: [event.rs], owner-signed events, and
      the declarative reading of what is accepted.
    - [GrantDb.v]: [db.rs], each statement on the tables.
    - [GrantWorld.v]: the state of a node, and the core's store as a class with
      the laws the code relies on.
    - [GrantClaims.v], [GrantClaimsProofs.v]: [claims.rs], moving claims to an
      owner and back, with every point at which the store or the database can
      fail; what a move keeps.
    - [GrantService.v]: [mod.rs], grants, revocations, sweeps, startup and the
      gate.  A grant and a sweep give up their lock while the core answers, so
      each is also given in two halves.
    - [GrantDeviceAuth.v]: [device_auth.rs], the hourly budget of the issuing
      routes.
    - [GrantProofs.v], [GrantSteps.v]: what each request changes, as Hoare
      rules, and the step relation of interleaved requests.
    - [GrantLedger.v]: an abstract ledger of grants, its invariants, and that
      every step of the service is one of its steps.
    - [GrantInvariant.v]: the roles of keys, kept by requests that run one after
      the other.
    - [GrantGate.v]: refusals, the hourly budget, and the owner's own claims.
    - [GrantTheorems.v]: the properties, a worked node, and a run in which an
      undone grant mixes the roles of a key.

    Direct send ([desktop/src-tauri/src/drop]).
    - [DirectText.v]: what the code uses of strings: UTF-8, UTF-16, patterns.
    - [DirectFrames.v]: [direct/frames.rs], the binary frames and the ACK rule.
    - [DirectJson.v], [DirectJsonReader.v]: the canonical JSON of
      [direct/messages.rs]; a reader that satisfies what is asked of the
      library's, and that the writer is injective.
    - [DirectMessages.v], [DirectMessagesProofs.v]: [direct/messages.rs], every
      rule on a message, the sender and the reader, and that they agree.
    - [DirectPath.v]: [path.rs], names every system can write.
    - [DirectReceived.v], [DirectReceivedProofs.v]: [direct/received.rs] and
      [move_no_clobber] of [folder.rs], over a folder other programs change
      between system calls that may fail.
    - [DirectSink.v], [DirectSinkProofs.v]: [direct/sink.rs] over the envelope,
      and the slot of [direct/session.rs] whose calls interleave at its locks.
    - [DirectTheorems.v]: the properties, a worked transfer, and runs that show
      where the code differs from its comments.

    The owner's folder and key list ([desktop/src-tauri/src/drop]).
    - [DropLayout.v], [DropLayoutProofs.v], [DropConflict.v],
      [DropLayoutTheorems.v]: [layout.rs], where each kept file goes; the names
      conflict losers take; that computers agree, and that the places make a
      tree.
    - [DropKeyList.v], [DropKeyListProofs.v], [DropMerge.v]: the key list of
      [device.rs] in memory; its content as two finite maps, and the merge of
      copies as their join.
    - [DropKeyListWire.v], [DropKeyListWireProofs.v], [DropWireReader.v],
      [DropKeyListTheorems.v]: its text, sealing and opening; what is asked of
      the JSON reader, and a reader that has it; the properties.
    - [DropWatch.v], [DropWatchTheorems.v]: [watch.rs], when a missing file
      counts as deleted and when the owner is asked first, over any run of
      passes.
    - [DropWalk.v]: [walk] of [watch.rs], the bounded scan of the folder, and
      that it accounts for every file.
    - [DropFolder.v], [DropFolderProofs.v], [DropFolderTheorems.v]: what
      [folder.rs] and its callers in [watch.rs] and [engine.rs] write in the
      folder, over system calls that may fail; that nothing is lost, and two
      runs of failures in which something is.

    ** How code becomes definitions

    A Rust struct is a record and an enum an inductive type, with the source's
    names; a [w]-bit integer is a [Z], and where an operation can leave its
    range it is written with the saturating, checked or wrapping operation the
    code uses.  A function that can fail returns [result]; [let?] is the
    question mark.  Code with effects is a function of the monad [SM]: a state
    and a result, where an error keeps the state reached, so a theorem about
    all outcomes covers every point at which the code can stop.  A loop over a
    list is a [Fixpoint] on the list; the record loops of the codec recurse on
    the record count, and the pass loops on the list of offsets, so none needs
    fuel; the scan of a folder takes one round more than it may visit entries,
    and the search for a conflict name three tries for each taken name and one
    more, which are shown to be enough; the page walks over the core's claims
    take a number of pages, and the repair process a number of passes, and
    their theorems hold for every number.  Libraries the code calls (cryptography, JSON, URLs, Nostr events,
    Unicode) are operations of classes, with the laws a theorem needs as
    classes of their own, and each class has a concrete instance next to the
    theorems.  The world outside (clock, network, files, other processes) is an
    abstract state each call may change in any way.

    ** What the theorems show

    - Envelope: round trip, canonicity, totality, size and padding bounds,
      canonical names, key text round trip.
    - Coding: any [k] distinct parts regenerate all parts byte for byte, the
      generator's rows are invertible, and what is returned has the signed
      hashes whatever the sources and the disk do.
    - Checkout: every request is a sequence of legal steps of the order state
      machine, each resting on the answer of the store, the Lightning backend
      or the note issuer that the code asks for; reachable ledgers are well formed; an order is settled only by
      its own payment; money is requested or moved once; a paid order is
      delivered; replays, authentication, configuration and admission bounds.
    - Replicas: a pass keeps its budget and mirrors only bytes it has read;
      the reported groups rest on reads of the same pass; accepted policies
      never roll back over the life of a state directory; a failed pass leaves
      no evidence; no blob starves under a policy that asks for copies; what signed policies and authorisations
      bind; onion addresses.
    - Pools: an accepted receipt survives the loss of as many failure groups as
      there are spare parts; a repair pass keeps its budget and its authority
      wherever it stops, and so does the process over any number of passes;
      reports rest on reads; in a cooperative world a pass restores
      protection; HTTP reads accept exactly the blob; the resolver hands out no
      reserved address.
    - Grants: every interleaving is a run of the ledger; a revocation is final
      for all earlier events; rows come from owners' signatures only; the roles
      of keys, and that an ended device is refused before the core, when
      requests run one after the other; moves orphan no blob and sweeps keep an
      owner's own claims; the hourly budget; which events and which numbers are
      accepted.  The theorems on the ledger, revocations and roles assume that
      reading the tables back after a commit succeeds and that the clock is
      below 2^63 seconds; runs that show what happens otherwise stand next to
      them.
    - Direct send: a message is accepted in exactly one spelling; what is kept
      is what the offer and END describe, wherever the transfer stops; an honest
      transfer is kept; in a folder nobody else writes to nothing is replaced,
      as long as the look at a name after a failed hard link works; a cancelled
      session leaves the disk alone from then on, and the file it reports is
      there.
    - Folder and key list: the layout depends on the set of rows only, loses no
      row, is a tree of portable names and exists for up to 84 million rows;
      key lists stay well formed, open exactly when sealed, merge as a join and
      never go back; the deletion of a stored file is inferred only from two
      complete scans, unless the owner was asked and its content is elsewhere,
      and a mass deletion within one run of the app waits for the owner; a scan
      accounts for every file; while no other program writes to the folder and
      looks after failed hard links work, no content in it is lost, and only a
      file with the size and time of a row linked to its path, up to case and
      Unicode form, is moved.

    ** Not modelled

    File permissions, atomic replacement and locks (the models take the
    outcome of a write as an input); HTTP servers, Tor and process supervision;
    database files and migrations (a table is a finite map); group mode and the
    token issuers of the grants, target enrolment and discovery; of the desktop
    application, the window's commands, the index database, sharing and pairing,
    the queues that talk to nodes, the keychain and the recovery secret, and, of
    the folder pass, how edits and new files are taken in.  These are mostly I/O
    around the parts that are modelled. *)
From stdpp Require Export base tactics numbers list gmap strings.
From Stdlib Require Export ZArith Lia.
From Stdlib Require Import Strings.Byte.

#[global] Open Scope Z_scope.

(** ** Results

    Rust's [Result<T, E>].  [let?] is the [?] operator: it returns the error
    of its left operand unchanged; [fail? c with e in k] is
    [if c { return Err(e) }] followed by [k]. *)
Inductive result (E A : Type) : Type :=
| Ok (a : A)
| Err (e : E).

Arguments Ok {E A} a.
Arguments Err {E A} e.

Declare Scope wb_scope.
Delimit Scope wb_scope with wb.

Notation "'let?' x := c 'in' k" :=
  (match c with Ok x => k | Err e => Err e end)
  (at level 10, x pattern, c at level 200, k at level 200) : wb_scope.

Notation "'fail?' c 'with' e 'in' k" :=
  (if c then Err e else k)
  (at level 10, c at level 200, e at level 10, k at level 200) : wb_scope.

#[global] Open Scope wb_scope.

Definition is_ok {E A} (r : result E A) : bool :=
  match r with Ok _ => true | Err _ => false end.

(** [Option::ok_or] and [Result::ok]. *)
Definition ok_or {E A} (o : option A) (e : E) : result E A :=
  match o with Some a => Ok a | None => Err e end.

Definition map_err {E F A} (f : E -> F) (r : result E A) : result F A :=
  match r with Ok a => Ok a | Err e => Err (f e) end.

#[global] Instance result_eq_dec {E A} `{EqDecision E, EqDecision A} :
  EqDecision (result E A).
Proof. solve_decision. Defined.

(** ** Machine integers

    A [u64], [u32] or [usize] (64-bit targets) is a [Z] in its range; every
    operation of the source that can leave the range is written with one of
    these, never with a bare [+] or [-]. *)
Definition U64_MAX : Z := 2 ^ 64 - 1.
Definition U32_MAX : Z := 2 ^ 32 - 1.
Definition I64_MAX : Z := 2 ^ 63 - 1.

Definition is_u64 (n : Z) : bool := (0 <=? n) && (n <=? U64_MAX).
Definition is_u32 (n : Z) : bool := (0 <=? n) && (n <=? U32_MAX).

Definition saturating_add (a b : Z) : Z := Z.min (a + b) U64_MAX.
Definition saturating_sub (a b : Z) : Z := Z.max (a - b) 0.
Definition checked_add (a b : Z) : option Z :=
  if a + b <=? U64_MAX then Some (a + b) else None.
Definition wrap64 (a : Z) : Z := a mod 2 ^ 64.
Definition u32_try_from (a : Z) : option Z := if a <=? U32_MAX then Some a else None.

(** [u64::div_ceil] for a positive divisor. *)
Definition div_ceil (a b : Z) : Z := (a + b - 1) / b.

Lemma div_ceil_spec a b : 0 < b -> b * (div_ceil a b - 1) < a <= b * div_ceil a b.
Proof.
  intros Hb. unfold div_ceil.
  pose proof (Z.div_mod (a + b - 1) b ltac:(lia)).
  pose proof (Z.mod_pos_bound (a + b - 1) b Hb). nia.
Qed.

Lemma div_ceil_unique a b q : 0 < b -> b * (q - 1) < a <= b * q -> div_ceil a b = q.
Proof. intros Hb Hq. pose proof (div_ceil_spec a b Hb). nia. Qed.

Lemma div_ceil_mul b q : 0 < b -> div_ceil (q * b) b = q.
Proof. intros. apply div_ceil_unique; nia. Qed.

Lemma div_ceil_mono a a' b : 0 < b -> a <= a' -> div_ceil a b <= div_ceil a' b.
Proof. intros. apply Z.div_le_mono; lia. Qed.

Lemma div_ceil_pos a b : 0 < b -> 0 < a -> 0 < div_ceil a b.
Proof. intros. pose proof (div_ceil_spec a b). nia. Qed.

Lemma saturating_sub_le a b : 0 <= b -> 0 <= a -> 0 <= saturating_sub a b <= a.
Proof. unfold saturating_sub. lia. Qed.

(** ** Bytes *)

Abbreviation byte := Init.Byte.byte.

Definition b2z (b : byte) : Z := Z.of_N (Byte.to_N b).

Definition z2b (z : Z) : byte :=
  match Byte.of_N (Z.to_N (z mod 256)) with Some b => b | None => Init.Byte.x00 end.

Lemma b2z_range b : 0 <= b2z b < 256.
Proof. unfold b2z. pose proof (Byte.to_N_bounded b). lia. Qed.

Lemma b2z_z2b z : b2z (z2b z) = z mod 256.
Proof.
  unfold b2z, z2b. pose proof (Z.mod_pos_bound z 256 ltac:(lia)).
  destruct (Byte.of_N (Z.to_N (z mod 256))) eqn:E.
  - apply Byte.to_of_N_iff in E. rewrite E. lia.
  - apply Byte.of_N_None_iff in E. lia.
Qed.

Lemma b2z_inj a b : b2z a = b2z b -> a = b.
Proof.
  unfold b2z. intros H. apply N2Z.inj in H.
  pose proof (Byte.of_to_N a) as Ha. pose proof (Byte.of_to_N b) as Hb.
  rewrite H in Ha. congruence.
Qed.

Lemma z2b_b2z b : z2b (b2z b) = b.
Proof. apply b2z_inj. rewrite b2z_z2b. apply Z.mod_small, b2z_range. Qed.

Definition byte_eqb (a b : byte) : bool := b2z a =? b2z b.

Lemma byte_eqb_eq a b : byte_eqb a b = true <-> a = b.
Proof.
  unfold byte_eqb. rewrite Z.eqb_eq. split; [apply b2z_inj | by intros ->].
Qed.

#[global] Instance byte_eq_dec : EqDecision byte.
Proof.
  intros a b. destruct (byte_eqb a b) eqn:E.
  - left. by apply byte_eqb_eq.
  - right. intros ->. rewrite (proj2 (byte_eqb_eq b b) eq_refl) in E. done.
Defined.

(** All 256 bytes, and the principle that a boolean check over them decides
    a universally quantified statement. *)
Definition all_bytes : list byte := map (fun n => z2b (Z.of_nat n)) (seq 0 256).

Lemma all_bytes_complete b : In b all_bytes.
Proof.
  apply in_map_iff. exists (Z.to_nat (b2z b)). pose proof (b2z_range b).
  split; [rewrite Z2Nat.id by lia; apply z2b_b2z | apply in_seq; lia].
Qed.

Lemma forall_byte (P : byte -> bool) : forallb P all_bytes = true -> forall b, P b = true.
Proof. intros H b. apply (proj1 (forallb_forall P all_bytes) H), all_bytes_complete. Qed.

Lemma forall_byte2 (P : byte -> byte -> bool) :
  forallb (fun a => forallb (P a) all_bytes) all_bytes = true -> forall a b, P a b = true.
Proof. intros H a b. exact (forall_byte _ (forall_byte _ H a) b). Qed.

(** Big-endian integers, as [to_be_bytes] and [from_be_bytes]. *)
Fixpoint be_bytes (n : nat) (z : Z) : list byte :=
  match n with
  | O => []
  | S n => be_bytes n (z / 256) ++ [z2b z]
  end.

Definition be_value (l : list byte) : Z := foldl (fun acc b => acc * 256 + b2z b) 0 l.

Lemma length_be_bytes n z : length (be_bytes n z) = n.
Proof. revert z; induction n; intros z; simpl; [done|]. rewrite length_app, IHn. simpl. lia. Qed.

Lemma be_value_app l b : be_value (l ++ [b]) = be_value l * 256 + b2z b.
Proof. unfold be_value. by rewrite foldl_app. Qed.

Lemma be_value_bytes n z : be_value (be_bytes n z) = z mod 256 ^ Z.of_nat n.
Proof.
  revert z; induction n as [|n IH]; intros z.
  - simpl. by rewrite Z.mod_1_r.
  - cbn [be_bytes]. rewrite be_value_app, IH, b2z_z2b.
    rewrite Nat2Z.inj_succ, Z.pow_succ_r by lia.
    rewrite (Z.rem_mul_r z 256 (256 ^ Z.of_nat n)) by lia. lia.
Qed.

Lemma be_value_bytes_small n z : 0 <= z < 256 ^ Z.of_nat n -> be_value (be_bytes n z) = z.
Proof. intros. rewrite be_value_bytes. by apply Z.mod_small. Qed.

Lemma be_bytes_value l : be_bytes (length l) (be_value l) = l.
Proof.
  induction l as [|b l IH] using rev_ind; [done|].
  rewrite length_app, Nat.add_1_r. cbn [be_bytes]. rewrite be_value_app.
  pose proof (b2z_range b).
  rewrite Z.div_add_l, Z.div_small, Z.add_0_r, IH by lia.
  f_equal. f_equal. apply b2z_inj. rewrite b2z_z2b.
  rewrite Z.add_comm, Z.mod_add by lia. by apply Z.mod_small.
Qed.

Lemma be_value_bound l : 0 <= be_value l < 256 ^ Z.of_nat (length l).
Proof.
  rewrite <- (be_bytes_value l) at 1 2. rewrite be_value_bytes.
  apply Z.mod_pos_bound. lia.
Qed.

(** ** Lists *)

Lemma length_concat_same {A} (ls : list (list A)) sz :
  (forall l, l ∈ ls -> length l = sz) -> length (concat ls) = (length ls * sz)%nat.
Proof.
  induction ls as [|l ls IH]; intros H; [done|]. cbn. rewrite length_app, IH, (H l);
    [done|left|intros; apply H; by right].
Qed.

Lemma elem_of_take_in {A} (x : A) n l : x ∈ take n l -> x ∈ l.
Proof. intros (i & Hi & _)%elem_of_take. apply list_elem_of_lookup. eauto. Qed.

(** Keys that are pairwise distinct determine the element. *)
Lemma NoDup_map_inj {A B} (f : A -> B) l x y :
  NoDup (map f l) -> x ∈ l -> y ∈ l -> f x = f y -> x = y.
Proof.
  intros Hn [i Hi]%list_elem_of_lookup [j Hj]%list_elem_of_lookup E.
  assert (i = j) as -> by (apply (NoDup_lookup _ i j (f x) Hn);
    [by rewrite list_lookup_fmap, Hi|by rewrite list_lookup_fmap, Hj, E]).
  congruence.
Qed.

(** ** Strings

    Rust strings are UTF-8: a [string] holds their bytes. *)

Definition codes (s : string) : list Z :=
  map (fun a => Z.of_N (Ascii.N_of_ascii a)) (String.list_ascii_of_string s).

Lemma length_codes s : Z.of_nat (length (codes s)) = Z.of_nat (String.length s).
Proof. unfold codes. rewrite length_map. f_equal. induction s; cbn; auto. Qed.

(** [str::len]: bytes. *)
Definition slen (s : string) : Z := Z.of_nat (String.length s).

Definition is_empty (s : string) : bool := match s with EmptyString => true | _ => false end.

Definition in_range (lo c hi : Z) : bool := (lo <=? c) && (c <=? hi).

(** [str::ends_with] and [str::strip_prefix]. *)
Fixpoint strip_prefix (p s : string) : option string :=
  match p, s with
  | EmptyString, _ => Some s
  | String a p, String b s => if decide (a = b) then strip_prefix p s else None
  | String _ _, EmptyString => None
  end.

Definition starts_with (p s : string) : bool :=
  match strip_prefix p s with Some _ => true | None => false end.

Fixpoint ends_with (p s : string) : bool :=
  bool_decide (p = s) || match s with String _ s => ends_with p s | EmptyString => false end.

(** [str::split_once] at a character. *)
Fixpoint split_once (c : Ascii.ascii) (s : string) : option (string * string) :=
  match s with
  | EmptyString => None
  | String a s' =>
      if decide (a = c) then Some (EmptyString, s')
      else match split_once c s' with Some (l, r) => Some (String a l, r) | None => None end
  end.

(** ** The state-and-error monad

    Code that mutates a state and may return early with an error keeps the
    state it has reached.  [let!] is [let x = m?;]. *)
Definition SM (S E A : Type) : Type := S -> result E A * S.

Definition ret {S E A} (a : A) : SM S E A := fun s => (Ok a, s).
Definition throw {S E A} (e : E) : SM S E A := fun s => (Err e, s).
Definition bind {S E A B} (m : SM S E A) (k : A -> SM S E B) : SM S E B :=
  fun s => match m s with (Ok a, s) => k a s | (Err e, s) => (Err e, s) end.
Definition lift {S E A} (r : result E A) : SM S E A := fun s => (r, s).

Notation "'let!' x := m 'in' k" := (bind m (fun x => k))
  (at level 10, x pattern, m at level 200, k at level 200) : wb_scope.

(** A relation every run of a computation respects, whatever it returns. *)
Definition respects {S E A} (R : S -> S -> Prop) (m : SM S E A) : Prop := forall s, R s (m s).2.

Lemma respects_ret {S E A} (R : S -> S -> Prop) `{!Reflexive R} (a : A) :
  respects R (ret (E := E) a).
Proof. intros s. cbn. reflexivity. Qed.

Lemma respects_throw {S E A} (R : S -> S -> Prop) `{!Reflexive R} (e : E) :
  respects R (throw (A := A) e).
Proof. intros s. cbn. reflexivity. Qed.

Lemma respects_lift {S E A} (R : S -> S -> Prop) `{!Reflexive R} (r : result E A) :
  respects R (lift r).
Proof. intros s. cbn. reflexivity. Qed.

Lemma respects_bind {S E A B} (R : S -> S -> Prop) `{!Transitive R} (m : SM S E A) (k : A -> SM S E B) :
  respects R m -> (forall a, respects R (k a)) -> respects R (bind m k).
Proof.
  intros Hm Hk s. unfold bind. specialize (Hm s). destruct (m s) as [[a|e] s'] eqn:E'; [|exact Hm].
  etransitivity; [exact Hm|apply Hk].
Qed.

Create HintDb respects.

(** Goes through binds and branches; the hint database [respects] holds what
    is known of the operations of a component. *)
Ltac respects :=
  repeat (cbn beta iota zeta; lazymatch goal with
  | |- respects _ (bind _ _) => apply respects_bind; [exact _| |intros ?]
  | |- respects _ (ret _) => apply respects_ret; exact _
  | |- respects _ (throw _) => apply respects_throw; exact _
  | |- respects _ (lift _) => apply respects_lift; exact _
  | |- respects _ (match ?x with _ => _ end) => destruct x
  | |- _ => solve [auto with respects]
  end).

(** ** Hoare triples

    [wp m Q s]: from [s], [m] ends in a result and a state that satisfy [Q]. *)
Definition wp {S E A} (m : SM S E A) (Q : result E A -> S -> Prop) (s : S) : Prop :=
  Q (m s).1 (m s).2.

Lemma wp_bind {S E A B} (m : SM S E A) (k : A -> SM S E B) Q s :
  wp m (fun r s' => match r with Ok a => wp (k a) Q s' | Err e => Q (Err e) s' end) s ->
  wp (bind m k) Q s.
Proof. unfold wp, bind. destruct (m s) as [[a|e] s']; intros H; exact H. Qed.

Lemma wp_impl {S E A} (m : SM S E A) (P Q : result E A -> S -> Prop) s :
  wp m P s -> (forall r s', P r s' -> Q r s') -> wp m Q s.
Proof. unfold wp. auto. Qed.

(** A computation that respects a relation may have done anything the
    relation allows. *)
Lemma wp_respects {S E A} (R : S -> S -> Prop) (m : SM S E A) Q s :
  respects R m -> (forall r s', R s s' -> Q r s') -> wp m Q s.
Proof. unfold wp. intros Hm HQ. apply HQ, Hm. Qed.

Lemma wp_and {S E A} (m : SM S E A) (P Q : result E A -> S -> Prop) s :
  wp m P s -> wp m Q s -> wp m (fun r s' => P r s' /\ Q r s') s.
Proof. by split. Qed.
