(* ===== verification/EnvelopeFormat.v ===== *)
(** * The FSWNENC2 envelope: constants, limits and errors

    Models [crates/envelope/src/lib.rs]. *)
From S2P Require Import Prelude.

(** ** Constants *)

Definition ascii_bytes (s : string) : list byte :=
  map (fun a => z2b (Z.of_N (Ascii.N_of_ascii a))) (String.list_ascii_of_string s).

Definition MAGIC : list byte := ascii_bytes "FSWNENC2".
Definition HKDF_INFO : list byte := ascii_bytes "forgesworn-aes-256-gcm-chunked/v2".
Definition HEADER_BYTES : Z := 56.
Definition NONCE_PREFIX_BYTES : Z := 8.
Definition SALT_BYTES : Z := 32.
Definition CHUNK_BYTES : Z := 1024 * 1024.
Definition TAG_BYTES : Z := 16.
Definition MIN_PADDING_BUCKET : Z := 64 * 1024.
Definition MAX_METADATA_BYTES : Z := 4096.
Definition KEY_BYTES : Z := 32.
Definition MIN_ENVELOPE_BYTES : Z := HEADER_BYTES + MIN_PADDING_BUCKET + TAG_BYTES.

(** ** Text

    A Rust [char] is a Unicode scalar value; a [String] is the list of them. *)
Abbreviation rchar := Z (only parsing).
Abbreviation text := (list Z) (only parsing).

Definition lit (s : string) : text :=
  map (fun a => Z.of_N (Ascii.N_of_ascii a)) (String.list_ascii_of_string s).

(** ** Metadata *)

Record Metadata := {
  name : text;
  size : Z;
  media_type : text
}.

#[export] Instance Metadata_eq_dec : EqDecision Metadata.
Proof. solve_decision. Defined.

(** ** Limits *)

Record Limits := { max_source_bytes : Z }.

Definition BROWSER : Limits := {| max_source_bytes := 256 * 1024 * 1024 |}.

(** [ceil((max source + 4 + max metadata) / 1 MiB)], clamped to [u32]. *)
Definition max_records (l : Limits) : Z :=
  let logical := saturating_add (max_source_bytes l) (4 + MAX_METADATA_BYTES) in
  match u32_try_from (div_ceil logical CHUNK_BYTES) with
  | Some n => n
  | None => U32_MAX
  end.

Example browser_limit_matches_the_published_record_cap :
  max_records BROWSER = 257 /\ max_records {| max_source_bytes := 0 |} = 1 /\
  max_records {| max_source_bytes := U64_MAX |} = U32_MAX.
Proof. vm_compute. done. Qed.

(** ** Errors *)

Inductive Error :=
| EIo
| EPrivateState
| ERandom
| ECancelled
| ETempDirInUse
| ESourceChanged
| ETooLarge
| EMediaType
| EMetadataTooLarge
| EMagic
| EHeader
| ELength
| EAuthentication
| EMetadata (what : string)
| EPadding.

#[export] Instance Error_eq_dec : EqDecision Error.
Proof. solve_decision. Defined.
