(* ===== verification/EnvelopeName.v ===== *)
(** * Canonical envelope metadata

    Models [crates/envelope/src/name.rs]: the file name and media type rules
    of the envelope.  Unicode normalisation and case folding come from
    libraries; they are the operations of [Unicode], and [UnicodeLaws] states
    what the Unicode standard promises of them. *)
From S2P Require Import Prelude EnvelopeFormat.

(** ** Unicode *)

Class Unicode := {
  nfc : text -> text;
  to_lowercase : text -> text
}.

(** ** The code *)

Definition MAX_NAME_UTF16 : Z := 180.
Definition MAX_MEDIA_TYPE_UTF16 : Z := 255.

Definition between (lo c hi : Z) : bool := (lo <=? c) && (c <=? hi).

Definition is_js_whitespace (c : rchar) : bool :=
  between 0x9 c 0xD || (c =? 0x20) || (c =? 0xA0) || (c =? 0x1680) || between 0x2000 c 0x200A
  || (c =? 0x2028) || (c =? 0x2029) || (c =? 0x202F) || (c =? 0x205F) || (c =? 0x3000)
  || (c =? 0xFEFF).

Definition is_control (c : rchar) : bool := between 0 c 0x1f || (c =? 0x7f).

(** [char::len_utf16] and [str::encode_utf16().count()]. *)
Definition len_utf16 (c : rchar) : Z := if 0x10000 <=? c then 2 else 1.
Definition utf16_count (s : text) : Z := foldr (fun c n => len_utf16 c + n) 0 s.

Definition is_separator (c : rchar) : bool := (c =? 47) || (c =? 92).

(** [value.rsplit(['/', '\\']).next()]: what follows the last separator. *)
Fixpoint leaf (s : text) : text :=
  match s with
  | [] => []
  | c :: t => if existsb is_separator t then leaf t else if is_separator c then t else s
  end.

Definition is_reserved (c : rchar) : bool :=
  (c =? 60) || (c =? 62) || (c =? 58) || (c =? 34) || (c =? 124) || (c =? 63) || (c =? 42).

Definition replace_reserved (c : rchar) : rchar := if is_reserved c then 95 else c.

Fixpoint trim_start (p : rchar -> bool) (s : text) : text :=
  match s with
  | [] => []
  | c :: t => if p c then trim_start p t else s
  end.

Definition trim_end (p : rchar -> bool) (s : text) : text := reverse (trim_start p (reverse s)).

(** The truncation loop of [sanitise_name]. *)
Fixpoint truncate_utf16 (units : Z) (s : text) : text :=
  match s with
  | [] => []
  | c :: t =>
      let width := len_utf16 c in
      if MAX_NAME_UTF16 <? units + width then [] else c :: truncate_utf16 (units + width) t
  end.

Definition leading (c : rchar) : bool := (c =? 46) || is_js_whitespace c.

Definition sanitise_name `{Unicode} (value : text) : text :=
  let without_controls := List.filter (fun c => negb (is_control c)) (leaf value) in
  let mapped := map replace_reserved (nfc without_controls) in
  let trimmed := trim_end is_js_whitespace (trim_start leading mapped) in
  let fallback := match trimmed with [] => lit "blob.bin" | _ => trimmed end in
  if utf16_count fallback <=? MAX_NAME_UTF16 then fallback
  else trim_end is_js_whitespace (truncate_utf16 0 fallback).

Definition normalise_media_type `{Unicode} (value : text) : result Error text :=
  let lowered :=
    match value with [] => lit "application/octet-stream" | _ => to_lowercase value end in
  if (MAX_MEDIA_TYPE_UTF16 <? utf16_count lowered) || existsb is_control lowered
  then Err EMediaType
  else Ok lowered.

(** ** What Unicode promises

    NFC is idempotent, the identity on ASCII, closed under substrings
    (UAX #15), never produces a control or a path separator that was not
    there, and stays NFC when a reserved ASCII character becomes a low line
    (which composes with nothing).  Lower-casing is idempotent and keeps
    non-empty text non-empty. *)
Class UnicodeLaws (U : Unicode) := {
  nfc_idem : forall s, nfc (nfc s) = nfc s;
  nfc_ascii : forall s, Forall (fun c => 0 <= c < 128) s -> nfc s = s;
  nfc_substring : forall a s b, nfc (a ++ s ++ b) = a ++ s ++ b -> nfc s = s;
  nfc_plain : forall s c, c ∈ nfc s -> is_control c || is_separator c = true -> c ∈ s;
  nfc_reserved : forall s, nfc s = s -> nfc (map replace_reserved s) = map replace_reserved s;
  lower_idem : forall s, to_lowercase (to_lowercase s) = to_lowercase s;
  lower_ascii : forall s, Forall (fun c => 0 <= c < 128 /\ ~ 65 <= c <= 90) s -> to_lowercase s = s;
  lower_nonempty : forall s, to_lowercase s = [] -> s = []
}.

(** The operations restricted to ASCII text, on which both laws and
    operations are concrete. *)
Definition ascii_lower (c : rchar) : rchar := if between 65 c 90 then c + 32 else c.

Definition ascii_unicode : Unicode := {| nfc s := s; to_lowercase := map ascii_lower |}.

Lemma ascii_unicode_laws : UnicodeLaws ascii_unicode.
Proof.
  split; simpl; try done.
  - intros s. rewrite map_map. apply map_ext. intros c. unfold ascii_lower, between.
    destruct ((65 <=? c) && (c <=? 90)) eqn:E; [|by rewrite E].
    destruct ((65 <=? c + 32) && (c + 32 <=? 90)) eqn:E2; lia.
  - intros s Hs. rewrite <- (map_id s) at 2. apply map_ext_in. intros c Hc.
    rewrite Forall_forall in Hs. specialize (Hs c (proj2 (list_elem_of_In _ _) Hc)).
    unfold ascii_lower, between. destruct ((65 <=? c) && (c <=? 90)) eqn:E; lia.
  - intros [|c s]; done.
Qed.

(** ** Names *)

Section Names.
Context `{U : Unicode} {UL : UnicodeLaws U}.

(** The fixed points of [sanitise_name]. *)
Record canonical_name (s : text) : Prop := {
  cn_nfc : nfc s = s;
  cn_plain : Forall (fun c => is_control c || is_separator c || is_reserved c = false) s;
  cn_nonempty : s <> [];
  cn_head : forall c, head s = Some c -> leading c = false;
  cn_last : forall c, last s = Some c -> is_js_whitespace c = false;
  cn_length : utf16_count s <= MAX_NAME_UTF16
}.

Lemma leaf_plain s : Forall (fun c => is_separator c = false) (leaf s).
Proof.
  induction s as [|c t IH]; simpl; [done|]. destruct (existsb is_separator t) eqn:E; [done|].
  assert (Forall (fun c => is_separator c = false) t).
  { apply Forall_forall. intros x Hx. apply not_true_iff_false. intros Hs.
    apply not_true_iff_false in E. apply E, existsb_exists. exists x.
    by rewrite <- list_elem_of_In. }
  destruct (is_separator c) eqn:Ec; [done|]. by constructor.
Qed.

Lemma leaf_id s : Forall (fun c => is_separator c = false) s -> leaf s = s.
Proof.
  induction 1 as [|c t Hc Ht IH]; simpl; [done|].
  assert (existsb is_separator t = false) as ->.
  { apply not_true_iff_false. intros (x & Hx & Hs)%existsb_exists.
    rewrite Forall_forall in Ht. rewrite (Ht x) in Hs by (by apply list_elem_of_In). done. }
  by rewrite Hc.
Qed.

Lemma trim_start_suffix p s : exists a, s = a ++ trim_start p s.
Proof.
  induction s as [|c t [a IH]]; simpl; [by exists []|].
  destruct (p c); [exists (c :: a); simpl; by f_equal|by exists []].
Qed.

Lemma trim_start_head p s c : head (trim_start p s) = Some c -> p c = false.
Proof. induction s as [|d t IH]; simpl; [done|]. destruct (p d) eqn:E; [done|]. by intros [= <-]. Qed.

Lemma trim_start_id p s : (forall c, head s = Some c -> p c = false) -> trim_start p s = s.
Proof. destruct s as [|c t]; [done|]. intros H. simpl. by rewrite H. Qed.

Lemma trim_end_prefix p s : exists b, s = trim_end p s ++ b.
Proof.
  destruct (trim_start_suffix p (reverse s)) as [a Ha]. exists (reverse a).
  unfold trim_end. by rewrite <- reverse_app, <- Ha, reverse_involutive.
Qed.

Lemma head_reverse {A} (s : list A) : head (reverse s) = last s.
Proof. by rewrite <- (reverse_involutive s) at 2; rewrite last_reverse. Qed.

Lemma trim_end_last p s c : last (trim_end p s) = Some c -> p c = false.
Proof. unfold trim_end. rewrite last_reverse. apply trim_start_head. Qed.

Lemma trim_end_id p s : (forall c, last s = Some c -> p c = false) -> trim_end p s = s.
Proof.
  intros H. unfold trim_end. rewrite trim_start_id, reverse_involutive; [done|].
  intros c. rewrite head_reverse. apply H.
Qed.

Lemma trim_end_head p s c : head s = Some c -> p c = false -> head (trim_end p s) = Some c.
Proof.
  intros Hh Hc. destruct (trim_end_prefix p s) as [b Hb].
  destruct (trim_end p s) as [|d t] eqn:E; [|rewrite Hb in Hh; done].
  exfalso. unfold trim_end in E. apply (f_equal reverse) in E. rewrite reverse_involutive in E.
  destruct s as [|c' s]; [done|]. injection Hh as ->. rewrite reverse_cons in E.
  assert (forall l, trim_start p (l ++ [c]) <> []) as Hne; [|by apply Hne in E].
  induction l as [|x l IH]; simpl; [by rewrite Hc|]. by destruct (p x).
Qed.

Lemma truncate_prefix units s : exists b, s = truncate_utf16 units s ++ b.
Proof.
  revert units; induction s as [|c t IH]; intros units; simpl; [by exists []|].
  destruct (MAX_NAME_UTF16 <? units + len_utf16 c); [by eexists|].
  destruct (IH (units + len_utf16 c)) as [b Hb]. exists b. simpl. by f_equal.
Qed.

Lemma utf16_count_cons c s : utf16_count (c :: s) = len_utf16 c + utf16_count s.
Proof. done. Qed.

Lemma len_utf16_pos c : 1 <= len_utf16 c <= 2.
Proof. unfold len_utf16. destruct (_ <=? _); lia. Qed.

Lemma truncate_count units s :
  units <= MAX_NAME_UTF16 -> units + utf16_count (truncate_utf16 units s) <= MAX_NAME_UTF16.
Proof.
  revert units; induction s as [|c t IH]; intros units Hu; cbn [truncate_utf16]; [simpl; lia|].
  destruct (Z.ltb_spec MAX_NAME_UTF16 (units + len_utf16 c)); [simpl; lia|].
  specialize (IH _ H). rewrite utf16_count_cons. lia.
Qed.

Lemma utf16_count_app a b : utf16_count (a ++ b) = utf16_count a + utf16_count b.
Proof. induction a as [|c a IH]; [done|]. cbn [app]. rewrite !utf16_count_cons. lia. Qed.

Lemma utf16_count_nonneg s : 0 <= utf16_count s.
Proof.
  induction s as [|c s IH]; [done|]. pose proof (len_utf16_pos c). rewrite utf16_count_cons. lia.
Qed.

(** Removing a prefix and a suffix keeps NFC and the character classes. *)
Lemma sub_name (P : rchar -> Prop) a s b :
  nfc (a ++ s ++ b) = a ++ s ++ b -> Forall P (a ++ s ++ b) -> nfc s = s /\ Forall P s.
Proof. intros Hn HP. split; [by eapply nfc_substring|]. by rewrite !Forall_app in HP; destruct HP as (_ & ? & _). Qed.

Definition plain (c : rchar) : Prop := is_control c || is_separator c || is_reserved c = false.

Lemma mapped_plain value :
  let mapped := map replace_reserved
                  (nfc (List.filter (fun c => negb (is_control c)) (leaf value))) in
  nfc mapped = mapped /\ Forall plain mapped.
Proof.
  intros mapped. split; [apply nfc_reserved, nfc_idem|].
  apply Forall_forall. intros c Hc. unfold mapped in Hc.
  apply list_elem_of_In, in_map_iff in Hc as (d & <- & Hd%list_elem_of_In).
  assert (is_control d || is_separator d = false) as Hds.
  { apply not_true_iff_false. intros Hs. pose proof (nfc_plain _ _ Hd Hs) as Hin.
    apply list_elem_of_In, filter_In in Hin as [Hin Hnc].
    pose proof (leaf_plain value) as Hl. rewrite Forall_forall in Hl.
    rewrite (Hl d), orb_false_r in Hs by (by apply list_elem_of_In). rewrite Hs in Hnc. done. }
  unfold plain, replace_reserved. destruct (is_reserved d) eqn:E; [done|]. by rewrite Hds, E.
Qed.

Lemma blob_bin_canonical : canonical_name (lit "blob.bin").
Proof.
  split; try (vm_compute; congruence).
  - apply nfc_ascii. vm_compute. repeat constructor; discriminate.
  - repeat constructor.
  - by intros c [= <-].
  - by intros c [= <-].
Qed.

(** The shape every name has before the length limit is applied. *)
Lemma fallback_canonical value :
  let mapped := map replace_reserved
                  (nfc (List.filter (fun c => negb (is_control c)) (leaf value))) in
  let trimmed := trim_end is_js_whitespace (trim_start leading mapped) in
  let s := match trimmed with [] => lit "blob.bin" | _ => trimmed end in
  nfc s = s /\ Forall plain s /\ s <> [] /\
  (forall c, head s = Some c -> leading c = false) /\
  (forall c, last s = Some c -> is_js_whitespace c = false).
Proof.
  intros mapped trimmed. destruct (mapped_plain value) as [Hn Hp]. fold mapped in Hn, Hp.
  destruct (trim_start_suffix leading mapped) as [a Ha].
  destruct (trim_end_prefix is_js_whitespace (trim_start leading mapped)) as [b Hb].
  fold trimmed in Hb. rewrite Hb in Ha. rewrite Ha in Hn, Hp.
  destruct (sub_name _ _ _ _ Hn Hp) as [Hn' Hp'].
  assert (forall c, last trimmed = Some c -> is_js_whitespace c = false) as Hlast
    by (intros c; apply trim_end_last).
  assert (forall c, head trimmed = Some c -> leading c = false) as Hhead.
  { intros c Hc. apply (trim_start_head leading mapped). rewrite Hb.
    destruct trimmed; [done|]. exact Hc. }
  destruct blob_bin_canonical. destruct trimmed; simpl; split_and!; done.
Qed.

Lemma sanitise_name_is_canonical value : canonical_name (sanitise_name value).
Proof.
  unfold sanitise_name. pose proof (fallback_canonical value) as Hf. cbv zeta in Hf.
  set (fallback := match _ with [] => _ | _ => _ end) in *.
  destruct Hf as (Hn & Hp & Hne & Hh & Hl).
  destruct (Z.leb_spec (utf16_count fallback) MAX_NAME_UTF16) as [Hle|Hgt]; [by split|].
  destruct (truncate_prefix 0 fallback) as [b Hb].
  destruct (trim_end_prefix is_js_whitespace (truncate_utf16 0 fallback)) as [b' Hb'].
  set (t := trim_end is_js_whitespace (truncate_utf16 0 fallback)) in *.
  rewrite Hb', <- app_assoc in Hb.
  assert (nfc t = t /\ Forall plain t) as [Hnt Hpt].
  { rewrite Hb in Hn, Hp. by apply (sub_name plain [] t (b' ++ b)). }
  destruct fallback as [|c f]; [done|]. specialize (Hh c eq_refl).
  assert (head (truncate_utf16 0 (c :: f)) = Some c) as Ht0.
  { cbn [truncate_utf16]. pose proof (len_utf16_pos c).
    by rewrite (proj2 (Z.ltb_ge MAX_NAME_UTF16 (0 + len_utf16 c))) by (unfold MAX_NAME_UTF16; lia). }
  apply orb_false_iff in Hh as Hh'. destruct Hh' as [_ Hws].
  pose proof (trim_end_head is_js_whitespace _ c Ht0 Hws) as Hth. fold t in Hth.
  split; [done|done|by destruct t|by intros c'; rewrite Hth; intros [= <-]| |].
  + intros c'. apply trim_end_last.
  + pose proof (truncate_count 0 (c :: f) ltac:(done)) as Hc. rewrite Hb', utf16_count_app in Hc.
    pose proof (utf16_count_nonneg b'). lia.
Qed.

Lemma canonical_name_fixed s : canonical_name s -> sanitise_name s = s.
Proof.
  intros [Hn Hp Hne Hh Hl Hc]. unfold sanitise_name.
  assert (Forall (fun c => is_separator c = false) s) as Hsep.
  { eapply Forall_impl; [exact Hp|]. intros c. rewrite !orb_false_iff. tauto. }
  rewrite leaf_id by done.
  assert (List.filter (fun c => negb (is_control c)) s = s) as ->.
  { clear -Hp. induction Hp as [|c s Hc _ IH]; [done|]. simpl.
    rewrite !orb_false_iff in Hc. destruct Hc as [[-> _] _]. simpl. by rewrite IH. }
  rewrite Hn.
  assert (map replace_reserved s = s) as ->.
  { clear -Hp. induction Hp as [|c s Hc _ IH]; [done|]. simpl. rewrite IH.
    rewrite !orb_false_iff in Hc. destruct Hc as [_ Hr]. unfold replace_reserved. by rewrite Hr. }
  rewrite trim_start_id, trim_end_id by done. destruct s as [|c s]; [done|].
  by rewrite (proj2 (Z.leb_le _ _) Hc).
Qed.

Lemma sanitise_name_fixed value : sanitise_name (sanitise_name value) = sanitise_name value.
Proof. apply canonical_name_fixed, sanitise_name_is_canonical. Qed.

(** Every name [sanitise_name] returns is canonical (NFC, at most 180
    UTF-16 units, no control, separator or reserved character, not hidden, no
    outer white space, not empty), and a canonical name is a fixed point: what
    one side seals, the other side's check accepts. *)
Theorem sanitise_name_canonical (value : text) :
  canonical_name (sanitise_name value) /\
  (forall s, canonical_name s -> sanitise_name s = s).
Proof. split; [apply sanitise_name_is_canonical|apply canonical_name_fixed]. Qed.

(** A media type that was accepted is accepted again unchanged. *)
Lemma normalise_media_type_fixed (value lowered : text) :
  normalise_media_type value = Ok lowered -> normalise_media_type lowered = Ok lowered.
Proof.
  unfold normalise_media_type.
  set (l := match value with [] => _ | _ => _ end).
  destruct ((MAX_MEDIA_TYPE_UTF16 <? utf16_count l) || existsb is_control l) eqn:E; [done|].
  intros [= <-].
  assert (l <> [] /\ to_lowercase l = l) as [Hne Hid].
  { unfold l. destruct value as [|c v].
    - split; [done|]. apply lower_ascii. vm_compute.
      repeat (constructor; [split; [split; congruence|intros [? ?]; congruence]|]). constructor.
    - split; [|apply lower_idem]. intros Hx. by apply lower_nonempty in Hx. }
  destruct l as [|c t]; [done|]. by rewrite Hid, E.
Qed.
End Names.

Lemma sanitise_name_canonical_witness :
  @canonical_name ascii_unicode (@sanitise_name ascii_unicode (lit "dir/.. bad:name?.txt ")) /\
  @sanitise_name ascii_unicode (lit "bad_name_.txt") = lit "bad_name_.txt".
Proof.
  destruct (@sanitise_name_canonical ascii_unicode ascii_unicode_laws
    (lit "dir/.. bad:name?.txt ")) as [H1 H2].
  split; [exact H1|]. apply H2. revert H1. vm_compute. exact (fun h => h).
Defined.

Example sanitise_name_examples :
  map (@sanitise_name ascii_unicode)
    [lit "dir/sub/world.dat"; lit "bad:name?.txt"; lit "...hidden"; lit ""; lit "   "; lit ". . x"]
  = [lit "world.dat"; lit "bad_name_.txt"; lit "hidden"; lit "blob.bin"; lit "blob.bin"; lit "x"].
Proof. vm_compute. reflexivity. Qed.
