(* ===== verification/EnvelopeKey.v ===== *)
(** * Input keys and their text form

    Models [crates/envelope/src/key.rs].  Base64 and HKDF are library code:
    [Base64] and the [hkdf] argument of [derive_envelope_key]. *)
From S2P Require Import Prelude EnvelopeFormat.

(** Text is its UTF-8 bytes here: the code only compares and slices it. *)
Definition WBK1_PREFIX : list byte := ascii_bytes "wbk1_".
Definition WBK1_LEN : Z := 5 + 43.

(** [URL_SAFE_NO_PAD]. *)
Class Base64 := {
  b64_encode : list byte -> list byte;
  b64_decode : list byte -> option (list byte)
}.

(** Encoding is inverted by decoding and 32 bytes take 43 characters. *)
Class Base64Laws (B : Base64) := {
  b64_round : forall l, b64_decode (b64_encode l) = Some l;
  b64_length : forall l, length l = 32%nat -> length (b64_encode l) = 43%nat
}.

(** [[u8; 32]]: the length is part of the type in the source. *)
Record InputKey := { expose : list byte; key_len : length expose = 32%nat }.

Inductive KeyError := Encoding.

Definition from_bytes (bytes : list byte) : option InputKey :=
  match decide (length bytes = 32%nat) with
  | left H => Some {| expose := bytes; key_len := H |}
  | right _ => None
  end.

(** [InputKey::random]: [fill] is the system random source. *)
Definition random (fill : option (list byte)) : result Error InputKey :=
  let? bytes := ok_or fill ERandom in ok_or (from_bytes bytes) ERandom.

Definition strip_prefix (p t : list byte) : option (list byte) :=
  if bool_decide (take (length p) t = p) then Some (drop (length p) t) else None.

Section Wbk1.
Context `{Base64}.

Definition to_wbk1 (k : InputKey) : list byte := WBK1_PREFIX ++ b64_encode (expose k).

(** Strip, check the length, decode, check 32 bytes, re-encode and compare. *)
Definition parse_wbk1 (text : list byte) : result KeyError InputKey :=
  let? body :=
    ok_or (body ← strip_prefix WBK1_PREFIX text;
           if Z.of_nat (length text) =? WBK1_LEN then Some body else None) Encoding in
  let? decoded := ok_or (b64_decode body) Encoding in
  let? key := ok_or (from_bytes decoded) Encoding in
  if bool_decide (to_wbk1 key = text) then Ok key else Err Encoding.
End Wbk1.

(** [HKDF-SHA256(ikm = input key, salt, info = HKDF_INFO, L = 32)]. *)
Definition derive_envelope_key (hkdf : list byte -> list byte -> list byte -> list byte)
    (input_key : InputKey) (salt : list byte) : list byte :=
  hkdf (expose input_key) salt HKDF_INFO.

(** ** Theorems *)

Lemma key_ext (k k' : InputKey) : expose k = expose k' -> k = k'.
Proof.
  destruct k as [l H], k' as [l' H']. simpl. intros ->. f_equal. apply (proof_irrel H H').
Qed.

Lemma from_bytes_expose k : from_bytes (expose k) = Some k.
Proof.
  unfold from_bytes. destruct (decide (length (expose k) = 32%nat)) as [H|H].
  - f_equal. by apply key_ext.
  - exfalso. apply H, key_len.
Qed.

Lemma strip_prefix_app p t : strip_prefix p (p ++ t) = Some t.
Proof.
  unfold strip_prefix. rewrite take_app_length, drop_app_length.
  by rewrite bool_decide_eq_true_2.
Qed.

(** The text form is a bijection between keys and accepted texts.  Every
    key survives writing and parsing, and an accepted text is the one
    canonical text of the key it parses to, so alternate final characters or
    alphabets are refused. *)
Theorem wbk1_round_trip `{B : Base64} {BL : Base64Laws B} (k : InputKey) (t : list byte) :
  parse_wbk1 (to_wbk1 k) = Ok k /\ (parse_wbk1 t = Ok k -> t = to_wbk1 k).
Proof.
  split.
  - unfold parse_wbk1. unfold to_wbk1 at 1 2. rewrite strip_prefix_app. cbn [mbind option_bind].
    rewrite length_app, (b64_length (expose k)) by apply key_len.
    cbn [ok_or]. replace (Z.of_nat (length WBK1_PREFIX + 43) =? WBK1_LEN) with true by reflexivity.
    cbn [ok_or]. rewrite b64_round. cbn [ok_or]. rewrite from_bytes_expose. cbn [ok_or].
    by rewrite bool_decide_eq_true_2.
  - unfold parse_wbk1. destruct (ok_or _ _) as [body|]; [|done].
    destruct (ok_or (b64_decode body) Encoding) as [d|]; [|done].
    destruct (ok_or (from_bytes d) Encoding) as [k'|]; [|done].
    destruct (bool_decide_reflect (to_wbk1 k' = t)) as [<-|]; [|done]. by intros [= ->].
Qed.

(** A concrete base64 with the laws: hexadecimal nibbles would be too long,
    so the witness pads the identity to 43 characters. *)
Definition toy_base64 : Base64 :=
  {| b64_encode l := l ++ replicate 11 Byte.x41;
     b64_decode l := Some (take (length l - 11) l) |}.

Lemma toy_base64_laws : Base64Laws toy_base64.
Proof.
  split; intros l; cbn [b64_encode b64_decode toy_base64].
  - rewrite length_app, length_replicate, Nat.add_sub. f_equal. apply take_app_length.
  - intros Hl. rewrite length_app, length_replicate, Hl. done.
Qed.

Definition toy_key : InputKey := {| expose := replicate 32 Byte.x07; key_len := eq_refl |}.

Lemma wbk1_round_trip_witness :
  @parse_wbk1 toy_base64 (@to_wbk1 toy_base64 toy_key) = Ok toy_key /\
  @to_wbk1 toy_base64 toy_key = @to_wbk1 toy_base64 toy_key.
Proof.
  split.
  - exact (proj1 (@wbk1_round_trip toy_base64 toy_base64_laws toy_key [])).
  - apply (@wbk1_round_trip toy_base64 toy_base64_laws toy_key
      (@to_wbk1 toy_base64 toy_key)).
    exact (proj1 (@wbk1_round_trip toy_base64 toy_base64_laws toy_key [])).
Defined.
