(* ===== verification/Envelope.v ===== *)
(** * The FSWNENC2 codec

    Models [crates/envelope/src/stream.rs]: the padded layout, the streaming
    record loop of [encrypt_with] and [decrypt], and the in-memory helpers.
    AES-GCM, HKDF, SHA-256 and the JSON library are the operations of
    [Crypto] and [Json]; readers, writers, the random source and the progress
    callback are values that may fail at any point. *)
From S2P Require Import Prelude EnvelopeFormat EnvelopeName EnvelopeKey.

(** ** Library operations *)

(** Keys, nonces, tags and digests are byte strings.  [gcm_seal] and
    [gcm_open] are [encrypt_in_place_detached] and
    [decrypt_in_place_detached]. *)
Class Crypto := {
  hkdf : list byte -> list byte -> list byte -> list byte;
  gcm_seal : list byte -> list byte -> list byte -> list byte -> option (list byte * list byte);
  gcm_open : list byte -> list byte -> list byte -> list byte -> list byte -> option (list byte);
  sha256 : list byte -> list byte
}.

(** [serde_json::to_vec] and [serde_json::from_slice] at [Metadata]. *)
Class Json := {
  json_encode : Metadata -> option (list byte);
  json_decode : list byte -> option Metadata
}.

(** ** Readers and writers *)

(** What a reader delivers before it ends or, when [r_fault], fails.  A
    [read] interrupted by a signal is retried by [read_exact] and
    [read_some], so it is not visible. *)
Record Reader := { r_bytes : list byte; r_fault : bool }.

Inductive io_kind := UnexpectedEof | OtherIo.

Definition blen (l : list byte) : Z := Z.of_nat (length l).

Definition read_exact (n : Z) (r : Reader) : result io_kind (list byte * Reader) :=
  if n <=? blen (r_bytes r)
  then Ok (take (Z.to_nat n) (r_bytes r),
           {| r_bytes := drop (Z.to_nat n) (r_bytes r); r_fault := r_fault r |})
  else Err (if r_fault r then OtherIo else UnexpectedEof).

(** One probe byte: how many were read. *)
Definition read_some (r : Reader) : result Error Z :=
  match r_bytes r with
  | _ :: _ => Ok 1
  | [] => if r_fault r then Err EIo else Ok 0
  end.

(** What has been written, how much more fits ([None]: no limit), and whether
    [flush] succeeds. *)
Record Writer := { w_out : list byte; w_room : option Z; w_flush : bool }.

Definition write_all (bs : list byte) (w : Writer) : result Error Writer :=
  match w_room w with
  | None => Ok {| w_out := w_out w ++ bs; w_room := None; w_flush := w_flush w |}
  | Some room =>
      if blen bs <=? room
      then Ok {| w_out := w_out w ++ bs; w_room := Some (room - blen bs); w_flush := w_flush w |}
      else Err EIo
  end.

Definition flush (w : Writer) : result Error unit := if w_flush w then Ok tt else Err EIo.

(** [progress(done, total)]: [true] is [ControlFlow::Continue].  Within one run
    the first argument grows strictly, so a function of it covers every
    stateful callback. *)
Definition report (progress : Z -> Z -> bool) (done total : Z) : result Error unit :=
  if progress done total then Ok tt else Err ECancelled.

(** ** Layout *)

Definition RECORD_BYTES : Z := CHUNK_BYTES + TAG_BYTES.

Definition next_power_of_two (n : Z) : Z := 2 ^ Z.log2_up n.

(** [P(L)]: 64 KiB floor, next power of two up to 1 MiB, then 1 MiB steps.
    The product wraps in a release build. *)
Definition padded_length (length : Z) : Z :=
  if length <=? MIN_PADDING_BUCKET then MIN_PADDING_BUCKET
  else if length <=? CHUNK_BYTES then next_power_of_two length
  else wrap64 (div_ceil length CHUNK_BYTES * CHUNK_BYTES).

Definition envelope_len_for (plaintext : Z) : Z :=
  let records := div_ceil plaintext CHUNK_BYTES in
  HEADER_BYTES + plaintext + records * TAG_BYTES.

Record Layout := {
  l_metadata : Metadata;
  l_prefix : list byte;
  plaintext_len : Z;
  record_count : Z
}.

Record Sealed := { s_metadata : Metadata; s_envelope_bytes : Z; s_sha256 : list byte }.

(** The per-envelope randomness: [padding offset len] is what the system
    random source returns for the record at [offset]. *)
Record Fresh := {
  nonce_prefix : list byte;
  salt : list byte;
  padding : Z -> Z -> option (list byte)
}.

Section Codec.
Context `{U : Unicode, C : Crypto, J : Json}.

Definition canonical_metadata (m : Metadata) : result Error (list byte) :=
  let? json := ok_or (json_encode m) (EMetadata "encode") in
  if MAX_METADATA_BYTES <? blen json then Err EMetadataTooLarge else Ok json.

Definition layout (nm mt : text) (source_bytes : Z) (limits : Limits) : result Error Layout :=
  if max_source_bytes limits <? source_bytes then Err ETooLarge
  else
    let? media := normalise_media_type mt in
    let metadata := {| name := sanitise_name nm; size := source_bytes; media_type := media |} in
    let? json := canonical_metadata metadata in
    let prefix := be_bytes 4 (blen json) ++ json in
    let? logical := ok_or (checked_add (blen prefix) source_bytes) ETooLarge in
    let plaintext := padded_length logical in
    let? records := ok_or (u32_try_from (div_ceil plaintext CHUNK_BYTES)) ETooLarge in
    if (records =? 0) || (max_records limits <? records) then Err ETooLarge
    else Ok {| l_metadata := metadata; l_prefix := prefix; plaintext_len := plaintext;
               record_count := records |}.

(** The exact envelope size, without encrypting. *)
Definition envelope_bytes (nm mt : text) (source_bytes : Z) : result Error Z :=
  let? l := layout nm mt source_bytes {| max_source_bytes := U64_MAX |} in
  Ok (envelope_len_for (plaintext_len l)).

Definition header_bytes (records : Z) (np slt : list byte) : list byte :=
  MAGIC ++ be_bytes 4 CHUNK_BYTES ++ be_bytes 4 records ++ np ++ slt.

Definition nonce_bytes (prefix : list byte) (counter : Z) : list byte := prefix ++ be_bytes 4 counter.

Definition aad_bytes (header : list byte) (counter : Z) : list byte := header ++ be_bytes 4 counter.

(** [l[a..b]] and [l[a..].copy_from_slice(new)]. *)
Definition slice (l : list byte) (a b : Z) : list byte :=
  take (Z.to_nat (b - a)) (drop (Z.to_nat a) l).

Definition splice (l : list byte) (a : Z) (new : list byte) : list byte :=
  take (Z.to_nat a) l ++ new ++ drop (Z.to_nat a + length new) l.

Definition overlap (offset record_len start len : Z) : option (Z * Z) :=
  let from := Z.max start offset in
  let to := Z.min (start + len) (offset + record_len) in
  if from <? to then Some (from - offset, to - offset) else None.

(** ** Encryption *)

(** The record buffer: random fill, then the prefix, then the source. *)
Definition fill_record (fresh : Fresh) (prefix : list byte) (source_bytes offset len : Z)
    (source : Reader) : result Error (list byte * Reader) :=
  let? buffer := ok_or (padding fresh offset len) ERandom in
  let buffer :=
    match overlap offset len 0 (blen prefix) with
    | Some (from, to) => splice buffer from (slice prefix (offset + from) (offset + to))
    | None => buffer
    end in
  match overlap offset len (blen prefix) source_bytes with
  | Some (from, to) =>
      let? (bytes, source) :=
        map_err (fun e => match e with UnexpectedEof => ESourceChanged | OtherIo => EIo end)
                (read_exact (to - from) source) in
      Ok (splice buffer from bytes, source)
  | None => Ok (buffer, source)
  end.

(** The state of [for counter in 0..record_count]; [hashed] is what the hasher
    has seen. *)
Record EncState := { e_source : Reader; e_out : Writer; e_hashed : list byte; e_written : Z }.

Definition encrypt_record (key header prefix : list byte) (fresh : Fresh)
    (plaintext source_bytes total counter : Z) (progress : Z -> Z -> bool) (st : EncState)
    : result Error EncState :=
  let offset := counter * CHUNK_BYTES in
  let len := Z.min (plaintext - offset) CHUNK_BYTES in
  let? (buffer, source) := fill_record fresh prefix source_bytes offset len (e_source st) in
  let? (data, tag) :=
    ok_or (gcm_seal key (nonce_bytes (nonce_prefix fresh) counter) (aad_bytes header counter) buffer)
          ETooLarge in
  let? out := write_all data (e_out st) in
  let? out := write_all tag out in
  let written := e_written st + (len + TAG_BYTES) in
  let? _ := report progress written total in
  Ok {| e_source := source; e_out := out; e_hashed := e_hashed st ++ data ++ tag;
        e_written := written |}.

Fixpoint encrypt_loop (n : nat) (key header prefix : list byte) (fresh : Fresh)
    (plaintext source_bytes total counter : Z) (progress : Z -> Z -> bool) (st : EncState)
    : result Error EncState :=
  match n with
  | O => Ok st
  | S n =>
      let? st := encrypt_record key header prefix fresh plaintext source_bytes total counter
                   progress st in
      encrypt_loop n key header prefix fresh plaintext source_bytes total (counter + 1) progress st
  end.

Definition encrypt_with (key : InputKey) (source : Reader) (source_bytes : Z) (nm mt : text)
    (limits : Limits) (fresh : Fresh) (out : Writer) (progress : Z -> Z -> bool)
    : result Error (Sealed * Writer) :=
  let? l := layout nm mt source_bytes limits in
  let header := header_bytes (record_count l) (nonce_prefix fresh) (salt fresh) in
  let ekey := derive_envelope_key hkdf key (salt fresh) in
  let total := envelope_len_for (plaintext_len l) in
  let? out := write_all header out in
  let? st :=
    encrypt_loop (Z.to_nat (record_count l)) ekey header (l_prefix l) fresh (plaintext_len l)
      source_bytes total 0 progress
      {| e_source := source; e_out := out; e_hashed := header; e_written := HEADER_BYTES |} in
  let? probe := read_some (e_source st) in
  if negb (probe =? 0) then Err ESourceChanged
  else
    let? _ := flush (e_out st) in
    Ok ({| s_metadata := l_metadata l; s_envelope_bytes := e_written st;
           s_sha256 := sha256 (e_hashed st) |}, e_out st).

(** [encrypt] draws the randomness first. *)
Definition encrypt (draw : option Fresh) (key : InputKey) (source : Reader) (source_bytes : Z)
    (nm mt : text) (limits : Limits) (out : Writer) (progress : Z -> Z -> bool)
    : result Error (Sealed * Writer) :=
  let? fresh := ok_or draw ERandom in
  encrypt_with key source source_bytes nm mt limits fresh out progress.

(** ** Decryption *)

(** [std::str::from_utf8]: well-formed UTF-8 (RFC 3629). *)
Fixpoint utf8_valid (n : nat) (l : list Z) : bool :=
  let cont b := between 0x80 b 0xBF in
  match n with
  | O => match l with [] => true | _ => false end
  | S n =>
      match l with
      | [] => true
      | a :: l1 =>
          if between 0 a 0x7F then utf8_valid n l1
          else
            match l1 with
            | b :: l2 =>
                if between 0xC2 a 0xDF && cont b then utf8_valid n l2
                else
                  match l2 with
                  | c :: l3 =>
                      if ((a =? 0xE0) && between 0xA0 b 0xBF
                          || between 0xE1 a 0xEC && cont b
                          || (a =? 0xED) && between 0x80 b 0x9F
                          || between 0xEE a 0xEF && cont b) && cont c
                      then utf8_valid n l3
                      else
                        match l3 with
                        | d :: l4 =>
                            ((a =? 0xF0) && between 0x90 b 0xBF
                             || between 0xF1 a 0xF3 && cont b
                             || (a =? 0xF4) && between 0x80 b 0x8F)
                            && cont c && cont d && utf8_valid n l4
                        | [] => false
                        end
                  | [] => false
                  end
            | [] => false
            end
      end
  end.

Definition from_utf8 (l : list byte) : bool := utf8_valid (length l) (map b2z l).

Definition parse_metadata (plaintext : list byte) : result Error (Metadata * Z) :=
  if blen plaintext <? 4 then Err (EMetadata "truncated")
  else
    let length := be_value (slice plaintext 0 4) in
    if negb (between 2 length MAX_METADATA_BYTES) || (blen plaintext <? 4 + length)
    then Err (EMetadata "length")
    else
      let text := slice plaintext 4 (4 + length) in
      if negb (from_utf8 text) then Err (EMetadata "utf-8")
      else
        let? metadata := ok_or (json_decode text) (EMetadata "shape") in
        let? canonical := canonical_metadata metadata in
        if negb (bool_decide (canonical = text)) then Err (EMetadata "canonical form")
        else if negb (bool_decide (sanitise_name (name metadata) = name metadata))
        then Err (EMetadata "name")
        else if negb (bool_decide (normalise_media_type (media_type metadata)
                                   = Ok (media_type metadata)))
        then Err (EMetadata "type")
        else Ok (metadata, 4 + length).

Record DecState := {
  d_envelope : Reader; d_out : Writer; d_opened : option (Metadata * Z); d_read : Z }.

(** The checks made when the first record has been opened. *)
Definition open_first (limits : Limits) (plaintext : Z) (data : list byte)
    (opened : option (Metadata * Z)) : result Error (Metadata * Z) :=
  match opened with
  | Some o => Ok o
  | None =>
      let? (metadata, prefix_len) := parse_metadata data in
      if (plaintext <? size metadata)
         || negb (padded_length (prefix_len + size metadata) =? plaintext)
      then Err EPadding
      else if max_source_bytes limits <? size metadata then Err ETooLarge
      else Ok (metadata, prefix_len)
  end.

Definition short (e : io_kind) : Error :=
  match e with UnexpectedEof => ELength | OtherIo => EIo end.

Definition decrypt_record (key header : list byte) (limits : Limits)
    (envelope_len plaintext count counter : Z) (progress : Z -> Z -> bool) (st : DecState)
    : result Error DecState :=
  let len := if counter + 1 =? count
             then envelope_len - HEADER_BYTES - (count - 1) * RECORD_BYTES
             else RECORD_BYTES in
  let? (buffer, envelope) := map_err short (read_exact len (d_envelope st)) in
  let data := take (Z.to_nat (len - TAG_BYTES)) buffer in
  let tag := drop (Z.to_nat (len - TAG_BYTES)) buffer in
  let? data :=
    ok_or (gcm_open key (nonce_bytes (slice header 16 24) counter) (aad_bytes header counter)
             data tag) EAuthentication in
  let? (metadata, prefix_len) := open_first limits plaintext data (d_opened st) in
  let offset := counter * CHUNK_BYTES in
  let? out :=
    match overlap offset (blen data) prefix_len (size metadata) with
    | Some (from, to) => write_all (slice data from to) (d_out st)
    | None => Ok (d_out st)
    end in
  let read := d_read st + len in
  let? _ := report progress read envelope_len in
  Ok {| d_envelope := envelope; d_out := out; d_opened := Some (metadata, prefix_len);
        d_read := read |}.

Fixpoint decrypt_loop (n : nat) (key header : list byte) (limits : Limits)
    (envelope_len plaintext count counter : Z) (progress : Z -> Z -> bool) (st : DecState)
    : result Error DecState :=
  match n with
  | O => Ok st
  | S n =>
      let? st := decrypt_record key header limits envelope_len plaintext count counter progress st in
      decrypt_loop n key header limits envelope_len plaintext count (counter + 1) progress st
  end.

Definition decrypt (key : InputKey) (envelope : Reader) (envelope_len : Z) (limits : Limits)
    (out : Writer) (progress : Z -> Z -> bool) : result Error (Metadata * Writer) :=
  if envelope_len <? blen MAGIC then Err ELength
  else
    let? (magic, envelope) := map_err short (read_exact 8 envelope) in
    if negb (bool_decide (magic = MAGIC)) then Err EMagic
    else if envelope_len <? HEADER_BYTES then Err ELength
    else
      let? (rest, envelope) := map_err short (read_exact (HEADER_BYTES - 8) envelope) in
      let header := magic ++ rest in
      let chunk := be_value (slice header 8 12) in
      let count := be_value (slice header 12 16) in
      if negb (chunk =? CHUNK_BYTES) || (count =? 0) || (max_records limits <? count)
      then Err EHeader
      else
        let minimum := HEADER_BYTES + (count - 1) * RECORD_BYTES + 1 + TAG_BYTES in
        let maximum := HEADER_BYTES + count * RECORD_BYTES in
        if (envelope_len <? minimum) || (maximum <? envelope_len) then Err ELength
        else
          let plaintext := envelope_len - HEADER_BYTES - count * TAG_BYTES in
          let ekey := derive_envelope_key hkdf key (slice header 24 56) in
          let? st :=
            decrypt_loop (Z.to_nat count) ekey header limits envelope_len plaintext count 0 progress
              {| d_envelope := envelope; d_out := out; d_opened := None; d_read := HEADER_BYTES |} in
          let? probe := read_some (d_envelope st) in
          if negb (probe =? 0) then Err ELength
          else
            let? _ := flush (d_out st) in
            let? opened := ok_or (d_opened st) ELength in
            Ok (opened.1, d_out st).

(** ** In-memory helpers *)

Definition mem_reader (l : list byte) : Reader := {| r_bytes := l; r_fault := false |}.
Definition mem_writer : Writer := {| w_out := []; w_room := None; w_flush := true |}.

Definition seal_bytes (draw : option Fresh) (key : InputKey) (nm mt : text) (bytes : list byte)
    (limits : Limits) : result Error (list byte) :=
  let? (_, w) := encrypt draw key (mem_reader bytes) (blen bytes) nm mt limits mem_writer
                   (fun _ _ => true) in
  Ok (w_out w).

Definition open_bytes (key : InputKey) (envelope : list byte) (limits : Limits)
    : result Error (Metadata * list byte) :=
  let? (metadata, w) := decrypt key (mem_reader envelope) (blen envelope) limits mem_writer
                          (fun _ _ => true) in
  Ok (metadata, w_out w).
End Codec.
