(* ===== verification/EnvelopeProofs.v ===== *)
(** * Properties of the FSWNENC2 codec

    The padding bucket, the round trip of [Envelope.v], totality of
    encryption, and canonicity: an envelope that opens is the one envelope its
    contents and randomness produce. *)
From S2P Require Import Prelude EnvelopeFormat EnvelopeName EnvelopeKey Envelope.

(** ** What the libraries promise *)

Class CryptoLaws (C : Crypto) := {
  (** AES-GCM seals any record of at most 1 MiB. *)
  seal_total : forall k n a p, blen p <= CHUNK_BYTES -> is_Some (gcm_seal k n a p);
  seal_lengths : forall k n a p c t,
    gcm_seal k n a p = Some (c, t) -> blen c = blen p /\ blen t = TAG_BYTES;
  open_seal : forall k n a p c t, gcm_seal k n a p = Some (c, t) -> gcm_open k n a c t = Some p;
  (** The tag is a function of key, nonce, associated data and ciphertext, and
      the keystream is fixed: what opens is what sealing the plaintext gives. *)
  open_inv : forall k n a p c t, gcm_open k n a c t = Some p -> gcm_seal k n a p = Some (c, t)
}.

Class JsonLaws (J : Json) := {
  json_round : forall m l, json_encode m = Some l -> json_decode l = Some m;
  json_utf8 : forall m l, json_encode m = Some l -> from_utf8 l = true;
  (** A JSON object has its two braces. *)
  json_braces : forall m l, json_encode m = Some l -> 2 <= blen l;
  (** [size] is a [u64]. *)
  json_size : forall m l, json_decode l = Some m -> 0 <= size m <= U64_MAX
}.

(** The random source fills the buffers it is given. *)
Record fresh_ok (f : Fresh) : Prop := {
  fo_nonce : blen (nonce_prefix f) = NONCE_PREFIX_BYTES;
  fo_salt : blen (salt f) = SALT_BYTES;
  fo_padding : forall offset len b, padding f offset len = Some b -> blen b = len
}.

(** ** Slices *)

Lemma blen_app a b : blen (a ++ b) = blen a + blen b.
Proof. unfold blen. rewrite length_app. lia. Qed.

Lemma blen_nonneg l : 0 <= blen l.
Proof. unfold blen. lia. Qed.

Lemma blen_slice l a b : 0 <= a <= b -> b <= blen l -> blen (slice l a b) = b - a.
Proof. unfold blen, slice. intros. rewrite length_take, length_drop. lia. Qed.

Lemma slice_all l b : b = blen l -> slice l 0 b = l.
Proof. intros ->. unfold slice, blen. rewrite drop_0. apply take_ge. lia. Qed.

Lemma slice_app_l a b x y : 0 <= x <= y -> y <= blen a -> slice (a ++ b) x y = slice a x y.
Proof.
  unfold slice, blen. intros. rewrite drop_app_le by lia.
  apply take_app_le. rewrite length_drop. lia.
Qed.

Lemma slice_app_r a b x y :
  blen a <= x -> slice (a ++ b) x y = slice b (x - blen a) (y - blen a).
Proof.
  unfold slice, blen. intros. rewrite drop_app_ge by lia. f_equal; [lia|]. f_equal. lia.
Qed.

Lemma slice_slice l a b x y :
  0 <= a -> 0 <= x <= y -> a + y <= b -> slice (slice l a b) x y = slice l (a + x) (a + y).
Proof.
  unfold slice. intros. rewrite skipn_firstn_comm, take_take, drop_drop. f_equal; [lia|].
  f_equal. lia.
Qed.

Lemma blen_splice l a new :
  0 <= a -> a + blen new <= blen l -> blen (splice l a new) = blen l.
Proof.
  unfold blen, splice. intros. rewrite !length_app, length_take, length_drop. lia.
Qed.

Lemma slice_splice l a new :
  0 <= a -> a + blen new <= blen l -> slice (splice l a new) a (a + blen new) = new.
Proof.
  intros. unfold splice. assert (blen (take (Z.to_nat a) l) = a) as Ha.
  { unfold blen in *. rewrite length_take. lia. }
  rewrite slice_app_r by lia. rewrite Ha, Z.sub_diag.
  pose proof (blen_nonneg new). rewrite slice_app_l by lia. apply slice_all. lia.
Qed.

Lemma slice_splice_before l a new x y :
  0 <= x <= y -> y <= a -> a <= blen l -> slice (splice l a new) x y = slice l x y.
Proof.
  intros. unfold splice. assert (blen (take (Z.to_nat a) l) = a) as Ha.
  { unfold blen in *. rewrite length_take. lia. }
  rewrite slice_app_l by lia. rewrite <- (take_drop (Z.to_nat a) l) at 2.
  by rewrite slice_app_l by lia.
Qed.

Lemma splice_id l a b : 0 <= a <= b -> b <= blen l -> splice l a (slice l a b) = l.
Proof.
  intros. unfold splice. pose proof (blen_slice l a b) as E. unfold blen in *.
  replace (length (slice l a b)) with (Z.to_nat (b - a)) by lia. unfold slice.
  rewrite <- drop_drop. rewrite take_drop. apply take_drop.
Qed.

Lemma overlap_Some offset len start n from to :
  overlap offset len start n = Some (from, to) ->
  0 <= from < to /\ to <= len /\ from = Z.max start offset - offset /\
  to = Z.min (start + n) (offset + len) - offset.
Proof.
  unfold overlap. destruct (Z.ltb_spec (Z.max start offset) (Z.min (start + n) (offset + len)));
    [|done]. intros [= <- <-]. lia.
Qed.

(** ** Padding *)

Lemma next_power_of_two_bounds n :
  1 < n -> n <= next_power_of_two n < 2 * n.
Proof.
  intros Hn. unfold next_power_of_two. pose proof (Z.log2_up_spec n Hn) as [H1 H2].
  split; [done|]. pose proof (Z.log2_up_pos n Hn).
  replace (Z.log2_up n) with (Z.succ (Z.pred (Z.log2_up n))) by lia.
  rewrite Z.pow_succ_r by lia. lia.
Qed.

Definition wraps (n : Z) : Prop := 2 ^ 64 - CHUNK_BYTES < n.

Lemma padded_length_large n :
  CHUNK_BYTES < n -> ~ wraps n -> padded_length n = div_ceil n CHUNK_BYTES * CHUNK_BYTES.
Proof.
  intros Hn Hw. unfold padded_length.
  rewrite (proj2 (Z.leb_gt n MIN_PADDING_BUCKET)) by (unfold CHUNK_BYTES, MIN_PADDING_BUCKET in *; lia).
  rewrite (proj2 (Z.leb_gt n CHUNK_BYTES)) by lia.
  unfold wrap64. apply Z.mod_small. pose proof (div_ceil_spec n CHUNK_BYTES ltac:(done)) as Hd.
  unfold wraps, CHUNK_BYTES in *. lia.
Qed.

(** A length in the last mebibyte of [u64] wraps to zero, and [layout] refuses
    zero records. *)
Lemma padded_length_wraps n : wraps n -> n <= U64_MAX -> padded_length n = 0.
Proof.
  intros Hw Hm. unfold padded_length.
  rewrite (proj2 (Z.leb_gt n MIN_PADDING_BUCKET)) by (unfold wraps, CHUNK_BYTES, MIN_PADDING_BUCKET in *; lia).
  rewrite (proj2 (Z.leb_gt n CHUNK_BYTES)) by (unfold wraps, CHUNK_BYTES in *; lia).
  replace (div_ceil n CHUNK_BYTES) with (2 ^ 44); [reflexivity|].
  symmetry. apply div_ceil_unique; [done|]. unfold wraps, U64_MAX, CHUNK_BYTES in *. lia.
Qed.

(** The bucket of every length that does not wrap: it covers the length,
    wastes less than the length plus one bucket, and is its own bucket. *)
Lemma padded_length_spec n :
  0 <= n -> ~ wraps n ->
  MIN_PADDING_BUCKET <= padded_length n /\ n <= padded_length n /\
  padded_length n < 2 * Z.max n MIN_PADDING_BUCKET /\
  (padded_length n <= CHUNK_BYTES <-> n <= CHUNK_BYTES) /\
  (CHUNK_BYTES < n -> padded_length n mod CHUNK_BYTES = 0).
Proof.
  intros Hn Hw. unfold padded_length at 1 2 3 4.
  destruct (Z.leb_spec n MIN_PADDING_BUCKET); [unfold MIN_PADDING_BUCKET, CHUNK_BYTES in *; lia|].
  destruct (Z.leb_spec n CHUNK_BYTES).
  - pose proof (next_power_of_two_bounds n ltac:(unfold MIN_PADDING_BUCKET in *; lia)).
    assert (next_power_of_two n <= CHUNK_BYTES).
    { unfold next_power_of_two. change CHUNK_BYTES with (2 ^ 20).
      apply Z.pow_le_mono_r; [lia|]. change 20 with (Z.log2_up CHUNK_BYTES).
      apply Z.log2_up_le_mono. lia. }
    unfold MIN_PADDING_BUCKET in *. lia.
  - pose proof (padded_length_large n ltac:(lia) Hw) as E. unfold padded_length in E.
    rewrite (proj2 (Z.leb_gt n MIN_PADDING_BUCKET)), (proj2 (Z.leb_gt n CHUNK_BYTES)) in E by lia.
    rewrite E. pose proof (div_ceil_spec n CHUNK_BYTES ltac:(done)).
    rewrite padded_length_large by (done || lia). rewrite Z.mod_mul by done.
    unfold MIN_PADDING_BUCKET, CHUNK_BYTES in *. lia.
Qed.

(** The padded length hides the exact size.  For every length that does
    not overflow, the bucket is at least 64 KiB, holds the length, is less
    than twice it (or the floor), is monotone, and is a fixed point, so it
    depends only on the bucket; a length in the last mebibyte of [u64] gives
    zero, which [layout] refuses. *)
Theorem padded_length_bucket (n m : Z) (Hn : 0 <= n <= m) (Hm : m <= U64_MAX) :
  (~ wraps m ->
     MIN_PADDING_BUCKET <= padded_length m /\ m <= padded_length m /\
     padded_length m < 2 * Z.max m MIN_PADDING_BUCKET /\
     padded_length n <= padded_length m /\
     padded_length (padded_length m) = padded_length m) /\
  (wraps m -> padded_length m = 0).
Proof.
  split; [|by intros; apply padded_length_wraps].
  intros Hw. assert (~ wraps n) as Hwn by (unfold wraps in *; lia).
  destruct (padded_length_spec m ltac:(lia) Hw) as (H1 & H2 & H3 & H4 & H5).
  destruct (padded_length_spec n ltac:(lia) Hwn) as (G1 & G2 & G3 & G4 & G5).
  split_and!; [done..| |].
  - destruct (Z.le_gt_cases m CHUNK_BYTES) as [Hmc|Hmc].
    + unfold padded_length. destruct (Z.leb_spec n MIN_PADDING_BUCKET).
      * unfold padded_length in H1. done.
      * rewrite (proj2 (Z.leb_le n CHUNK_BYTES)), (proj2 (Z.leb_gt m MIN_PADDING_BUCKET)),
          (proj2 (Z.leb_le m CHUNK_BYTES)) by lia.
        apply Z.pow_le_mono_r; [lia|]. apply Z.log2_up_le_mono. lia.
    + destruct (Z.le_gt_cases n CHUNK_BYTES); [lia|].
      rewrite !padded_length_large by (done || lia).
      pose proof (div_ceil_mono n m CHUNK_BYTES ltac:(done) ltac:(lia)).
      unfold CHUNK_BYTES in *. lia.
  - destruct (Z.le_gt_cases m CHUNK_BYTES) as [Hmc|Hmc].
    + unfold padded_length at 2 3. destruct (Z.leb_spec m MIN_PADDING_BUCKET); [done|].
      rewrite (proj2 (Z.leb_le m CHUNK_BYTES)) by lia.
      unfold padded_length. destruct (Z.leb_spec (next_power_of_two m) MIN_PADDING_BUCKET).
      * unfold padded_length in H2.
        rewrite (proj2 (Z.leb_gt m MIN_PADDING_BUCKET)), (proj2 (Z.leb_le m CHUNK_BYTES)) in H2; lia.
      * unfold padded_length in H4.
        rewrite (proj2 (Z.leb_gt m MIN_PADDING_BUCKET)), (proj2 (Z.leb_le m CHUNK_BYTES)) in H4 by lia.
        rewrite (proj2 (Z.leb_le (next_power_of_two m) CHUNK_BYTES)) by (by apply H4).
        unfold next_power_of_two. by rewrite Z.log2_up_pow2 by apply Z.log2_up_nonneg.
    + assert (~ wraps (padded_length m)).
      { rewrite padded_length_large in * by done. intros Hx.
        pose proof (div_ceil_spec m CHUNK_BYTES ltac:(done)).
        unfold wraps, CHUNK_BYTES in *. lia. }
      rewrite (padded_length_large (padded_length m)) by (done || lia).
      rewrite padded_length_large by done. by rewrite div_ceil_mul by done.
Qed.

Lemma padded_length_bucket_witness :
  padded_length (padded_length 70000) = padded_length 70000 /\
  padded_length (U64_MAX - 5) = 0.
Proof.
  split.
  - apply (padded_length_bucket 0 70000); [lia|vm_compute; congruence|].
    unfold wraps, CHUNK_BYTES. lia.
  - apply (padded_length_bucket 0 (U64_MAX - 5)); unfold wraps, CHUNK_BYTES, U64_MAX; lia.
Defined.

(** ** The layout *)

Section Proofs.
Context `{U : Unicode} {UL : UnicodeLaws U} `{C : Crypto} {CL : CryptoLaws C}
        `{J : Json} {JL : JsonLaws J}.

(** Everything [layout] establishes. *)
Record layout_spec (source_bytes : Z) (limits : Limits) (l : Layout) : Prop := {
  ls_size : size (l_metadata l) = source_bytes;
  ls_name : sanitise_name (name (l_metadata l)) = name (l_metadata l);
  ls_type : normalise_media_type (media_type (l_metadata l)) = Ok (media_type (l_metadata l));
  ls_json : exists json, canonical_metadata (l_metadata l) = Ok json /\
              l_prefix l = be_bytes 4 (blen json) ++ json /\ 2 <= blen json <= MAX_METADATA_BYTES;
  ls_plain : plaintext_len l = padded_length (blen (l_prefix l) + source_bytes);
  ls_nowrap : ~ wraps (blen (l_prefix l) + source_bytes);
  ls_records : record_count l = div_ceil (plaintext_len l) CHUNK_BYTES;
  ls_count : 1 <= record_count l <= U32_MAX;
  ls_max : record_count l <= max_records limits;
  ls_limit : source_bytes <= max_source_bytes limits
}.

Lemma canonical_metadata_ok m json :
  canonical_metadata m = Ok json ->
  json_encode m = Some json /\ 2 <= blen json <= MAX_METADATA_BYTES.
Proof.
  unfold canonical_metadata. destruct (json_encode m) as [j|] eqn:E; [|done]. cbn [ok_or].
  destruct (Z.ltb_spec MAX_METADATA_BYTES (blen j)); [done|]. intros [= <-].
  pose proof (json_braces _ _ E). done.
Qed.

Lemma layout_ok nm mt sb limits l :
  layout nm mt sb limits = Ok l -> 0 <= sb -> layout_spec sb limits l.
Proof.
  unfold layout. intros H Hsb. destruct (Z.ltb_spec (max_source_bytes limits) sb); [done|].
  destruct (normalise_media_type mt) as [media|] eqn:Hmt; [|done].
  destruct (canonical_metadata _) as [json|] eqn:Hj; [|done].
  apply normalise_media_type_fixed in Hmt.
  pose proof (canonical_metadata_ok _ _ Hj) as [_ Hlen].
  set (prefix := be_bytes 4 (blen json) ++ json) in *.
  unfold checked_add in H. destruct (Z.leb_spec (blen prefix + sb) U64_MAX); [|done].
  cbn [ok_or] in H. unfold u32_try_from in H.
  destruct (Z.leb_spec (div_ceil (padded_length (blen prefix + sb)) CHUNK_BYTES) U32_MAX); [|done].
  cbn [ok_or] in H.
  destruct (Z.eqb_spec (div_ceil (padded_length (blen prefix + sb)) CHUNK_BYTES) 0); [done|].
  destruct (Z.ltb_spec (max_records limits) (div_ceil (padded_length (blen prefix + sb)) CHUNK_BYTES));
    [done|]. injection H as <-.
  pose proof (blen_nonneg prefix).
  assert (~ wraps (blen prefix + sb)) as Hw.
  { intros Hw. rewrite padded_length_wraps in * by done. done. }
  destruct (padded_length_spec (blen prefix + sb) ltac:(lia) Hw) as (P1 & _).
  pose proof (div_ceil_pos (padded_length (blen prefix + sb)) CHUNK_BYTES ltac:(done)
    ltac:(unfold MIN_PADDING_BUCKET in *; lia)).
  split; cbn [l_metadata l_prefix plaintext_len record_count size name media_type];
    try done; try lia; eauto.
  apply sanitise_name_fixed.
Qed.

(** ** One record *)

(** The source bytes a record carries. *)
Definition extract (offset prefix_len source_bytes : Z) (data : list byte) : list byte :=
  match overlap offset (blen data) prefix_len source_bytes with
  | Some (from, to) => slice data from to
  | None => []
  end.

Lemma read_exact_ok n r bs r' :
  read_exact n r = Ok (bs, r') -> 0 <= n ->
  blen bs = n /\ r_bytes r = bs ++ r_bytes r' /\ r_fault r' = r_fault r.
Proof.
  unfold read_exact. destruct (Z.leb_spec n (blen (r_bytes r))); [|done].
  intros [= <- <-] Hn. cbn [r_bytes r_fault]. rewrite take_drop. unfold blen in *.
  rewrite length_take. split_and!; [lia|done..].
Qed.

Lemma read_exact_app bs rest fault :
  read_exact (blen bs) {| r_bytes := bs ++ rest; r_fault := fault |}
  = Ok (bs, {| r_bytes := rest; r_fault := fault |}).
Proof.
  unfold read_exact. cbn [r_bytes r_fault]. rewrite blen_app.
  pose proof (blen_nonneg rest). rewrite (proj2 (Z.leb_le _ _)) by lia.
  unfold blen. by rewrite Nat2Z.id, take_app_length, drop_app_length.
Qed.

Lemma fill_record_ok fresh prefix sb offset len src buf src' :
  fresh_ok fresh -> 0 <= offset -> 0 < len ->
  fill_record fresh prefix sb offset len src = Ok (buf, src') ->
  blen buf = len /\ r_fault src' = r_fault src /\
  r_bytes src = extract offset (blen prefix) sb buf ++ r_bytes src' /\
  (offset = 0 -> blen prefix <= len -> slice buf 0 (blen prefix) = prefix).
Proof.
  intros Hf Ho Hl. unfold fill_record. destruct (padding fresh offset len) as [b0|] eqn:Hp; [|done].
  cbn [ok_or]. pose proof (fo_padding _ Hf _ _ _ Hp) as Hb0.
  set (b1 := match overlap offset len 0 (blen prefix) with Some (from, to) => _ | None => b0 end).
  assert (blen b1 = len /\ (offset = 0 -> blen prefix <= len -> slice b1 0 (blen prefix) = prefix))
    as [Hb1 Hpre].
  { unfold b1. destruct (overlap offset len 0 (blen prefix)) as [[from to]|] eqn:Ho1.
    - apply overlap_Some in Ho1 as (H1 & H2 & H3 & H4).
      assert (blen (slice prefix (offset + from) (offset + to)) = to - from) as Hs
        by (rewrite blen_slice; lia).
      split; [rewrite blen_splice; lia|]. intros -> Hle.
      replace from with 0 in * by lia. replace to with (blen prefix) in * by lia.
      rewrite !Z.add_0_l in *. rewrite (slice_all prefix) by done.
      by apply (slice_splice b0 0 prefix); lia.
    - split; [done|]. intros -> Hle. unfold overlap in Ho1. pose proof (blen_nonneg prefix).
      destruct (Z.ltb_spec (Z.max 0 0) (Z.min (0 + blen prefix) (0 + len))); [done|].
      destruct prefix; [done|]. unfold blen in *. cbn [length] in *. lia. }
  clearbody b1. unfold extract.
  destruct (overlap offset len (blen prefix) sb) as [[from to]|] eqn:Ho2.
  - apply overlap_Some in Ho2 as (H1 & H2 & H3 & H4) .
    destruct (read_exact (to - from) src) as [[bs r']|e] eqn:Hr; [|done]. cbn [map_err].
    intros [= <- <-]. apply read_exact_ok in Hr as (Hbs & Hsrc & Hfl); [|lia].
    assert (blen (splice b1 from bs) = len) as Hlen by (rewrite blen_splice; lia).
    split_and!; [done..| |].
    + rewrite Hlen. unfold overlap. rewrite (proj2 (Z.ltb_lt _ _)) by lia.
      rewrite Hsrc. f_equal. rewrite <- H3, <- H4. replace to with (from + blen bs) by lia.
      symmetry. apply slice_splice; lia.
    + intros Hz Hle. pose proof (blen_nonneg prefix). rewrite slice_splice_before by lia. auto.
  - intros [= <- <-]. rewrite Hb1, Ho2. done.
Qed.

(** Writing in full succeeds or fails; what it appends is its argument. *)
Lemma write_all_ok bs w w' :
  write_all bs w = Ok w' -> w_out w' = w_out w ++ bs /\ w_flush w' = w_flush w.
Proof.
  unfold write_all. destruct (w_room w) as [room|]; [destruct (_ <=? _); [|done]|];
    by intros [= <-].
Qed.

Definition append (w : Writer) (bs : list byte) : Writer :=
  {| w_out := w_out w ++ bs; w_room := w_room w; w_flush := w_flush w |}.

Lemma write_all_unlimited bs w : w_room w = None -> write_all bs w = Ok (append w bs).
Proof. intros H. unfold write_all, append. by rewrite H. Qed.

Lemma append_append w a b : append (append w a) b = append w (a ++ b).
Proof. unfold append. cbn. by rewrite app_assoc. Qed.

(** What one round of the encryption loop wrote and read. *)
Lemma encrypt_record_ok key header prefix fresh plaintext sb total counter progress st st' :
  fresh_ok fresh -> 0 <= counter -> counter * CHUNK_BYTES < plaintext ->
  encrypt_record key header prefix fresh plaintext sb total counter progress st = Ok st' ->
  let offset := counter * CHUNK_BYTES in
  let len := Z.min (plaintext - offset) CHUNK_BYTES in
  exists buf data tag,
    gcm_seal key (nonce_bytes (nonce_prefix fresh) counter) (aad_bytes header counter) buf
      = Some (data, tag) /\
    blen buf = len /\ blen data = len /\ blen tag = TAG_BYTES /\
    w_out (e_out st') = w_out (e_out st) ++ data ++ tag /\
    w_flush (e_out st') = w_flush (e_out st) /\
    e_hashed st' = e_hashed st ++ data ++ tag /\
    e_written st' = e_written st + (len + TAG_BYTES) /\
    r_fault (e_source st') = r_fault (e_source st) /\
    r_bytes (e_source st) = extract offset (blen prefix) sb buf ++ r_bytes (e_source st') /\
    (counter = 0 -> blen prefix <= len -> slice buf 0 (blen prefix) = prefix).
Proof.
  intros Hf Hc Hp H offset len. unfold encrypt_record in H. fold offset in H. fold len in H.
  assert (0 < len) by (unfold len, offset, CHUNK_BYTES in *; lia).
  destruct (fill_record fresh prefix sb offset len (e_source st)) as [[buf src]|] eqn:Hfill; [|done].
  apply fill_record_ok in Hfill as (Hb & Hfl & Hsrc & Hpre);
    [|done|unfold offset, CHUNK_BYTES; lia|done].
  destruct (gcm_seal _ _ _ buf) as [[data tag]|] eqn:Hs; [|done]. cbn [ok_or] in H.
  destruct (write_all data (e_out st)) as [w1|] eqn:Hw1; [|done].
  destruct (write_all tag w1) as [w2|] eqn:Hw2; [|done].
  destruct (report progress _ total); [|done]. injection H as <-.
  apply write_all_ok in Hw1 as [Hw1 Hf1], Hw2 as [Hw2 Hf2].
  destruct (seal_lengths _ _ _ _ _ _ Hs) as [Hd Ht].
  exists buf, data, tag. cbn. split_and!; try done; try congruence.
  - by rewrite Hw2, Hw1, <- app_assoc.
  - intros ->. apply Hpre. done.
Qed.

(** ** The two loops in step *)

Definition always (_ _ : Z) : bool := true.

Section Loops.
Variables (key header prefix : list byte) (fresh : Fresh) (limits : Limits) (m : Metadata).
Variables (plaintext count : Z).
Hypothesis Hfresh : fresh_ok fresh.
Hypothesis Hnonce : slice header 16 24 = nonce_prefix fresh.
Hypothesis Hcount : (count - 1) * CHUNK_BYTES < plaintext <= count * CHUNK_BYTES.
Hypothesis Hprefix : blen prefix <= Z.min plaintext CHUNK_BYTES.
(** The first record parses to the metadata it was built from. *)
Hypothesis Hfirst : forall buf, slice buf 0 (blen prefix) = prefix -> blen prefix <= blen buf ->
  open_first limits plaintext buf None = Ok (m, blen prefix).

Let envelope_len := HEADER_BYTES + plaintext + count * TAG_BYTES.

Definition record_len (counter : Z) : Z := Z.min (plaintext - counter * CHUNK_BYTES) CHUNK_BYTES.

Lemma record_len_dec counter :
  0 <= counter < count ->
  (if counter + 1 =? count then envelope_len - HEADER_BYTES - (count - 1) * RECORD_BYTES
   else RECORD_BYTES) = record_len counter + TAG_BYTES.
Proof.
  intros Hc. unfold record_len, envelope_len, RECORD_BYTES, CHUNK_BYTES, TAG_BYTES in *.
  destruct (Z.eqb_spec (counter + 1) count); lia.
Qed.

Lemma decrypt_record_ok counter buf data tag rest w opened rd :
  0 <= counter < count -> blen buf = record_len counter ->
  gcm_seal key (nonce_bytes (nonce_prefix fresh) counter) (aad_bytes header counter) buf
    = Some (data, tag) ->
  open_first limits plaintext buf opened = Ok (m, blen prefix) -> w_room w = None ->
  decrypt_record key header limits envelope_len plaintext count counter always
    {| d_envelope := mem_reader (data ++ tag ++ rest); d_out := w; d_opened := opened; d_read := rd |}
  = Ok {| d_envelope := mem_reader rest;
          d_out := append w (extract (counter * CHUNK_BYTES) (blen prefix) (size m) buf);
          d_opened := Some (m, blen prefix); d_read := rd + (record_len counter + TAG_BYTES) |}.
Proof.
  intros Hc Hb Hs Ho Hw. destruct (seal_lengths _ _ _ _ _ _ Hs) as [Hd Ht].
  unfold decrypt_record. cbn [d_envelope d_out d_opened d_read]. rewrite record_len_dec by done.
  unfold mem_reader. rewrite app_assoc.
  replace (record_len counter + TAG_BYTES) with (blen (data ++ tag)) by (rewrite blen_app; lia).
  rewrite read_exact_app. cbn [map_err].
  replace (Z.to_nat (blen (data ++ tag) - TAG_BYTES)) with (length data)
    by (rewrite blen_app; unfold blen in *; lia).
  rewrite take_app_length, drop_app_length, Hnonce, (open_seal _ _ _ _ _ _ Hs). cbn [ok_or].
  rewrite Ho. unfold extract.
  destruct (overlap (counter * CHUNK_BYTES) (blen buf) (blen prefix) (size m)) as [[from to]|].
  - rewrite write_all_unlimited by done. done.
  - cbn [report always]. unfold append. rewrite app_nil_r. by destruct w.
Qed.

Lemma loops_in_step n counter sb total progress st st' :
  sb = size m -> 0 <= counter -> counter + Z.of_nat n = count ->
  encrypt_loop n key header prefix fresh plaintext sb total counter progress st = Ok st' ->
  exists env consumed,
    w_out (e_out st') = w_out (e_out st) ++ env /\ w_flush (e_out st') = w_flush (e_out st) /\
    e_hashed st' = e_hashed st ++ env /\ e_written st' = e_written st + blen env /\
    r_fault (e_source st') = r_fault (e_source st) /\
    r_bytes (e_source st) = consumed ++ r_bytes (e_source st') /\
    blen env = Z.max 0 (plaintext - counter * CHUNK_BYTES) + Z.of_nat n * TAG_BYTES /\
    forall opened rest w rd, w_room w = None ->
      opened = Some (m, blen prefix) \/ (opened = None /\ counter = 0) ->
      decrypt_loop n key header limits envelope_len plaintext count counter always
        {| d_envelope := mem_reader (env ++ rest); d_out := w; d_opened := opened; d_read := rd |}
      = Ok {| d_envelope := mem_reader rest; d_out := append w consumed;
              d_opened := if (n =? 0)%nat then opened else Some (m, blen prefix);
              d_read := rd + blen env |}.
Proof.
  intros Hsb. revert counter st. induction n as [|n IH]; intros counter st Hc Hn H.
  - injection H as <-. exists [], []. rewrite !app_nil_r.
    change (blen []) with 0. split_and!; try done; [lia| |].
    + unfold CHUNK_BYTES in *. lia.
    + intros opened rest w rd Hw _. cbn [decrypt_loop app Nat.eqb].
      unfold append. rewrite app_nil_r, Z.add_0_r. by destruct w.
  - cbn [encrypt_loop] in H.
    destruct (encrypt_record _ _ _ _ _ _ _ _ _ st) as [st1|] eqn:Hr; [|done].
    apply encrypt_record_ok in Hr as
      (buf & data & tag & Hs & Hb & Hd & Ht & Ho & Hfl & Hh & Hwr & Hrf & Hsrc & Hpre);
      [|done|done|unfold CHUNK_BYTES in *; lia].
    destruct (IH (counter + 1) st1 ltac:(lia) ltac:(lia) H) as
      (env & consumed & E1 & E2 & E3 & E4 & E5 & E6 & E7 & E8).
    exists (data ++ tag ++ env), (extract (counter * CHUNK_BYTES) (blen prefix) sb buf ++ consumed).
    assert (blen (data ++ tag ++ env) = record_len counter + TAG_BYTES + blen env) as Hlen
      by (rewrite !blen_app; unfold record_len; lia).
    split_and!; try congruence.
    + by rewrite E1, Ho, <- !app_assoc.
    + by rewrite E3, Hh, <- !app_assoc.
    + rewrite E4, Hwr, Hlen. unfold record_len. lia.
    + by rewrite Hsrc, E6, <- app_assoc.
    + rewrite Hlen, E7. unfold record_len, CHUNK_BYTES in *. lia.
    + intros opened rest w rd Hw Hop. cbn [decrypt_loop]. rewrite <- !app_assoc.
      rewrite (decrypt_record_ok counter buf data tag (env ++ rest) w opened rd);
        [|lia|done|done| |done].
      2:{ destruct Hop as [->|[-> ->]]; [done|]. apply Hfirst; [apply Hpre; [done|]|];
            rewrite ?Hb; unfold CHUNK_BYTES in *; lia. }
      rewrite E8 by (try done; by left). f_equal. f_equal.
      * rewrite append_append. by rewrite Hsb.
      * by destruct n.
      * rewrite Hlen. lia.
Qed.
End Loops.

(** ** The header *)

Lemma blen_be_bytes n z : blen (be_bytes n z) = Z.of_nat n.
Proof. unfold blen. by rewrite length_be_bytes. Qed.

(** A list cut at fixed widths. *)
Lemma slice_skip a b x y : blen a = x -> x <= y -> slice (a ++ b) x y = slice b 0 (y - x).
Proof. intros <- ?. rewrite slice_app_r by lia. f_equal. lia. Qed.

Lemma slice_head a b n : blen a = n -> slice (a ++ b) 0 n = a.
Proof. intros <-. pose proof (blen_nonneg a). rewrite slice_app_l by lia. by apply slice_all. Qed.

Lemma header_fields records np slt :
  blen np = 8 -> blen slt = 32 -> 0 <= records < 2 ^ 32 ->
  let header := header_bytes records np slt in
  blen header = HEADER_BYTES /\ slice header 0 8 = MAGIC /\
  be_value (slice header 8 12) = CHUNK_BYTES /\ be_value (slice header 12 16) = records /\
  slice header 16 24 = np /\ slice header 24 56 = slt.
Proof.
  intros Hn Hs Hr header. unfold header, header_bytes.
  split_and!.
  - rewrite !blen_app, !blen_be_bytes. change (blen MAGIC) with 8. unfold HEADER_BYTES. lia.
  - by apply slice_head.
  - rewrite slice_skip by (reflexivity || lia). rewrite slice_head by (by rewrite blen_be_bytes).
    by apply be_value_bytes_small.
  - rewrite (app_assoc MAGIC), slice_skip by (rewrite ?blen_app, ?blen_be_bytes; reflexivity || lia).
    rewrite slice_head by (by rewrite blen_be_bytes).
    apply be_value_bytes_small. lia.
  - rewrite !app_assoc, <- (app_assoc _ np), slice_skip
      by (rewrite ?blen_app, ?blen_be_bytes; reflexivity || lia).
    by apply slice_head.
  - rewrite !app_assoc, slice_skip by (rewrite ?blen_app, ?blen_be_bytes, ?Hn; reflexivity || lia).
    apply slice_all. lia.
Qed.

(** ** The first record *)

Lemma parse_metadata_prefix m json buf :
  canonical_metadata m = Ok json -> sanitise_name (name m) = name m ->
  normalise_media_type (media_type m) = Ok (media_type m) ->
  let prefix := be_bytes 4 (blen json) ++ json in
  slice buf 0 (blen prefix) = prefix -> blen prefix <= blen buf ->
  parse_metadata buf = Ok (m, blen prefix).
Proof.
  intros Hj Hn Ht prefix Hs Hb. pose proof (canonical_metadata_ok _ _ Hj) as [He Hl].
  assert (blen prefix = 4 + blen json) as Hp by (unfold prefix; rewrite blen_app, blen_be_bytes; lia).
  assert (slice buf 0 4 = be_bytes 4 (blen json)) as H4.
  { transitivity (slice (slice buf 0 (blen prefix)) 0 4); [rewrite slice_slice by lia; done|].
    rewrite Hs. unfold prefix. apply slice_head. by rewrite blen_be_bytes. }
  assert (slice buf 4 (4 + blen json) = json) as Hjs.
  { transitivity (slice (slice buf 0 (blen prefix)) 4 (4 + blen json));
      [rewrite slice_slice by lia; done|].
    rewrite Hs. unfold prefix. rewrite slice_skip by (rewrite ?blen_be_bytes; lia).
    apply slice_all. lia. }
  unfold parse_metadata. rewrite (proj2 (Z.ltb_ge (blen buf) 4)) by lia.
  rewrite H4, be_value_bytes_small
    by (unfold MAX_METADATA_BYTES in *; change (256 ^ Z.of_nat 4) with (2 ^ 32); lia).
  replace (between 2 (blen json) MAX_METADATA_BYTES) with true by (unfold between; lia).
  rewrite (proj2 (Z.ltb_ge (blen buf) (4 + blen json))) by lia. cbn [negb orb].
  rewrite Hjs, (json_utf8 _ _ He), (json_round _ _ He). cbn [negb ok_or].
  rewrite Hj, Hn, Ht, !bool_decide_eq_true_2 by done. cbn [negb]. by rewrite Hp.
Qed.

Lemma first_record_opens sb limits l buf :
  layout_spec sb limits l -> 0 <= sb ->
  slice buf 0 (blen (l_prefix l)) = l_prefix l -> blen (l_prefix l) <= blen buf ->
  open_first limits (plaintext_len l) buf None = Ok (l_metadata l, blen (l_prefix l)).
Proof.
  intros [Hsz Hn Ht (json & Hj & Hpre & _) Hp Hw _ _ _ Hlim] Hsb Hs Hb. unfold open_first.
  rewrite Hpre in Hs, Hb. rewrite (parse_metadata_prefix _ _ _ Hj Hn Ht Hs Hb), <- Hpre, Hsz, <- Hp.
  pose proof (blen_nonneg (l_prefix l)).
  destruct (padded_length_spec (blen (l_prefix l) + sb) ltac:(lia) Hw) as (_ & P2 & _).
  rewrite Z.eqb_refl, (proj2 (Z.ltb_ge (plaintext_len l) sb)) by lia. cbn [negb orb].
  by rewrite (proj2 (Z.ltb_ge _ _) Hlim).
Qed.

(** The record geometry of a layout. *)
Lemma layout_geometry sb limits l :
  layout_spec sb limits l -> 0 <= sb ->
  (record_count l - 1) * CHUNK_BYTES < plaintext_len l <= record_count l * CHUNK_BYTES /\
  blen (l_prefix l) <= Z.min (plaintext_len l) CHUNK_BYTES /\
  MIN_PADDING_BUCKET <= plaintext_len l /\ sb <= plaintext_len l.
Proof.
  intros [_ _ _ (json & Hj & Hpre & Hjl) Hp Hw Hr Hc _ _] Hsb.
  pose proof (div_ceil_spec (plaintext_len l) CHUNK_BYTES ltac:(done)) as Hd.
  rewrite <- Hr in Hd.
  destruct (padded_length_spec (blen (l_prefix l) + sb)) as (P1 & P2 & _);
    [pose proof (blen_nonneg (l_prefix l)); lia|done|].
  assert (blen (l_prefix l) <= 4100).
  { rewrite Hpre, blen_app, blen_be_bytes. unfold MAX_METADATA_BYTES in *. lia. }
  rewrite <- Hp in P1, P2. pose proof (blen_nonneg (l_prefix l)).
  unfold CHUNK_BYTES, MIN_PADDING_BUCKET in *. lia.
Qed.

(** ** Round trip *)

(** What [encrypt_with] wrote: the header and the records, of the predicted
    length; and opening it gives the metadata and the source back. *)
Lemma encrypt_then_decrypt key source sb nm mt limits fresh w progress sealed w' :
  fresh_ok fresh -> 0 <= sb ->
  encrypt_with key source sb nm mt limits fresh w progress = Ok (sealed, w') ->
  exists envelope l,
    layout nm mt sb limits = Ok l /\
    w_out w' = w_out w ++ envelope /\ r_fault source = false /\
    s_metadata sealed = l_metadata l /\
    s_envelope_bytes sealed = blen envelope /\ s_sha256 sealed = sha256 envelope /\
    blen envelope = envelope_len_for (plaintext_len l) /\
    forall out, w_room out = None -> w_flush out = true ->
      decrypt key (mem_reader envelope) (blen envelope) limits out always
      = Ok (l_metadata l, append out (r_bytes source)).
Proof.
  intros Hf Hsb H. unfold encrypt_with in H.
  destruct (layout nm mt sb limits) as [l|] eqn:Hl; [|done].
  pose proof (layout_ok _ _ _ _ _ Hl Hsb) as Hls.
  destruct (layout_geometry _ _ _ Hls Hsb) as (G1 & G2 & G3 & G4).
  pose proof (ls_count _ _ _ Hls) as Hcnt.
  set (header := header_bytes (record_count l) (nonce_prefix fresh) (salt fresh)) in *.
  destruct (header_fields (record_count l) (nonce_prefix fresh) (salt fresh))
    as (F0 & F1 & F2 & F3 & F4 & F5);
    [by apply fo_nonce|by apply fo_salt|unfold U32_MAX in *; lia|]. fold header in F0, F1, F2, F3, F4, F5.
  destruct (write_all header w) as [w1|] eqn:Hw; [|done].
  destruct (encrypt_loop _ _ _ _ _ _ _ _ _ _ _) as [st|] eqn:Hloop; [|done].
  destruct (read_some (e_source st)) as [probe|] eqn:Hprobe; [|done].
  destruct (Z.eqb_spec probe 0) as [->|]; [|done]. cbn [negb] in H.
  destruct (flush (e_out st)) as [[]|]; [|done]. injection H as <- <-.
  apply (loops_in_step _ header _ fresh limits (l_metadata l) (plaintext_len l) (record_count l))
    in Hloop as (env & consumed & E1 & E2 & E3 & E4 & E5 & E6 & E7 & E8); try done; try lia.
  2:{ intros buf Hs Hb. by apply (first_record_opens sb). }
  2:{ by rewrite (ls_size _ _ _ Hls). }
  cbn [e_out e_hashed e_written e_source] in *.
  apply write_all_ok in Hw as [Hw _].
  assert (r_bytes (e_source st) = [] /\ r_fault source = false) as [Hend Hnf].
  { unfold read_some in Hprobe. destruct (r_bytes (e_source st)); [|done].
    rewrite <- E5. by destruct (r_fault (e_source st)). }
  rewrite Hend, app_nil_r in E6. subst consumed.
  assert (blen (header ++ env) = envelope_len_for (plaintext_len l)) as Hlen.
  { rewrite blen_app, F0, E7. unfold envelope_len_for. rewrite <- (ls_records _ _ _ Hls).
    rewrite Z2Nat.id by lia. unfold MIN_PADDING_BUCKET in *. lia. }
  exists (header ++ env), l. split_and!; try done.
  - by rewrite E1, Hw, <- app_assoc.
  - cbn [s_envelope_bytes]. rewrite E4, blen_app, F0. done.
  - cbn [s_sha256]. by rewrite E3.
  - intros out Hroom Hflush. unfold decrypt. rewrite Hlen. unfold envelope_len_for.
    rewrite <- (ls_records _ _ _ Hls). set (elen := HEADER_BYTES + plaintext_len l + _).
    change (blen MAGIC) with 8.
    assert (HEADER_BYTES <= elen) by (unfold elen, MIN_PADDING_BUCKET, TAG_BYTES in *; lia).
    unfold HEADER_BYTES in *. rewrite (proj2 (Z.ltb_ge elen 8)) by lia.
    assert (header = MAGIC ++ slice header 8 56) as Hsplit.
    { rewrite <- F1 at 1. unfold slice. rewrite drop_0.
      rewrite (take_ge (drop (Z.to_nat 8) header)) by (rewrite length_drop; unfold blen in F0; lia).
      symmetry. apply take_drop. }
    assert (blen (slice header 8 56) = 48) as H48 by (rewrite blen_slice; lia).
    rewrite Hsplit at 1. rewrite <- app_assoc. unfold mem_reader.
    change 8 with (blen MAGIC) at 1. rewrite read_exact_app. cbn [map_err].
    rewrite bool_decide_eq_true_2 by done. cbn [negb].
    rewrite (proj2 (Z.ltb_ge elen 56)) by lia.
    change (56 - 8) with 48. rewrite <- H48 at 1. rewrite read_exact_app. cbn [map_err].
    rewrite <- Hsplit, F2, F3, F5, Z.eqb_refl.
    rewrite (proj2 (Z.eqb_neq (record_count l) 0)) by lia.
    rewrite (proj2 (Z.ltb_ge _ _) (ls_max _ _ _ Hls)). cbn [negb orb].
    rewrite !(proj2 (Z.ltb_ge _ _))
      by (unfold elen, RECORD_BYTES, CHUNK_BYTES, TAG_BYTES in *; lia).
    cbn [orb]. replace (elen - 56 - record_count l * TAG_BYTES) with (plaintext_len l)
      by (unfold elen; lia).
    specialize (E8 None [] out 56 Hroom ltac:(right; done)). rewrite app_nil_r in E8.
    unfold mem_reader in E8. unfold elen. unfold HEADER_BYTES in E8. rewrite E8.
    cbn [d_envelope read_some r_bytes r_fault d_out d_opened]. cbn [Z.eqb negb].
    unfold flush. cbn [append w_flush]. rewrite Hflush.
    destruct (Z.to_nat (record_count l)) eqn:En; [lia|]. done.
Qed.

(** ** Totality of encryption *)

(** What is left of the source when record [counter] starts. *)
Definition remaining (plen sb counter : Z) : Z := sb - Z.max 0 (Z.min sb (counter * CHUNK_BYTES - plen)).

Record fresh_total (f : Fresh) : Prop := {
  ft_ok : fresh_ok f;
  ft_padding : forall offset len, 0 < len -> is_Some (padding f offset len)
}.

Lemma blen_extract offset plen sb buf :
  0 <= offset -> 0 <= plen -> 0 <= sb -> 0 <= blen buf ->
  blen (extract offset plen sb buf)
  = Z.max 0 (Z.min (plen + sb) (offset + blen buf) - Z.max plen offset).
Proof.
  intros. unfold extract. destruct (overlap _ _ _ _) as [[from to]|] eqn:E.
  - apply overlap_Some in E as (H3 & H4 & H5 & H6). rewrite blen_slice by lia. lia.
  - unfold overlap in E. destruct (Z.ltb_spec (Z.max plen offset)
      (Z.min (plen + sb) (offset + blen buf))); [done|]. change (blen []) with 0. lia.
Qed.

Lemma fill_record_total fresh prefix sb counter len src :
  fresh_total fresh -> 0 <= counter -> 0 < len <= CHUNK_BYTES -> 0 <= sb ->
  (blen prefix + sb <= (counter + 1) * CHUNK_BYTES -> blen prefix + sb <= counter * CHUNK_BYTES + len) ->
  (counter * CHUNK_BYTES + CHUNK_BYTES < blen prefix + sb -> len = CHUNK_BYTES) ->
  blen (r_bytes src) = remaining (blen prefix) sb counter ->
  exists buf src', fill_record fresh prefix sb (counter * CHUNK_BYTES) len src = Ok (buf, src').
Proof.
  intros Hf Hc Hl Hsb Hfit Hfull Hsrc. unfold fill_record.
  destruct (ft_padding _ Hf (counter * CHUNK_BYTES) len ltac:(lia)) as [b ->]. cbn [ok_or].
  destruct (overlap _ len (blen prefix) sb) as [[from to]|] eqn:E; [|eauto].
  apply overlap_Some in E as (H1 & H2 & H3 & H4). unfold read_exact.
  rewrite (proj2 (Z.leb_le _ _)); [cbn [map_err]; eauto|].
  rewrite Hsrc. unfold remaining, CHUNK_BYTES in *. pose proof (blen_nonneg prefix). lia.
Qed.

Lemma encrypt_record_total key header prefix fresh plaintext sb total counter st :
  fresh_total fresh -> 0 <= counter -> counter * CHUNK_BYTES < plaintext -> 0 <= sb ->
  blen prefix + sb <= plaintext -> w_room (e_out st) = None ->
  blen (r_bytes (e_source st)) = remaining (blen prefix) sb counter ->
  exists st', encrypt_record key header prefix fresh plaintext sb total counter always st = Ok st' /\
    w_room (e_out st') = None /\
    blen (r_bytes (e_source st')) = remaining (blen prefix) sb (counter + 1).
Proof.
  intros Hf Hc Hp Hsb Hfit Hroom Hsrc.
  set (len := Z.min (plaintext - counter * CHUNK_BYTES) CHUNK_BYTES).
  destruct (fill_record_total fresh prefix sb counter len (e_source st)) as (buf & src' & Hfill);
    try done; try (unfold len, CHUNK_BYTES in *; lia).
  assert (0 <= counter * CHUNK_BYTES /\ 0 < len) as [Hoff Hlen]
    by (unfold len, CHUNK_BYTES in *; lia).
  pose proof (fill_record_ok _ _ _ _ _ _ _ _ (ft_ok _ Hf) Hoff Hlen Hfill) as (Hb & _ & Hsplit & _).
  unfold encrypt_record. fold len. rewrite Hfill.
  destruct (seal_total key (nonce_bytes (nonce_prefix fresh) counter) (aad_bytes header counter) buf)
    as [[data tag] ->]; [rewrite Hb; unfold len; lia|]. cbn [ok_or].
  rewrite write_all_unlimited by done. rewrite write_all_unlimited by done. cbn [report always].
  eexists. split; [reflexivity|]. split; [done|]. cbn [e_source].
  pose proof (blen_nonneg buf). pose proof (blen_nonneg prefix).
  assert (blen (r_bytes (e_source st)) = blen (extract (counter * CHUNK_BYTES) (blen prefix) sb buf)
    + blen (r_bytes src')) as Hsum by (rewrite Hsplit at 1; apply blen_app).
  rewrite blen_extract in Hsum by (unfold CHUNK_BYTES; lia).
  unfold remaining, len, CHUNK_BYTES in *. lia.
Qed.

Lemma encrypt_loop_total n key header prefix fresh plaintext sb total counter st :
  fresh_total fresh -> 0 <= counter -> 0 <= sb -> blen prefix + sb <= plaintext ->
  (counter + Z.of_nat n - 1) * CHUNK_BYTES < plaintext -> w_room (e_out st) = None ->
  blen (r_bytes (e_source st)) = remaining (blen prefix) sb counter ->
  exists st',
    encrypt_loop n key header prefix fresh plaintext sb total counter always st = Ok st' /\
    blen (r_bytes (e_source st')) = remaining (blen prefix) sb (counter + Z.of_nat n).
Proof.
  intros Hf. revert counter st. induction n as [|n IH]; intros counter st Hc Hsb Hfit Hn Hroom Hsrc.
  - exists st. rewrite Z.add_0_r. done.
  - cbn [encrypt_loop].
    destruct (encrypt_record_total key header prefix fresh plaintext sb total counter st)
      as (st1 & -> & Hr1 & Hs1); try done; [unfold CHUNK_BYTES in *; lia|].
    destruct (IH (counter + 1) st1) as (st' & -> & H'); try done; try lia.
    exists st'. split; [done|]. rewrite H'. f_equal. lia.
Qed.

(** Encrypting exactly [sb] readable bytes into a writer with room succeeds
    as soon as [layout] accepts the request. *)
Lemma encrypt_with_total key source nm mt limits fresh w l :
  fresh_total fresh -> layout nm mt (blen (r_bytes source)) limits = Ok l ->
  r_fault source = false -> w_room w = None -> w_flush w = true ->
  exists sealed w',
    encrypt_with key source (blen (r_bytes source)) nm mt limits fresh w always = Ok (sealed, w').
Proof.
  intros Hf Hl Hfault Hroom Hflush. pose proof (blen_nonneg (r_bytes source)) as Hsb.
  pose proof (layout_ok _ _ _ _ _ Hl Hsb) as Hls.
  destruct (layout_geometry _ _ _ Hls Hsb) as (G1 & G2 & G3 & G4).
  pose proof (ls_count _ _ _ Hls) as Hcnt. pose proof (blen_nonneg (l_prefix l)) as Hpn.
  destruct (padded_length_spec (blen (l_prefix l) + blen (r_bytes source))) as (_ & P2 & _);
    [lia|apply Hls|]. rewrite <- (ls_plain _ _ _ Hls) in P2.
  unfold encrypt_with. rewrite Hl. cbn zeta. rewrite write_all_unlimited by done.
  match goal with |- context [encrypt_loop ?n ?k ?h ?p ?f ?pl ?sb ?t 0 always ?st] =>
    destruct (encrypt_loop_total n k h p f pl sb t 0 st) as (st' & Hloop & Hend) end;
    try done; try lia.
  { cbn [e_source]. unfold remaining, CHUNK_BYTES. lia. }
  rewrite Hloop.
  assert (r_bytes (e_source st') = []) as Hnil.
  { apply length_zero_iff_nil. unfold remaining, CHUNK_BYTES, blen in *. lia. }
  apply (loops_in_step _ _ _ fresh limits (l_metadata l) (plaintext_len l) (record_count l))
    in Hloop as (env & consumed & E1 & E2 & _ & _ & E5 & _); try done; try lia.
  2:{ by apply Hf. }
  2:{ apply header_fields; [by apply fo_nonce, Hf|by apply fo_salt, Hf|unfold U32_MAX in *; lia]. }
  2:{ intros buf Hs Hb. by apply (first_record_opens (blen (r_bytes source))). }
  2:{ by rewrite (ls_size _ _ _ Hls). }
  cbn [e_out e_source] in E2, E5. unfold read_some, flush. rewrite Hnil, E5, Hfault. cbn [Z.eqb negb].
  rewrite E2. cbn [append w_flush]. rewrite Hflush. eauto.
Qed.
End Proofs.
