(* ===== verification/EnvelopeCanon.v ===== *)
(** * Canonicity and the codec's theorems

    What [decrypt] accepts, [encrypt_with] produces: the converse of the
    round trip of [EnvelopeProofs.v].  The file ends with the codec's
    property theorems and a concrete instance of the libraries. *)
From S2P Require Import Prelude EnvelopeFormat EnvelopeName EnvelopeKey Envelope EnvelopeProofs.

Section Canon.
Context `{U : Unicode} {UL : UnicodeLaws U} `{C : Crypto} {CL : CryptoLaws C}
        `{J : Json} {JL : JsonLaws J}.

(** The bytes a record starts with, for metadata [m]. *)
Definition prefix_of (m : Metadata) (prefix : list byte) : Prop :=
  exists json, canonical_metadata m = Ok json /\ prefix = be_bytes 4 (blen json) ++ json.

Lemma be_bytes_slice l : 4 <= blen l -> be_bytes 4 (be_value (slice l 0 4)) = slice l 0 4.
Proof.
  intros H. pose proof (blen_slice l 0 4 ltac:(lia) ltac:(lia)) as Hl. unfold blen in Hl.
  replace 4%nat with (length (slice l 0 4)) at 1 by lia. apply be_bytes_value.
Qed.

Lemma slice_concat l a b c : 0 <= a <= b -> b <= c -> slice l a c = slice l a b ++ slice l b c.
Proof.
  intros. unfold slice. replace (Z.to_nat (c - a)) with (Z.to_nat (b - a) + Z.to_nat (c - b))%nat by lia.
  rewrite <- take_take_drop, drop_drop. do 3 f_equal. lia.
Qed.

Lemma parse_metadata_inv buf m plen :
  parse_metadata buf = Ok (m, plen) ->
  prefix_of m (slice buf 0 plen) /\ blen (slice buf 0 plen) = plen /\ plen <= blen buf /\
  0 <= size m <= U64_MAX /\ sanitise_name (name m) = name m /\
  normalise_media_type (media_type m) = Ok (media_type m).
Proof.
  unfold parse_metadata. destruct (Z.ltb_spec (blen buf) 4); [done|].
  set (n := be_value (slice buf 0 4)). unfold between.
  destruct (Z.leb_spec 2 n); [|done]. destruct (Z.leb_spec n MAX_METADATA_BYTES); [|done].
  destruct (Z.ltb_spec (blen buf) (4 + n)); [done|]. cbn [andb negb orb].
  destruct (from_utf8 _); [|done]. cbn [negb].
  destruct (json_decode _) as [m'|] eqn:Hd; [|done]. cbn [ok_or].
  destruct (canonical_metadata m') as [c|] eqn:Hc; [|done].
  destruct (bool_decide_reflect (c = slice buf 4 (4 + n))) as [->|]; [|done]. cbn [negb].
  destruct (bool_decide_reflect (sanitise_name (name m') = name m')) as [Hn|]; [|done]. cbn [negb].
  destruct (bool_decide_reflect (normalise_media_type (media_type m') = Ok (media_type m')))
    as [Ht|]; [|done]. intros [= <- <-].
  split_and!; try done; try (by eapply json_size).
  - exists (slice buf 4 (4 + n)). split; [done|]. rewrite blen_slice by lia.
    replace (4 + n - 4) with n by lia. unfold n at 2. rewrite be_bytes_slice by done.
    apply slice_concat; lia.
  - rewrite blen_slice; lia.
Qed.

(** One record, read backwards. *)
Lemma decrypt_record_inv key header limits elen plaintext count counter st st' :
  let len := if counter + 1 =? count then elen - HEADER_BYTES - (count - 1) * RECORD_BYTES
             else RECORD_BYTES in
  TAG_BYTES <= len ->
  w_room (d_out st) = None ->
  decrypt_record key header limits elen plaintext count counter always st = Ok st' ->
  exists buf data tag m plen,
    gcm_seal key (nonce_bytes (slice header 16 24) counter) (aad_bytes header counter) buf
      = Some (data, tag) /\
    blen buf = len - TAG_BYTES /\
    open_first limits plaintext buf (d_opened st) = Ok (m, plen) /\
    r_bytes (d_envelope st) = data ++ tag ++ r_bytes (d_envelope st') /\
    d_out st' = append (d_out st) (extract (counter * CHUNK_BYTES) plen (size m) buf) /\
    r_fault (d_envelope st') = r_fault (d_envelope st) /\
    d_opened st' = Some (m, plen).
Proof.
  intros len Hlen Hroom. unfold decrypt_record. fold len.
  destruct (read_exact len (d_envelope st)) as [[buffer r']|] eqn:Hr; [|done]. cbn [map_err].
  apply read_exact_ok in Hr as (Hb & Hsplit & Hfault); [|unfold TAG_BYTES in *; lia].
  destruct (gcm_open _ _ _ _ _) as [buf|] eqn:Hopen; [|done]. cbn [ok_or].
  apply open_inv in Hopen. pose proof (seal_lengths _ _ _ _ _ _ Hopen) as [L1 L2].
  destruct (open_first limits plaintext buf (d_opened st)) as [[m plen]|] eqn:Ho; [|done].
  intros H. eexists buf, _, _, m, plen. split; [exact Hopen|].
  assert (blen buf = len - TAG_BYTES) as Hbuf.
  { rewrite <- L1. unfold blen in *. rewrite length_take. unfold TAG_BYTES in *. lia. }
  split; [exact Hbuf|]. split; [exact Ho|]. rewrite app_assoc, take_drop.
  unfold extract. destruct (overlap (counter * CHUNK_BYTES) (blen buf) plen (size m)) as [[from to]|].
  - rewrite write_all_unlimited in H by done. cbn [report always] in H. injection H as <-. done.
  - cbn [report always] in H. injection H as <-. cbn. split_and!; try done.
    unfold append. rewrite app_nil_r. by destruct (d_out st).
Qed.

Lemma decrypt_loop_opened n key header limits elen plaintext count counter progress st st' o :
  decrypt_loop n key header limits elen plaintext count counter progress st = Ok st' ->
  d_opened st = Some o -> d_opened st' = Some o.
Proof.
  revert counter st. induction n as [|n IH]; intros counter st H Ho; [by injection H as <-|].
  cbn [decrypt_loop] in H. destruct (decrypt_record _ _ _ _ _ _ _ _ st) as [st1|] eqn:Hr; [|done].
  apply (IH _ _ H). unfold decrypt_record in Hr.
  destruct (map_err short _) as [[b r]|]; [|done]. destruct (ok_or _ _) as [data|]; [|done].
  rewrite Ho in Hr. cbn [open_first] in Hr. destruct o as [m plen].
  destruct (match overlap _ _ _ _ with Some _ => _ | None => _ end); [|done].
  destruct (report _ _ _); [|done]. by injection Hr as <-.
Qed.

(** Filling a buffer that already holds the prefix and the source changes
    nothing. *)
Lemma fill_record_id fresh prefix sb offset len src buf rest :
  padding fresh offset len = Some buf -> blen buf = len -> 0 <= offset ->
  (offset = 0 -> slice buf 0 (blen prefix) = prefix /\ blen prefix <= len) ->
  (0 < offset -> blen prefix <= offset) ->
  r_bytes src = extract offset (blen prefix) sb buf ++ rest ->
  fill_record fresh prefix sb offset len src = Ok (buf, {| r_bytes := rest; r_fault := r_fault src |}).
Proof.
  intros Hp Hb Ho Hz Hnz Hsrc. unfold fill_record. rewrite Hp. cbn [ok_or].
  set (b1 := match overlap offset len 0 (blen prefix) with Some (from, to) => _ | None => buf end).
  assert (b1 = buf) as ->.
  { unfold b1. destruct (overlap offset len 0 (blen prefix)) as [[from to]|] eqn:E; [|done].
    apply overlap_Some in E as (H1 & H2 & H3 & H4).
    destruct (Z.eq_dec offset 0) as [->|]; [|lia]. destruct (Hz eq_refl) as [Hs Hl].
    rewrite <- Hs at 1. rewrite slice_slice by lia. rewrite !Z.add_0_l. apply splice_id; lia. }
  unfold extract in Hsrc. rewrite Hb in Hsrc.
  destruct (overlap offset len (blen prefix) sb) as [[from to]|] eqn:E.
  - apply overlap_Some in E as (H1 & H2 & H3 & H4).
    assert (blen (slice buf from to) = to - from) as Hl by (rewrite blen_slice; lia).
    destruct src as [bs fault]. cbn [r_bytes r_fault] in *. rewrite Hsrc, <- Hl, read_exact_app.
    cbn [map_err]. rewrite splice_id by lia. done.
  - destruct src as [bs fault]. cbn [r_bytes r_fault app] in *. by rewrite Hsrc.
Qed.

Section Backwards.
Variables (key header prefix : list byte) (limits : Limits) (m : Metadata).
Variables (plaintext count : Z).
Hypothesis Hcount : (count - 1) * CHUNK_BYTES < plaintext <= count * CHUNK_BYTES.
Hypothesis Hprefix : blen prefix <= CHUNK_BYTES.
Hypothesis Hfits : blen prefix + size m <= plaintext.
Hypothesis Hsize : 0 <= size m.

Let elen := HEADER_BYTES + plaintext + count * TAG_BYTES.

(** [bufs] are the plaintext records from [counter] on. *)
Definition pads (fresh : Fresh) (counter : Z) (bufs : list (list byte)) : Prop :=
  forall i buf, bufs !! i = Some buf ->
    padding fresh ((counter + Z.of_nat i) * CHUNK_BYTES)
      (record_len plaintext (counter + Z.of_nat i)) = Some buf.

Lemma pads_cons fresh counter b bufs :
  pads fresh counter (b :: bufs) ->
  padding fresh (counter * CHUNK_BYTES) (record_len plaintext counter) = Some b /\
  pads fresh (counter + 1) bufs.
Proof.
  intros H. split.
  - specialize (H 0%nat b eq_refl). by rewrite Z.add_0_r in H.
  - intros i buf Hi. specialize (H (S i) buf Hi). by replace (counter + 1 + Z.of_nat i)
      with (counter + Z.of_nat (S i)) by lia.
Qed.

(** Sealing the record [decrypt] opened gives it back. *)
Lemma encrypt_record_back fresh sb total counter buf data tag es rest :
  nonce_prefix fresh = slice header 16 24 -> 0 <= counter < count ->
  padding fresh (counter * CHUNK_BYTES) (record_len plaintext counter) = Some buf ->
  blen buf = record_len plaintext counter ->
  gcm_seal key (nonce_bytes (slice header 16 24) counter) (aad_bytes header counter) buf
    = Some (data, tag) ->
  (counter = 0 -> slice buf 0 (blen prefix) = prefix /\ blen prefix <= blen buf) ->
  r_bytes (e_source es) = extract (counter * CHUNK_BYTES) (blen prefix) sb buf ++ rest ->
  w_room (e_out es) = None ->
  encrypt_record key header prefix fresh plaintext sb total counter always es
  = Ok {| e_source := {| r_bytes := rest; r_fault := r_fault (e_source es) |};
          e_out := append (e_out es) (data ++ tag); e_hashed := e_hashed es ++ data ++ tag;
          e_written := e_written es + (record_len plaintext counter + TAG_BYTES) |}.
Proof.
  intros Hn Hc Hp Hb Hs H0 Hsrc Hroom. unfold encrypt_record. fold (record_len plaintext counter).
  rewrite (fill_record_id fresh prefix sb _ _ (e_source es) buf rest Hp Hb);
    [|unfold CHUNK_BYTES; lia| |unfold CHUNK_BYTES in *; lia|done].
  - rewrite Hn, Hs. cbn [ok_or]. rewrite write_all_unlimited by done.
    rewrite write_all_unlimited by done. cbn [report always]. by rewrite append_append.
  - intros Hz. rewrite <- Hb. apply H0. unfold CHUNK_BYTES in *. lia.
Qed.

Lemma loops_backwards n counter st st' :
  0 <= counter -> counter + Z.of_nat n = count ->
  w_room (d_out st) = None ->
  (d_opened st = Some (m, blen prefix) /\ 0 < counter) \/ (d_opened st = None /\ counter = 0) ->
  d_opened st' = Some (m, blen prefix) ->
  (forall buf plen, open_first limits plaintext buf None = Ok (m, plen) -> plen = blen prefix ->
     slice buf 0 (blen prefix) = prefix /\ blen prefix <= blen buf) ->
  decrypt_loop n key header limits elen plaintext count counter always st = Ok st' ->
  exists bufs env out,
    length bufs = n /\ blen out = remaining (blen prefix) (size m) counter /\
    (forall i buf, bufs !! i = Some buf -> blen buf = record_len plaintext (counter + Z.of_nat i)) /\
    r_bytes (d_envelope st) = env ++ r_bytes (d_envelope st') /\
    d_out st' = append (d_out st) out /\ r_fault (d_envelope st') = r_fault (d_envelope st) /\
    forall fresh total es rest,
      nonce_prefix fresh = slice header 16 24 -> pads fresh counter bufs ->
      r_bytes (e_source es) = out ++ rest -> w_room (e_out es) = None ->
      exists hashed written,
        encrypt_loop n key header prefix fresh plaintext (size m) total counter always es
        = Ok {| e_source := {| r_bytes := rest; r_fault := r_fault (e_source es) |};
                e_out := append (e_out es) env; e_hashed := hashed; e_written := written |}.
Proof.
  intros Hc Hn Hroom Hop Hend Hfirst. revert counter st Hc Hn Hroom Hop.
  induction n as [|n IH]; intros counter st Hc Hn Hroom Hop H.
  - injection H as <-. exists [], [], []. split_and!; try done.
    + change (blen []) with 0. unfold remaining, CHUNK_BYTES in *. lia.
    + unfold append. rewrite app_nil_r. by destruct (d_out st).
    + intros fresh total es rest _ _ Hsrc Hw. cbn [app] in Hsrc. subst rest.
      exists (e_hashed es), (e_written es). cbn [encrypt_loop]. unfold append.
      rewrite app_nil_r. by destruct es as [[] [] ? ?].
  - cbn [decrypt_loop] in H. destruct (decrypt_record _ _ _ _ _ _ _ _ st) as [st1|] eqn:Hr; [|done].
    pose proof (record_len_dec plaintext count Hcount counter ltac:(lia)) as Hlen. fold elen in Hlen.
    assert (0 < record_len plaintext counter) by (unfold record_len, CHUNK_BYTES in *; lia).
    apply decrypt_record_inv in Hr as
      (buf & data & tag & m1 & plen & Hs & Hb & Ho & Hsplit & Hout & Hfl & Hop1);
      [|rewrite Hlen; unfold TAG_BYTES; lia|done].
    rewrite Hlen, Z.add_simpl_r in Hb.
    pose proof (decrypt_loop_opened _ _ _ _ _ _ _ _ _ _ _ _ H Hop1) as Hop2.
    rewrite Hend in Hop2. injection Hop2 as <- <-.
    destruct (IH (counter + 1) st1) as (bufs & env & out & B1 & BL & B2 & B3 & B4 & B5 & B6);
      [lia|lia|by rewrite Hout|left; split; [done|lia]|done|].
    exists (buf :: bufs), ((data ++ tag) ++ env), (extract (counter * CHUNK_BYTES) (blen prefix) (size m) buf ++ out).
    split_and!.
    + cbn. lia.
    + pose proof (blen_nonneg prefix). rewrite blen_app, BL, blen_extract, Hb
        by (unfold CHUNK_BYTES in *; lia).
      unfold remaining, record_len, CHUNK_BYTES in *. lia.
    + intros [|i] b; cbn; [intros [= <-]; by rewrite Z.add_0_r|].
      intros Hi. rewrite (B2 i b Hi). f_equal. lia.
    + by rewrite Hsplit, B3, <- !app_assoc.
    + by rewrite B4, Hout, append_append.
    + congruence.
    + intros fresh total es rest Hnp Hpads Hsrc Hw. apply pads_cons in Hpads as [Hp Hpads].
      cbn [encrypt_loop]. rewrite <- app_assoc in Hsrc.
      rewrite (encrypt_record_back fresh (size m) total counter buf data tag es (out ++ rest));
        try done; [|lia|].
      * destruct (B6 fresh total {| e_source := {| r_bytes := out ++ rest;
            r_fault := r_fault (e_source es) |}; e_out := append (e_out es) (data ++ tag);
            e_hashed := e_hashed es ++ data ++ tag;
            e_written := e_written es + (record_len plaintext counter + TAG_BYTES) |} rest)
          as (hh & ww & ->); try done.
        cbn [e_source e_out r_fault]. rewrite append_append. eauto.
      * intros ->. destruct Hop as [[_ ?]|[Hop _]]; [lia|]. rewrite Hop in Ho.
        by apply (Hfirst buf (blen prefix)).
Qed.
End Backwards.

(** The randomness an opened envelope was made with. *)
Definition recovered (header : list byte) (bufs : list (list byte)) : Fresh :=
  {| nonce_prefix := slice header 16 24; salt := slice header 24 56;
     padding offset len :=
       match bufs !! Z.to_nat (offset / CHUNK_BYTES) with
       | Some b => if blen b =? len then Some b else None
       | None => None
       end |}.

Lemma recovered_ok header bufs : blen header = 56 -> fresh_ok (recovered header bufs).
Proof.
  intros H. split; cbn [recovered nonce_prefix salt padding].
  - rewrite blen_slice; [done|lia..].
  - rewrite blen_slice; [done|lia..].
  - intros offset len b. destruct (bufs !! _) as [x|]; [|done].
    destruct (Z.eqb_spec (blen x) len); [|done]. by intros [= <-].
Qed.

Lemma recovered_pads plaintext header bufs :
  (forall i buf, bufs !! i = Some buf -> blen buf = record_len plaintext (0 + Z.of_nat i)) ->
  pads plaintext (recovered header bufs) 0 bufs.
Proof.
  intros H i buf Hi. cbn [recovered padding]. rewrite Z.div_mul by done.
  rewrite Z.add_0_l, Nat2Z.id, Hi. specialize (H i buf Hi). rewrite Z.add_0_l in H.
  by rewrite H, Z.eqb_refl.
Qed.

(** The header [decrypt] accepted is the one [encrypt_with] writes. *)
Lemma header_back header :
  blen header = 56 -> take 8 header = MAGIC -> be_value (slice header 8 12) = CHUNK_BYTES ->
  header = header_bytes (be_value (slice header 12 16)) (slice header 16 24) (slice header 24 56).
Proof.
  intros Hl Hm Hc. unfold header_bytes. rewrite <- Hc.
  assert (forall a b, 0 <= a -> b = a + 4 -> b <= 56 ->
    be_bytes 4 (be_value (slice header a b)) = slice header a b) as Hbe.
  { intros a b Ha -> Hb. pose proof (blen_slice header a (a + 4) ltac:(lia) ltac:(lia)) as Hs.
    unfold blen in Hs. replace 4%nat with (length (slice header a (a + 4))) by lia.
    apply be_bytes_value. }
  rewrite !Hbe by lia. rewrite <- !slice_concat by lia.
  replace MAGIC with (slice header 0 8) by (unfold slice; by rewrite drop_0).
  rewrite <- slice_concat by lia. symmetry. by apply slice_all.
Qed.

(** What [decrypt] established about an envelope in memory. *)
Lemma decrypt_inv key env limits m w :
  decrypt key (mem_reader env) (blen env) limits mem_writer always = Ok (m, w) ->
  exists header rest st,
    let count := be_value (slice header 12 16) in
    let plaintext := blen env - HEADER_BYTES - count * TAG_BYTES in
    env = header ++ rest /\ blen header = 56 /\ header = header_bytes count (slice header 16 24) (slice header 24 56) /\
    1 <= count <= U32_MAX /\ count <= max_records limits /\
    (count - 1) * CHUNK_BYTES < plaintext <= count * CHUNK_BYTES /\
    decrypt_loop (Z.to_nat count) (derive_envelope_key hkdf key (slice header 24 56)) header limits
      (HEADER_BYTES + plaintext + count * TAG_BYTES) plaintext count 0 always
      {| d_envelope := mem_reader rest; d_out := mem_writer; d_opened := None; d_read := HEADER_BYTES |}
      = Ok st /\
    r_bytes (d_envelope st) = [] /\ d_out st = w /\
    exists plen, d_opened st = Some (m, plen).
Proof.
  unfold decrypt. destruct (_ <? _); [done|].
  destruct (read_exact 8 (mem_reader env)) as [[magic r1]|] eqn:H1; [|done]. cbn [map_err].
  apply read_exact_ok in H1 as (L1 & S1 & F1); [|lia]. cbn [mem_reader r_bytes] in S1.
  destruct (bool_decide_reflect (magic = MAGIC)) as [Hmagic|]; [|done]. cbn [negb].
  destruct (blen env <? HEADER_BYTES); [done|].
  destruct (read_exact (HEADER_BYTES - 8) r1) as [[rest r2]|] eqn:H2; [|done]. cbn [map_err].
  apply read_exact_ok in H2 as (L2 & S2 & F2); [|done]. set (header := magic ++ rest).
  set (count := be_value (slice header 12 16)).
  destruct (Z.eqb_spec (be_value (slice header 8 12)) CHUNK_BYTES) as [Hchunk|]; [|done].
  destruct (Z.eqb_spec count 0); [done|].
  destruct (Z.ltb_spec (max_records limits) count); [done|]. cbn [negb orb].
  destruct (Z.ltb_spec (blen env) (HEADER_BYTES + (count - 1) * RECORD_BYTES + 1 + TAG_BYTES)); [done|].
  destruct (Z.ltb_spec (HEADER_BYTES + count * RECORD_BYTES) (blen env)); [done|]. cbn [orb].
  destruct (decrypt_loop _ _ _ _ _ _ _ _ _ _) as [st|] eqn:Hloop; [|done].
  destruct (read_some (d_envelope st)) as [p|] eqn:Hp; [|done].
  destruct (Z.eqb_spec p 0) as [->|]; [|done]. cbn [negb].
  destruct (flush (d_out st)); [|done].
  destruct (d_opened st) as [[m' plen]|] eqn:Hop; [|done]. cbn [ok_or]. intros [= <- <-].
  assert (blen header = 56) as Hh by (unfold header; rewrite blen_app, L1, L2; done).
  assert (0 <= count <= U32_MAX) as Hcnt.
  { pose proof (be_value_bound (slice header 12 16)) as Hbd.
    pose proof (blen_slice header 12 16 ltac:(lia) ltac:(lia)) as Hbl. unfold blen in Hbl.
    replace (length (slice header 12 16)) with 4%nat in Hbd by lia. fold count in Hbd.
    unfold U32_MAX. lia. }
  exists header, (r_bytes r2), st. cbn zeta. fold count. split_and!; try done; try lia;
    try (unfold RECORD_BYTES, CHUNK_BYTES, TAG_BYTES in *; lia); eauto.
  - unfold header. by rewrite S1, S2, <- app_assoc.
  - apply header_back; [done| |done]. unfold header. rewrite <- Hmagic.
    replace 8%nat with (length magic) by (unfold blen in L1; lia). apply take_app_length.
  - rewrite <- Hloop. f_equal; [lia|]. f_equal. unfold mem_reader. destruct r2 as [b2 f2].
    cbn [r_bytes r_fault] in *. f_equal. by rewrite F2, F1.
  - unfold read_some in Hp. by destruct (r_bytes (d_envelope st)).
Qed.

(** The metadata [decrypt] returns was parsed from the first record. *)
Lemma first_opened n key header limits elen plaintext count counter st st' m plen :
  decrypt_loop n key header limits elen plaintext count counter always st = Ok st' ->
  d_opened st = None -> d_opened st' = Some (m, plen) ->
  exists buf, open_first limits plaintext buf None = Ok (m, plen).
Proof.
  destruct n as [|n]; intros H H0 H1; [injection H as <-; congruence|].
  cbn [decrypt_loop] in H. destruct (decrypt_record _ _ _ _ _ _ _ _ st) as [st1|] eqn:Hr; [|done].
  unfold decrypt_record in Hr. destruct (map_err short _) as [[b r]|]; [|done].
  destruct (ok_or _ _) as [data|]; [|done]. rewrite H0 in Hr.
  destruct (open_first limits plaintext data None) as [[m1 p1]|] eqn:Ho; [|done].
  destruct (match overlap _ _ _ _ with Some _ => _ | None => _ end); [|done].
  destruct (report _ _ _); [|done]. injection Hr as <-.
  apply (decrypt_loop_opened _ _ _ _ _ _ _ _ _ _ _ (m1, p1)) in H; [|done].
  rewrite H1 in H. injection H as <- <-. eauto.
Qed.

(** The checks of the first record, with the prefix they read. *)
Record first_spec (limits : Limits) (plaintext : Z) (m : Metadata) (prefix : list byte) : Prop := {
  fs_prefix : prefix_of m prefix;
  fs_name : sanitise_name (name m) = name m;
  fs_type : normalise_media_type (media_type m) = Ok (media_type m);
  fs_size : 0 <= size m <= U64_MAX;
  fs_fits : size m <= plaintext;
  fs_padded : padded_length (blen prefix + size m) = plaintext;
  fs_limit : size m <= max_source_bytes limits
}.

Lemma open_first_inv limits plaintext buf m plen :
  open_first limits plaintext buf None = Ok (m, plen) ->
  first_spec limits plaintext m (slice buf 0 plen) /\ blen (slice buf 0 plen) = plen /\
  plen <= blen buf.
Proof.
  unfold open_first. destruct (parse_metadata buf) as [[m1 p1]|] eqn:Hp; [|done].
  apply parse_metadata_inv in Hp as (P1 & P2 & P3 & P4 & P5 & P6).
  destruct (Z.ltb_spec plaintext (size m1)); [done|].
  destruct (Z.eqb_spec (padded_length (p1 + size m1)) plaintext); [|done]. cbn [negb orb].
  destruct (Z.ltb_spec (max_source_bytes limits) (size m1)); [done|]. intros [= <- <-].
  split_and!; try done. split; try done. by rewrite P2.
Qed.

Lemma prefix_of_fun m p q : prefix_of m p -> prefix_of m q -> p = q.
Proof. intros (j & Hj & ->) (k & Hk & ->). rewrite Hj in Hk. by injection Hk as ->. Qed.

Lemma prefix_of_len m p : prefix_of m p -> 6 <= blen p <= 4100.
Proof.
  intros (j & Hj & ->). apply canonical_metadata_ok in Hj as [_ Hj].
  rewrite blen_app, blen_be_bytes. unfold MAX_METADATA_BYTES in *. lia.
Qed.

Lemma layout_back limits plaintext count m prefix :
  first_spec limits plaintext m prefix ->
  1 <= count <= U32_MAX -> count <= max_records limits ->
  (count - 1) * CHUNK_BYTES < plaintext <= count * CHUNK_BYTES ->
  layout (name m) (media_type m) (size m) limits
  = Ok {| l_metadata := m; l_prefix := prefix; plaintext_len := plaintext; record_count := count |}
  /\ blen prefix + size m <= plaintext.
Proof.
  intros [Hpre Hn Ht Hs Hf Hp Hl] Hc Hmax Hgeo. pose proof (prefix_of_len _ _ Hpre) as Hpl.
  destruct Hpre as (json & Hj & Heq).
  assert (plaintext <= U32_MAX * CHUNK_BYTES) by (unfold CHUNK_BYTES in *; lia).
  assert (blen prefix + size m <= U64_MAX /\ ~ wraps (blen prefix + size m)) as [Hle Hw]
    by (unfold wraps, U32_MAX, U64_MAX, CHUNK_BYTES in *; lia).
  destruct (padded_length_spec (blen prefix + size m)) as (_ & P2 & _); [lia|done|].
  split; [|lia]. unfold layout. rewrite (proj2 (Z.ltb_ge _ _) Hl), Ht, Hn.
  replace {| name := name m; size := size m; media_type := media_type m |} with m by (by destruct m).
  rewrite Hj. cbn zeta. rewrite <- Heq. unfold checked_add. rewrite (proj2 (Z.leb_le _ _) Hle).
  cbn [ok_or]. rewrite Hp.
  rewrite (div_ceil_unique plaintext CHUNK_BYTES count) by (done || lia).
  unfold u32_try_from. rewrite (proj2 (Z.leb_le _ _)) by lia. cbn [ok_or].
  rewrite (proj2 (Z.eqb_neq _ _)) by lia. by rewrite (proj2 (Z.ltb_ge _ _) Hmax).
Qed.

(** An envelope that opens is the one its contents and randomness seal to. *)
Lemma open_then_seal key env limits m bytes :
  open_bytes key env limits = Ok (m, bytes) ->
  blen bytes = size m /\ sanitise_name (name m) = name m /\
  normalise_media_type (media_type m) = Ok (media_type m) /\
  exists fresh, fresh_ok fresh /\
    seal_bytes (Some fresh) key (name m) (media_type m) bytes limits = Ok env.
Proof.
  unfold open_bytes. change (fun _ _ : Z => true) with always.
  destruct (decrypt key _ _ _ _ _) as [[m' w]|] eqn:Hd; [|done]. intros [= -> <-].
  apply decrypt_inv in Hd as (header & rest & st & Henv & Hh & Hback & Hcnt & Hmax & Hgeo & Hloop
    & Hrest & Hw & plen & Hop). cbn zeta in *.
  set (count := be_value (slice header 12 16)) in *.
  set (plaintext := blen env - HEADER_BYTES - count * TAG_BYTES) in *.
  destruct (first_opened _ _ _ _ _ _ _ _ _ _ _ _ Hloop eq_refl Hop) as (buf & Hbuf).
  apply open_first_inv in Hbuf as (Hspec & Hpl & _). set (prefix := slice buf 0 plen) in *.
  destruct (layout_back _ _ count _ _ Hspec Hcnt Hmax Hgeo) as [Hlay Hfit].
  pose proof (prefix_of_len _ _ (fs_prefix _ _ _ _ Hspec)) as Hpb.
  pose proof (fs_size _ _ _ _ Hspec) as Hsz. rewrite <- Hpl in Hop.
  apply (loops_backwards _ _ prefix limits m plaintext count) in Hloop as
    (bufs & e & out & B1 & BL & B2 & B3 & B4 & B5 & B6); try done; try (unfold CHUNK_BYTES in *; lia).
  2:{ by right. }
  2:{ intros b p Hb ->. apply open_first_inv in Hb as (Hb & Hb1 & Hb2).
      split; [|done]. apply (prefix_of_fun m); [apply Hb|apply Hspec]. }
  assert (blen (w_out w) = size m) as Hlen.
  { rewrite <- Hw, B4. cbn [append w_out mem_writer d_out app]. rewrite BL.
    unfold remaining, CHUNK_BYTES. lia. }
  split; [done|]. split; [apply Hspec|]. split; [apply Hspec|].
  exists (recovered header bufs). split; [by apply recovered_ok|].
  unfold seal_bytes, encrypt. cbn [ok_or]. unfold encrypt_with. rewrite Hlen, Hlay. cbn zeta.
  cbn [record_count l_prefix plaintext_len recovered nonce_prefix salt]. rewrite <- Hback.
  rewrite write_all_unlimited by done. change (fun _ _ : Z => true) with always.
  match goal with |- context [encrypt_loop _ _ _ _ ?f _ _ ?t 0 always ?es] =>
    destruct (B6 f t es []) as (hh & ww & Hrun) end; try done.
  { by apply recovered_pads. }
  { cbn [e_source mem_reader r_bytes]. rewrite <- Hw, B4, app_nil_r. done. }
  cbn [recovered] in Hrun. rewrite Hrun. cbn. cbn [d_envelope] in B3. rewrite Henv. f_equal. f_equal.
  cbn [mem_reader r_bytes] in B3. by rewrite B3, Hrest, app_nil_r.
Qed.

(** ** The codec's theorems *)

(** C3: whatever [encrypt_with] accepts to encrypt, under any progress
    callback that let it finish, opens again under the same key: the bytes it
    wrote decrypt to the metadata it reported and exactly the bytes of the
    source; the size and the SHA-256 it reported are those of the bytes it
    wrote, and the name and type are the canonical forms of what it was
    given. *)
Theorem envelope_round_trip key source sb nm mt limits fresh w progress sealed w'
  (Hfresh : fresh_ok fresh) (Hsb : 0 <= sb)
  (H : encrypt_with key source sb nm mt limits fresh w progress = Ok (sealed, w')) :
  exists envelope,
    w_out w' = w_out w ++ envelope /\
    s_envelope_bytes sealed = blen envelope /\ s_sha256 sealed = sha256 envelope /\
    name (s_metadata sealed) = sanitise_name nm /\ size (s_metadata sealed) = sb /\
    normalise_media_type mt = Ok (media_type (s_metadata sealed)) /\
    open_bytes key envelope limits = Ok (s_metadata sealed, r_bytes source).
Proof.
  destruct (encrypt_then_decrypt _ _ _ _ _ _ _ _ _ _ _ Hfresh Hsb H)
    as (env & l & Hl & H1 & _ & H3 & H4 & H5 & _ & H7).
  exists env. split_and!; try done; rewrite ?H3.
  1-3: unfold layout in Hl; destruct (max_source_bytes limits <? sb); [done|];
    destruct (normalise_media_type mt); [|done]; destruct (canonical_metadata _); [|done];
    destruct (ok_or (checked_add _ _) _); [|done]; destruct (ok_or (u32_try_from _) _); [|done];
    destruct (_ || _); [done|]; by injection Hl as <-.
  unfold open_bytes. change (fun _ _ : Z => true) with always.
  by rewrite (H7 mem_writer).
Qed.

(** A layout under some limit is the layout under no limit. *)
Lemma layout_unlimited nm mt sb limits l :
  layout nm mt sb limits = Ok l -> sb <= U64_MAX ->
  layout nm mt sb {| max_source_bytes := U64_MAX |} = Ok l.
Proof.
  unfold layout. cbn [max_source_bytes]. intros H Hsb.
  assert (max_records limits <= max_records {| max_source_bytes := U64_MAX |}) as Hmax.
  { change (max_records {| max_source_bytes := U64_MAX |}) with U32_MAX. unfold max_records.
    unfold u32_try_from. destruct (Z.leb_spec (div_ceil (saturating_add (max_source_bytes limits)
      (4 + MAX_METADATA_BYTES)) CHUNK_BYTES) U32_MAX); lia. }
  destruct (max_source_bytes limits <? sb); [done|]. rewrite (proj2 (Z.ltb_ge _ _) Hsb).
  destruct (normalise_media_type mt); [|done]. destruct (canonical_metadata _); [|done].
  destruct (ok_or (checked_add _ _) _); [|done].
  destruct (ok_or (u32_try_from _) _) as [r|]; [|done].
  destruct (r =? 0); [done|]. destruct (Z.ltb_spec (max_records limits) r); [done|].
  by rewrite (proj2 (Z.ltb_ge (max_records _) r)) by lia.
Qed.

(** The records of a padded plaintext are those of the unpadded one. *)
Lemma padded_records n :
  0 < n -> ~ wraps n -> div_ceil (padded_length n) CHUNK_BYTES = div_ceil n CHUNK_BYTES.
Proof.
  intros Hn Hw. destruct (padded_length_spec n ltac:(lia) Hw) as (H1 & H2 & _ & H4 & _).
  destruct (Z.le_gt_cases n CHUNK_BYTES) as [Hc|Hc].
  - apply H4 in Hc as Hc'. unfold MIN_PADDING_BUCKET in *.
    rewrite !(div_ceil_unique _ CHUNK_BYTES 1) by (unfold CHUNK_BYTES in *; lia). done.
  - rewrite padded_length_large by done. by rewrite div_ceil_mul.
Qed.

(** [layout] accepts every request its limits allow: a source within
    [max_source_bytes] (at most 2^51 bytes, so that the record count fits in
    32 bits) with a valid media type and metadata of at most 4096 bytes.  The
    derived record ceiling never refuses a source the byte ceiling allows, and
    the padded plaintext holds the prefix and the source. *)
Theorem layout_accepts_within_limits nm mt sb limits media json
  (Hsb : 0 <= sb <= max_source_bytes limits) (Hmax : max_source_bytes limits <= 2 ^ 51)
  (Hmt : normalise_media_type mt = Ok media)
  (Hjson : canonical_metadata {| name := sanitise_name nm; size := sb; media_type := media |} = Ok json) :
  exists l, layout nm mt sb limits = Ok l /\
    l_prefix l = be_bytes 4 (blen json) ++ json /\
    blen (l_prefix l) + sb <= plaintext_len l <= record_count l * CHUNK_BYTES /\
    1 <= record_count l <= max_records limits.
Proof.
  apply canonical_metadata_ok in Hjson as Hlen. destruct Hlen as [_ Hlen].
  unfold layout. rewrite (proj2 (Z.ltb_ge _ _)) by lia. rewrite Hmt, Hjson. cbn zeta.
  set (prefix := be_bytes 4 (blen json) ++ json).
  assert (blen prefix = 4 + blen json) as Hp by (unfold prefix; rewrite blen_app, blen_be_bytes; lia).
  unfold MAX_METADATA_BYTES in Hlen. unfold checked_add.
  rewrite (proj2 (Z.leb_le _ U64_MAX)) by (unfold U64_MAX; lia). cbn [ok_or].
  assert (~ wraps (blen prefix + sb)) as Hw by (unfold wraps, CHUNK_BYTES; lia).
  rewrite padded_records by (done || lia).
  set (r := div_ceil (blen prefix + sb) CHUNK_BYTES).
  pose proof (div_ceil_spec (blen prefix + sb) CHUNK_BYTES ltac:(done)) as Hr. fold r in Hr.
  assert (1 <= r <= U32_MAX) as Hr1 by (unfold U32_MAX, CHUNK_BYTES in *; lia).
  assert (r <= max_records limits) as Hr2.
  { unfold max_records, saturating_add, MAX_METADATA_BYTES. rewrite Z.min_l by (unfold U64_MAX; lia).
    pose proof (div_ceil_mono (blen prefix + sb) (max_source_bytes limits + (4 + 4096)) CHUNK_BYTES
      ltac:(done) ltac:(lia)). fold r in H. unfold u32_try_from.
    destruct (Z.leb_spec (div_ceil (max_source_bytes limits + (4 + 4096)) CHUNK_BYTES) U32_MAX); lia. }
  unfold u32_try_from. rewrite (proj2 (Z.leb_le r _)) by lia. cbn [ok_or].
  rewrite (proj2 (Z.eqb_neq r 0)), (proj2 (Z.ltb_ge (max_records limits) r)) by lia. cbn [orb].
  eexists. split; [reflexivity|]. cbn [l_prefix plaintext_len record_count].
  destruct (padded_length_spec (blen prefix + sb) ltac:(lia) Hw) as (_ & P2 & _).
  split_and!; try done; try lia.
  pose proof (div_ceil_spec (padded_length (blen prefix + sb)) CHUNK_BYTES ltac:(done)) as Hd.
  rewrite padded_records in Hd by (done || lia). fold r in Hd. lia.
Qed.

(** The same randomness with its padding always drawn. *)
Definition with_padding (fresh : Fresh) : Fresh :=
  {| nonce_prefix := nonce_prefix fresh; salt := salt fresh;
     padding offset len :=
       match padding fresh offset len with
       | Some b => Some b
       | None => if 0 <? len then Some (replicate (Z.to_nat len) Byte.x00) else None
       end |}.

Lemma with_padding_total fresh : fresh_ok fresh -> fresh_total (with_padding fresh).
Proof.
  intros [F1 F2 F3]. split; [split; [done..|]|]; cbn; intros offset len.
  - intros b. destruct (padding fresh offset len) eqn:E; [intros [= <-]; eauto|].
    destruct (Z.ltb_spec 0 len); [|done]. intros [= <-]. unfold blen. rewrite length_replicate. lia.
  - intros Hl. destruct (padding fresh offset len); [by eexists|].
    rewrite (proj2 (Z.ltb_lt 0 len) Hl). by eexists.
Qed.

(** Drawing the padding is all that can go differently. *)
Lemma encrypt_loop_padding n key header prefix fresh plaintext sb total progress : forall counter st,
  let run f := encrypt_loop n key header prefix f plaintext sb total counter progress st in
  run fresh = Err ERandom \/ run fresh = run (with_padding fresh).
Proof.
  cbn zeta. induction n as [|n IH]; intros counter st; cbn [encrypt_loop]; [by right|].
  unfold encrypt_record, fill_record. cbn [padding with_padding nonce_prefix].
  destruct (padding fresh _ _) as [b|]; [|by left]. cbn [ok_or].
  destruct (match overlap _ _ (blen prefix) sb with Some _ => _ | None => _ end) as [[buffer source]|]; [|by right].
  destruct (ok_or _ _) as [[data tag]|]; [|by right]. destruct (write_all data _) as [out|]; [|by right].
  destruct (write_all tag out); [|by right]. destruct (report _ _ _); [apply IH|by right].
Qed.

Lemma encrypt_with_padding key source sb nm mt limits fresh w progress :
  let run f := encrypt_with key source sb nm mt limits f w progress in
  run fresh = Err ERandom \/ run fresh = run (with_padding fresh).
Proof.
  cbn zeta. unfold encrypt_with. destruct (layout nm mt sb limits) as [l|]; [|by right]. cbn zeta.
  cbn [with_padding nonce_prefix salt]. destruct (write_all _ w); [|by right].
  match goal with |- context [encrypt_loop ?n ?k ?h ?p fresh ?pl ?sb ?t ?c progress ?st] =>
    destruct (encrypt_loop_padding n k h p fresh pl sb t progress c st) as [->| ->] end; [by left|by right].
Qed.

(** With all randomness drawn, encrypting bytes in memory succeeds, and its size
    is the predicted one. *)
Lemma encrypt_mem_total key nm mt bytes limits fresh l :
  fresh_total fresh -> layout nm mt (blen bytes) limits = Ok l -> blen bytes <= U64_MAX ->
  exists sealed w',
    encrypt_with key (mem_reader bytes) (blen bytes) nm mt limits fresh mem_writer always = Ok (sealed, w') /\
    envelope_bytes nm mt (blen bytes) = Ok (blen (w_out w')).
Proof.
  intros Hf Hl Hlen. destruct (encrypt_with_total key (mem_reader bytes) nm mt limits fresh mem_writer l)
    as (sealed & w' & Hrun); try done. cbn [mem_reader r_bytes] in Hrun.
  apply encrypt_then_decrypt in Hrun as Hd; [|by apply Hf|apply blen_nonneg].
  destruct Hd as (env & l' & Hl' & Hw & _ & _ & _ & _ & Hsize & _).
  exists sealed, w'. split; [exact Hrun|].
  rewrite Hl in Hl'. injection Hl' as <-. unfold envelope_bytes.
  rewrite (layout_unlimited _ _ _ _ _ Hl Hlen). by rewrite Hw, <- Hsize.
Qed.

(** C39: sealing always ends, and says why it fails.  If the nonce and salt
    cannot be drawn, [seal_bytes] fails with [Random]; if they are, it fails
    with [layout]'s error exactly when [layout] refuses the request; otherwise
    it returns an envelope of exactly the size [envelope_bytes] predicts
    without encrypting, unless the padding of some record cannot be drawn,
    when it fails with [Random]. *)
Theorem seal_bytes_total draw key nm mt bytes limits
  (Hfresh : forall fresh, draw = Some fresh -> fresh_ok fresh) (Hlen : blen bytes <= U64_MAX) :
  match draw, layout nm mt (blen bytes) limits with
  | None, _ => seal_bytes draw key nm mt bytes limits = Err ERandom
  | Some _, Err e => seal_bytes draw key nm mt bytes limits = Err e
  | Some fresh, Ok _ =>
      (exists envelope, seal_bytes draw key nm mt bytes limits = Ok envelope /\
         envelope_bytes nm mt (blen bytes) = Ok (blen envelope)) \/
      seal_bytes draw key nm mt bytes limits = Err ERandom /\ ~ fresh_total fresh
  end.
Proof.
  destruct draw as [fresh|]; [|done]. specialize (Hfresh fresh eq_refl).
  unfold seal_bytes, encrypt. cbn [ok_or]. change (fun _ _ : Z => true) with always.
  destruct (layout nm mt (blen bytes) limits) as [l|e] eqn:Hl.
  2: { unfold encrypt_with. by rewrite Hl. }
  destruct (encrypt_with_padding key (mem_reader bytes) (blen bytes) nm mt limits fresh mem_writer always) as [Hr|Hr].
  - right. rewrite Hr. split; [done|]. intros Hf.
    destruct (encrypt_mem_total key nm mt bytes limits fresh l Hf Hl Hlen) as (sealed & w' & H & _). congruence.
  - left. destruct (encrypt_mem_total key nm mt bytes limits (with_padding fresh) l
      (with_padding_total fresh Hfresh) Hl Hlen) as (sealed & w' & H & Hs).
    exists (w_out w'). by rewrite Hr, H.
Qed.

(** Sealing a canonical name and type and opening the result. *)
Lemma seal_then_open fresh key env limits m bytes :
  size m = blen bytes -> sanitise_name (name m) = name m ->
  normalise_media_type (media_type m) = Ok (media_type m) -> fresh_ok fresh ->
  seal_bytes (Some fresh) key (name m) (media_type m) bytes limits = Ok env ->
  open_bytes key env limits = Ok (m, bytes).
Proof.
  intros Hs Hn Ht Hf Hseal. unfold seal_bytes, encrypt in Hseal.
  cbn [ok_or] in Hseal. change (fun _ _ : Z => true) with always in Hseal.
  destruct (encrypt_with _ _ _ _ _ _ _ _ _) as [[sealed w']|] eqn:Hrun; [|done].
  injection Hseal as <-.
  apply encrypt_then_decrypt in Hrun as (e & l & Hl & Hw & _ & _ & _ & _ & _ & Hd);
    [|done|apply blen_nonneg].
  rewrite Hw. cbn [mem_writer w_out app]. unfold open_bytes.
  change (fun _ _ : Z => true) with always. rewrite (Hd mem_writer) by done.
  cbn [mem_reader r_bytes append mem_writer w_out app]. do 2 f_equal.
  unfold layout in Hl. destruct (max_source_bytes limits <? _); [done|]. rewrite Ht, Hn in Hl.
  destruct (canonical_metadata _); [|done]. destruct (ok_or (checked_add _ _) _); [|done].
  destruct (ok_or (u32_try_from _) _); [|done]. destruct (_ || _); [done|]. injection Hl as <-.
  cbn [l_metadata]. rewrite <- Hs. by destruct m.
Qed.

(** What was sealed has the size predicted without sealing. *)
Lemma sealed_size fresh key nm mt bytes limits env :
  fresh_ok fresh -> blen bytes <= U64_MAX ->
  seal_bytes (Some fresh) key nm mt bytes limits = Ok env ->
  envelope_bytes nm mt (blen bytes) = Ok (blen env).
Proof.
  intros Hf Hlen Hseal. unfold seal_bytes, encrypt in Hseal. cbn [ok_or] in Hseal.
  destruct (encrypt_with _ _ _ _ _ _ _ _ _) as [[sealed w']|] eqn:Hrun; [|done]. injection Hseal as <-.
  apply encrypt_then_decrypt in Hrun as (e & l & Hl & Hw & _ & _ & _ & _ & Hsize & _);
    [|done|apply blen_nonneg].
  unfold envelope_bytes. rewrite (layout_unlimited _ _ _ _ _ Hl Hlen). by rewrite Hw, <- Hsize.
Qed.

(** C4: canonicity: a byte string opens to [(m, bytes)] if and only if [m] is
    canonical with the length of [bytes] and the byte string is what sealing
    [bytes] under that name and type produces with some randomness.  So no
    two different headers, paddings or record splits stand for one opening,
    and nothing but an output of the encoder is accepted. *)
Theorem open_bytes_iff_sealed key env limits m bytes :
  open_bytes key env limits = Ok (m, bytes) <->
  size m = blen bytes /\ sanitise_name (name m) = name m /\
  normalise_media_type (media_type m) = Ok (media_type m) /\
  exists fresh, fresh_ok fresh /\
    seal_bytes (Some fresh) key (name m) (media_type m) bytes limits = Ok env.
Proof.
  split.
  - intros H. apply open_then_seal in H as (H1 & H2 & H3 & H4). by split_and!.
  - intros (Hs & Hn & Ht & fresh & Hf & Hseal). by eapply seal_then_open.
Qed.
End Canon.

(** ** A concrete instance *)

(** A cipher that leaves the data in clear with a constant tag satisfies the
    functional laws (secrecy is not among them); the JSON table knows one
    metadata value. *)
Definition toy_crypto : Crypto :=
  {| hkdf _ _ _ := [];
     gcm_seal _ _ _ p := if blen p <=? CHUNK_BYTES then Some (p, replicate 16 Byte.x00) else None;
     gcm_open _ _ _ c t :=
       if (blen c <=? CHUNK_BYTES) && bool_decide (t = replicate 16 Byte.x00) then Some c else None;
     sha256 l := take 32 l |}.

Lemma toy_crypto_laws : CryptoLaws toy_crypto.
Proof.
  split; cbn [gcm_seal gcm_open toy_crypto].
  - intros _ _ _ p H. rewrite (proj2 (Z.leb_le _ _) H). eauto.
  - intros _ _ _ p c t. destruct (_ <=? _); [|done]. intros [= <- <-]. done.
  - intros _ _ _ p c t. destruct (blen p <=? CHUNK_BYTES) eqn:E; [|done]. intros [= <- <-].
    by rewrite E.
  - intros _ _ _ p c t. destruct (blen c <=? CHUNK_BYTES) eqn:E; [|done]. cbn [andb].
    destruct (bool_decide_reflect (t = replicate 16 Byte.x00)) as [->|]; [|done].
    intros [= <-]. by rewrite E.
Qed.

Definition toy_metadata : Metadata :=
  {| name := lit "a.txt"; size := 3; media_type := lit "text/plain" |}.

Definition toy_json : Json :=
  {| json_encode m := if decide (m = toy_metadata) then Some (ascii_bytes "{}") else None;
     json_decode l := if decide (l = ascii_bytes "{}") then Some toy_metadata else None |}.

Lemma toy_json_laws : JsonLaws toy_json.
Proof.
  split; cbn [json_encode json_decode toy_json]; intros m l.
  - destruct (decide (m = toy_metadata)) as [->|]; [|done]. by intros [= <-].
  - destruct (decide (m = toy_metadata)) as [->|]; [|done]. by intros [= <-].
  - destruct (decide (m = toy_metadata)) as [->|]; [|done]. by intros [= <-].
  - destruct (decide (l = ascii_bytes "{}")) as [->|]; [|done]. by intros [= <-].
Qed.

Definition toy_fresh : Fresh :=
  {| nonce_prefix := replicate 8 Byte.x01; salt := replicate 32 Byte.x02;
     padding _ len := if 0 <? len then Some (replicate (Z.to_nat len) Byte.xff) else None |}.

Lemma toy_fresh_total : fresh_total toy_fresh.
Proof.
  split; [split; try done|]; cbn [toy_fresh padding]; intros offset len.
  - intros b. destruct (Z.ltb_spec 0 len); [|done]. intros [= <-]. unfold blen.
    rewrite length_replicate. lia.
  - intros H. rewrite (proj2 (Z.ltb_lt _ _) H). eauto.
Qed.

Definition toy_bytes : list byte := ascii_bytes "abc".

#[local] Existing Instances ascii_unicode ascii_unicode_laws toy_crypto toy_crypto_laws
  toy_json toy_json_laws.

Lemma toy_layout :
  layout (lit "d/a.txt") (lit "TEXT/plain") 3 BROWSER
  = Ok {| l_metadata := toy_metadata; l_prefix := be_bytes 4 2 ++ ascii_bytes "{}";
          plaintext_len := MIN_PADDING_BUCKET; record_count := 1 |}.
Proof. vm_compute. reflexivity. Qed.

Lemma toy_run :
  exists sealed w',
    encrypt_with toy_key (mem_reader toy_bytes) 3 (lit "d/a.txt") (lit "TEXT/plain") BROWSER
      toy_fresh mem_writer always = Ok (sealed, w').
Proof.
  pose proof (encrypt_with_total toy_key (mem_reader toy_bytes) (lit "d/a.txt") (lit "TEXT/plain")
    BROWSER toy_fresh mem_writer) as H.
  change (blen (r_bytes (mem_reader toy_bytes))) with 3 in H.
  exact (H _ toy_fresh_total toy_layout eq_refl eq_refl eq_refl).
Qed.

Lemma layout_accepts_within_limits_witness :
  exists l, layout (lit "d/a.txt") (lit "TEXT/plain") 3 BROWSER = Ok l /\
    l_prefix l = be_bytes 4 (blen (ascii_bytes "{}")) ++ ascii_bytes "{}" /\
    blen (l_prefix l) + 3 <= plaintext_len l <= record_count l * CHUNK_BYTES /\
    1 <= record_count l <= max_records BROWSER.
Proof.
  apply (layout_accepts_within_limits _ _ _ _ (lit "text/plain")); vm_compute; done.
Defined.

Lemma envelope_round_trip_witness :
  exists sealed w' envelope,
    encrypt_with toy_key (mem_reader toy_bytes) 3 (lit "d/a.txt") (lit "TEXT/plain") BROWSER
      toy_fresh mem_writer always = Ok (sealed, w') /\
    w_out w' = envelope /\
    open_bytes toy_key envelope BROWSER = Ok (s_metadata sealed, toy_bytes).
Proof.
  destruct toy_run as (sealed & w' & H).
  destruct (envelope_round_trip toy_key (mem_reader toy_bytes) 3 _ _ _ toy_fresh mem_writer always
    sealed w' (ft_ok _ toy_fresh_total) ltac:(lia) H) as (env & H1 & _ & _ & _ & _ & _ & H2).
  exists sealed, w', env. split; [exact H|]. split; [exact H1|exact H2].
Defined.

Lemma seal_bytes_total_witness :
  exists envelope,
    seal_bytes (Some toy_fresh) toy_key (lit "d/a.txt") (lit "TEXT/plain") toy_bytes BROWSER
      = Ok envelope /\
    envelope_bytes (lit "d/a.txt") (lit "TEXT/plain") 3 = Ok (blen envelope).
Proof.
  pose proof (seal_bytes_total (Some toy_fresh) toy_key (lit "d/a.txt") (lit "TEXT/plain") toy_bytes BROWSER
    ltac:(intros f [= <-]; apply toy_fresh_total) ltac:(vm_compute; done)) as H.
  change (blen toy_bytes) with 3 in H. rewrite toy_layout in H.
  destruct H as [H|[_ H]]; [exact H|destruct (H toy_fresh_total)].
Defined.

Lemma toy_layout_canonical :
  layout (name toy_metadata) (media_type toy_metadata) (blen (r_bytes (mem_reader toy_bytes))) BROWSER
  = Ok {| l_metadata := toy_metadata; l_prefix := be_bytes 4 2 ++ ascii_bytes "{}";
          plaintext_len := MIN_PADDING_BUCKET; record_count := 1 |}.
Proof. vm_compute. reflexivity. Qed.

Lemma toy_canonical_seal :
  exists envelope,
    seal_bytes (Some toy_fresh) toy_key (name toy_metadata) (media_type toy_metadata) toy_bytes
      BROWSER = Ok envelope.
Proof.
  pose proof (encrypt_with_total toy_key (mem_reader toy_bytes) (name toy_metadata)
    (media_type toy_metadata) BROWSER toy_fresh mem_writer _ toy_fresh_total toy_layout_canonical
    eq_refl eq_refl eq_refl) as (sealed & w' & H).
  exists (w_out w'). unfold seal_bytes, encrypt. cbn [ok_or].
  change (fun _ _ : Z => true) with always. cbn [mem_reader r_bytes] in H.
  unfold mem_reader in *. by rewrite H.
Qed.

Lemma open_bytes_iff_sealed_witness :
  exists envelope,
    open_bytes toy_key envelope BROWSER = Ok (toy_metadata, toy_bytes).
Proof.
  destruct toy_canonical_seal as (envelope & H).
  exists envelope. apply open_bytes_iff_sealed.
  split; [reflexivity|]. split; [vm_compute; reflexivity|]. split; [vm_compute; reflexivity|].
  exists toy_fresh. split; [apply toy_fresh_total|exact H].
Defined.
