(* ===== verification/Gf256.v ===== *)
(** * GF(256): the arithmetic of the erasure code

    Models [mul] and [power] of [crates/wildbloomd/src/replicas/coding.rs] and
    shows that with [^] as addition they are a field: the exhaustive checks
    are over one or two bytes, the three-byte laws follow by linearity. *)
From Stdlib Require Import Strings.Byte Ring.
From S2P Require Import Prelude.

(** ** The code *)

(** The [while b != 0] loop of [mul] on [u8] registers: [a << 1] drops the
    ninth bit.  [b >>= 1] reaches zero within eight rounds. *)
Fixpoint mul_loop (fuel : nat) (a b out : Z) : Z :=
  match fuel with
  | O => out
  | S fuel =>
      if b =? 0 then out
      else
        let out := if Z.land b 1 =? 0 then out else Z.lxor out a in
        let a := Z.lxor (Z.land (Z.shiftl a 1) 255)
                        (if Z.land a 128 =? 0 then 0 else 0x1d) in
        mul_loop fuel a (Z.shiftr b 1) out
  end.

Definition mul (a b : byte) : byte := z2b (mul_loop 8 (b2z a) (b2z b) 0).

Definition xor (a b : byte) : byte := z2b (Z.lxor (b2z a) (b2z b)).

(** [(0..n).fold(1, |v, _| mul(v, a))]. *)
Fixpoint power (a : byte) (n : nat) : byte :=
  match n with O => x01 | S n => mul (power a n) a end.

(** ** Addition *)

Lemma lxor_byte_range a b : 0 <= Z.lxor (b2z a) (b2z b) < 256.
Proof.
  pose proof (b2z_range a). pose proof (b2z_range b).
  split; [apply Z.lxor_nonneg; lia|].
  destruct (Z.eq_dec (Z.lxor (b2z a) (b2z b)) 0) as [->|Hn]; [lia|].
  assert (0 < Z.lxor (b2z a) (b2z b)).
  { pose proof (proj2 (Z.lxor_nonneg (b2z a) (b2z b)) ltac:(lia)). lia. }
  change 256 with (2 ^ 8). apply Z.log2_lt_pow2; [lia|].
  pose proof (Z.log2_lxor (b2z a) (b2z b) ltac:(lia) ltac:(lia)).
  assert (forall c, 0 <= c < 256 -> Z.log2 c < 8) as Hl.
  { intros c Hc. destruct (Z.eq_dec c 0) as [->|]; [done|].
    apply Z.log2_lt_pow2; [lia|]. change (2 ^ 8) with 256. lia. }
  pose proof (Hl (b2z a)). pose proof (Hl (b2z b)). lia.
Qed.

Lemma b2z_xor a b : b2z (xor a b) = Z.lxor (b2z a) (b2z b).
Proof. unfold xor. rewrite b2z_z2b. apply Z.mod_small, lxor_byte_range. Qed.

Ltac xor_tac := intros; apply b2z_inj; rewrite ?b2z_xor.

Lemma xor_comm a b : xor a b = xor b a.
Proof. xor_tac. apply Z.lxor_comm. Qed.
Lemma xor_assoc a b c : xor a (xor b c) = xor (xor a b) c.
Proof. xor_tac. symmetry. apply Z.lxor_assoc. Qed.
Lemma xor_0_l a : xor x00 a = a.
Proof. xor_tac. apply Z.lxor_0_l. Qed.
Lemma xor_0_r a : xor a x00 = a.
Proof. xor_tac. apply Z.lxor_0_r. Qed.
Lemma xor_self a : xor a a = x00.
Proof. xor_tac. apply Z.lxor_nilpotent. Qed.

(** ** Multiplication *)

(** One step of the shift register, and the product as a sum over the bits of
    the second operand: the form in which linearity is visible. *)
Definition xtime (a : byte) : byte :=
  z2b (Z.lxor (Z.land (Z.shiftl (b2z a) 1) 255) (if Z.land (b2z a) 128 =? 0 then 0 else 0x1d)).

Definition half (b : byte) : byte := z2b (Z.shiftr (b2z b) 1).
Definition bit0 (b : byte) : bool := Z.odd (b2z b).

Fixpoint mul_bits (n : nat) (a b : byte) : byte :=
  match n with
  | O => x00
  | S n => xor (if bit0 b then a else x00) (mul_bits n (xtime a) (half b))
  end.

Lemma half_spec c : b2z (half c) = Z.shiftr (b2z c) 1.
Proof.
  unfold half. rewrite b2z_z2b. apply Z.mod_small.
  rewrite Z.shiftr_div_pow2 by lia. pose proof (b2z_range c). change (2 ^ 1) with 2.
  split; [apply Z.div_pos; lia | apply Z.div_lt_upper_bound; lia].
Qed.

Lemma half_xor a b : half (xor a b) = xor (half a) (half b).
Proof. apply b2z_inj. rewrite b2z_xor, !half_spec, b2z_xor. apply Z.shiftr_lxor. Qed.

Lemma bit0_xor a b : bit0 (xor a b) = xorb (bit0 a) (bit0 b).
Proof. unfold bit0. rewrite b2z_xor, <- !Z.bit0_odd. apply Z.lxor_spec. Qed.

(** Equations between sums, in characteristic two, bit by bit. *)
Ltac xor_bits :=
  apply b2z_inj; rewrite ?b2z_xor; apply Z.bits_inj'; intros ? _; rewrite ?Z.lxor_spec;
  repeat match goal with |- context [Z.testbit ?a ?i] => destruct (Z.testbit a i) end;
  reflexivity.

Lemma xor_swap4 a b c d : xor (xor a b) (xor c d) = xor (xor a c) (xor b d).
Proof. rewrite <- !xor_assoc, (xor_assoc b c d), (xor_comm b c), <- (xor_assoc c b d). done. Qed.

(** *** Additive functions on bytes

    A function that commutes with [xor] is determined by its values on the
    eight powers of two, so an equation between two such functions is a
    check of eight values. *)
Definition additive (f : byte -> byte) : Prop := forall a b, f (xor a b) = xor (f a) (f b).

Definition basis : list byte := map (fun i => z2b (2 ^ i)) [0; 1; 2; 3; 4; 5; 6; 7].

Definition span (b : byte) : byte :=
  foldr (fun i acc => xor (if Z.testbit (b2z b) i then z2b (2 ^ i) else x00) acc) x00
        [0; 1; 2; 3; 4; 5; 6; 7].

Lemma span_id b : span b = b.
Proof. apply byte_eqb_eq. revert b. apply forall_byte. vm_compute. reflexivity. Qed.

Lemma additive_0 f : additive f -> f x00 = x00.
Proof. intros H. rewrite <- (xor_self x00), H. apply xor_self. Qed.

Lemma additive_ext f g :
  additive f -> additive g -> (forall a, In a basis -> f a = g a) -> forall b, f b = g b.
Proof.
  intros Hf Hg Hb b. rewrite <- (span_id b). unfold span.
  assert (forall l, (forall i, In i l -> In (z2b (2 ^ i)) basis) ->
    f (foldr (fun i acc => xor (if Z.testbit (b2z b) i then z2b (2 ^ i) else x00) acc) x00 l) =
    g (foldr (fun i acc => xor (if Z.testbit (b2z b) i then z2b (2 ^ i) else x00) acc) x00 l))
    as Hl.
  { induction l as [|i l IH]; intros Hin; simpl.
    - by rewrite !additive_0.
    - rewrite Hf, Hg, IH by (intros; apply Hin; by right). f_equal.
      destruct (Z.testbit (b2z b) i); [apply Hb, Hin; by left|by rewrite !additive_0]. }
  apply Hl. intros i Hi. unfold basis. by apply (in_map (fun i => z2b (2 ^ i))).
Qed.

Lemma xtime_xor a b : xtime (xor a b) = xor (xtime a) (xtime b).
Proof.
  assert (forall c, xtime c = xor (z2b (Z.land (Z.shiftl (b2z c) 1) 255))
                              (if Z.testbit (b2z c) 7 then x1d else x00)) as Hx.
  { intros c. apply byte_eqb_eq. revert c. apply forall_byte. vm_compute. reflexivity. }
  rewrite !Hx, xor_swap4. f_equal.
  - apply b2z_inj. rewrite b2z_z2b, !b2z_xor, !b2z_z2b, Z.shiftl_lxor.
    change 256 with (2 ^ 8). rewrite <- !Z.land_ones by lia. apply Z.bits_inj'. intros n Hn.
    repeat rewrite ?Z.lxor_spec, ?Z.land_spec.
    destruct (Z.testbit (Z.shiftl (b2z a) 1) n), (Z.testbit (Z.shiftl (b2z b) 1) n),
      (Z.testbit 255 n), (Z.testbit (Z.ones 8) n); done.
  - rewrite b2z_xor, Z.lxor_spec.
    by destruct (Z.testbit (b2z a) 7), (Z.testbit (b2z b) 7).
Qed.

Lemma mul_bits_0_r n a : mul_bits n a x00 = x00.
Proof.
  revert a; induction n as [|n IH]; intros a; cbn [mul_bits]; [done|].
  change (half x00) with x00. rewrite IH. reflexivity.
Qed.

Lemma mul_loop_bits n a b o :
  mul_loop n (b2z a) (b2z b) (b2z o) = b2z (xor o (mul_bits n a b)).
Proof.
  revert a b o; induction n as [|n IH]; intros a b o; cbn [mul_loop mul_bits].
  - by rewrite xor_0_r.
  - destruct (b2z b =? 0) eqn:Eb.
    + assert (b = x00) as -> by (apply b2z_inj; change (b2z x00) with 0; lia). by rewrite mul_bits_0_r, !xor_0_r.
    + assert (forall p q : Z, (if Z.land (b2z b) 1 =? 0 then p else q) = if bit0 b then q else p)
        as Hb.
      { intros p q. unfold bit0. change 1 with (Z.ones 1). rewrite Z.land_ones by lia.
        change (2 ^ 1) with 2. rewrite Zmod_odd. by destruct (Z.odd (b2z b)). }
      assert (Z.lxor (Z.land (Z.shiftl (b2z a) 1) 255) (if Z.land (b2z a) 128 =? 0 then 0 else 29)
              = b2z (xtime a)) as ->.
      { apply Z.eqb_eq. revert a. clear. apply forall_byte. vm_compute. reflexivity. }
      rewrite Hb, <- half_spec, xor_assoc, <- IH. f_equal.
      destruct (bit0 b); [by rewrite b2z_xor|by rewrite xor_0_r].
Qed.

Lemma mul_as_bits a b : mul a b = mul_bits 8 a b.
Proof.
  unfold mul. change 0 with (b2z x00). rewrite mul_loop_bits, xor_0_l. apply z2b_b2z.
Qed.

Lemma mul_bits_xor_r n a : additive (mul_bits n a).
Proof.
  intros b c. revert a b c; induction n as [|n IH]; intros a b c; simpl; [done|].
  rewrite half_xor, IH, bit0_xor, xor_swap4. f_equal.
  destruct (bit0 b), (bit0 c); simpl; by rewrite ?xor_self, ?xor_0_l, ?xor_0_r.
Qed.

Lemma mul_bits_xor_l n b : additive (fun a => mul_bits n a b).
Proof.
  intros a c. revert a b c; induction n as [|n IH]; intros a b c; simpl; [done|].
  rewrite xtime_xor, IH, xor_swap4. f_equal. by destruct (bit0 b).
Qed.

Lemma mul_xor_r a b c : mul a (xor b c) = xor (mul a b) (mul a c).
Proof. rewrite !mul_as_bits. apply mul_bits_xor_r. Qed.

Lemma mul_xor_l a b c : mul (xor a b) c = xor (mul a c) (mul b c).
Proof. rewrite !mul_as_bits. apply (mul_bits_xor_l 8 c). Qed.

(** A check for every byte against the eight basis elements. *)
Lemma forall_basis (P : byte -> byte -> bool) :
  forallb (fun b => forallb (fun a => P a b) all_bytes) basis = true ->
  forall a b, In b basis -> P a b = true.
Proof.
  intros H a b Hb. apply (forall_byte (fun a => P a b)).
  exact (proj1 (forallb_forall _ basis) H b Hb).
Qed.

Lemma mul_comm a b : mul a b = mul b a.
Proof.
  revert b. apply additive_ext; intros b c.
  - apply mul_xor_r.
  - apply mul_xor_l.
  - intros. apply byte_eqb_eq. revert a b c.
    apply (forall_basis (fun a b => byte_eqb (mul a b) (mul b a))). vm_compute. reflexivity.
Qed.

Lemma mul_xtime a b : mul a (xtime b) = xtime (mul a b).
Proof.
  revert b. apply additive_ext; intros b c.
  - by rewrite xtime_xor, mul_xor_r.
  - by rewrite mul_xor_r, xtime_xor.
  - apply byte_eqb_eq. revert a b c.
    apply (forall_basis (fun a b => byte_eqb (mul a (xtime b)) (xtime (mul a b)))).
    vm_compute. reflexivity.
Qed.

Lemma mul_0_r a : mul a x00 = x00.
Proof. rewrite mul_as_bits. apply mul_bits_0_r. Qed.

Lemma mul_0_l a : mul x00 a = x00.
Proof. rewrite mul_comm. apply mul_0_r. Qed.

Lemma mul_1_l a : mul x01 a = a.
Proof. apply byte_eqb_eq. revert a. apply forall_byte. vm_compute. reflexivity. Qed.

Lemma mul_1_r a : mul a x01 = a.
Proof. rewrite mul_comm. apply mul_1_l. Qed.

Lemma mul_bits_mul n a b c : mul_bits n (mul a b) c = mul a (mul_bits n b c).
Proof.
  revert b c; induction n as [|n IH]; intros b c; simpl; [by rewrite mul_0_r|].
  rewrite <- mul_xtime, IH, mul_xor_r. f_equal. destruct (bit0 c); by rewrite ?mul_0_r.
Qed.

Lemma mul_assoc a b c : mul a (mul b c) = mul (mul a b) c.
Proof. rewrite (mul_as_bits (mul a b)), (mul_as_bits b). symmetry. apply mul_bits_mul. Qed.

(** [power(a, 254)] is the multiplicative inverse used by [invert]. *)
Lemma power_inverse a : a <> x00 -> mul a (power a 254) = x01.
Proof.
  intros Ha.
  assert (byte_eqb a x00 || byte_eqb (mul a (power a 254)) x01 = true) as H.
  { revert a Ha. intros a _. revert a. apply forall_byte. vm_compute. reflexivity. }
  apply orb_true_iff in H as [H|H]; apply byte_eqb_eq in H; done.
Qed.

Lemma mul_integral a b : mul a b = x00 -> a = x00 \/ b = x00.
Proof.
  intros H. destruct (decide (a = x00)) as [|Ha]; [by left|right].
  rewrite <- (mul_1_l b), <- (power_inverse a Ha), (mul_comm a), <- mul_assoc, H.
  apply mul_0_r.
Qed.

(** The commutative ring, so that [ring] works on bytes; in characteristic
    two every element is its own opposite. *)
Lemma gf256_ring :
  ring_theory x00 x01 xor mul xor (fun a => a) (@eq byte).
Proof.
  constructor; intros.
  - apply xor_0_l.
  - apply xor_comm.
  - apply xor_assoc.
  - apply mul_1_l.
  - apply mul_comm.
  - apply mul_assoc.
  - apply mul_xor_l.
  - done.
  - apply xor_self.
Qed.

Add Ring gf256 : gf256_ring.

Lemma xor_eq_0 a b : xor a b = x00 -> a = b.
Proof. intros H. rewrite <- (xor_0_l b), <- H, <- xor_assoc, xor_self, xor_0_r. done. Qed.

Create Rewrite HintDb gf.
#[export] Hint Rewrite xor_0_l xor_0_r xor_self mul_0_l mul_0_r mul_1_l mul_1_r : gf.

Lemma power_0 a : power a 0 = x01.
Proof. done. Qed.

Lemma power_S a n : power a (S n) = mul (power a n) a.
Proof. done. Qed.

#[global] Opaque power mul xor.
