(* ===== verification/Coding.v ===== *)
(** * The erasure code of the pool repair process

    Models [crates/wildbloomd/src/replicas/coding.rs]: Gauss-Jordan inversion
    over GF(256), the systematic generator matrix, and [regenerate], which
    rebuilds all [n] parts of a pool from any [k] of them.  The main theorem
    says that from any [k] distinct parts, in any order, the rebuilt parts are
    exactly the original ones. *)
From Stdlib Require Import Strings.Byte Ring.
From S2P Require Import Prelude EnvelopeFormat Gf256.

#[global] Instance byte_inhabited : Inhabited byte := populate x00.

(** ** The code *)

(** The outcomes of the module; [Panic] stands for an index out of range. *)
Inductive coding_error :=
| Internal
| Configuration (message : string)
| StateIo
| Panic.

Abbreviation Matrix := (list (list byte)).
Definition STRIPE : Z := 64 * 1024.

(** [for (value, p) in row.iter_mut().zip(other)]: positions beyond the
    shorter list keep their value. *)
Fixpoint zip_update (f : byte -> byte -> byte) (row other : list byte) : list byte :=
  match row, other with
  | v :: row, p :: other => f v p :: zip_update f row other
  | _, _ => row
  end.

Definition u8_from (b : bool) : byte := if b then x01 else x00.

Definition augment (matrix : Matrix) : Matrix :=
  imap (fun r row => row ++ map (fun c => u8_from (r =? c)%nat) (seq 0 (length matrix))) matrix.

(** [(col..n).find(|r| work[*r][col] != 0)]. *)
Definition find_pivot (work : Matrix) (col n : nat) : option nat :=
  List.find (fun r => negb (byte_eqb ((work !!! r) !!! col) x00)) (seq col (n - col)).

Definition swap_rows (work : Matrix) (i j : nat) : Matrix :=
  <[i := work !!! j]> (<[j := work !!! i]> work).

(** The body of [for col in 0..n]. *)
Definition invert_step (n col : nat) (work : Matrix) : result coding_error Matrix :=
  let? pivot := ok_or (find_pivot work col n) Internal in
  let work := swap_rows work col pivot in
  let scale := power ((work !!! col) !!! col) 254 in
  let work := <[col := map (fun v => mul v scale) (work !!! col)]> work in
  let pivot_row := work !!! col in
  Ok (imap (fun r row =>
              if (r =? col)%nat then row
              else let factor := row !!! col in
                   zip_update (fun value p => xor value (mul factor p)) row pivot_row) work).

Fixpoint invert_loop (n : nat) (cols : list nat) (work : Matrix) : result coding_error Matrix :=
  match cols with
  | [] => Ok work
  | col :: cols => let? work := invert_step n col work in invert_loop n cols work
  end.

Definition invert (matrix : Matrix) : result coding_error Matrix :=
  let n := length matrix in
  let? work := invert_loop n (seq 0 n) (augment matrix) in
  Ok (map (drop n) work).

Definition enumerate {A} (l : list A) : list (nat * A) := zip (seq 0 (length l)) l.

Definition product (a b : Matrix) : Matrix :=
  map (fun row =>
         map (fun c => foldl (fun s '(i, v) => xor s (mul v ((b !!! i) !!! c))) x00 (enumerate row))
             (seq 0 (length (b !!! 0%nat)))) a.

Definition vandermonde (k n : nat) : Matrix :=
  map (fun r => map (fun c => power (z2b (Z.of_nat r)) c) (seq 0 k)) (seq 0 n).

Definition generator (k n : nat) : result coding_error Matrix :=
  if ((k <? 2) || (n <=? k) || (16 <? n))%nat then Err Internal
  else
    let v := vandermonde k n in
    let? i := invert (take k v) in
    Ok (product v i).

(** The inner loop of [combine]: one 256-entry table per coefficient. *)
Definition combine_one (coefficient : byte) (input out : list byte) : list byte :=
  if byte_eqb coefficient x00 then out
  else
    let table := map (fun b => mul coefficient b) all_bytes in
    zip_update (fun dst src => xor dst (table !!! Z.to_nat (b2z src))) out input.

Fixpoint combine_loop (row : list byte) (inputs : list (list byte)) (out : list byte)
    : list byte :=
  match row, inputs with
  | coefficient :: row, input :: inputs =>
      combine_loop row inputs (combine_one coefficient input out)
  | _, _ => out
  end.

Definition combine (row : list byte) (inputs : list (list byte)) (count : nat) : list byte :=
  combine_loop row inputs (replicate count x00).

(** The receipt fields the repair reads ([pool::Part], [pool::Payload],
    [pool::Manifest]). *)
Record Node := { node_id : string; node_origin : string; node_group : string; node_weight : Z }.
Record Part := {
  part_index : nat; part_sha256 : string; part_size : Z; part_targets : list Node }.
Record Payload := { payload_sha256 : string; payload_size : Z; payload_encryption : string }.
Record Manifest := {
  manifest_type : string; manifest_version : Z; manifest_mode : string;
  manifest_profile : string; payload : Payload;
  required : nat; total : nat; copies : Z; parts : list Part }.

(** Which file operations succeed: creating part [i], writing to it at an
    offset, opening it again and reading it back at an offset. *)
Record Disk := {
  create_ok : nat -> bool;
  write_ok : nat -> Z -> bool;
  reopen_ok : nat -> bool;
  reread_ok : nat -> Z -> bool
}.

(** [reader.read_exact(input)] on the rest of a file. *)
Definition read_exact (count : Z) (reader : list byte)
    : result coding_error (list byte * list byte) :=
  if Z.of_nat (length reader) <? count then Err StateIo
  else Ok (take (Z.to_nat count) reader, drop (Z.to_nat count) reader).

Fixpoint read_all (count : Z) (readers : list (list byte))
    : result coding_error (list (list byte) * list (list byte)) :=
  match readers with
  | [] => Ok ([], [])
  | reader :: readers =>
      let? (input, rest) := read_exact count reader in
      let? (inputs, rests) := read_all count readers in
      Ok (input :: inputs, rest :: rests)
  end.

(** [for i in 0..manifest.total]: combine, hash and write one stripe of each
    part.  The hasher of part [i] has seen exactly what was written to it. *)
Fixpoint write_all (d : Disk) (offset : Z) (i : nat) (transform : Matrix)
    (inputs : list (list byte)) (count : Z) (outs : list (list byte))
    : result coding_error (list (list byte)) :=
  match transform, outs with
  | row :: transform, out :: outs =>
      let bytes := combine row inputs (Z.to_nat count) in
      if write_ok d i offset then
        let? outs := write_all d offset (S i) transform inputs count outs in
        Ok ((out ++ bytes) :: outs)
      else Err StateIo
  | _, _ => Ok []
  end.

(** [while offset < size]. *)
Fixpoint stripe_loop (fuel : nat) (d : Disk) (transform : Matrix) (size offset : Z)
    (readers outs : list (list byte)) : result coding_error (list (list byte)) :=
  if offset <? size then
    match fuel with
    | O => Err Panic
    | S fuel =>
        let count := Z.min STRIPE (size - offset) in
        let? (inputs, readers) := read_all count readers in
        let? outs := write_all d offset 0 transform inputs count outs in
        stripe_loop fuel d transform size (offset + count) readers outs
    end
  else Ok outs.

(** [while left > 0]: hash one systematic part into the payload, collecting
    the first eight bytes. *)
Fixpoint payload_file (fuel : nat) (d : Disk) (i : nat) (file : list byte) (offset left : Z)
    (remaining : Z) (header payload : list byte)
    : result coding_error (Z * list byte * list byte) :=
  if 0 <? left then
    match fuel with
    | O => Err Panic
    | S fuel =>
        let count := Z.min STRIPE left in
        if reread_ok d i offset then
          let? (bytes, file) := read_exact count file in
          let header :=
            if Z.of_nat (length header) <? 8
            then header ++ take (Z.to_nat (Z.min count (8 - Z.of_nat (length header)))) bytes
            else header in
          payload_file fuel d i file (offset + count) (left - count) (remaining - count)
            header (payload ++ bytes)
        else Err StateIo
    end
  else Ok (remaining, header, payload).

Definition stripes (size : Z) : nat := Z.to_nat (div_ceil size STRIPE).

(** [for path in paths.iter().take(k)]. *)
Fixpoint payload_loop (d : Disk) (i : nat) (files : list (list byte)) (size remaining : Z)
    (header payload : list byte) : result coding_error (Z * list byte * list byte) :=
  match files with
  | [] => Ok (remaining, header, payload)
  | file :: files =>
      if reopen_ok d i then
        let left := Z.min size remaining in
        let? (remaining, header, payload) :=
          payload_file (stripes left) d i file 0 left remaining header payload in
        payload_loop d (S i) files size remaining header payload
      else Err StateIo
  end.

Fixpoint open_all (sources : list (option (list byte))) : result coding_error (list (list byte)) :=
  match sources with
  | [] => Ok []
  | Some file :: sources => let? files := open_all sources in Ok (file :: files)
  | None :: _ => Err StateIo
  end.

Fixpoint select_rows (matrix : Matrix) (idx : list nat) : result coding_error Matrix :=
  match idx with
  | [] => Ok []
  | i :: idx =>
      let? row := ok_or (matrix !! i) Panic in
      let? rows := select_rows matrix idx in
      Ok (row :: rows)
  end.

Section Regenerate.
(** [hex::encode(Sha256::digest(bytes))]. *)
Variable hex_sha256 : list byte -> string.

(** [for (hash, part) in hashes.into_iter().zip(&manifest.parts)]. *)
Fixpoint check_hashes (outs : list (list byte)) (ps : list Part) : result coding_error unit :=
  match outs, ps with
  | out :: outs, p :: ps =>
      if String.eqb (hex_sha256 out) (part_sha256 p) then check_hashes outs ps
      else Err (Configuration "regenerated part hash differs from signed receipt")
  | _, _ => Ok tt
  end.

(** The whole function; the result is the contents of [coded-0], [coded-1],
    ... in order. *)
Definition regenerate (d : Disk) (manifest : Manifest)
    (sources : list (nat * option (list byte))) : result coding_error (list (list byte)) :=
  let k := required manifest in
  if negb (length sources =? k)%nat then Err Internal
  else
    let? matrix := generator k (total manifest) in
    let? rows := select_rows matrix (map fst sources) in
    let? decode := invert rows in
    let transform := product matrix decode in
    let? readers := open_all (map snd sources) in
    if negb (forallb (create_ok d) (seq 0 (total manifest))) then Err StateIo
    else
      let? size := ok_or (part_size <$> head (parts manifest)) Panic in
      let? outs := stripe_loop (stripes size) d transform size 0 readers
                     (replicate (total manifest) []) in
      let? _ := check_hashes outs (parts manifest) in
      let? (remaining, header, data) :=
        payload_loop d 0 (take k outs) size (payload_size (payload manifest)) [] [] in
      if negb (remaining =? 0)
         || negb (String.eqb (hex_sha256 data) (payload_sha256 (payload manifest)))
         || negb (bool_decide (header = MAGIC))
      then Err (Configuration "reconstructed ciphertext does not match signed encrypted payload")
      else Ok outs.
End Regenerate.

(** The published vector of the browser contract. *)
Definition bytes (l : list Z) : list byte := map z2b l.

Example generator_vector :
  (let? g := generator 3 5 in
   Ok (map (fun row => map b2z (combine row
         [bytes [0; 1; 2; 3]; bytes [4; 5; 6; 7]; bytes [8; 9; 10; 0]] 4)) g))
  = Ok [[0; 1; 2; 3]; [4; 5; 6; 7]; [8; 9; 10; 0]; [12; 13; 14; 4]; [16; 17; 18; 41]].
Proof. vm_compute. reflexivity. Qed.

(** ** Linear algebra on rows of bytes *)

Fixpoint dot (row x : list byte) : byte :=
  match row, x with
  | a :: row, b :: x => xor (mul a b) (dot row x)
  | _, _ => x00
  end.

Definition mvec (m : Matrix) (x : list byte) : list byte := map (fun row => dot row x) m.

Lemma length_zip_update f row other : length (zip_update f row other) = length row.
Proof. revert other; induction row; intros [|? ?]; simpl; auto. Qed.

Lemma lookup_zip_update f row other i :
  length row = length other -> (i < length row)%nat ->
  zip_update f row other !!! i = f (row !!! i) (other !!! i).
Proof.
  revert other i; induction row as [|v row IH]; intros [|p other] i; simpl; intros; try lia.
  destruct i; [done|]. simpl. apply IH; lia.
Qed.

Lemma dot_zip_xor row other f x :
  length row = length other ->
  dot (zip_update (fun v p => xor v (mul f p)) row other) x
  = xor (dot row x) (mul f (dot other x)).
Proof.
  revert other x; induction row as [|v row IH]; intros [|p other] [|b x]; simpl; intros;
    try lia; try ring. rewrite IH by lia. ring.
Qed.

Lemma dot_scale row s x : dot (map (fun v => mul v s) row) x = mul (dot row x) s.
Proof. revert x; induction row as [|v row IH]; intros [|b x]; simpl; try ring. rewrite IH. ring. Qed.

Lemma dot_app a b x y : length a = length x -> dot (a ++ b) (x ++ y) = xor (dot a x) (dot b y).
Proof.
  revert x; induction a as [|v a IH]; intros [|w x]; simpl; intros; try lia; [ring|].
  rewrite IH by lia. ring.
Qed.

Lemma dot_replicate_0 n x : dot (replicate n x00) x = x00.
Proof. revert x; induction n; intros [|b x]; simpl; auto. rewrite IHn. ring. Qed.

Lemma dot_0_r row n : dot row (replicate n x00) = x00.
Proof. revert n; induction row; intros [|n]; simpl; auto. rewrite IHrow. ring. Qed.

(** The unit row [r]. *)
Definition unit_row (n r : nat) : list byte := map (fun c => u8_from (r =? c)%nat) (seq 0 n).

Lemma dot_indicator r s n x :
  length x = n ->
  dot (map (fun c => u8_from (r =? c)%nat) (seq s n)) x
  = if decide (s <= r < s + n)%nat then x !!! (r - s)%nat else x00.
Proof.
  revert s x; induction n as [|n IH]; intros s [|b x]; simpl; intros Hx; try lia.
  { case_decide; [lia|done]. }
  rewrite IH by lia. destruct (Nat.eqb_spec r s) as [->|Hne].
  - rewrite Nat.sub_diag. rewrite !decide_False, decide_True by lia. simpl. ring.
  - simpl. case_decide.
    + rewrite decide_True by lia. replace (r - s)%nat with (S (r - S s)) by lia. simpl. ring.
    + rewrite decide_False by lia. ring.
Qed.

Lemma dot_unit n r x : length x = n -> (r < n)%nat -> dot (unit_row n r) x = x !!! r.
Proof.
  intros. unfold unit_row. rewrite dot_indicator by done.
  rewrite decide_True, Nat.sub_0_r by lia. done.
Qed.

Lemma dot_take row x n : length x = n -> dot (take n row) x = dot row x.
Proof.
  intros <-. revert x; induction row as [|v row IH]; intros [|b x]; simpl; auto. by rewrite IH.
Qed.

(** Rows agreeing with [x] up to a column, where they are read as unit
    columns: the value of a row on a vector supported on columns [<= col]. *)
Lemma vec_ext (a b : list byte) :
  length a = length b -> (forall i, (i < length a)%nat -> a !!! i = b !!! i) -> a = b.
Proof.
  intros Hl H. apply list_eq_same_length with (n := length a); [done..|].
  intros i x y Hi Hx Hy. apply list_lookup_total_correct in Hx, Hy. rewrite <- Hx, <- Hy. auto.
Qed.

(** ** One elimination step *)

Definition shaped (n m : nat) (work : Matrix) : Prop :=
  length work = n /\ forall r, (r < n)%nat -> length (work !!! r) = m.

(** [z] is orthogonal to every row. *)
Definition ann (n : nat) (work : Matrix) (z : list byte) : Prop :=
  forall r, (r < n)%nat -> dot (work !!! r) z = x00.

(** The first [col] columns are unit columns. *)
Definition units (n col : nat) (work : Matrix) : Prop :=
  forall r c, (r < n)%nat -> (c < col)%nat -> (work !!! r) !!! c = u8_from (r =? c)%nat.

Lemma swap_rows_lookup (work : Matrix) i j r :
  (i < length work)%nat -> (j < length work)%nat ->
  swap_rows work i j !!! r
  = if decide (r = i) then work !!! j else if decide (r = j) then work !!! i else work !!! r.
Proof.
  intros Hi Hj. unfold swap_rows. case_decide as E1.
  - subst. apply list_lookup_total_insert_eq. by rewrite length_insert.
  - rewrite list_lookup_total_insert_ne by done. case_decide as E2.
    + subst. by apply list_lookup_total_insert_eq.
    + by apply list_lookup_total_insert_ne.
Qed.

Lemma lookup_total_imap {A B} `{!Inhabited A, !Inhabited B} (f : nat -> A -> B) (l : list A) i :
  (i < length l)%nat -> imap f l !!! i = f i (l !!! i).
Proof.
  intros Hi. destruct (lookup_lt_is_Some_2 l i Hi) as [x Hx].
  rewrite (list_lookup_total_correct l i x Hx). apply list_lookup_total_correct.
  by rewrite list_lookup_imap, Hx.
Qed.

Lemma lookup_total_map {A B} `{!Inhabited A, !Inhabited B} (f : A -> B) (l : list A) i :
  (i < length l)%nat -> map f l !!! i = f (l !!! i).
Proof.
  intros Hi. destruct (lookup_lt_is_Some_2 l i Hi) as [x Hx].
  rewrite (list_lookup_total_correct l i x Hx). apply list_lookup_total_correct.
  by rewrite list_lookup_fmap, Hx.
Qed.

Lemma find_pivot_Some work col n p :
  find_pivot work col n = Some p -> (col <= p < n)%nat /\ (work !!! p) !!! col <> x00.
Proof.
  intros H. apply find_some in H as [Hin Hne]. apply in_seq in Hin.
  split; [lia|]. intros E. rewrite E in Hne. done.
Qed.

Lemma find_pivot_None work col n r :
  find_pivot work col n = None -> (col <= r < n)%nat -> (work !!! r) !!! col = x00.
Proof.
  intros H Hr. pose proof (find_none _ _ H r) as Hn. simpl in Hn.
  rewrite in_seq in Hn. specialize (Hn ltac:(lia)).
  by apply negb_false_iff, byte_eqb_eq in Hn.
Qed.

(** What a successful step does, row by row: [p] is the pivot row, [s] the
    scale, and [row'] the normalised pivot. *)
Definition step_row (work : Matrix) (col p : nat) (s : byte) (r : nat) : list byte :=
  let row' := map (fun v => mul v s) (work !!! p) in
  if decide (r = col) then row'
  else
    let row := if decide (r = p) then work !!! col else work !!! r in
    zip_update (fun value q => xor value (mul (row !!! col) q)) row row'.

Lemma invert_step_rows n m col work work' :
  shaped n m work -> (col < n)%nat -> invert_step n col work = Ok work' ->
  exists p, (col <= p < n)%nat /\ (work !!! p) !!! col <> x00 /\
    length work' = n /\
    forall r, (r < n)%nat ->
      work' !!! r = step_row work col p (power ((work !!! p) !!! col) 254) r.
Proof.
  intros [Hl _] Hcol. unfold invert_step. destruct (find_pivot work col n) as [p|] eqn:Hp;
    [|done]. apply find_pivot_Some in Hp as [Hp Hne].
  pose proof (swap_rows_lookup work col p) as Hsw.
  assert (length (swap_rows work col p) = n) as Hls.
  { unfold swap_rows. by rewrite !length_insert. }
  cbn [ok_or]. intros [= <-]. exists p. split_and!; [lia..|done| |].
  - by rewrite length_imap, length_insert.
  - intros r Hr. rewrite lookup_total_imap by (rewrite length_insert; lia).
    unfold step_row. rewrite (list_lookup_total_insert_eq _ col) by lia.
    rewrite (Hsw col), decide_True by (done || lia).
    destruct (Nat.eqb_spec r col) as [->|Hrc].
    + rewrite list_lookup_total_insert_eq by lia. by rewrite decide_True.
    + rewrite list_lookup_total_insert_ne by done.
      rewrite Hsw by lia. rewrite !(decide_False (P := r = col)) by done. done.
Qed.

Lemma length_step_row n m work col p s r :
  shaped n m work -> (col < n)%nat -> (p < n)%nat -> (r < n)%nat ->
  length (step_row work col p s r) = m.
Proof.
  intros [_ Hm] ???. unfold step_row. repeat case_decide;
    rewrite ?length_zip_update, ?length_map; auto.
Qed.

Lemma invert_step_shaped n m col work work' :
  shaped n m work -> (col < n)%nat -> invert_step n col work = Ok work' -> shaped n m work'.
Proof.
  intros Hs Hc H. destruct (invert_step_rows _ _ _ _ _ Hs Hc H) as (p & Hp & _ & Hl & Hr).
  split; [done|]. intros r Hrn. rewrite Hr by done. eapply length_step_row; eauto. lia.
Qed.

Lemma dot_step_row n m work col p s r z :
  shaped n m work -> (col < n)%nat -> (p < n)%nat -> (r < n)%nat -> r <> col ->
  let row := if decide (r = p) then work !!! col else work !!! r in
  dot (step_row work col p s r) z
  = xor (dot row z) (mul (row !!! col) (mul (dot (work !!! p) z) s)).
Proof.
  intros [_ Hm] Hc Hp Hr Hrc row. unfold step_row. rewrite decide_False by done. fold row.
  rewrite dot_zip_xor, dot_scale; [done|]. rewrite length_map, Hm by done.
  unfold row. case_decide; auto.
Qed.

Lemma mul_cancel_0 a b : b <> x00 -> mul a b = x00 -> a = x00.
Proof. intros Hb H. by destruct (mul_integral _ _ H). Qed.

Lemma power_254_nonzero a : a <> x00 -> power a 254 <> x00.
Proof. intros Ha H. pose proof (power_inverse a Ha) as E. rewrite H, mul_0_r in E. done. Qed.

(** The row operations are invertible: they keep the set of vectors
    orthogonal to all rows. *)
Lemma invert_step_ann n m col work work' z :
  shaped n m work -> (col < n)%nat -> invert_step n col work = Ok work' ->
  ann n work z <-> ann n work' z.
Proof.
  intros Hs Hc H. destruct (invert_step_rows _ _ _ _ _ Hs Hc H) as (p & Hp & Hne & Hl & Hr).
  set (s := power ((work !!! p) !!! col) 254) in *.
  assert (dot (work' !!! col) z = mul (dot (work !!! p) z) s) as Hcol.
  { rewrite Hr by done. unfold step_row. rewrite decide_True by done. apply dot_scale. }
  assert (forall r, (r < n)%nat -> r <> col -> dot (work' !!! r) z =
     let row := if decide (r = p) then work !!! col else work !!! r in
     xor (dot row z) (mul (row !!! col) (mul (dot (work !!! p) z) s))) as Hoth.
  { intros r Hrn Hrc. rewrite Hr by done. eapply dot_step_row; eauto. lia. }
  split; intros Ha r Hrn.
  - destruct (decide (r = col)) as [->|Hrc].
    + rewrite Hcol, Ha by lia. ring.
    + rewrite Hoth by done. simpl. rewrite (Ha p) by lia.
      case_decide; rewrite Ha by lia; ring.
  - assert (dot (work !!! p) z = x00) as Hp0.
    { apply (mul_cancel_0 _ s); [by apply power_254_nonzero|]. rewrite <- Hcol. auto. }
    assert (forall r, (r < n)%nat -> r <> col ->
      dot (if decide (r = p) then work !!! col else work !!! r) z = x00) as Hz.
    { intros r' ? ?. specialize (Ha r' ltac:(done)). rewrite Hoth in Ha by done. simpl in Ha.
      rewrite Hp0 in Ha. rewrite <- Ha. ring. }
    destruct (decide (r = p)) as [->|Hrp]; [done|].
    destruct (decide (r = col)) as [->|Hrc].
    + specialize (Hz p ltac:(lia) ltac:(congruence)). by rewrite decide_True in Hz.
    + specialize (Hz r Hrn Hrc). by rewrite decide_False in Hz.
Qed.

Lemma invert_step_units n m col work work' :
  shaped n m work -> (col < n)%nat -> (n <= m)%nat -> units n col work ->
  invert_step n col work = Ok work' -> units n (S col) work'.
Proof.
  intros Hs Hc Hnm Hu H. destruct (invert_step_rows _ _ _ _ _ Hs Hc H) as (p & Hp & Hne & Hl & Hr).
  set (s := power ((work !!! p) !!! col) 254) in *.
  destruct Hs as [_ Hm]. intros r c Hrn Hcc. rewrite Hr by done.
  assert (forall c, (c < S col)%nat ->
    map (fun v => mul v s) (work !!! p) !!! c = u8_from (col =? c)%nat) as Hpiv.
  { intros c' ?. rewrite lookup_total_map by (rewrite Hm; lia).
    destruct (decide (c' = col)) as [->|].
    - rewrite Nat.eqb_refl. by apply power_inverse.
    - rewrite Hu by lia. rewrite (proj2 (Nat.eqb_neq p c')) by lia.
      rewrite (proj2 (Nat.eqb_neq col c')) by lia. apply mul_0_l. }
  unfold step_row. case_decide as E; [subst; by apply Hpiv|].
  set (row := if decide (r = p) then work !!! col else work !!! r).
  assert (length row = m) as Hlr by (unfold row; case_decide; apply Hm; lia).
  rewrite lookup_zip_update by (rewrite ?length_map, ?Hlr, ?Hm; lia).
  rewrite Hpiv by done. destruct (decide (c = col)) as [->|Hcne].
  - rewrite Nat.eqb_refl, (proj2 (Nat.eqb_neq r col)) by done. simpl. by rewrite mul_1_r, xor_self.
  - rewrite (proj2 (Nat.eqb_neq col c)) by lia.
    unfold row. case_decide as Erp.
    + rewrite Hu, (proj2 (Nat.eqb_neq col c)), (proj2 (Nat.eqb_neq r c)) by lia. simpl. ring.
    + rewrite Hu by lia. simpl. ring.
Qed.

(** ** Inversion *)

Lemma invert_loop_spec n m col work work' :
  shaped n m work -> (n <= m)%nat -> (col <= n)%nat -> units n col work ->
  invert_loop n (seq col (n - col)) work = Ok work' ->
  shaped n m work' /\ units n n work' /\ forall z, ann n work z <-> ann n work' z.
Proof.
  remember (n - col)%nat as k eqn:Hk. revert col Hk work.
  induction k as [|k IH]; intros col Hk work Hs Hnm Hc Hu; cbn [seq invert_loop].
  - intros [= <-]. replace col with n in Hu by lia. done.
  - destruct (invert_step n col work) as [w|] eqn:Hst; [|done]. intros Hl.
    assert (col < n)%nat as Hcn by lia.
    destruct (IH (S col) ltac:(lia) w) as (H1 & H2 & H3); eauto using
      invert_step_shaped, invert_step_units.
    split_and!; [done..|]. intros z. rewrite (invert_step_ann _ _ _ _ _ z Hs Hcn Hst). done.
Qed.

(** The vector that a missing pivot at column [col] would put in the kernel. *)
Definition kernel_vec (n col : nat) (work : Matrix) : list byte :=
  map (fun c => (work !!! c) !!! col) (seq 0 col) ++ x01 :: replicate (n - S col) x00.

Lemma dot_split_at row col v w :
  (col < length row)%nat -> length v = col ->
  dot row (v ++ x01 :: w) = xor (dot (take col row) v) (xor (row !!! col) (dot (drop (S col) row) w)).
Proof.
  intros Hc Hv. rewrite <- (take_drop col row) at 1.
  rewrite dot_app by (rewrite length_take; lia). f_equal.
  destruct (lookup_lt_is_Some_2 row col Hc) as [b Hb].
  rewrite (drop_S _ _ _ Hb), (list_lookup_total_correct _ _ _ Hb). simpl. by rewrite mul_1_r.
Qed.

Lemma unit_prefix n col work r :
  units n col work -> (r < n)%nat -> (col <= length (work !!! r))%nat ->
  take col (work !!! r) = unit_row col r.
Proof.
  intros Hu Hr Hl. unfold unit_row. apply vec_ext.
  - rewrite length_take, length_map, length_seq. lia.
  - intros i Hi. rewrite length_take in Hi.
    rewrite lookup_total_map by (rewrite length_seq; lia).
    rewrite lookup_total_take, decide_True by lia. rewrite Hu by lia.
    f_equal. f_equal. symmetry. apply list_lookup_total_correct, lookup_seq. lia.
Qed.

Lemma dot_unit_row_all n r x :
  length x = n -> dot (unit_row n r) x = if decide (r < n)%nat then x !!! r else x00.
Proof.
  intros Hx. unfold unit_row. rewrite dot_indicator by done. rewrite Nat.sub_0_r.
  repeat case_decide; (done || lia).
Qed.

Lemma kernel_vec_ann n m col work pad :
  shaped n m work -> (col < n <= m)%nat -> units n col work ->
  find_pivot work col n = None ->
  ann n work (kernel_vec n col work ++ replicate pad x00).
Proof.
  intros [_ Hm] Hc Hu Hnone r Hr. unfold kernel_vec.
  rewrite <- app_assoc. cbn [app].
  rewrite (dot_split_at _ col); rewrite ?Hm, ?length_map, ?length_seq by done; [|lia|done].
  rewrite <- replicate_add, dot_0_r, xor_0_r, (unit_prefix n) by (rewrite ?Hm; done || lia).
  rewrite dot_unit_row_all by (by rewrite length_map, length_seq). case_decide.
  - rewrite lookup_total_map by (rewrite length_seq; lia).
    rewrite (list_lookup_total_correct (seq 0 col) r r) by (apply lookup_seq; lia).
    apply xor_self.
  - rewrite (find_pivot_None work col n r) by (done || lia). done.
Qed.

Lemma length_kernel_vec n col work : (col < n)%nat -> length (kernel_vec n col work) = n.
Proof.
  intros. unfold kernel_vec. rewrite length_app, length_map, length_seq. simpl.
  rewrite length_replicate. lia.
Qed.

(** No vector [x ++ 0] other than zero is orthogonal to the rows. *)
Definition left_trivial (n pad : nat) (work : Matrix) : Prop :=
  forall x, length x = n -> ann n work (x ++ replicate pad x00) -> x = replicate n x00.

Lemma invert_loop_total n m col work :
  shaped n m work -> (n <= m)%nat -> (col <= n)%nat -> units n col work ->
  left_trivial n (m - n) work ->
  exists work', invert_loop n (seq col (n - col)) work = Ok work'.
Proof.
  remember (n - col)%nat as k eqn:Hk. revert col Hk work.
  induction k as [|k IH]; intros col Hk work Hs Hnm Hc Hu Ht; cbn [seq invert_loop]; [by eexists|].
  assert (col < n)%nat as Hcn by lia.
  destruct (invert_step n col work) as [w|e] eqn:Hst.
  - apply IH; eauto using invert_step_shaped, invert_step_units; [lia|].
    intros x Hx Ha. apply Ht; [done|]. by apply (invert_step_ann _ _ _ _ _ _ Hs Hcn Hst).
  - exfalso. unfold invert_step in Hst. destruct (find_pivot work col n) as [p|] eqn:Hp; [done|].
    pose proof (Ht _ (length_kernel_vec n col work Hcn)
      (kernel_vec_ann n m col work (m - n) Hs ltac:(lia) Hu Hp)) as Hz.
    apply (f_equal (fun l => l !!! col)) in Hz.
    rewrite (list_lookup_total_correct (replicate n x00) col x00) in Hz
      by (apply lookup_replicate; done).
    unfold kernel_vec in Hz. rewrite (list_lookup_total_correct _ col x01) in Hz; [done|].
    rewrite lookup_app_r; rewrite length_map, length_seq; [|lia]. by rewrite Nat.sub_diag.
Qed.

Definition square (n : nat) (a : Matrix) : Prop := shaped n n a.

Lemma augment_shaped n a : square n a -> shaped n (n + n) (augment a).
Proof.
  intros [Hl Hr]. unfold augment. split; [by rewrite length_imap|]. intros r Hrn.
  rewrite lookup_total_imap by lia. rewrite length_app, length_map, length_seq, Hr; lia.
Qed.

Lemma augment_ann n a x y :
  square n a -> length x = n -> length y = n ->
  ann n (augment a) (x ++ y) <-> forall r, (r < n)%nat -> dot (a !!! r) x = y !!! r.
Proof.
  intros [Hl Hr] Hx Hy. unfold ann.
  assert (forall r, (r < n)%nat ->
    dot (augment a !!! r) (x ++ y) = xor (dot (a !!! r) x) (y !!! r)) as E.
  { intros r Hrn. unfold augment. rewrite lookup_total_imap by lia.
    rewrite dot_app by (rewrite Hr; lia). f_equal. rewrite Hl. by apply dot_unit. }
  split; intros H r Hrn.
  - apply xor_eq_0. rewrite <- E by done. auto.
  - rewrite E, H by done. apply xor_self.
Qed.

Lemma length_mvec m x : length (mvec m x) = length m.
Proof. apply length_map. Qed.

Lemma mvec_lookup m x r : (r < length m)%nat -> mvec m x !!! r = dot (m !!! r) x.
Proof. intros. unfold mvec. by rewrite lookup_total_map. Qed.

Lemma final_ann n work x y :
  shaped n (n + n) work -> units n n work -> length x = n -> length y = n ->
  ann n work (x ++ y) <-> forall r, (r < n)%nat -> dot (drop n (work !!! r)) y = x !!! r.
Proof.
  intros [Hl Hm] Hu Hx Hy. unfold ann.
  assert (forall r, (r < n)%nat ->
    dot (work !!! r) (x ++ y) = xor (x !!! r) (dot (drop n (work !!! r)) y)) as E.
  { intros r Hr. rewrite <- (take_drop n (work !!! r)) at 1.
    rewrite dot_app by (rewrite length_take, Hm; lia).
    rewrite (unit_prefix n n) by (rewrite ?Hm; lia || done). by rewrite dot_unit. }
  split; intros H r Hr.
  - symmetry. apply xor_eq_0. rewrite <- E by done. auto.
  - rewrite E, H by done. apply xor_self.
Qed.

(** A successful inversion returns a two-sided inverse. *)
Lemma invert_inverse n a i :
  square n a -> invert a = Ok i ->
  square n i /\
  (forall x, length x = n -> mvec i (mvec a x) = x) /\
  (forall y, length y = n -> mvec a (mvec i y) = y).
Proof.
  intros Hsq. pose proof Hsq as [Hl Hr]. unfold invert. rewrite Hl.
  destruct (invert_loop n (seq 0 n) (augment a)) as [w|] eqn:E; [|done]. intros [= <-].
  rewrite <- (Nat.sub_0_r n) in E at 2.
  apply (invert_loop_spec n (n + n) 0) in E as ([Hwl Hwm] & Hu & Hann);
    [|by apply augment_shaped|lia|lia|by intros r c _ Hc; lia].
  assert (forall x y, length x = n -> length y = n ->
    (forall r, (r < n)%nat -> dot (a !!! r) x = y !!! r) <->
    (forall r, (r < n)%nat -> dot (map (drop n) w !!! r) y = x !!! r)) as Hiff.
  { intros x y Hx Hy. rewrite <- (augment_ann n a x y), Hann, final_ann by done.
    split; intros H r Hrn; specialize (H r Hrn); by rewrite lookup_total_map in * by lia. }
  assert (square n (map (drop n) w)) as Hsi.
  { split; [by rewrite length_map|]. intros r Hrn.
    rewrite lookup_total_map, length_drop, Hwm by lia. lia. }
  split_and!; [done|..].
  - intros x Hx. apply vec_ext; rewrite length_mvec, (proj1 Hsi); [done|]. intros r Hrn.
    rewrite mvec_lookup by (rewrite (proj1 Hsi); done).
    revert r Hrn. apply Hiff; rewrite ?length_mvec; [done..|]. intros r Hrn.
    by rewrite mvec_lookup by lia.
  - intros y Hy. apply vec_ext; rewrite length_mvec; [lia|]. rewrite Hl. intros r Hrn.
    rewrite mvec_lookup by lia.
    revert r Hrn. apply Hiff; rewrite ?length_mvec, ?(proj1 Hsi); [done..|]. intros r Hrn.
    by rewrite mvec_lookup by (rewrite (proj1 Hsi); lia).
Qed.

(** A matrix with a trivial kernel is inverted. *)
Lemma invert_total n a :
  square n a ->
  (forall x, length x = n -> mvec a x = replicate n x00 -> x = replicate n x00) ->
  exists i, invert a = Ok i.
Proof.
  intros Hsq Hk. pose proof Hsq as [Hl Hr]. unfold invert. rewrite Hl.
  destruct (invert_loop_total n (n + n) 0 (augment a)) as [w Hw];
    [by apply augment_shaped|lia|lia|by intros r c _ Hc; lia| |].
  - replace (n + n - n)%nat with n by lia. intros x Hx Ha.
    pose proof (proj1 (augment_ann n a x _ Hsq Hx (length_replicate n x00)) Ha) as Hz.
    apply Hk; [done|]. apply vec_ext; rewrite length_mvec, ?length_replicate; [done|].
    intros i Hi. rewrite mvec_lookup by lia. apply Hz. lia.
  - rewrite Nat.sub_0_r in Hw. rewrite Hw. by eexists.
Qed.

(** ** Products *)

Lemma foldl_xor_dot (l : list (nat * byte)) (f : nat -> byte) s :
  foldl (fun s '(i, v) => xor s (mul v (f i))) s l
  = xor s (dot (map snd l) (map (fun p => f (fst p)) l)).
Proof.
  revert s; induction l as [|[i v] l IH]; intros s; simpl; [by rewrite xor_0_r|].
  rewrite IH. ring.
Qed.

Lemma product_entry row (f : nat -> byte) :
  foldl (fun s '(i, v) => xor s (mul v (f i))) x00 (enumerate row)
  = dot row (map f (seq 0 (length row))).
Proof.
  rewrite foldl_xor_dot, xor_0_l. unfold enumerate. f_equal.
  - change (map snd (zip (seq 0 (length row)) row)) with (snd <$> zip (seq 0 (length row)) row).
    apply snd_zip. by rewrite length_seq.
  - rewrite <- (map_map fst f). f_equal.
    change (map fst (zip (seq 0 (length row)) row)) with (fst <$> zip (seq 0 (length row)) row).
    apply fst_zip. by rewrite length_seq.
Qed.

Lemma dot_map_linear {A} (l : list A) v (f g : A -> byte) x :
  dot (map (fun c => xor (mul v (f c)) (g c)) l) x
  = xor (mul v (dot (map f l) x)) (dot (map g l) x).
Proof. revert x; induction l; intros [|b x]; simpl; try ring. rewrite IHl. ring. Qed.

Lemma map_lookup_seq (l : list byte) : map (fun c => l !!! c) (seq 0 (length l)) = l.
Proof.
  apply vec_ext; rewrite length_map, length_seq; [done|]. intros i Hi.
  rewrite lookup_total_map by (by rewrite length_seq).
  by rewrite (list_lookup_total_correct (seq 0 (length l)) i i) by (apply lookup_seq; lia).
Qed.

(** Exchanging the order of summation: a row against the columns of [b]. *)
Lemma dot_exchange row (b : Matrix) m x :
  length row = length b -> (forall i, (i < length b)%nat -> length (b !!! i) = m) ->
  dot (map (fun c => dot row (map (fun i => (b !!! i) !!! c) (seq 0 (length row)))) (seq 0 m)) x
  = dot row (mvec b x).
Proof.
  revert b; induction row as [|v row IH]; intros [|brow b] Hlen Hb; try (simpl in Hlen; lia).
  - simpl. clear. revert x. generalize (seq 0 m). intros l.
    induction l; intros [|? ?]; simpl; auto. rewrite IHl. ring.
  - assert (length brow = m) as Hbm by (apply (Hb 0%nat); simpl; lia).
    cbn [mvec map dot]. fold (mvec b x). rewrite <- (IH b); [| simpl in Hlen; lia |].
    2:{ intros i Hi. apply (Hb (S i)). simpl. lia. }
    replace (dot brow x) with (dot (map (fun c => brow !!! c) (seq 0 m)) x)
      by (by rewrite <- Hbm, map_lookup_seq).
    rewrite <- dot_map_linear.
    f_equal. apply map_ext. intros c. cbn [length seq map dot].
    rewrite <- seq_shift, map_map. done.
Qed.

Lemma product_row a b r m :
  (r < length a)%nat -> length (a !!! r) = length b -> b <> [] ->
  (forall i, (i < length b)%nat -> length (b !!! i) = m) ->
  length (product a b !!! r) = m /\
  forall x, length x = m -> dot (product a b !!! r) x = dot (a !!! r) (mvec b x).
Proof.
  intros Hr Hl Hne Hb. unfold product. rewrite lookup_total_map by done.
  rewrite (Hb 0%nat) by (destruct b; simpl; [done|lia]).
  split; [by rewrite length_map, length_seq|]. intros x Hx.
  rewrite <- (dot_exchange _ b m) by done. f_equal. apply map_ext. intros c.
  by rewrite <- product_entry.
Qed.

Lemma product_mvec a b m x :
  (forall r, (r < length a)%nat -> length (a !!! r) = length b) -> b <> [] ->
  (forall i, (i < length b)%nat -> length (b !!! i) = m) -> length x = m ->
  mvec (product a b) x = mvec a (mvec b x).
Proof.
  intros Ha Hne Hb Hx.
  assert (length (product a b) = length a) as Hl by (unfold product; by rewrite length_map).
  apply vec_ext; rewrite !length_mvec; [done|]. intros r Hr.
  rewrite Hl in Hr. rewrite !mvec_lookup by lia.
  apply (product_row a b r m); auto; lia.
Qed.

(** ** Vandermonde rows *)

(** The polynomial with coefficients [x] at the point [a]. *)
Definition horner (a : byte) (x : list byte) : byte :=
  foldr (fun c acc => xor c (mul a acc)) x00 x.

Lemma dot_powers a s x :
  dot (map (power a) (seq s (length x))) x = mul (power a s) (horner a x).
Proof.
  revert s; induction x as [|c x IH]; intros s; simpl; [by rewrite mul_0_r|].
  rewrite IH, power_S. ring.
Qed.

(** Synthetic division by [X - p]. *)
Fixpoint synth (p : byte) (x : list byte) : list byte :=
  match x with
  | [] => []
  | c :: g => match g with [] => [] | _ => horner p g :: synth p g end
  end.

Lemma length_synth p x : length (synth p x) = (length x - 1)%nat.
Proof. induction x as [|c [|d g] IH]; simpl in *; lia. Qed.

Lemma synth_spec p r x : xor (horner r x) (horner p x) = mul (xor r p) (horner r (synth p x)).
Proof.
  induction x as [|c g IH]; [simpl; by rewrite mul_0_r|].
  destruct g as [|d g].
  - simpl. rewrite !mul_0_r, xor_self. done.
  - change (synth p (c :: d :: g)) with (horner p (d :: g) :: synth p (d :: g)).
    set (g' := d :: g) in *. change (horner ?q (?e :: ?l)) with (xor e (mul q (horner q l))).
    rewrite mul_xor_r, (mul_assoc (xor r p)), (mul_comm (xor r p) r), <- mul_assoc, <- IH.
    rewrite mul_xor_l, mul_xor_r. xor_bits.
Qed.

Lemma synth_zero p x :
  synth p x = replicate (length x - 1) x00 -> horner p x = x00 -> x = replicate (length x) x00.
Proof.
  induction x as [|c g IH]; [done|]. destruct g as [|d g].
  - simpl. rewrite mul_0_r, xor_0_r. by intros _ ->.
  - change (synth p (c :: d :: g)) with (horner p (d :: g) :: synth p (d :: g)).
    assert (0 < length (d :: g))%nat as Hpos by (simpl; lia). revert IH Hpos.
    generalize (d :: g). intros g' IH Hpos.
    replace (length (c :: g') - 1)%nat with (S (length g' - 1)) by (simpl; lia).
    change (horner p (c :: g')) with (xor c (mul p (horner p g'))).
    cbn [replicate]. intros [= H0 Hs] Hc. rewrite H0, mul_0_r, xor_0_r in Hc.
    cbn [length replicate]. by rewrite Hc, <- (IH Hs H0).
Qed.

(** A polynomial with as many distinct roots as coefficients is zero. *)
Lemma horner_roots ps x :
  NoDup ps -> (length x <= length ps)%nat -> (forall p, p ∈ ps -> horner p x = x00) ->
  x = replicate (length x) x00.
Proof.
  revert x; induction ps as [|p ps IH]; intros x Hnd Hlen Hroot.
  { destruct x; [done|simpl in Hlen; lia]. }
  apply NoDup_cons in Hnd as [Hp Hnd].
  assert (horner p x = x00) as Hp0 by (apply Hroot; set_solver).
  apply (synth_zero p); [|done]. rewrite <- length_synth with (p := p).
  apply IH; [done|rewrite length_synth; simpl in Hlen; lia|].
  intros r Hr. pose proof (synth_spec p r x) as E.
  rewrite Hp0, (Hroot r), xor_self in E by set_solver.
  destruct (mul_integral _ _ (eq_sym E)) as [Hx|]; [|done].
  apply xor_eq_0 in Hx. subst. done.
Qed.

Lemma vandermonde_row k n r :
  (r < n)%nat -> vandermonde k n !!! r = map (power (z2b (Z.of_nat r))) (seq 0 k).
Proof.
  intros. unfold vandermonde. rewrite lookup_total_map by (by rewrite length_seq).
  by rewrite (list_lookup_total_correct (seq 0 n) r r) by (apply lookup_seq; lia).
Qed.

Lemma vandermonde_shaped k n : shaped n k (vandermonde k n).
Proof.
  split; [unfold vandermonde; by rewrite length_map, length_seq|].
  intros r Hr. rewrite vandermonde_row by done. by rewrite length_map, length_seq.
Qed.

Lemma vandermonde_dot k n r x :
  (r < n)%nat -> length x = k -> dot (vandermonde k n !!! r) x = horner (z2b (Z.of_nat r)) x.
Proof. intros Hr <-. rewrite vandermonde_row by done. rewrite dot_powers, power_0. apply mul_1_l. Qed.

Lemma points_nodup (idx : list nat) :
  NoDup idx -> (forall i, i ∈ idx -> (i < 256)%nat) -> NoDup (map (fun i => z2b (Z.of_nat i)) idx).
Proof.
  intros Hnd Hlt. apply (NoDup_fmap_2_strong (fun i => z2b (Z.of_nat i))); [|done].
  intros i j Hi Hj E. apply (f_equal b2z) in E. rewrite !b2z_z2b in E.
  pose proof (Hlt _ Hi). pose proof (Hlt _ Hj).
  rewrite !Z.mod_small in E by lia. lia.
Qed.

(** Any [k] rows of the Vandermonde matrix have a trivial kernel. *)
Lemma vandermonde_kernel k n (idx : list nat) x :
  NoDup idx -> length idx = k -> (forall i, i ∈ idx -> (i < n)%nat) -> (n <= 16)%nat ->
  length x = k -> (forall i, i ∈ idx -> dot (vandermonde k n !!! i) x = x00) ->
  x = replicate k x00.
Proof.
  intros Hnd Hk Hn H16 Hx H. rewrite <- Hx.
  apply (horner_roots (map (fun i => z2b (Z.of_nat i)) idx)).
  - apply points_nodup; [done|]. intros i Hi. specialize (Hn i Hi). lia.
  - rewrite length_map. lia.
  - intros p Hp. apply list_elem_of_In, in_map_iff in Hp as (i & <- & Hi).
    apply list_elem_of_In in Hi. rewrite <- (vandermonde_dot k n) by auto. auto.
Qed.

(** ** The generator matrix *)

Definition params_ok (k n : nat) : Prop := (2 <= k < n)%nat /\ (n <= 16)%nat.

Lemma vandermonde_take k n : params_ok k n ->
  square k (take k (vandermonde k n)) /\
  forall r, (r < k)%nat -> take k (vandermonde k n) !!! r = vandermonde k n !!! r.
Proof.
  intros [Hkn H16]. destruct (vandermonde_shaped k n) as [Hl Hm].
  assert (forall r, (r < k)%nat -> take k (vandermonde k n) !!! r = vandermonde k n !!! r) as E.
  { intros r Hr. by rewrite lookup_total_take, decide_True by lia. }
  split; [|done]. split; [rewrite length_take; lia|]. intros r Hr. rewrite E by done. apply Hm. lia.
Qed.

(** What the generator computes: [v] times the inverse [i] of the first [k]
    rows of [v]. *)
Lemma generator_ok k n : params_ok k n -> exists g,
  generator k n = Ok g /\ shaped n k g /\
  (forall r x, (r < k)%nat -> length x = k -> dot (g !!! r) x = x !!! r) /\
  (forall idx x, NoDup idx -> length idx = k -> (forall i, i ∈ idx -> (i < n)%nat) ->
     length x = k -> (forall i, i ∈ idx -> dot (g !!! i) x = x00) -> x = replicate k x00).
Proof.
  intros Hp. pose proof Hp as [Hkn H16]. pose proof (vandermonde_take k n Hp) as [Hsq Hrow].
  destruct (vandermonde_shaped k n) as [Hvl Hvm].
  destruct (invert_total k (take k (vandermonde k n))) as [i Hi]; [done|..].
  { intros x Hx H0. apply (vandermonde_kernel k n (seq 0 k)); auto using NoDup_seq.
    - by rewrite length_seq.
    - intros r Hr%elem_of_seq. lia.
    - intros r Hr%elem_of_seq. rewrite <- Hrow by lia.
      rewrite <- mvec_lookup by (rewrite (proj1 Hsq); lia). rewrite H0.
      apply list_lookup_total_correct, lookup_replicate. split; [done|lia]. }
  destruct (invert_inverse k _ i Hsq Hi) as ([Hil Him] & _ & Hvi).
  assert (i <> []) as Hine by (intros ->; simpl in Hil; lia).
  assert (forall r x, (r < n)%nat -> length x = k ->
    dot (product (vandermonde k n) i !!! r) x = dot (vandermonde k n !!! r) (mvec i x)) as Hdot.
  { intros r x Hr Hx. apply (product_row _ i r k); auto; rewrite ?Hvl, ?Hvm, ?Hil; auto. }
  exists (product (vandermonde k n) i). split_and!.
  - unfold generator. rewrite Hi.
    destruct (Nat.ltb_spec k 2), (Nat.leb_spec n k), (Nat.ltb_spec 16 n); simpl; done || lia.
  - split; [unfold product; by rewrite length_map|]. intros r Hr.
    apply (product_row _ i r k); auto; rewrite ?Hvl, ?Hvm, ?Hil; auto.
  - intros r x Hr Hx. rewrite Hdot by (done || lia). rewrite <- Hrow by done.
    rewrite <- mvec_lookup by (rewrite (proj1 Hsq); done). by rewrite Hvi.
  - intros idx x Hnd Hlen Hlt Hx H0. rewrite <- (Hvi x Hx).
    assert (mvec i x = replicate k x00) as ->.
    { apply (vandermonde_kernel k n idx); rewrite ?length_mvec; auto.
      intros j Hj. rewrite <- Hdot by auto. auto. }
    unfold mvec. apply vec_ext; rewrite length_map, ?length_replicate; [apply (proj1 Hsq)|].
    intros r Hr. rewrite lookup_total_map, dot_0_r by done. symmetry.
    apply list_lookup_total_correct, lookup_replicate. split; [done|].
    by rewrite (proj1 Hsq) in Hr.
Qed.

(** ** Combining stripes *)

Lemma table_lookup c (b : byte) : map (fun b => mul c b) all_bytes !!! Z.to_nat (b2z b) = mul c b.
Proof.
  pose proof (b2z_range b). assert (length all_bytes = 256%nat) as Hl by reflexivity.
  rewrite lookup_total_map by lia. f_equal. unfold all_bytes.
  rewrite lookup_total_map by (rewrite length_seq; lia).
  rewrite (list_lookup_total_correct (seq 0 256) _ (Z.to_nat (b2z b))) by (apply lookup_seq; lia).
  rewrite Z2Nat.id by lia. apply z2b_b2z.
Qed.

Lemma combine_one_length c input out : length (combine_one c input out) = length out.
Proof. unfold combine_one. destruct (byte_eqb c x00); [done|]. apply length_zip_update. Qed.

Lemma combine_one_lookup c input out j :
  length input = length out -> (j < length out)%nat ->
  combine_one c input out !!! j = xor (out !!! j) (mul c (input !!! j)).
Proof.
  intros Hl Hj. unfold combine_one. destruct (byte_eqb c x00) eqn:E.
  - apply byte_eqb_eq in E as ->. by rewrite mul_0_l, xor_0_r.
  - rewrite lookup_zip_update by done. by rewrite table_lookup.
Qed.

Definition column (inputs : list (list byte)) (j : nat) : list byte :=
  map (fun input => input !!! j) inputs.

Lemma combine_loop_spec row inputs out count :
  length row = length inputs -> length out = count ->
  (forall input, input ∈ inputs -> length input = count) ->
  length (combine_loop row inputs out) = count /\
  forall j, (j < count)%nat ->
    combine_loop row inputs out !!! j = xor (out !!! j) (dot row (column inputs j)).
Proof.
  revert inputs out; induction row as [|c row IH]; intros [|input inputs] out; simpl;
    intros Hl Ho Hin; try lia.
  - split; [done|]. intros. by rewrite xor_0_r.
  - assert (length input = count) as Hi by (apply Hin; left).
    pose proof (IH inputs (combine_one c input out) ltac:(lia)
      ltac:(by rewrite combine_one_length) ltac:(intros; apply Hin; by right)) as [H1 H2].
    split; [done|]. intros j Hj. rewrite H2 by done.
    rewrite combine_one_lookup by lia. by rewrite xor_assoc.
Qed.

(** The output of [combine] at each position is the row times the column. *)
Lemma combine_spec row inputs count :
  length row = length inputs -> (forall input, input ∈ inputs -> length input = count) ->
  length (combine row inputs count) = count /\
  forall j, (j < count)%nat -> combine row inputs count !!! j = dot row (column inputs j).
Proof.
  intros Hl Hin. unfold combine.
  destruct (combine_loop_spec row inputs (replicate count x00) count) as [H1 H2];
    rewrite ?length_replicate; auto.
  split; [done|]. intros j Hj. rewrite H2 by done.
  rewrite (list_lookup_total_correct (replicate count x00) j x00) by (by apply lookup_replicate).
  apply xor_0_l.
Qed.

(** ** The stripe loop *)

Lemma column_take inputs a j :
  (j < a)%nat -> column (map (take a) inputs) j = column inputs j.
Proof.
  intros Hj. unfold column. rewrite map_map. apply map_ext. intros l.
  by rewrite lookup_total_take, decide_True by done.
Qed.

Lemma column_drop_take inputs a c j :
  (j < c)%nat -> column (map (fun l => take c (drop a l)) inputs) j = column inputs (a + j).
Proof.
  intros Hj. unfold column. rewrite map_map. apply map_ext. intros l.
  by rewrite lookup_total_take, decide_True, lookup_total_drop by done.
Qed.

Lemma elem_of_map_length (f : list byte -> list byte) (inputs : list (list byte)) n :
  (forall l, l ∈ inputs -> length (f l) = n) -> forall l, l ∈ map f inputs -> length l = n.
Proof. intros H l Hl. apply list_elem_of_In, in_map_iff in Hl as (x & <- & Hx%list_elem_of_In). auto. Qed.

(** [combine] on a longer prefix is [combine] on the shorter one followed by
    the next stripe. *)
Lemma combine_stripe row inputs sz a c :
  length row = length inputs -> (forall l, l ∈ inputs -> length l = sz) -> (a + c <= sz)%nat ->
  combine row (map (take (a + c)) inputs) (a + c)
  = combine row (map (take a) inputs) a
    ++ combine row (map (fun l => take c (drop a l)) inputs) c.
Proof.
  intros Hl Hin Hac.
  destruct (combine_spec row (map (take (a + c)) inputs) (a + c)) as [L1 E1];
    [by rewrite length_map|apply elem_of_map_length; intros l ?; rewrite length_take, Hin by done; lia|].
  destruct (combine_spec row (map (take a) inputs) a) as [L2 E2];
    [by rewrite length_map|apply elem_of_map_length; intros l ?; rewrite length_take, Hin by done; lia|].
  destruct (combine_spec row (map (fun l => take c (drop a l)) inputs) c) as [L3 E3];
    [by rewrite length_map|apply elem_of_map_length; intros l ?;
       rewrite length_take, length_drop, Hin by done; lia|].
  apply vec_ext; [rewrite length_app; lia|]. rewrite L1. intros j Hj.
  rewrite E1, column_take by done. destruct (decide (j < a)%nat).
  - rewrite lookup_total_app_l by lia. by rewrite E2, column_take by done.
  - rewrite lookup_total_app_r by lia. rewrite L2, E3, column_drop_take by lia.
    do 2 f_equal. lia.
Qed.

Lemma read_all_spec (count off : nat) readers sz :
  (forall l, l ∈ readers -> length l = sz) -> (off + count <= sz)%nat ->
  read_all (Z.of_nat count) (map (drop off) readers)
  = Ok (map (fun l => take count (drop off l)) readers, map (drop (off + count)) readers).
Proof.
  intros Hin Hle. induction readers as [|r readers IH]; [done|]. cbn [map read_all].
  unfold read_exact. rewrite length_drop, (Hin r) by left.
  rewrite (proj2 (Z.ltb_ge (Z.of_nat (sz - off)) (Z.of_nat count))) by lia.
  rewrite Nat2Z.id, drop_drop. rewrite IH by (intros; apply Hin; by right). done.
Qed.

Lemma write_all_spec d offset transform inputs (count : nat) (f : list byte -> list byte) i :
  (forall i o, write_ok d i o = true) ->
  write_all d offset i transform inputs (Z.of_nat count) (map f transform)
  = Ok (map (fun row => f row ++ combine row inputs count) transform).
Proof.
  intros Hd. revert i; induction transform as [|row t IH]; intros i; [done|].
  cbn [write_all map]. by rewrite Hd, IH, Nat2Z.id.
Qed.

Lemma stripes_pos (left : nat) : (0 < left)%nat -> (0 < stripes (Z.of_nat left))%nat.
Proof.
  intros. unfold stripes. pose proof (div_ceil_pos (Z.of_nat left) STRIPE ltac:(done)). lia.
Qed.

Lemma stripes_step (left count fuel : nat) :
  (0 < left)%nat -> count = Z.to_nat (Z.min STRIPE (Z.of_nat left)) ->
  (stripes (Z.of_nat left) <= S fuel)%nat -> (stripes (Z.of_nat (left - count)) <= fuel)%nat.
Proof.
  unfold stripes. intros Hl -> Hf. pose proof (div_ceil_spec (Z.of_nat left) STRIPE ltac:(done)).
  destruct (Z.le_gt_cases (Z.of_nat left) STRIPE).
  - replace (left - _)%nat with 0%nat by lia. change (Z.to_nat (div_ceil (Z.of_nat 0) STRIPE)) with 0%nat. lia.
  - assert (0 < STRIPE) by done.
    replace (Z.of_nat (left - Z.to_nat (Z.min STRIPE (Z.of_nat left)))) with (Z.of_nat left - STRIPE)
      by lia.
    rewrite (div_ceil_unique _ STRIPE (div_ceil (Z.of_nat left) STRIPE - 1)); lia.
Qed.

Lemma stripe_loop_spec fuel d transform sz off readers :
  (forall i o, write_ok d i o = true) ->
  (forall row, row ∈ transform -> length row = length readers) ->
  (forall l, l ∈ readers -> length l = sz) -> (off <= sz)%nat ->
  (stripes (Z.of_nat (sz - off)) <= fuel)%nat ->
  stripe_loop fuel d transform (Z.of_nat sz) (Z.of_nat off) (map (drop off) readers)
    (map (fun row => combine row (map (take off) readers) off) transform)
  = Ok (map (fun row => combine row readers sz) transform).
Proof.
  intros Hd Hrow Hin. revert off. induction fuel as [|fuel IH]; intros off Hoff Hfuel;
    cbn [stripe_loop]; (destruct (Z.ltb_spec (Z.of_nat off) (Z.of_nat sz)) as [Hlt|Hge];
    [|replace off with sz by lia; f_equal; apply map_ext; intros row; f_equal;
      rewrite <- (map_id readers) at 2; apply map_ext_in; intros l Hl;
      apply take_ge; rewrite (Hin l) by (by apply list_elem_of_In); lia]);
    [pose proof (stripes_pos (sz - off)); lia|].
  set (count := Z.to_nat (Z.min STRIPE (Z.of_nat sz - Z.of_nat off))).
  replace (Z.min STRIPE (Z.of_nat sz - Z.of_nat off)) with (Z.of_nat count)
    by (unfold count, STRIPE; lia).
  assert (0 < count)%nat by (unfold count, STRIPE; lia).
  rewrite (read_all_spec count off readers sz) by (auto; unfold count, STRIPE; lia).
  rewrite write_all_spec by done.
  rewrite <- Nat2Z.inj_add. rewrite <- IH with (off := (off + count)%nat); [|unfold count, STRIPE; lia|].
  - f_equal. apply map_ext_in. intros row Hr%list_elem_of_In. symmetry.
    apply (combine_stripe _ _ sz); auto. unfold count, STRIPE. lia.
  - rewrite Nat.sub_add_distr. apply stripes_step; [lia| |done]. unfold count. lia.
Qed.

Lemma length_combine_loop row inputs out : length (combine_loop row inputs out) = length out.
Proof.
  revert inputs out; induction row; intros [|? ?] out; simpl; auto.
  by rewrite IHrow, combine_one_length.
Qed.

(** The whole loop from empty output files. *)
Lemma stripe_loop_all d transform readers sz n :
  (forall i o, write_ok d i o = true) -> shaped n (length readers) transform ->
  (forall l, l ∈ readers -> length l = sz) ->
  stripe_loop (stripes (Z.of_nat sz)) d transform (Z.of_nat sz) 0 readers (replicate n [])
  = Ok (map (fun row => combine row readers sz) transform).
Proof.
  intros Hw [Htl Htm] Hin.
  rewrite <- (stripe_loop_spec (stripes (Z.of_nat sz)) d transform sz 0 readers Hw); auto; try lia.
  - rewrite (map_ext (drop 0) id), map_id by done. f_equal.
    rewrite <- Htl, <- const_fmap with (f := fun _ => []) by done.
    apply map_ext. intros row. symmetry. apply nil_length_inv. apply length_combine_loop.
  - intros row Hr. apply list_elem_of_lookup_total in Hr as (i & Hi & <-). apply Htm. lia.
  - by rewrite Nat.sub_0_r.
Qed.

(** ** The payload check *)

Lemma take_app_8 (p b : list byte) c :
  (c <= length b)%nat ->
  (if Z.of_nat (length (take 8 p)) <? 8
   then take 8 p ++ take (Z.to_nat (Z.min (Z.of_nat c) (8 - Z.of_nat (length (take 8 p))))) b
   else take 8 p) = take 8 (p ++ take c b).
Proof.
  intros Hc. rewrite length_take. destruct (Nat.le_gt_cases 8 (length p)).
  - replace (8 `min` length p)%nat with 8%nat by lia. simpl. rewrite take_app_le by lia. done.
  - replace (8 `min` length p)%nat with (length p) by lia.
    rewrite (proj2 (Z.ltb_lt (Z.of_nat (length p)) (8))) by lia.
    rewrite take_app, take_take. do 2 f_equal. lia.
Qed.

Lemma payload_file_spec fuel d i file offset left remaining data :
  (forall i o, reread_ok d i o = true) -> (left <= length file)%nat ->
  (stripes (Z.of_nat left) <= fuel)%nat ->
  payload_file fuel d i file offset (Z.of_nat left) remaining (take 8 data) data
  = Ok (remaining - Z.of_nat left, take 8 (data ++ take left file), data ++ take left file).
Proof.
  intros Hd. revert file offset left remaining data.
  induction fuel as [|fuel IH]; intros file offset left remaining data Hle Hfuel;
    cbn [payload_file]; (destruct (Z.ltb_spec 0 (Z.of_nat left)) as [Hlt|Hge];
    [|replace left with 0%nat by lia; rewrite take_0, app_nil_r; do 3 f_equal; lia]);
    [pose proof (stripes_pos left); lia|].
  rewrite Hd. set (count := Z.to_nat (Z.min STRIPE (Z.of_nat left))).
  replace (Z.min STRIPE (Z.of_nat left)) with (Z.of_nat count) by (unfold count, STRIPE; lia).
  assert (0 < count <= left)%nat as Hcl by (unfold count, STRIPE; lia).
  unfold read_exact. rewrite (proj2 (Z.ltb_ge (Z.of_nat (length file)) (Z.of_nat count))) by lia.
  rewrite Nat2Z.id.
  pose proof (take_app_8 data (take count file) count) as H8.
  rewrite (take_ge (take count file) count) in H8 by (rewrite length_take; lia).
  rewrite H8 by (rewrite length_take; lia). rewrite <- Nat2Z.inj_sub by lia.
  rewrite IH; [|rewrite length_drop; lia|].
  - assert (take left file = take count file ++ take (left - count) (drop count file)) as ->.
    { rewrite take_take_drop. f_equal. lia. }
    rewrite app_assoc. do 3 f_equal. lia.
  - apply stripes_step; (done || lia).
Qed.

Lemma payload_loop_spec d i files sz remaining data :
  (forall i, reopen_ok d i = true) -> (forall i o, reread_ok d i o = true) ->
  (forall f, f ∈ files -> length f = sz) ->
  payload_loop d i files (Z.of_nat sz) (Z.of_nat remaining) (take 8 data) data
  = Ok (Z.of_nat (remaining - length files * sz), take 8 (data ++ take remaining (concat files)), data ++ take remaining (concat files)).
Proof.
  intros Ho Hr. revert i remaining data.
  induction files as [|f files IH]; intros i remaining data Hin; cbn [payload_loop].
  - cbn [concat length]. rewrite take_nil, app_nil_r, Nat.sub_0_r. done.
  - assert (length f = sz) as Hf by (apply Hin; left). rewrite Ho.
    replace (Z.min (Z.of_nat sz) (Z.of_nat remaining)) with (Z.of_nat (sz `min` remaining)) by lia.
    rewrite payload_file_spec by (done || lia).
    rewrite <- Nat2Z.inj_sub by lia.
    rewrite IH by (intros; apply Hin; by right).
    cbn [concat]. rewrite <- app_assoc, (take_app f (concat files) remaining), Hf.
    replace (remaining - length (f :: files) * sz)%nat
      with (remaining - sz `min` remaining - length files * sz)%nat by (cbn [length]; lia).
    destruct (Nat.le_gt_cases remaining sz).
    + replace (sz `min` remaining)%nat with remaining by lia. rewrite Nat.sub_diag.
      replace (remaining - sz)%nat with 0%nat by lia. done.
    + replace (sz `min` remaining)%nat with sz by lia. rewrite !(take_ge f) by lia. done.
Qed.

(** ** Regeneration *)

(** Part [i] of the pool that holds [inputs]. *)
Definition encode_part (g : Matrix) (inputs : list (list byte)) (sz i : nat) : list byte :=
  combine (g !!! i) inputs sz.

Lemma select_rows_spec matrix idx :
  (forall i, i ∈ idx -> (i < length matrix)%nat) ->
  select_rows matrix idx = Ok (map (fun i => matrix !!! i) idx).
Proof.
  induction idx as [|i idx IH]; intros H; [done|]. cbn [select_rows map].
  destruct (lookup_lt_is_Some_2 matrix i (H i ltac:(left))) as [row Hrow].
  rewrite Hrow, (list_lookup_total_correct _ _ _ Hrow), IH by (intros; apply H; by right). done.
Qed.

Lemma open_all_spec (files : list (list byte)) : open_all (map Some files) = Ok files.
Proof. induction files as [|f files IH]; [done|]. cbn. by rewrite IH. Qed.

Lemma check_hashes_spec hex outs ps :
  (forall i out p, outs !! i = Some out -> ps !! i = Some p -> hex out = part_sha256 p) ->
  check_hashes hex outs ps = Ok tt.
Proof.
  revert ps; induction outs as [|out outs IH]; intros [|p ps] H; try done. cbn.
  rewrite (H 0%nat out p) by done. rewrite String.eqb_refl. apply IH.
  intros i. apply (H (S i)).
Qed.

Lemma column_length inputs j : length (column inputs j) = length inputs.
Proof. apply length_map. Qed.

(** The decoding matrix: [k] chosen rows are inverted, and applying the
    transform to the chosen parts gives every part. *)
Lemma transform_spec k n g idx :
  params_ok k n -> generator k n = Ok g -> NoDup idx -> length idx = k ->
  (forall i, i ∈ idx -> (i < n)%nat) ->
  exists decode, invert (map (fun i => g !!! i) idx) = Ok decode /\
    shaped n k (product g decode) /\
    forall r x, (r < n)%nat -> length x = k ->
      dot (product g decode !!! r) (mvec (map (fun i => g !!! i) idx) x) = dot (g !!! r) x.
Proof.
  intros Hp Hg Hnd Hlen Hlt. pose proof Hp as [Hkn _].
  destruct (generator_ok k n Hp) as (g' & Hg' & [Hgl Hgm] & _ & Hker).
  rewrite Hg in Hg'. injection Hg' as <-.
  assert (forall r, (r < k)%nat -> exists i, i ∈ idx /\ map (fun i => g !!! i) idx !!! r = g !!! i)
    as Hrow.
  { intros r Hr. exists (idx !!! r). split; [apply list_elem_of_lookup_total_2; lia|].
    apply (lookup_total_map (fun i => g !!! i)). lia. }
  assert (square k (map (fun i => g !!! i) idx)) as Hsq.
  { split; [by rewrite length_map|]. intros r Hr. destruct (Hrow r Hr) as (i & Hi & ->).
    apply Hgm. auto. }
  destruct (invert_total k _ Hsq) as [decode Hd].
  { intros x Hx H0. apply (Hker idx); auto. intros i Hi.
    apply list_elem_of_lookup in Hi as [r Hr]. assert (r < k)%nat by (apply lookup_lt_Some in Hr; lia).
    transitivity (mvec (map (fun i => g !!! i) idx) x !!! r).
    - rewrite mvec_lookup, lookup_total_map by (rewrite ?length_map; lia).
      by rewrite (list_lookup_total_correct _ _ _ Hr).
    - rewrite H0. apply list_lookup_total_correct, lookup_replicate. done. }
  destruct (invert_inverse k _ _ Hsq Hd) as ([Hdl Hdm] & Hinv & _).
  assert (decode <> []) by (intros ->; simpl in Hdl; lia).
  exists decode. split_and!; [done|split|].
  - unfold product. by rewrite length_map.
  - intros r Hr. apply (product_row g decode r k); rewrite ?Hgl, ?Hgm, ?Hdl; auto.
  - intros r x Hr Hx.
    destruct (product_row g decode r k) as [_ E]; rewrite ?Hgl, ?Hgm, ?Hdl; auto.
    rewrite E by (rewrite length_mvec, length_map; lia). by rewrite Hinv.
Qed.

Lemma encode_part_length k n g inputs sz i :
  params_ok k n -> generator k n = Ok g -> length inputs = k ->
  (forall l, l ∈ inputs -> length l = sz) -> (i < n)%nat ->
  length (encode_part g inputs sz i) = sz.
Proof.
  intros Hp Hg Hl Hin Hi. destruct (generator_ok k n Hp) as (g' & Hg' & [_ Hgm] & _).
  rewrite Hg in Hg'. injection Hg' as <-.
  apply combine_spec; [rewrite Hgm by done; done|done].
Qed.

(** The code is systematic: the first [k] parts are the data itself. *)
Lemma encode_part_systematic k n g inputs sz :
  params_ok k n -> generator k n = Ok g -> length inputs = k ->
  (forall l, l ∈ inputs -> length l = sz) ->
  take k (map (encode_part g inputs sz) (seq 0 n)) = inputs.
Proof.
  intros Hp Hg Hl Hin. pose proof Hp as [Hkn _].
  destruct (generator_ok k n Hp) as (g' & Hg' & [_ Hgm] & Hsys & _).
  rewrite Hg in Hg'. injection Hg' as <-.
  apply list_eq_same_length with (n := k); [lia|rewrite length_take, length_map, length_seq; lia|].
  intros r x y Hr Hx Hy. rewrite lookup_take_lt in Hx by done.
  rewrite list_lookup_fmap, lookup_seq_lt in Hx by lia. injection Hx as <-.
  assert (length y = sz) as Hysz by (apply Hin, list_elem_of_lookup; eauto).
  destruct (combine_spec (g !!! r) inputs sz) as [Hcl Hc]; [rewrite Hgm by lia; done|done|].
  unfold encode_part. simpl. apply vec_ext; [lia|]. rewrite Hcl. intros j Hj.
  rewrite Hc, Hsys by (rewrite ?column_length; lia). unfold column.
  rewrite lookup_total_map by lia. by rewrite (list_lookup_total_correct _ _ _ Hy).
Qed.

Lemma regenerate_outputs k n g decode idx inputs sz :
  params_ok k n -> generator k n = Ok g -> length idx = k ->
  (forall i, i ∈ idx -> (i < n)%nat) -> length inputs = k ->
  (forall l, l ∈ inputs -> length l = sz) -> shaped n k (product g decode) ->
  (forall r x, (r < n)%nat -> length x = k ->
      dot (product g decode !!! r) (mvec (map (fun i => g !!! i) idx) x) = dot (g !!! r) x) ->
  map (fun row => combine row (map (encode_part g inputs sz) idx) sz) (product g decode)
  = map (encode_part g inputs sz) (seq 0 n).
Proof.
  intros Hp Hg Hidx Hlt Hl Hin [Htl Htm] Ht.
  assert (forall l, l ∈ map (encode_part g inputs sz) idx -> length l = sz) as Hlen.
  { intros l Hx. apply list_elem_of_In, in_map_iff in Hx as (i & <- & Hi%list_elem_of_In).
    eapply encode_part_length; eauto. }
  destruct (generator_ok k n Hp) as (g' & Hg' & [_ Hgm] & _).
  rewrite Hg in Hg'. injection Hg' as <-.
  apply list_eq_same_length with (n := n); rewrite ?length_map, ?length_seq; [done..|].
  intros r x y Hr Hx Hy. rewrite list_lookup_fmap, lookup_seq_lt in Hy by lia. injection Hy as <-.
  rewrite list_lookup_fmap in Hx. destruct (product g decode !! r) as [row|] eqn:Erow; [|done].
  injection Hx as <-. apply list_lookup_total_correct in Erow as <-.
  destruct (combine_spec (product g decode !!! r) (map (encode_part g inputs sz) idx) sz)
    as [L1 C1]; [rewrite Htm by done; by rewrite length_map|done|].
  destruct (combine_spec (g !!! r) inputs sz) as [L2 C2]; [rewrite Hgm by done; done|done|].
  unfold encode_part at 2. simpl. apply vec_ext; [lia|]. rewrite L1. intros j Hj.
  rewrite C1, C2 by done. rewrite <- Ht by (rewrite ?column_length; done). f_equal.
  unfold column at 1, mvec. rewrite !map_map. apply map_ext_in.
  intros i Hi%list_elem_of_In. unfold encode_part.
  apply combine_spec; [rewrite Hgm by auto; done|done|done].
Qed.

Definition disk_ok (d : Disk) : Prop :=
  (forall i, create_ok d i = true) /\ (forall i o, write_ok d i o = true) /\
  (forall i, reopen_ok d i = true) /\ (forall i o, reread_ok d i o = true).

(** The receipt [m] was issued for the pool that holds [inputs], [k] blocks of
    [sz] bytes whose first [payload_size] bytes are the envelope. *)
Record receipt_for (hex : list byte -> string) (m : Manifest) (g : Matrix)
    (inputs : list (list byte)) (sz : nat) : Prop := {
  rf_params : params_ok (required m) (total m);
  rf_generator : generator (required m) (total m) = Ok g;
  rf_blocks : length inputs = required m;
  rf_sizes : forall l, l ∈ inputs -> length l = sz;
  rf_size : part_size <$> head (parts m) = Some (Z.of_nat sz);
  rf_hashes : forall i p, parts m !! i = Some p -> part_sha256 p = hex (encode_part g inputs sz i);
  rf_payload_size : 0 <= payload_size (payload m) <= Z.of_nat (required m * sz);
  rf_payload : hex (take (Z.to_nat (payload_size (payload m))) (concat inputs))
               = payload_sha256 (payload m);
  rf_magic : take 8 (take (Z.to_nat (payload_size (payload m))) (concat inputs)) = MAGIC
}.

(** Any [k] distinct parts are enough, whatever the number of stripes. *)
Lemma regenerate_from_any (hex : list byte -> string) (d : Disk) (m : Manifest) (g : Matrix)
    (inputs : list (list byte)) (sz : nat) (idx : list nat)
    (Hm : receipt_for hex m g inputs sz) (Hd : disk_ok d)
    (Hnd : NoDup idx) (Hk : length idx = required m)
    (Hlt : forall i, i ∈ idx -> (i < total m)%nat) :
  regenerate hex d m (map (fun i => (i, Some (encode_part g inputs sz i))) idx)
  = Ok (map (encode_part g inputs sz) (seq 0 (total m))).
Proof.
  destruct Hm as [Hp Hg Hb Hs Hsz Hh Hps Hpay Hmag]. destruct Hd as (Hc & Hw & Hro & Hrr).
  set (k := required m) in *. set (n := total m) in *.
  destruct (transform_spec k n g idx) as (decode & Hdec & Hsh & Hdot); auto.
  destruct (generator_ok k n Hp) as (g' & Hg' & [Hgl Hgm] & _).
  rewrite Hg in Hg'. injection Hg' as <-.
  unfold regenerate. fold k n. rewrite length_map, Hk, Nat.eqb_refl. cbn [negb].
  rewrite Hg. rewrite !map_map. cbn [fst snd]. rewrite map_id.
  rewrite select_rows_spec by (intros; rewrite Hgl; auto). rewrite Hdec.
  rewrite <- (map_map (encode_part g inputs sz) Some), open_all_spec.
  rewrite (proj2 (forallb_forall _ _)) by auto. cbn [negb]. rewrite Hsz. cbn [ok_or].
  assert (forall l, l ∈ map (encode_part g inputs sz) idx -> length l = sz) as Hlen.
  { intros l Hx. apply list_elem_of_In, in_map_iff in Hx as (i & <- & Hi%list_elem_of_In).
    eapply encode_part_length; eauto. }
  rewrite stripe_loop_all by (rewrite ?length_map, ?Hk; auto).
  rewrite (regenerate_outputs k n g decode idx inputs sz) by auto.
  rewrite check_hashes_spec.
  2:{ intros i out p Ho Hpt. rewrite (Hh i p Hpt). rewrite list_lookup_fmap in Ho.
      destruct (seq 0 n !! i) as [j|] eqn:E; [|done]. apply lookup_seq in E as [-> _].
      by injection Ho as <-. }
  rewrite (encode_part_systematic k n) by done.
  pose proof (payload_loop_spec d 0 inputs sz (Z.to_nat (payload_size (payload m))) []) as Hpl.
  change (take 8 []) with (@nil byte) in Hpl. rewrite Z2Nat.id in Hpl by lia.
  rewrite Hpl by auto. cbn [app]. rewrite Hpay, Hmag, String.eqb_refl.
  replace (Z.of_nat (_ - _)) with 0 by lia.
  rewrite bool_decide_eq_true_2 by done. done.
Qed.

(** C1: from any [k] distinct parts of a pool, presented in any order,
    [regenerate] rebuilds all [n] parts byte for byte, whatever the number of
    64 KiB stripes; it neither fails nor runs out of rounds. *)
Theorem regenerate_any_k (hex : list byte -> string) (d : Disk) (m : Manifest) (g : Matrix)
    (inputs : list (list byte)) (sz : nat) (idx : list nat)
    (Hm : receipt_for hex m g inputs sz) (Hd : disk_ok d)
    (Hnd : NoDup idx) (Hk : length idx = required m)
    (Hlt : forall i, i ∈ idx -> (i < total m)%nat) :
  regenerate hex d m (map (fun i => (i, Some (encode_part g inputs sz i))) idx)
  = Ok (map (encode_part g inputs sz) (seq 0 (total m))).
Proof. by apply regenerate_from_any. Qed.

(** The generator is maximum-distance separable.  Outside
    [2 <= k < n <= 16] it is refused; inside, its first [k] rows are the
    identity and any [k] distinct rows are inverted by [invert]. *)
Theorem generator_mds (k n : nat) :
  (~ params_ok k n -> generator k n = Err Internal) /\
  (params_ok k n -> exists g, generator k n = Ok g /\
     (forall r x, (r < k)%nat -> length x = k -> dot (g !!! r) x = x !!! r) /\
     forall idx, NoDup idx -> length idx = k -> (forall i, i ∈ idx -> (i < n)%nat) ->
       exists decode, invert (map (fun i => g !!! i) idx) = Ok decode /\
         forall x, length x = k -> mvec decode (mvec (map (fun i => g !!! i) idx) x) = x).
Proof.
  split.
  - intros Hp. unfold generator, params_ok in *.
    destruct (Nat.ltb_spec k 2), (Nat.leb_spec n k), (Nat.ltb_spec 16 n); simpl; done || lia.
  - intros Hp. destruct (generator_ok k n Hp) as (g & Hg & [Hgl Hgm] & Hsys & _).
    exists g. split_and!; [done..|]. intros idx Hnd Hlen Hlt.
    destruct (transform_spec k n g idx) as (decode & Hdec & _); auto.
    exists decode. split; [done|]. refine (proj1 (proj2 (invert_inverse k _ _ _ Hdec))).
    split; [by rewrite length_map|]. intros r Hr.
    rewrite (lookup_total_map (fun i => g !!! i)) by lia.
    apply Hgm, Hlt, list_elem_of_lookup_total_2. lia.
Qed.

(** A disk on which every operation succeeds. *)
Definition toy_disk : Disk :=
  {| create_ok _ := true; write_ok _ _ := true; reopen_ok _ := true; reread_ok _ _ := true |}.

(** *** Failing closed *)

Lemma write_all_lengths d offset i transform inputs count outs outs' :
  write_all d offset i transform inputs count outs = Ok outs' ->
  length outs' = (length transform `min` length outs)%nat /\
  forall l, (forall out, out ∈ outs -> length out = l) ->
    forall out, out ∈ outs' -> length out = (l + Z.to_nat count)%nat.
Proof.
  revert i outs outs'; induction transform as [|row t IH]; intros i [|o outs] outs'; cbn [write_all];
    try (intros [= <-]; split; [done|]; intros; set_solver).
  destruct (write_ok d i offset); [|done].
  destruct (write_all d offset (S i) t inputs count outs) as [w|] eqn:E; [|done]. intros [= <-].
  destruct (IH _ _ _ E) as [H1 H2]. split; [simpl; lia|]. intros l Hl out Hout.
  apply elem_of_cons in Hout as [->|Hout]; [|apply H2; [intros; apply Hl; by right|done]].
  rewrite length_app, (Hl o) by left. unfold combine. by rewrite length_combine_loop, length_replicate.
Qed.

Lemma stripe_loop_lengths fuel d transform size offset readers outs outs' :
  stripe_loop fuel d transform size offset readers outs = Ok outs' -> 0 <= offset <= size ->
  (forall out, out ∈ outs -> length out = Z.to_nat offset) ->
  length outs = length transform ->
  length outs' = length transform /\ forall out, out ∈ outs' -> length out = Z.to_nat size.
Proof.
  revert offset readers outs; induction fuel as [|fuel IH]; intros offset readers outs;
    cbn [stripe_loop]; (destruct (Z.ltb_spec offset size);
      [|intros [= <-] ? Hl ?; replace size with offset by lia; done]); [done|].
  set (count := Z.min STRIPE (size - offset)).
  destruct (read_all count readers) as [[inputs readers']|]; [|done].
  destruct (write_all d offset 0 transform inputs count outs) as [outs1|] eqn:E; [|done].
  intros Hs Ho Hl Hlen. destruct (write_all_lengths _ _ _ _ _ _ _ _ E) as [H1 H2].
  apply (IH _ _ _ Hs); [unfold count, STRIPE; lia| |lia].
  intros out Hout. rewrite (H2 _ Hl out Hout). unfold count, STRIPE. lia.
Qed.

Lemma payload_loop_ok_disk d i files size remaining header data r :
  payload_loop d i files size remaining header data = Ok r ->
  payload_loop toy_disk i files size remaining header data = Ok r.
Proof.
  assert (forall fuel i file offset left remaining header data r,
    payload_file fuel d i file offset left remaining header data = Ok r ->
    payload_file fuel toy_disk i file offset left remaining header data = Ok r) as Hf.
  { intros fuel. induction fuel as [|fuel IH]; intros *; cbn [payload_file];
      destruct (0 <? _); try done. destruct (reread_ok d _ _); [|done]. simpl.
    destruct (read_exact _ _) as [[? ?]|]; [|done]. apply IH. }
  revert i remaining header data; induction files as [|f files IH]; intros i remaining header data;
    cbn [payload_loop]; [done|]. destruct (reopen_ok d i); [|done]. simpl.
  destruct (payload_file _ d _ _ _ _ _ _ _) as [[[? ?] ?]|] eqn:E; [|done].
  rewrite (Hf _ _ _ _ _ _ _ _ _ E). apply IH.
Qed.

Lemma check_hashes_inv hex outs ps :
  check_hashes hex outs ps = Ok tt ->
  forall i out p, outs !! i = Some out -> ps !! i = Some p -> hex out = part_sha256 p.
Proof.
  revert ps; induction outs as [|o outs IH]; intros [|q ps]; cbn [check_hashes]; try done.
  destruct (String.eqb_spec (hex o) (part_sha256 q)); [|done].
  intros H [|i] out p Ho Hp; simpl in *; [congruence|]. eauto.
Qed.

(** What is returned has been checked against the receipt. *)
Lemma regenerate_checked (hex : list byte -> string) (d : Disk) (m : Manifest)
    (sources : list (nat * option (list byte))) (outs : list (list byte)) (p0 : Part)
    (Hsz : head (parts m) = Some p0) (Hp0 : 0 <= part_size p0)
    (Hps : 0 <= payload_size (payload m))
    (Hok : regenerate hex d m sources = Ok outs) :
  length outs = total m /\
  (forall out, out ∈ outs -> Z.of_nat (length out) = part_size p0) /\
  (forall i out p, outs !! i = Some out -> parts m !! i = Some p -> hex out = part_sha256 p) /\
  let data := take (Z.to_nat (payload_size (payload m))) (concat (take (required m) outs)) in
  Z.of_nat (length data) = payload_size (payload m) /\
  hex data = payload_sha256 (payload m) /\ take 8 data = MAGIC.
Proof.
  unfold regenerate in Hok. destruct (negb _); [done|].
  destruct (generator _ _) as [g|] eqn:Hg; [|done].
  destruct (select_rows g _) as [rows|]; [|done].
  destruct (invert rows) as [decode|]; [|done].
  destruct (open_all _) as [readers|]; [|done]. destruct (negb _); [done|].
  rewrite Hsz in Hok. cbn [ok_or fmap option_fmap option_map] in Hok.
  destruct (stripe_loop _ _ _ _ _ _ _) as [outs'|] eqn:Hs; [|done].
  destruct (check_hashes hex outs' (parts m)) as [[]|] eqn:Hh; [|done].
  destruct (payload_loop _ _ _ _ _ _ _) as [[[rem header] data]|] eqn:Hpl; [|done].
  destruct (Z.eqb_spec rem 0) as [->|]; [|done].
  destruct (String.eqb_spec (hex data) (payload_sha256 (payload m))) as [Hd|]; [|done].
  destruct (bool_decide_reflect (header = MAGIC)) as [->|]; [|done].
  cbn [negb orb] in Hok. injection Hok as <-.
  assert (length (product g decode) = total m) as Hpl0.
  { unfold product. rewrite length_map.
    assert (params_ok (required m) (total m)) as Hpo.
    { unfold params_ok. unfold generator in Hg.
      destruct (Nat.ltb_spec (required m) 2), (Nat.leb_spec (total m) (required m)),
        (Nat.ltb_spec 16 (total m)); simpl in Hg; done || lia. }
    destruct (generator_ok _ _ Hpo) as (g' & Hg' & [Hl _] & _). congruence. }
  apply stripe_loop_lengths in Hs as [Hlen Hout]; [|lia|..].
  2:{ intros out Ho. apply elem_of_replicate in Ho as [-> _]. done. }
  2:{ by rewrite length_replicate. }
  apply payload_loop_ok_disk in Hpl.
  pose proof (payload_loop_spec toy_disk 0 (take (required m) outs') (Z.to_nat (part_size p0))
    (Z.to_nat (payload_size (payload m))) []) as Hspec.
  change (take 8 []) with (@nil byte) in Hspec. rewrite !Z2Nat.id, Hpl in Hspec by lia.
  specialize (Hspec ltac:(done) ltac:(done)
    ltac:(intros f Hf; apply Hout; by eapply elem_of_take_in)). injection Hspec as Hrem Hhd Hdata.
  cbn [app] in *. subst data.
  split_and!; [lia|intros out Ho; rewrite (Hout out Ho); lia|by eapply check_hashes_inv
    | |done|done].
  rewrite length_take, length_concat_same with (sz := Z.to_nat (part_size p0)); [lia|].
  intros f Hf. apply Hout. by eapply elem_of_take_in.
Qed.

(** C15: whatever the sources and the disk do, if [regenerate] returns parts
    then every part has the hash the owner signed and the first [k] of them
    concatenate to a payload with the signed hash, the signed length and the
    envelope magic. *)
Theorem regenerate_fails_closed (hex : list byte -> string) (d : Disk) (m : Manifest)
    (sources : list (nat * option (list byte))) (outs : list (list byte)) (p0 : Part)
    (Hsz : head (parts m) = Some p0) (Hp0 : 0 <= part_size p0)
    (Hps : 0 <= payload_size (payload m))
    (Hok : regenerate hex d m sources = Ok outs) :
  length outs = total m /\
  (forall out, out ∈ outs -> Z.of_nat (length out) = part_size p0) /\
  (forall i out p, outs !! i = Some out -> parts m !! i = Some p -> hex out = part_sha256 p) /\
  let data := take (Z.to_nat (payload_size (payload m))) (concat (take (required m) outs)) in
  Z.of_nat (length data) = payload_size (payload m) /\
  hex data = payload_sha256 (payload m) /\ take 8 data = MAGIC.
Proof. by apply (regenerate_checked hex d m sources). Qed.

(** The receipt of the witness: two data blocks of five bytes, one parity
    part, rebuilt from the parity part and the first data part. *)
Definition toy_hex (l : list byte) : string :=
  String.string_of_list_ascii (map (fun b => Ascii.ascii_of_N (Z.to_N (b2z b))) l).

Definition toy_inputs : list (list byte) := [ascii_bytes "FSWNE"; ascii_bytes "NC2!?"].

Definition toy_generator : Matrix := [bytes [1; 0]; bytes [0; 1]; bytes [3; 2]].

Definition toy_part (i : nat) : Part :=
  {| part_index := i; part_sha256 := toy_hex (encode_part toy_generator toy_inputs 5 i);
     part_size := 5; part_targets := [] |}.

Definition toy_manifest : Manifest :=
  {| manifest_type := "wildbloom.pool"; manifest_version := 1; manifest_mode := "erasure";
     manifest_profile := "direct";
     payload := {| payload_sha256 := "FSWNENC2!"; payload_size := 9;
                   payload_encryption := "forgesworn-aes-256-gcm-chunked-v2" |};
     required := 2; total := 3; copies := 1; parts := map toy_part (seq 0 3) |}.

Lemma toy_receipt : receipt_for toy_hex toy_manifest toy_generator toy_inputs 5.
Proof.
  split.
  - split; simpl; lia.
  - vm_compute. reflexivity.
  - reflexivity.
  - intros l Hl. unfold toy_inputs in Hl. rewrite !elem_of_cons, elem_of_nil in Hl.
    destruct Hl as [->|[->|[]]]; reflexivity.
  - reflexivity.
  - intros i p Hp. do 3 (destruct i as [|i]; [by injection Hp as <-|]). done.
  - simpl. lia.
  - vm_compute. reflexivity.
  - vm_compute. reflexivity.
Defined.

Lemma regenerate_any_k_witness :
  regenerate toy_hex toy_disk toy_manifest
    (map (fun i => (i, Some (encode_part toy_generator toy_inputs 5 i))) [2; 0]%nat)
  = Ok (map (encode_part toy_generator toy_inputs 5) (seq 0 3)).
Proof.
  apply (regenerate_any_k toy_hex toy_disk toy_manifest toy_generator toy_inputs 5 [2; 0]%nat).
  - exact toy_receipt.
  - repeat split.
  - apply (bool_decide_unpack _). vm_compute. exact I.
  - reflexivity.
  - intros i Hi. rewrite !elem_of_cons, elem_of_nil in Hi. simpl. lia.
Defined.

Lemma regenerate_fails_closed_witness :
  length (map (encode_part toy_generator toy_inputs 5) (seq 0 3)) = 3%nat /\
  toy_hex (encode_part toy_generator toy_inputs 5 1) = part_sha256 (toy_part 1).
Proof.
  destruct (regenerate_fails_closed toy_hex toy_disk toy_manifest
    (map (fun i => (i, Some (encode_part toy_generator toy_inputs 5 i))) [2; 0]%nat)
    (map (encode_part toy_generator toy_inputs 5) (seq 0 3)) (toy_part 0) eq_refl)
    as (H1 & _ & H2 & _).
  - simpl. lia.
  - simpl. lia.
  - vm_compute. reflexivity.
  - split; [exact H1|]. exact (H2 1%nat _ _ eq_refl eq_refl).
Defined.

Lemma generator_mds_witness :
  generator 1 3 = Err Internal /\
  exists g, generator 2 3 = Ok g /\
    exists decode, invert [g !!! 2%nat; g !!! 0%nat] = Ok decode /\
      forall x, length x = 2%nat -> mvec decode (mvec [g !!! 2%nat; g !!! 0%nat] x) = x.
Proof.
  split.
  - apply (generator_mds 1 3). unfold params_ok. lia.
  - destruct (proj2 (generator_mds 2 3)) as (g & Hg & _ & H); [unfold params_ok; lia|].
    exists g. split; [exact Hg|]. apply (H [2; 0]%nat); [|reflexivity|].
    + repeat constructor; set_solver.
    + intros i Hi. apply elem_of_cons in Hi as [->|Hi]; [lia|].
      apply list_elem_of_singleton in Hi as ->. lia.
Defined.
