(* ===== verification/CheckoutContract.v ===== *)
(** * Checkout: the sale contract

    Models [crates/wildbloom-checkout/src/contract.rs], [lib.rs] and
    [auth.rs]: the records a sale is made of, the operator configuration's
    [validate], and the NIP-98 request authentication.  Strings are byte
    strings.  URL parsing, JSON sizes and event verification belong to other
    crates and are operations of [ContractLib]. *)
From S2P Require Import Prelude.

(** ** Errors *)

Inductive Error :=
| Busy | Invalid | Unauthorised | NotFound | Conflict | Expired_ | Capacity | Pending_
| Unavailable | Locked | Internal.

#[export] Instance Error_eq_dec : EqDecision Error.
Proof. solve_decision. Defined.

(** ** Identifiers *)

Definition id_char (b : Z) : bool :=
  in_range 48 b 57 || in_range 65 b 90 || in_range 97 b 122 || (b =? 45) || (b =? 95).

Definition id (value : string) : bool :=
  negb (is_empty value) && (slen value <=? 128) && forallb id_char (codes value).

(** [s.chars().any(|c| c.is_control() && !allowed(c))] on the UTF-8 bytes:
    C0, DEL, and C1, which UTF-8 writes as 0xC2 followed by 0x80 to 0x9F. *)
Fixpoint has_control (allowed : Z -> bool) (l : list Z) : bool :=
  match l with
  | [] => false
  | a :: rest =>
      ((in_range 0 a 31 || (a =? 127)) && negb (allowed a))
      || (match rest with b :: _ => (a =? 0xC2) && in_range 0x80 b 0x9F | [] => false end)
      || has_control allowed rest
  end.

(** ** Records *)

Inductive Rail := Lightning | Lnurlcash.
Inductive Network := Bitcoin | Testnet | Regtest.

#[export] Instance Rail_eq_dec : EqDecision Rail.
Proof. solve_decision. Defined.
#[export] Instance Network_eq_dec : EqDecision Network.
Proof. solve_decision. Defined.

Record Offer := {
  o_id : string; o_revision : Z; capacity_bytes : Z; duration_seconds : Z; grace_seconds : Z;
  price_msat : Z; delivery_bytes : Z;
  delivery_policy : string; retention_policy : string; refund_policy : string }.

Record Issuer := { i_id : string; note_endpoint : string; callback : string; mint_pubkey : string }.

#[export] Instance Offer_eq_dec : EqDecision Offer.
Proof. solve_decision. Defined.
#[export] Instance Issuer_eq_dec : EqDecision Issuer.
Proof. solve_decision. Defined.

Record Config := {
  origin : string; seller_id : string; seller_name : string; network : Network;
  quote_seconds : Z; offers : list Offer; issuers : list Issuer;
  allow_loopback_http : bool; tor_only : bool }.

Record QuoteRequest := {
  request_id : string; offer_id : string; q_rail : Rail; q_issuer_id : option string;
  q_renews : option string; q_refund_to : option string }.

Record Quote := {
  version : Z; order_id : string; quote_seller_id : string; quote_seller_name : string;
  node_origin : string; signer_pubkey : string; quote_network : Network; rail : Rail;
  issuer_id : option string; offer : Offer; issuer : option Issuer;
  created_at : Z; expires_at : Z; renews : option string; refund_to : option string }.

Inductive State :=
| Reserving | Quoted | Expired | InvoicePending | AwaitingPayment | LnurlPending | Settled | Active
| RefundRequired | Refunded.

#[export] Instance State_eq_dec : EqDecision State.
Proof. solve_decision. Defined.

Definition state_key (s : State) : string :=
  match s with
  | Reserving => "reserving" | Quoted => "quoted" | Expired => "expired"
  | InvoicePending => "invoice_pending" | AwaitingPayment => "awaiting_payment"
  | LnurlPending => "lnurl_pending" | Settled => "settled" | Active => "active"
  | RefundRequired => "refund_required" | Refunded => "refunded"
  end.

Record Receipt := {
  allowance_id : string; receipt_bytes : Z; starts_at : Z; writes_until : Z; retains_until : Z }.

Inductive RefundStatus := RefundPending | RefundCompleted.

Record RefundReceipt := {
  status : RefundStatus; amount_msat : Z; receipt_hash : string; receipt_refunded_at : option Z }.

Record Order := {
  quote : Quote; quote_digest : string; state : State; invoice : option string;
  receipt : option Receipt; refund_receipt : option RefundReceipt }.

Record OrderSummary := {
  summary_id : string; summary_state : State; summary_rail : Rail; summary_expires : Z }.

(** ** Libraries *)

(** What the source reads of [url::Url]. *)
Record Url := {
  u_scheme : string; u_username : string; u_password : option string; u_host : option string;
  u_host_is_loopback_ip : bool; u_path : string; u_query : option string;
  u_query_pairs : list (string * string); u_fragment : option string; u_origin : string;
  u_str : string;
  (** The serialisation after [set_query(None)]. *)
  u_without_query : string }.

(** A signed Nostr event, as [Event::from_json] returns it. *)
Record Event := {
  e_created_at : Z; e_kind : Z; e_content : string; e_tags : list (list string);
  e_pubkey : string; e_id : string }.

Class ContractLib := {
  url_parse : string -> option Url;
  is_compressed_pubkey : string -> bool;
  config_json_len : Config -> Z;
  digest : string -> string;
  base64_decode : string -> option string;
  event_from_json : string -> option Event;
  event_verify : Event -> bool
}.

Section Contract.
Context `{ContractLib}.
Local Open Scope wb_scope.

(** ** Configuration *)

Definition endpoint (value : string) (local : bool) : result Error Url :=
  let? u := ok_or (url_parse value) Invalid in
  let? host := ok_or (u_host u) Invalid in
  let loopback := bool_decide (host = "localhost"%string) || u_host_is_loopback_ip u in
  if (2048 <? slen value) || negb (is_empty (u_username u)) || bool_decide (is_Some (u_password u))
     || bool_decide (is_Some (u_query u)) || bool_decide (is_Some (u_fragment u))
     || ends_with ".onion" host
     || negb (bool_decide (u_scheme u = "https"%string)
              || (local && loopback && bool_decide (u_scheme u = "http"%string)))
  then Err Invalid else Ok u.

Definition MAX_SAFE : Z := 9007199254740991.

Definition policy_text_bad (s : string) : bool :=
  is_empty s || (2048 <? slen s) || has_control (fun c => (c =? 10) || (c =? 9)) (codes s).

(** The guard of the loop over the offers; [seen] is the set of ids so far. *)
Definition offer_bad (seen : list string) (o : Offer) : bool :=
  negb (id (o_id o)) || (o_revision o =? 0) || bool_decide (o_id o ∈ seen)
  || (capacity_bytes o =? 0) || (duration_seconds o =? 0) || (price_msat o =? 0)
  || negb (price_msat o mod 1000 =? 0) || (delivery_bytes o =? 0)
  || existsb (fun n => MAX_SAFE <? n)
       [capacity_bytes o; duration_seconds o; grace_seconds o; price_msat o; delivery_bytes o]
  || existsb policy_text_bad [delivery_policy o; retention_policy o; refund_policy o].

Fixpoint validate_offers (seen : list string) (os : list Offer) : result Error unit :=
  match os with
  | [] => Ok tt
  | o :: os => if offer_bad seen o then Err Invalid else validate_offers (o_id o :: seen) os
  end.

Fixpoint validate_issuers (local : bool) (seen : list string) (rest : list Issuer) : result Error unit :=
  match rest with
  | [] => Ok tt
  | i :: rest =>
      let? note := endpoint (note_endpoint i) local in
      let? cb := endpoint (callback i) local in
      if negb (id (i_id i)) || bool_decide (i_id i ∈ seen)
         || negb (bool_decide (u_origin note = u_origin cb))
         || negb (is_compressed_pubkey (mint_pubkey i))
      then Err Invalid else validate_issuers local (i_id i :: seen) rest
  end.

Definition validate (c : Config) : result Error unit :=
  if tor_only c || negb (id (seller_id c)) || is_empty (seller_name c) || (256 <? slen (seller_name c))
     || has_control (fun _ => false) (codes (seller_name c))
     || negb (in_range 60 (quote_seconds c) 86400)
     || bool_decide (offers c = []) || (32 <? Z.of_nat (length (offers c)))
     || (32 <? Z.of_nat (length (issuers c)))
  then Err Invalid
  else
    let? o := endpoint (origin c) (allow_loopback_http c) in
    if negb (bool_decide (u_path o = "/"%string)) || negb (bool_decide (u_str o = origin c))
    then Err Invalid
    else
      let? _ := validate_offers [] (offers c) in
      let? _ := validate_issuers (allow_loopback_http c) [] (issuers c) in
      if 60000 <? config_json_len c then Err Invalid else Ok tt.

(** ** Authentication *)

Record Principal := { pubkey : string; event_id : string }.

Definition HTTP_AUTH : Z := 27235.

(** The closure [tag]: at most one tag of the name, with exactly two items. *)
Definition tag (e : Event) (name : string) : result Error (option string) :=
  match List.filter (fun t => bool_decide (head t = Some name)) (e_tags e) with
  | [] => Ok None
  | [[_; value]] => Ok (Some value)
  | _ => Err Unauthorised
  end.

Definition authenticate (header url method body : string) (now : Z) : result Error Principal :=
  if (12000 <? slen header) || (16384 <? slen body)
     || negb (bool_decide (method = "GET"%string) || bool_decide (method = "POST"%string))
  then Err Unauthorised
  else
    let? encoded := ok_or (strip_prefix "Nostr " header) Unauthorised in
    let? decoded := ok_or (base64_decode encoded) Unauthorised in
    if 8192 <? slen decoded then Err Unauthorised
    else
      let? event := ok_or (event_from_json decoded) Unauthorised in
      let created := e_created_at event in
      if negb (e_kind event =? HTTP_AUTH) || negb (is_empty (e_content event))
         || (saturating_add now 30 <? created) || (saturating_add created 60 <? now)
      then Err Unauthorised
      else
        let? u := tag event "u" in
        if negb (bool_decide (u = Some url)) then Err Unauthorised
        else
          let? m := tag event "method" in
          if negb (bool_decide (m = Some method)) then Err Unauthorised
          else
            let expected := digest body in
            let? bad_post :=
              if bool_decide (method = "POST"%string)
              then let? p := tag event "payload" in Ok (negb (bool_decide (p = Some expected)))
              else Ok false in
            if bad_post then Err Unauthorised
            else
              let? bad_get :=
                if bool_decide (method = "GET"%string)
                then if negb (is_empty body) then Ok true
                     else let? p := tag event "payload" in Ok (bool_decide (is_Some p))
                else Ok false in
              if bad_get then Err Unauthorised
              else if negb (event_verify event) then Err Unauthorised
              else Ok {| pubkey := e_pubkey event; event_id := e_id event |}.
End Contract.
