(* ===== verification/CheckoutLedger.v ===== *)
(** * Checkout: the ledger

    Models [crates/wildbloom-checkout/src/ledger.rs]: the [orders] table and
    the statements the service runs on it.  A row holds the decoded value of
    each JSON column.  Every statement may fail in SQLite, which leaves the
    table as it was and is reported as [Internal]. *)
From S2P Require Import Prelude CheckoutContract.

(** ** Rows *)

Record Rotation := {
  rot_request_url : string; new_secret : string; outputs : list string; rot_issuer : string;
  rot_mint_pubkey : string; rot_endpoint : string; certificate : option string }.

Record RefundJournal := {
  destination : string; ref_invoice : string; ref_payment_hash : string;
  receiver_verify : option string; ref_request_url : string; issuer_verify : option string;
  refunded_at : option Z }.

(** The columns of [orders], the primary key apart. *)
Record Row := {
  r_signer : string; r_request : string; r_quote : Quote; r_digest : string; r_state : State;
  r_invoice : option string; r_payment_hash : option string; r_rotation : option Rotation;
  r_note_id : option string; r_settlement : option string; r_receipt : option Receipt;
  r_refund : option RefundJournal }.

Record Record_ := {
  order : Order; request : string; payment_hash : option string; rotation : option Rotation;
  refund : option RefundJournal }.

Abbreviation Table := (gmap string Row).

Definition MAX_ORDERS : Z := 10000.

Definition public (j : RefundJournal) (amount : Z) : RefundReceipt :=
  {| status := match refunded_at j with Some _ => RefundCompleted | None => RefundPending end;
     amount_msat := amount; receipt_hash := ref_payment_hash j;
     receipt_refunded_at := refunded_at j |}.

Definition record_of (r : Row) : Record_ :=
  {| order := {| quote := r_quote r; quote_digest := r_digest r; state := r_state r;
                 invoice := r_invoice r; receipt := r_receipt r;
                 refund_receipt := (fun j => public j (price_msat (offer (r_quote r)))) <$> r_refund r |};
     request := r_request r; payment_hash := r_payment_hash r; rotation := r_rotation r;
     refund := r_refund r |}.

(** ** Statements *)

Section Statements.
(** [serde_json::to_string] of a quote, hashed by [digest]. *)
Context (quote_digest_of : Quote -> string).

Definition get (t : Table) (key : string) : option Record_ := record_of <$> t !! key.

Definition new_row (q : Quote) (req : string) : Row :=
  {| r_signer := signer_pubkey q; r_request := req; r_quote := q; r_digest := quote_digest_of q;
     r_state := Reserving; r_invoice := None; r_payment_hash := None; r_rotation := None;
     r_note_id := None; r_settlement := None; r_receipt := None; r_refund := None |}.

(** [INSERT .. WHERE (SELECT COUNT( * ) ..) < 10000 ON CONFLICT(id) DO NOTHING]. *)
Definition insert_order (q : Quote) (req : string) (t : Table) : result Error Table :=
  match t !! order_id q with
  | Some _ => Ok t
  | None =>
      if Z.of_nat (size t) <? MAX_ORDERS then Ok (<[order_id q := new_row q req]> t) else Err Busy
  end.

(** [UPDATE orders SET .. WHERE id = ? AND guard], one row exactly. *)
Definition update (key : string) (guard : Row -> bool) (set : Row -> Row) (t : Table)
    : result Error Table :=
  match t !! key with
  | Some r => if guard r then Ok (<[key := set r]> t) else Err Conflict
  | None => Err Conflict
  end.

Definition in_state (s : State) (r : Row) : bool := bool_decide (r_state r = s).

Definition set_state (s : State) (r : Row) : Row :=
  {| r_signer := r_signer r; r_request := r_request r; r_quote := r_quote r; r_digest := r_digest r;
     r_state := s; r_invoice := r_invoice r; r_payment_hash := r_payment_hash r;
     r_rotation := r_rotation r; r_note_id := r_note_id r; r_settlement := r_settlement r;
     r_receipt := r_receipt r; r_refund := r_refund r |}.

Definition set_invoice (inv hash : string) (r : Row) : Row :=
  {| r_signer := r_signer r; r_request := r_request r; r_quote := r_quote r; r_digest := r_digest r;
     r_state := AwaitingPayment; r_invoice := Some inv; r_payment_hash := Some hash;
     r_rotation := r_rotation r; r_note_id := r_note_id r; r_settlement := r_settlement r;
     r_receipt := r_receipt r; r_refund := r_refund r |}.

Definition set_rotation (note_id : string) (rot : Rotation) (r : Row) : Row :=
  {| r_signer := r_signer r; r_request := r_request r; r_quote := r_quote r; r_digest := r_digest r;
     r_state := LnurlPending; r_invoice := r_invoice r; r_payment_hash := r_payment_hash r;
     r_rotation := Some rot; r_note_id := Some note_id; r_settlement := r_settlement r;
     r_receipt := r_receipt r; r_refund := r_refund r |}.

(** [rotation = COALESCE(?4, rotation)]. *)
Definition set_settled (reference : string) (rot : option Rotation) (r : Row) : Row :=
  {| r_signer := r_signer r; r_request := r_request r; r_quote := r_quote r; r_digest := r_digest r;
     r_state := Settled; r_invoice := r_invoice r; r_payment_hash := r_payment_hash r;
     r_rotation := match rot with Some _ => rot | None => r_rotation r end;
     r_note_id := r_note_id r; r_settlement := Some reference; r_receipt := r_receipt r;
     r_refund := r_refund r |}.

Definition set_receipt (rc : Receipt) (r : Row) : Row :=
  {| r_signer := r_signer r; r_request := r_request r; r_quote := r_quote r; r_digest := r_digest r;
     r_state := Active; r_invoice := r_invoice r; r_payment_hash := r_payment_hash r;
     r_rotation := r_rotation r; r_note_id := r_note_id r; r_settlement := r_settlement r;
     r_receipt := Some rc; r_refund := r_refund r |}.

Definition set_refund (s : State) (j : RefundJournal) (r : Row) : Row :=
  {| r_signer := r_signer r; r_request := r_request r; r_quote := r_quote r; r_digest := r_digest r;
     r_state := s; r_invoice := r_invoice r; r_payment_hash := r_payment_hash r;
     r_rotation := r_rotation r; r_note_id := r_note_id r; r_settlement := r_settlement r;
     r_receipt := r_receipt r; r_refund := Some j |}.

Definition update_state (key : string) (from to : State) : Table -> result Error Table :=
  update key (in_state from) (set_state to).

(** [SELECT id FROM orders WHERE column = value]: some other order has it. *)
Definition taken_by_other (column : Row -> option string) (value key : string) (t : Table) : bool :=
  existsb (fun '(k, r) => bool_decide (column r = Some value) && negb (bool_decide (k = key)))
          (map_to_list t).

Definition taken (column : Row -> option string) (value : string) (t : Table) : bool :=
  existsb (fun '(_, r) => bool_decide (column r = Some value)) (map_to_list t).

Definition record_invoice (key inv hash : string) (t : Table) : result Error Table :=
  if taken_by_other r_payment_hash hash key t then Err Conflict
  else update key (in_state InvoicePending) (set_invoice inv hash) t.

Definition rotate_order (key note_id : string) (rot : Rotation) (t : Table) : result Error Table :=
  if taken r_note_id note_id t then Err Conflict
  else update key (in_state Quoted) (set_rotation note_id rot) t.

Definition settle (key : string) (from : State) (reference : string) (rot : option Rotation) (t : Table)
    : result Error Table :=
  if taken_by_other r_settlement reference key t then Err Conflict
  else update key (in_state from) (set_settled reference rot) t.

Definition activate (key : string) (rc : Receipt) : Table -> result Error Table :=
  update key (in_state Settled) (set_receipt rc).

Definition start_refund (key : string) (j : RefundJournal) : Table -> result Error Table :=
  update key (fun r => in_state RefundRequired r && bool_decide (r_refund r = None))
         (set_refund RefundRequired j).

Definition update_refund (key : string) (j : RefundJournal) (t : Table) : result Error Table :=
  match get t key ≫= refund with
  | None => Err Conflict
  | Some current =>
      if negb (bool_decide (ref_payment_hash current = ref_payment_hash j))
         || negb (bool_decide (ref_request_url current = ref_request_url j))
      then Err Conflict
      else update key (in_state RefundRequired) (set_refund RefundRequired j) t
  end.

Definition complete_refund (key : string) (j : RefundJournal) (t : Table) : result Error Table :=
  match refunded_at j with
  | None => Err Invalid
  | Some _ => update key (in_state RefundRequired) (set_refund Refunded j) t
  end.

(** Keyset pagination: [WHERE id > after ORDER BY id LIMIT limit]. *)
Definition summary (key : string) (r : Row) : OrderSummary :=
  {| summary_id := key; summary_state := r_state r; summary_rail := rail (r_quote r);
     summary_expires := expires_at (r_quote r) |}.

Definition string_ltb (a b : string) : bool :=
  match String.compare a b with Lt => true | _ => false end.

Fixpoint insert_sorted (kr : string * Row) (l : list (string * Row)) : list (string * Row) :=
  match l with
  | [] => [kr]
  | kr' :: l => if string_ltb kr.1 kr'.1 then kr :: kr' :: l else kr' :: insert_sorted kr l
  end.

Definition sorted_rows (t : Table) : list (string * Row) := foldr insert_sorted [] (map_to_list t).

Definition inspect (after : string) (limit : Z) (t : Table) : result Error (list OrderSummary) :=
  if (limit =? 0) || (100 <? limit) || (negb (is_empty after) && negb (id after)) then Err Invalid
  else Ok (map (fun '(k, r) => summary k r)
             (take (Z.to_nat limit)
                (List.filter (fun '(k, _) => string_ltb after k) (sorted_rows t)))).
End Statements.
