(* ===== verification/CheckoutService.v ===== *)
(** * Checkout: the service

    Models [crates/wildbloom-checkout/src/service.rs] and the router's
    [execute] of [http.rs].  Each handler runs in a state-and-error monad over
    the ledger, an arbitrary outside world (clock, store, Lightning backend,
    transports, SQLite failures), and a log of the calls that can move money.
    An error keeps the state reached so far, as in the code: a handler that is
    interrupted at an await is one whose call failed there. *)
From S2P Require Import Prelude CheckoutContract CheckoutLedger.

(** ** Libraries and the outside *)

Record Bolt11 := {
  b_currency : Network; b_amount_msat : option Z; b_expires_at : option Z;
  b_description : option string; b_payment_hash : string; b_timestamp : Z }.

Record Invoice := { bolt11 : string; inv_payment_hash : string }.
Record InvoiceStatus := { paid : bool; preimage : option string }.
Record NoteInfo := {
  n_callback : string; n_mint_pubkey : option string; max_withdrawable : Z; n_k1 : string;
  n_signature : option string }.
Record Mutation := { m_signature : option string; m_pr : option string; m_verify : option string }.
Record PayRequest := { pay_callback : string; min_sendable : Z; max_sendable : Z }.
Record PayInvoice := { pr : string; pay_verify : option string }.
Record VerifyReply := { v_pr : string; v_settled : bool; v_preimage : option string }.
Record RotateRequest := { rr_url : string; rr_outputs : list string }.

Record PaidSale := {
  sale_order_id : string; sale_signer : string; sale_capacity : Z; sale_duration : Z;
  sale_grace : Z; hold_expires_at : Z; sale_renews : option string }.

Inductive StoreError := QuotaExceeded | InvalidPaidSale | PaidAllowanceUnavailable | OtherStoreError.

(** Pure functions of [lnurlcash_core], [lightning_invoice], [serde_json] and
    [hex]; a body is the decoded JSON of a reply. *)
Class ServiceLib := {
  body : Type;
  lib_contract :: ContractLib;
  json_body : string -> option body;
  quote_json : Quote -> string;
  request_json : QuoteRequest -> string;
  is_lightning_address : string -> bool;
  resolve_note_input : string -> option string;
  note_k1 : string -> option string;
  note_id_of : string -> option string;
  note_info_request : string -> option string;
  parse_note_info : body -> string -> option NoteInfo;
  rotate_request : string -> string -> string -> option RotateRequest;
  parse_rotate : body -> list string -> option Mutation;
  parse_melt : body -> option Mutation;
  verify_note_signature : string -> string -> Z -> string -> string -> bool;
  build_note_url : string -> string -> option string;
  resolve_mint_input : string -> option string;
  parse_pay_request : body -> option PayRequest;
  invoice_request : string -> Z -> option string;
  parse_invoice : body -> Z -> option PayInvoice;
  melt_request : string -> string -> string -> option string;
  parse_verify : body -> option VerifyReply;
  bolt11_parse : string -> option Bolt11;
  hex_decode : string -> option string
}.

(** The stateful outside: whatever it answers, it may answer differently the
    next time. *)
Class Outside := {
  env : Type;
  sys_now : env -> option Z * env;
  try_lock : env -> bool * env;
  sqlite : env -> bool * env;
  reserve_paid_sale : PaidSale -> env -> result StoreError unit * env;
  activate_paid_sale : string -> env -> result StoreError Receipt * env;
  (** [None] is a timeout or a failure. *)
  create_invoice : Z -> string -> env -> option Invoice * env;
  check_invoice : string -> env -> option InvoiceStatus * env;
  note_get : string -> env -> option string * env;
  refund_get : string -> env -> option string * env;
  generate_note_secret : env -> string * env
}.

(** ** The monad *)

(** Calls that create an invoice, rotate a note or melt one, with the order
    they are made for. *)
Inductive Call := CreateInvoice (order : string) | RotateNote (order url : string)
| MeltNote (order url : string).

#[export] Instance Call_eq_dec : EqDecision Call.
Proof. solve_decision. Defined.

Record World `{Outside} := { w_ledger : Table; w_env : env; w_log : list Call }.

Section Service.
Context `{L : ServiceLib, Out : Outside}.
Local Open Scope wb_scope.

Definition M (A : Type) : Type := SM World Error A.

(** A call to the outside. *)
Definition ask {A} (f : env -> A * env) : M A := fun w =>
  let (a, e) := f (w_env w) in (Ok a, {| w_ledger := w_ledger w; w_env := e; w_log := w_log w |}).

Definition log (c : Call) : M unit := fun w =>
  (Ok tt, {| w_ledger := w_ledger w; w_env := w_env w; w_log := w_log w ++ [c] |}).

(** [.await] of a call: [None] becomes the given error. *)
Definition ask_or {A} (e : Error) (f : env -> option A * env) : M A :=
  let! r := ask f in lift (ok_or r e).

Definition now : M Z := ask_or Internal sys_now.

(** A ledger statement: SQLite may fail first. *)
Definition statement (f : Table -> result Error Table) : M unit :=
  let! ok := ask sqlite in
  if ok : bool then
    fun w => match f (w_ledger w) with
             | Ok t => (Ok tt, {| w_ledger := t; w_env := w_env w; w_log := w_log w |})
             | Err e => (Err e, w)
             end
  else throw Internal.

Definition ledger_get (key : string) : M (option Record_) :=
  let! ok := ask sqlite in
  if ok : bool then fun w => (Ok (get (w_ledger w) key), w) else throw Internal.

Definition get_or (e : Error) (key : string) : M Record_ :=
  let! r := ledger_get key in lift (ok_or r e).

(** [self.receiving.try_lock()]. *)
Definition locked {A} (m : M A) : M A :=
  let! ok := ask try_lock in if ok : bool then m else throw Busy.

(** ** The service *)

Record Checkout := {
  config : Config; has_lightning : bool; has_notes : bool; has_refunds : bool }.

Variable self : Checkout.

Definition rails : list Rail :=
  (if has_lightning self then [Lightning] else [])
  ++ (if has_notes self && bool_decide (network (config self) = Bitcoin)
         && negb (bool_decide (issuers (config self) = []))
      then [Lnurlcash] else []).

Definition load (p : Principal) (key : string) : M Record_ :=
  if negb (id key) then throw NotFound
  else
    let! r := ledger_get key in
    match r with
    | Some r => if bool_decide (signer_pubkey (quote (order r)) = pubkey p) then ret r else throw NotFound
    | None => throw NotFound
    end.

Definition get_order (p : Principal) (key : string) : M Order :=
  let! r := load p key in ret (order r).

Definition consent (p : Principal) (key commitment : string) : M Record_ :=
  let! r := load p key in
  if negb (bool_decide (quote_digest (order r) = commitment)) then throw Conflict else ret r.

Definition fresh (o : Order) : M unit :=
  let! t := now in if expires_at (quote o) <=? t then throw Expired_ else ret tt.

Definition quote_digest_of (q : Quote) : string := digest (quote_json q).

Definition store_error (e : StoreError) : Error :=
  match e with
  | QuotaExceeded => Capacity
  | InvalidPaidSale | PaidAllowanceUnavailable => Conflict
  | OtherStoreError => Internal
  end.

Definition reserve (r : Record_) : M Order :=
  let o := order r in
  if negb (bool_decide (state o = Reserving)) then ret o
  else
    let q := quote o in
    let! t := now in
    let! _ :=
      if expires_at q <=? t then statement (update_state (order_id q) Reserving Expired)
      else
        let! s := ask (reserve_paid_sale
          {| sale_order_id := order_id q; sale_signer := signer_pubkey q;
             sale_capacity := capacity_bytes (offer q); sale_duration := duration_seconds (offer q);
             sale_grace := grace_seconds (offer q); hold_expires_at := expires_at q;
             sale_renews := renews q |}) in
        let! _ := lift (map_err store_error s) in
        statement (update_state (order_id q) Reserving Quoted) in
    let! r := get_or Internal (order_id q) in
    ret (order r).

(** The [match request.rail] of [quote]. *)
Definition rail_available (rq : QuoteRequest) : bool :=
  match q_rail rq with
  | Lightning => bool_decide (q_issuer_id rq = None) && has_lightning self
  | Lnurlcash =>
      has_notes self && bool_decide (network (config self) = Bitcoin)
      && existsb (fun i => bool_decide (Some (i_id i) = q_issuer_id rq)) (issuers (config self))
  end.

Definition quote_order (p : Principal) (rq : QuoteRequest) : M Order :=
  locked (
    if negb (id (request_id rq)) || negb (id (offer_id rq))
       || match q_renews rq with Some v => negb (id v) | None => false end
       || match q_refund_to rq with
          | Some v => (320 <? slen v) || negb (is_lightning_address v)
          | None => false
          end
    then throw Invalid
    else
      let key := digest (pubkey p ++ ":" ++ request_id rq) in
      let req := request_json rq in
      let! existing := ledger_get key in
      match existing with
      | Some r => if negb (bool_decide (request r = req)) then throw Conflict else reserve r
      | None =>
          if negb (rail_available rq) then throw Invalid
          else
            let! o := lift (ok_or (List.find (fun o => bool_decide (o_id o = offer_id rq))
                                     (offers (config self))) Invalid) in
            let! created := now in
            let! expires := lift (ok_or (checked_add created (quote_seconds (config self))) Invalid) in
            let! ends := lift (ok_or (checked_add expires (duration_seconds o)) Invalid) in
            let! ends := lift (ok_or (checked_add ends (grace_seconds o)) Invalid) in
            if I64_MAX <? ends then throw Invalid
            else
              let q :=
                {| version := 1; order_id := key; quote_seller_id := seller_id (config self);
                   quote_seller_name := seller_name (config self);
                   node_origin := origin (config self); signer_pubkey := pubkey p;
                   quote_network := network (config self); rail := q_rail rq;
                   issuer_id := q_issuer_id rq; offer := o;
                   issuer := List.find (fun i => bool_decide (Some (i_id i) = q_issuer_id rq))
                               (issuers (config self));
                   created_at := created; expires_at := expires; renews := q_renews rq;
                   refund_to := q_refund_to rq |} in
              let! _ := statement (insert_order quote_digest_of q req) in
              let! r := get_or Internal key in
              reserve r
      end).

(** ** Invoices *)

Definition validate_invoice (q : Quote) (inv : Invoice) (allow_expired : bool) : M unit :=
  if (8192 <? slen (bolt11 inv)) || negb (slen (inv_payment_hash inv) =? 64) then throw Pending_
  else
    let! parsed := lift (ok_or (bolt11_parse (bolt11 inv)) Pending_) in
    let! expiry := lift (ok_or (b_expires_at parsed) Pending_) in
    if negb (bool_decide (b_description parsed = Some (order_id q))) then throw Pending_
    else
      let! expired := if allow_expired then ret false else (let! t := now in ret (expiry <=? t)) in
      if expired || negb (bool_decide (b_currency parsed = quote_network q))
         || negb (bool_decide (b_amount_msat parsed = Some (price_msat (offer q))))
         || negb (bool_decide (b_payment_hash parsed = inv_payment_hash inv))
         || (expires_at q <? expiry) || (expiry <=? created_at q) || (expires_at q <? b_timestamp parsed)
      then throw Pending_ else ret tt.

Definition lightning (p : Principal) (key commitment : string) : M Order :=
  locked (
    let! r := consent p key commitment in
    let o := order r in
    if negb (bool_decide (rail (quote o) = Lightning)) then throw Conflict
    else
      match state o with
      | AwaitingPayment | Settled | Active | RefundRequired => ret o
      | InvoicePending => throw Pending_
      | Expired => throw Expired_
      | Quoted =>
          let! _ := fresh o in
          if negb (has_lightning self) then throw Unavailable
          else
            let! _ := statement (update_state key Quoted InvoicePending) in
            let! _ := log (CreateInvoice key) in
            let! inv := ask_or Pending_ (create_invoice (price_msat (offer (quote o)) / 1000) key) in
            let! _ := validate_invoice (quote o) inv false in
            let! _ := statement (record_invoice key (bolt11 inv) (inv_payment_hash inv)) in
            get_order p key
      | _ => throw Conflict
      end).

Definition recover_invoice (key : string) (inv : Invoice) : M unit :=
  locked (
    let! r := get_or NotFound key in
    if negb (bool_decide (state (order r) = InvoicePending))
       || negb (bool_decide (rail (quote (order r)) = Lightning))
    then throw Conflict
    else
      let! _ := validate_invoice (quote (order r)) inv true in
      statement (record_invoice key (bolt11 inv) (inv_payment_hash inv))).

(** ** Fulfilment *)

Definition fulfil (key : string) : M unit :=
  let! s := ask (activate_paid_sale key) in
  match s with
  | Ok a => statement (activate key a)
  | Err PaidAllowanceUnavailable => statement (update_state key Settled RefundRequired)
  | Err _ => throw Internal
  end.

(** ** Notes *)

Definition fetch (url : string) : M body :=
  if negb (has_notes self) then throw Unavailable
  else
    let! bytes := ask_or Pending_ (note_get url) in
    if 65536 <? slen bytes then throw Pending_ else lift (ok_or (json_body bytes) Pending_).

Definition refund_fetch (url : string) : M body :=
  if negb (has_refunds self) then throw Unavailable
  else
    let! bytes := ask_or Pending_ (refund_get url) in
    if 65536 <? slen bytes then throw Pending_ else lift (ok_or (json_body bytes) Pending_).

Definition certify (key : string) (rot : Rotation) (signature : string) : M unit :=
  statement (settle key LnurlPending ("lnurlcash:" ++ digest (rot_request_url rot))
    (Some {| rot_request_url := rot_request_url rot; new_secret := new_secret rot;
             outputs := outputs rot; rot_issuer := rot_issuer rot;
             rot_mint_pubkey := rot_mint_pubkey rot; rot_endpoint := rot_endpoint rot;
             certificate := Some signature |})).

Definition rotation_issuer (rot : Rotation) (i : Issuer) : bool :=
  bool_decide (i_id i = rot_issuer rot) && bool_decide (mint_pubkey i = rot_mint_pubkey rot)
  && bool_decide (note_endpoint i = rot_endpoint rot)
  && starts_with (callback i ++ "?") (rot_request_url rot).

Definition rotate (key : string) (q : Quote) (rot : Rotation) : M unit :=
  if negb (existsb (rotation_issuer rot) (issuers (config self))) then throw Unavailable
  else
    let! _ := log (RotateNote key (rot_request_url rot)) in
    let! b := fetch (rot_request_url rot) in
    let! response := lift (ok_or (parse_rotate b (outputs rot)) Pending_) in
    let! signature := lift (ok_or (m_signature response) Pending_) in
    if negb (verify_note_signature (new_secret rot) (rot_endpoint rot) (price_msat (offer q)) signature
               (rot_mint_pubkey rot))
    then throw Pending_ else certify key rot signature.

(** [Ok(false)] whenever the replacement cannot be seen. *)
Definition try_fetch (url : string) : M (option body) := fun w =>
  match fetch url w with (Ok b, w) => (Ok (Some b), w) | (Err _, w) => (Ok None, w) end.

Definition recover_rotation (key : string) (q : Quote) (rot : Rotation) : M bool :=
  let! iss := lift (ok_or (List.find (fun i => bool_decide (Some i = issuer q)) (issuers (config self)))
                     Unavailable) in
  let! note := lift (ok_or (build_note_url (rot_endpoint rot) (new_secret rot)) Internal) in
  let! url := lift (ok_or (note_info_request note) Internal) in
  let! b := try_fetch url in
  match b ≫= (fun b => parse_note_info b note) with
  | None => ret false
  | Some info =>
      match n_signature info with
      | None => ret false
      | Some signature =>
          if negb (bool_decide (n_callback info = callback iss))
             || negb (bool_decide (n_mint_pubkey info = Some (rot_mint_pubkey rot)))
             || negb (max_withdrawable info =? price_msat (offer q))
             || negb (verify_note_signature (new_secret rot) (rot_endpoint rot) (price_msat (offer q))
                        signature (rot_mint_pubkey rot))
          then ret false
          else let! _ := certify key rot signature in ret true
      end
  end.

Definition note_keys : list string := ["k1"; "c"; "sig"; "amount"]%string.

(** The loop over [query_pairs]: known keys, each at most once. *)
Fixpoint query_ok (seen : list string) (pairs : list (string * string)) : bool :=
  match pairs with
  | [] => true
  | (k, _) :: pairs =>
      bool_decide (k ∈ note_keys) && negb (bool_decide (k ∈ seen)) && query_ok (k :: seen) pairs
  end.

Definition lnurlcash (p : Principal) (key commitment input : string) : M Order :=
  locked (
    let! r := consent p key commitment in
    let o := order r in
    if negb (bool_decide (rail (quote o) = Lnurlcash)) then throw Conflict
    else if bool_decide (state o = Expired) then throw Expired_
    else if negb (bool_decide (state o = Quoted)) then throw Conflict
    else
      let! _ := fresh o in
      let! iss := lift (ok_or (match issuer (quote o) with
                               | Some i => if bool_decide (i ∈ issuers (config self)) then Some i else None
                               | None => None
                               end) Unavailable) in
      if 8192 <? slen input then throw Invalid
      else
        let! note := lift (ok_or (resolve_note_input input) Invalid) in
        let! url := lift (ok_or (url_parse note) Invalid) in
        if negb (query_ok [] (u_query_pairs url)) then throw Invalid
        else if negb (bool_decide (u_without_query url = note_endpoint iss))
                || bool_decide (is_Some (u_fragment url))
        then throw Invalid
        else
          let! k1 := lift (ok_or (note_k1 note) Invalid) in
          let! nid := lift (ok_or (note_id_of k1) Invalid) in
          let! info_url := lift (ok_or (note_info_request note) Invalid) in
          let! b := fetch info_url in
          let! info := lift (ok_or (parse_note_info b note) Invalid) in
          if negb (bool_decide (n_callback info = callback iss))
             || negb (bool_decide (n_mint_pubkey info = Some (mint_pubkey iss)))
             || negb (max_withdrawable info =? price_msat (offer (quote o)))
          then throw Invalid
          else
            let! _ := fresh o in
            let! secret := ask generate_note_secret in
            let! rr := lift (ok_or (rotate_request (n_callback info) (n_k1 info) secret) Invalid) in
            let rot :=
              {| rot_request_url := rr_url rr; new_secret := secret; outputs := rr_outputs rr;
                 rot_issuer := i_id iss; rot_mint_pubkey := mint_pubkey iss;
                 rot_endpoint := note_endpoint iss; certificate := None |} in
            let identity := digest (note_endpoint iss ++ ":" ++ mint_pubkey iss ++ ":" ++ nid) in
            let! _ := statement (rotate_order key identity rot) in
            let! _ := rotate key (quote o) rot in
            let! _ := fulfil key in
            get_order p key).

(** ** Settlement checks *)

(** The preimage a paid status must carry: 64 hexadecimal characters. *)
Definition preimage_of (st : InvoiceStatus) : option string :=
  match preimage st with
  | Some s =>
      if slen s =? 64 then
        match hex_decode s with Some v => if slen v =? 32 then Some v else None | None => None end
      else None
  | None => None
  end.

Definition check (p : Principal) (key commitment : string) : M Order :=
  locked (
    let! r := consent p key commitment in
    let finish := let! _ := fulfil key in get_order p key in
    match state (order r) with
    | AwaitingPayment =>
        let! hash := lift (ok_or (payment_hash r) Internal) in
        if negb (has_lightning self) then throw Unavailable
        else
          let! st := ask_or Unavailable (check_invoice hash) in
          if negb (paid st) then ret (order r)
          else
            let! pre := lift (ok_or (preimage_of st) Pending_) in
            if negb (bool_decide (digest pre = hash)) then throw Pending_
            else
              let! _ := statement (settle key AwaitingPayment ("lightning:" ++ hash) None) in
              finish
    | LnurlPending =>
        let! rot := lift (ok_or (rotation r) Internal) in
        let! seen := recover_rotation key (quote (order r)) rot in
        let! _ := if seen : bool then ret tt else rotate key (quote (order r)) rot in
        finish
    | Settled => finish
    | InvoicePending => throw Pending_
    | Reserving => reserve r
    | _ => ret (order r)
    end).

Definition reconcile (key : string) : M Order :=
  let! r := get_or NotFound key in
  check {| pubkey := signer_pubkey (quote (order r)); event_id := "" |} key (quote_digest (order r)).

(** ** Refunds *)

(** [char::is_whitespace], by the UTF-8 bytes of each such character. *)
Definition white_space : list (list Z) :=
  [[9]; [10]; [11]; [12]; [13]; [32]; [0xC2; 0x85]; [0xC2; 0xA0]; [0xE1; 0x9A; 0x80];
   [0xE2; 0x80; 0xA8]; [0xE2; 0x80; 0xA9]; [0xE2; 0x80; 0xAF]; [0xE2; 0x81; 0x9F];
   [0xE3; 0x80; 0x80]]
  ++ map (fun n => [0xE2; 0x80; 0x80 + Z.of_nat n]) (seq 0 11).

(** One leading character of the given set, if there is one. *)
Definition strip_one (set : list (list Z)) (l : list Z) : option (list Z) :=
  match List.find (fun c => bool_decide (take (length c) l = c)) set with
  | Some c => Some (drop (length c) l)
  | None => None
  end.

Fixpoint strip_all (fuel : nat) (set : list (list Z)) (l : list Z) : list Z :=
  match fuel with
  | O => l
  | S fuel => match strip_one set l with Some l => strip_all fuel set l | None => l end
  end.

(** [str::trim]: each round removes a byte at least, so the length is fuel
    enough. *)
Definition trim (s : string) : list Z :=
  let l := strip_all (String.length s) white_space (codes s) in
  reverse (strip_all (String.length s) (map reverse white_space) (reverse l)).

Definition lower (c : Z) : Z := if in_range 65 c 90 then c + 32 else c.

Definition same_invoice (a b : string) : bool :=
  bool_decide (map lower (trim a) = map lower (trim b)).

Definition same_origin (left right : string) : result Error unit :=
  let? l := ok_or (url_parse left) Invalid in
  let? r := ok_or (url_parse right) Invalid in
  if negb (bool_decide (u_origin l = u_origin r)) || negb (is_empty (u_username r))
     || bool_decide (is_Some (u_password r)) || bool_decide (is_Some (u_fragment r))
  then Err Invalid else Ok tt.

Definition refund_endpoint (value : string) : result Error unit :=
  let? u := ok_or (url_parse value) Invalid in
  if negb (bool_decide (u_scheme u = "https"%string) || bool_decide (u_scheme u = "http"%string))
     || bool_decide (u_host u = None) || negb (is_empty (u_username u))
     || bool_decide (is_Some (u_password u)) || bool_decide (is_Some (u_fragment u))
  then Err Invalid else Ok tt.

(** [now().unwrap_or(u64::MAX)]. *)
Definition now_or_max : M Z := let! t := ask sys_now in ret (default U64_MAX t).

Definition validate_refund_invoice (q : Quote) (inv : string) : M string :=
  if 8192 <? slen inv then throw Pending_
  else
    let! parsed := lift (ok_or (bolt11_parse inv) Pending_) in
    if negb (bool_decide (b_currency parsed = quote_network q))
       || negb (bool_decide (b_amount_msat parsed = Some (price_msat (offer q))))
    then throw Pending_
    else
      match b_expires_at parsed with
      | None => throw Pending_
      | Some expiry =>
          let! t := now_or_max in
          if expiry <=? t then throw Pending_ else ret (b_payment_hash parsed)
      end.

Definition try_refund_fetch (url : string) : M (option body) := fun w =>
  match refund_fetch url w with (Ok b, w) => (Ok (Some b), w) | (Err _, w) => (Ok None, w) end.

(** The loop over the two verification URLs. *)
Fixpoint refund_settled_loop (j : RefundJournal) (urls : list string) : M bool :=
  match urls with
  | [] => ret false
  | url :: urls =>
      let! b := try_refund_fetch url in
      match b ≫= parse_verify with
      | None => refund_settled_loop j urls
      | Some v =>
          if negb (same_invoice (v_pr v) (ref_invoice j)) then throw Pending_
          else if v_settled v then
            match v_preimage v with
            | Some pre =>
                let! bytes := lift (ok_or (hex_decode pre) Pending_) in
                if negb (slen bytes =? 32) || negb (bool_decide (digest bytes = ref_payment_hash j))
                then throw Pending_ else ret true
            | None => ret true
            end
          else refund_settled_loop j urls
      end
  end.

Definition refund_settled (j : RefundJournal) : M bool :=
  refund_settled_loop j (option_list (issuer_verify j) ++ option_list (receiver_verify j)).

(** The block that prepares the journal when there is none. *)
Definition prepare_refund (key : string) (r : Record_) (rot : Rotation) (dest : string) : M unit :=
  let q := quote (order r) in
  let! pay_url := lift (ok_or (resolve_mint_input dest) Invalid) in
  let! pay_body := refund_fetch pay_url in
  let! pay := lift (ok_or (parse_pay_request pay_body) Pending_) in
  let! _ := lift (refund_endpoint (pay_callback pay)) in
  let amount := price_msat (offer q) in
  if (amount <? min_sendable pay) || (max_sendable pay <? amount) then throw Unavailable
  else
    let! inv_url := lift (ok_or (invoice_request (pay_callback pay) amount) Pending_) in
    let! inv_body := refund_fetch inv_url in
    let! inv := lift (ok_or (parse_invoice inv_body amount) Pending_) in
    let! hash := validate_refund_invoice q (pr inv) in
    let! _ := match pay_verify inv with
              | Some v => lift (same_origin (pay_callback pay) v)
              | None => ret tt
              end in
    let! iss := lift (ok_or (issuer q) Unavailable) in
    let! url := lift (ok_or (melt_request (callback iss) (new_secret rot) (pr inv)) Pending_) in
    statement (start_refund key
      {| destination := dest; ref_invoice := pr inv; ref_payment_hash := hash;
         receiver_verify := pay_verify inv; ref_request_url := url; issuer_verify := None;
         refunded_at := None |}).

Definition with_refunded_at (t : Z) (j : RefundJournal) : RefundJournal :=
  {| destination := destination j; ref_invoice := ref_invoice j;
     ref_payment_hash := ref_payment_hash j; receiver_verify := receiver_verify j;
     ref_request_url := ref_request_url j; issuer_verify := issuer_verify j;
     refunded_at := Some t |}.

Definition with_issuer_verify (v : string) (j : RefundJournal) : RefundJournal :=
  {| destination := destination j; ref_invoice := ref_invoice j;
     ref_payment_hash := ref_payment_hash j; receiver_verify := receiver_verify j;
     ref_request_url := ref_request_url j; issuer_verify := Some v; refunded_at := refunded_at j |}.

Definition finish_refund (key : string) (j : RefundJournal) : M Order :=
  let! t := now in
  let! _ := statement (complete_refund key (with_refunded_at t j)) in
  let! r := get_or Internal key in
  ret (order r).

(** Spending the note: one melt of the journalled request. *)
Definition melt (key : string) (q : Quote) (j : RefundJournal) : M Order :=
  let! _ := log (MeltNote key (ref_request_url j)) in
  let! b := fetch (ref_request_url j) in
  let! response := lift (ok_or (parse_melt b) Pending_) in
  if match m_pr response with Some i => negb (same_invoice i (ref_invoice j)) | None => false end
  then throw Pending_
  else
    let! j :=
      match m_verify response with
      | Some v =>
          let! iss := lift (ok_or (issuer q) Unavailable) in
          let! _ := lift (same_origin (callback iss) v) in
          let j := with_issuer_verify v j in
          let! _ := statement (update_refund key j) in
          ret j
      | None => ret j
      end in
    let! done := refund_settled j in
    if negb done then throw Pending_ else finish_refund key j.

Definition refund_order (key : string) : M Order :=
  locked (
    let! r := get_or NotFound key in
    if bool_decide (state (order r) = Refunded) then ret (order r)
    else if negb (bool_decide (state (order r) = RefundRequired))
            || negb (bool_decide (rail (quote (order r)) = Lnurlcash))
    then throw Conflict
    else
      let! dest := lift (ok_or (match refund_to (quote (order r)) with
                                | Some v => if is_lightning_address v then Some v else None
                                | None => None
                                end) Unavailable) in
      let! rot := lift (ok_or (match rotation r with
                               | Some rot => match certificate rot with Some _ => Some rot | None => None end
                               | None => None
                               end) Pending_) in
      match refund r with
      | None =>
          let! _ := prepare_refund key r rot dest in
          let! r := get_or Internal key in
          let! j := lift (ok_or (refund r) Internal) in
          melt key (quote (order r)) j
      | Some j =>
          let! done := refund_settled j in
          if done then finish_refund key j else melt key (quote (order r)) j
      end).
End Service.
