(* ===== verification/CheckoutHttp.v ===== *)
(** * Checkout: the routes

    Models [crates/wildbloom-checkout/src/http.rs]: the admission window, the
    dispatch of a request to a handler after authentication, and the status
    code of each error. *)
From Stdlib Require Import Ascii.
From S2P Require Import Prelude CheckoutContract CheckoutLedger CheckoutService.

(** ** Admission *)

(** [free] slots of the semaphore and the [(Instant, count)] window. *)
Record Admission := { free : Z; window_start : Z; window_count : Z }.

Definition SLOTS : Z := 4.
Definition WINDOW_SECONDS : Z := 60.
Definition WINDOW_REQUESTS : Z := 120.

(** The checks of [admit_] before the handler runs, at [clock] seconds; a
    permit is given back when the window is full. *)
Definition admit_ (clock : Z) (a : Admission) : result Error Admission * Admission :=
  if free a <=? 0 then (Err Busy, a)
  else
    let a := if WINDOW_SECONDS <=? clock - window_start a
             then {| free := free a; window_start := clock; window_count := 0 |} else a in
    if WINDOW_REQUESTS <=? window_count a then (Err Busy, a)
    else
      let a := {| free := free a - 1; window_start := window_start a;
                  window_count := window_count a + 1 |} in (Ok a, a).

(** The worker drops its permit. *)
Definition release (a : Admission) : Admission :=
  {| free := free a + 1; window_start := window_start a; window_count := window_count a |}.

(** ** Dispatch *)

(** A request as [execute] reads it: [None] stands for a header that is not
    text, and for a body that is late or over 16 KiB. *)
Record Request := {
  req_method : string; req_path : string; req_has_query : bool;
  req_authorization : list (option string); req_body : option string }.

(** [serde_json::from_slice] at the three body types. *)
Class BodyLib := {
  json_quote_request : string -> option QuoteRequest;
  json_consent : string -> option string;
  json_note : string -> option (string * string)
}.

(** [trim_end_matches('/')]. *)
Fixpoint trim_slashes (s : string) : string :=
  match s with
  | EmptyString => EmptyString
  | String a s' =>
      match trim_slashes s' with
      | EmptyString => if decide (a = "/"%char) then EmptyString else String a EmptyString
      | t => String a t
      end
  end.

Inductive Action :=
| AQuote (rq : QuoteRequest) | AOrder (key : string) | ALightning (key commitment : string)
| ALnurlcash (key commitment note : string) | ACheck (key commitment : string).

(** The route and the body it needs. *)
Definition action_of `{BodyLib} (path body : string) : result Error Action :=
  if bool_decide (path = "/checkout/v1/orders"%string)
  then match json_quote_request body with Some rq => Ok (AQuote rq) | None => Err Invalid end
  else
    match strip_prefix "/checkout/v1/orders/" path with
    | None => Err NotFound
    | Some tail =>
        let (key, action) := default (tail, EmptyString) (split_once "/"%char tail) in
        if bool_decide (action = ""%string) then Ok (AOrder key)
        else if bool_decide (action = "lightning"%string)
        then match json_consent body with Some c => Ok (ALightning key c) | None => Err Invalid end
        else if bool_decide (action = "lnurlcash"%string)
        then match json_note body with Some (c, n) => Ok (ALnurlcash key c n) | None => Err Invalid end
        else if bool_decide (action = "check"%string)
        then match json_consent body with Some c => Ok (ACheck key c) | None => Err Invalid end
        else Err NotFound
    end.

Section Dispatch.
Context `{L : ServiceLib, Out : Outside, B : BodyLib}.

Local Open Scope wb_scope.

Definition run_action (self : Checkout) (p : Principal) (a : Action) : M Order :=
  match a with
  | AQuote rq => quote_order self p rq
  | AOrder key => get_order p key
  | ALightning key c => lightning self p key c
  | ALnurlcash key c n => lnurlcash self p key c n
  | ACheck key c => check self p key c
  end.

Definition execute (self : Checkout) (r : Request) : M Order :=
  if req_has_query r then throw Invalid
  else
    let! header := lift (match req_authorization r with
                         | [] => Err Unauthorised
                         | None :: _ => Err Unauthorised
                         | Some h :: rest => match rest with [] => Ok h | _ => Err Unauthorised end
                         end) in
    let! body := lift (ok_or (req_body r) Invalid) in
    let url := String.append (trim_slashes (origin (config self))) (req_path r) in
    let! t := now in
    let! p := lift (authenticate header url (req_method r) body t) in
    let! a := lift (action_of (req_path r) body) in
    run_action self p a.
End Dispatch.

Definition status_code (e : Error) : Z :=
  match e with
  | Busy => 429 | Invalid => 400 | Unauthorised => 401 | NotFound => 404 | Expired_ => 410
  | Conflict | Pending_ => 409 | Capacity => 503 | Unavailable => 502 | Locked | Internal => 500
  end.
