(* ===== verification/CheckoutProofs.v ===== *)
(** * Checkout: what every run preserves

    A row's legal moves ([move]) and the book's steps ([step]), with the
    evidence each needs; every handler, in every world, is a sequence of
    steps; the invariants of the reachable books. *)
From S2P Require Import Prelude CheckoutContract CheckoutLedger CheckoutService CheckoutHttp.

Section Proofs.
Context `{L : ServiceLib, Out : Outside, B : BodyLib}.

(** ** The specification *)

(** The invoice asks for this order's price, names this order, and ends
    within the quote. *)
Definition invoice_valid (q : Quote) (inv hash : string) : Prop :=
  exists parsed expiry,
    bolt11_parse inv = Some parsed /\ b_expires_at parsed = Some expiry /\
    b_description parsed = Some (order_id q) /\ b_currency parsed = quote_network q /\
    b_amount_msat parsed = Some (price_msat (offer q)) /\ b_payment_hash parsed = hash /\
    created_at q < expiry <= expires_at q /\ b_timestamp parsed <= expires_at q.

(** The backend reported the invoice paid with a 32-byte preimage of the hash. *)
Definition paid_evidence (hash : string) : Prop :=
  exists e e' st pre, check_invoice hash e = (Some st, e') /\ paid st = true /\
    preimage_of st = Some pre /\ digest pre = hash.

(** The mint signed the replacement note for the price. *)
Definition note_evidence (q : Quote) (rot : Rotation) (signature : string) : Prop :=
  verify_note_signature (new_secret rot) (rot_endpoint rot) (price_msat (offer q)) signature
    (rot_mint_pubkey rot) = true.

Definition certified (rot : Rotation) (signature : string) : Rotation :=
  {| rot_request_url := rot_request_url rot; new_secret := new_secret rot; outputs := outputs rot;
     rot_issuer := rot_issuer rot; rot_mint_pubkey := rot_mint_pubkey rot;
     rot_endpoint := rot_endpoint rot; certificate := Some signature |}.

Definition lightning_ref (hash : string) : string := "lightning:" ++ hash.
Definition note_ref (rot : Rotation) : string := "lnurlcash:" ++ digest (rot_request_url rot).

(** The clock showed [n]. *)
Definition clock_read (n : Z) : Prop := exists e e', sys_now e = (Some n, e').

(** The clock was still before the quote's end. *)
Definition in_time (q : Quote) : Prop := exists n, clock_read n /\ n < expires_at q.

(** What the store is asked to reserve for a quote. *)
Definition sale_of (q : Quote) : PaidSale :=
  {| sale_order_id := order_id q; sale_signer := signer_pubkey q;
     sale_capacity := capacity_bytes (offer q); sale_duration := duration_seconds (offer q);
     sale_grace := grace_seconds (offer q); hold_expires_at := expires_at q;
     sale_renews := renews q |}.

(** The store's own answers: the sale is reserved, activated with this
    receipt, or can no longer be had. *)
Definition store_reserved (q : Quote) : Prop :=
  exists e e', reserve_paid_sale (sale_of q) e = (Ok tt, e').
Definition store_activated (key : string) (rc : Receipt) : Prop :=
  exists e e', activate_paid_sale key e = (Ok rc, e').
Definition store_unavailable (key : string) : Prop :=
  exists e e', activate_paid_sale key e = (Err PaidAllowanceUnavailable, e').

(** The mint, or a server of the refund's receiver, answered [url] with [b]. *)
Definition note_answer (url : string) (b : body) : Prop :=
  exists bytes e e', note_get url e = (Some bytes, e') /\ json_body bytes = Some b.
Definition refund_answer (url : string) (b : body) : Prop :=
  exists bytes e e', refund_get url e = (Some bytes, e') /\ json_body bytes = Some b.

(** The quote's own mint said the note is worth the price, and the rotation is
    the one that replaces it by a new secret. *)
Definition note_offered (q : Quote) (nid : string) (rot : Rotation) : Prop :=
  exists iss note url b info k1 id rr,
    issuer q = Some iss /\ note_info_request note = Some url /\ note_answer url b /\
    parse_note_info b note = Some info /\ n_callback info = callback iss /\
    n_mint_pubkey info = Some (mint_pubkey iss) /\ max_withdrawable info = price_msat (offer q) /\
    note_k1 note = Some k1 /\ note_id_of k1 = Some id /\
    nid = digest (note_endpoint iss ++ ":" ++ mint_pubkey iss ++ ":" ++ id) /\
    rotate_request (n_callback info) (n_k1 info) (new_secret rot) = Some rr /\
    rot = {| rot_request_url := rr_url rr; new_secret := new_secret rot; outputs := rr_outputs rr;
             rot_issuer := i_id iss; rot_mint_pubkey := mint_pubkey iss;
             rot_endpoint := note_endpoint iss; certificate := None |}.

(** A refund journal: the buyer's own address, an invoice over the price that is
    not yet over (a clock that cannot be read counts as the last second), and the request that melts the order's certified note for it. *)
Definition refund_prepared (r : Row) (j : RefundJournal) : Prop :=
  exists parsed expiry iss rot,
    refund_to (r_quote r) = Some (destination j) /\ is_lightning_address (destination j) = true /\
    bolt11_parse (ref_invoice j) = Some parsed /\
    b_currency parsed = quote_network (r_quote r) /\
    b_amount_msat parsed = Some (price_msat (offer (r_quote r))) /\
    b_payment_hash parsed = ref_payment_hash j /\
    b_expires_at parsed = Some expiry /\ (exists n, (clock_read n \/ n = U64_MAX) /\ n < expiry) /\
    issuer (r_quote r) = Some iss /\ r_rotation r = Some rot /\ is_Some (certificate rot) /\
    melt_request (callback iss) (new_secret rot) (ref_invoice j) = Some (ref_request_url j) /\
    issuer_verify j = None /\ refunded_at j = None.

(** The mint answered the journalled melt and named, at its own origin, where
    the payment can be looked up. *)
Definition melt_answered (q : Quote) (j : RefundJournal) (v : string) : Prop :=
  exists iss b response, note_answer (ref_request_url j) b /\ parse_melt b = Some response /\
    m_verify response = Some v /\
    (forall i, m_pr response = Some i -> same_invoice i (ref_invoice j) = true) /\
    issuer q = Some iss /\ same_origin (callback iss) v = Ok tt.

(** One of the journal's verification URLs reported the refund's own invoice
    settled, and a preimage it gave is one of the journalled hash. *)
Definition refund_evidence (j : RefundJournal) : Prop :=
  exists url b v, url ∈ option_list (issuer_verify j) ++ option_list (receiver_verify j) /\
    refund_answer url b /\ parse_verify b = Some v /\ same_invoice (v_pr v) (ref_invoice j) = true /\
    v_settled v = true /\
    forall pre, v_preimage v = Some pre ->
      exists bytes, hex_decode pre = Some bytes /\ slen bytes = 32 /\ digest bytes = ref_payment_hash j.

(** The legal moves of the order [key], each with its evidence. *)
Inductive move (key : string) (r : Row) : Row -> Prop :=
| m_expire n : r_state r = Reserving -> clock_read n -> expires_at (r_quote r) <= n ->
    move key r (set_state Expired r)
| m_quote : r_state r = Reserving -> in_time (r_quote r) -> store_reserved (r_quote r) ->
    move key r (set_state Quoted r)
| m_invoice inv hash : r_state r = InvoicePending -> invoice_valid (r_quote r) inv hash ->
    move key r (set_invoice inv hash r)
| m_rotate nid rot : r_state r = Quoted -> in_time (r_quote r) -> note_offered (r_quote r) nid rot ->
    move key r (set_rotation nid rot r)
| m_settle_lightning hash : r_state r = AwaitingPayment -> r_payment_hash r = Some hash ->
    paid_evidence hash -> move key r (set_settled (lightning_ref hash) None r)
| m_settle_note rot signature : r_state r = LnurlPending -> r_rotation r = Some rot ->
    note_evidence (r_quote r) rot signature ->
    move key r (set_settled (note_ref rot) (Some (certified rot signature)) r)
| m_activate rc : r_state r = Settled -> store_activated key rc -> move key r (set_receipt rc r)
| m_refund_required : r_state r = Settled -> store_unavailable key ->
    move key r (set_state RefundRequired r)
| m_start_refund j : r_state r = RefundRequired -> r_refund r = None -> refund_prepared r j ->
    move key r (set_refund RefundRequired j r)
| m_update_refund j v : r_state r = RefundRequired -> r_refund r = Some j ->
    melt_answered (r_quote r) j v -> move key r (set_refund RefundRequired (with_issuer_verify v j) r)
| m_refunded n j : r_state r = RefundRequired -> r_refund r = Some j -> clock_read n ->
    refund_evidence j -> move key r (set_refund Refunded (with_refunded_at n j) r).

(** A column a move sets holds a value no other order has. *)
Definition column_free (t : Table) (key : string) (column : Row -> option string) (r r' : Row) : Prop :=
  column r' = column r \/ forall k x, t !! k = Some x -> k <> key -> column x <> column r'.

Inductive step : Table * list Call -> Table * list Call -> Prop :=
| s_insert t l q req : t !! order_id q = None -> Z.of_nat (size t) < MAX_ORDERS ->
    step (t, l) (<[order_id q := new_row quote_digest_of q req]> t, l)
| s_move t l key r r' : t !! key = Some r -> move key r r' ->
    column_free t key r_payment_hash r r' -> column_free t key r_note_id r r' ->
    column_free t key r_settlement r r' -> step (t, l) (<[key := r']> t, l)
(** The invoice is asked for after the order has left [Quoted]. *)
| s_issue t l key r : t !! key = Some r -> r_state r = Quoted -> in_time (r_quote r) ->
    step (t, l) (<[key := set_state InvoicePending r]> t, l ++ [CreateInvoice key])
(** A note is rotated and melted only with the journalled request. *)
| s_rotate t l key r rot : t !! key = Some r -> r_state r = LnurlPending -> r_rotation r = Some rot ->
    step (t, l) (t, l ++ [RotateNote key (rot_request_url rot)])
| s_melt t l key r j : t !! key = Some r -> r_state r = RefundRequired -> r_refund r = Some j ->
    step (t, l) (t, l ++ [MeltNote key (ref_request_url j)]).

(** ** Running a handler in every world *)

(** Whatever the outside is when [m] starts on the book [(t, l)], it ends with
    [Q]. *)
Definition run {A} (t : Table) (l : list Call) (m : M A)
    (Q : result Error A -> Table -> list Call -> Prop) : Prop :=
  forall e, Q (m {| w_ledger := t; w_env := e; w_log := l |}).1
              (w_ledger (m {| w_ledger := t; w_env := e; w_log := l |}).2)
              (w_log (m {| w_ledger := t; w_env := e; w_log := l |}).2).

Lemma run_ret {A} t l (a : A) Q : Q (Ok a) t l -> run t l (ret a) Q.
Proof. intros H e. exact H. Qed.

Lemma run_throw {A} t l e (Q : result Error A -> _) : Q (Err e) t l -> run t l (throw e) Q.
Proof. intros H e'. exact H. Qed.

Lemma run_lift {A} t l (r : result Error A) Q : Q r t l -> run t l (lift r) Q.
Proof. intros H e. exact H. Qed.

Lemma run_bind {A B'} t l (m : M A) (k : A -> M B') Q :
  run t l m (fun r t' l' => match r with Ok a => run t' l' (k a) Q | Err e => Q (Err e) t' l' end) ->
  run t l (bind m k) Q.
Proof.
  intros H e. specialize (H e). unfold bind.
  destruct (m {| w_ledger := t; w_env := e; w_log := l |}) as [[a|e'] [t' e1 l']]; exact (H) || idtac.
  exact (H e1).
Qed.

Lemma run_ask {A} t l (f : env -> A * env) Q :
  (forall a, (exists e e', f e = (a, e')) -> Q (Ok a) t l) -> run t l (ask f) Q.
Proof.
  intros H e. unfold ask. cbn [w_env]. destruct (f e) as [a e'] eqn:E. cbn. apply H. eauto.
Qed.

Lemma run_ask_or {A} t l err (f : env -> option A * env) Q :
  Q (Err err) t l -> (forall a, (exists e e', f e = (Some a, e')) -> Q (Ok a) t l) ->
  run t l (ask_or err f) Q.
Proof.
  intros H1 H2. apply run_bind, run_ask. intros [a|] Ha; apply run_lift; [by apply H2|exact H1].
Qed.

Lemma run_now t l Q : Q (Err Internal) t l -> (forall n, clock_read n -> Q (Ok n) t l) -> run t l now Q.
Proof. intros H1 H2. by apply run_ask_or. Qed.

Lemma run_log t l c Q : Q (Ok tt) t (l ++ [c]) -> run t l (log c) Q.
Proof. intros H e. exact H. Qed.

Lemma run_statement t l f Q :
  (forall e, Q (Err e) t l) -> (forall t', f t = Ok t' -> Q (Ok tt) t' l) -> run t l (statement f) Q.
Proof.
  intros H1 H2. apply run_bind, run_ask. intros [] _; [|apply run_throw, H1].
  intros e. cbn [w_ledger]. destruct (f t) as [t'|e'] eqn:E; cbn; [by apply H2|apply H1].
Qed.

Lemma run_get t l key Q :
  Q (Err Internal) t l -> Q (Ok (get t key)) t l -> run t l (ledger_get key) Q.
Proof.
  intros H1 H2. apply run_bind, run_ask. intros [] _; [intros e; exact H2|apply run_throw, H1].
Qed.

Lemma run_get_or t l err key Q :
  (forall e, Q (Err e) t l) -> (forall r, t !! key = Some r -> Q (Ok (record_of r)) t l) ->
  run t l (get_or err key) Q.
Proof.
  intros H1 H2. apply run_bind, run_get; [apply H1|]. apply run_lift. unfold get.
  destruct (t !! key) as [r|]; [by apply H2|apply H1].
Qed.

Lemma run_locked {A} t l (m : M A) Q : Q (Err Busy) t l -> run t l m Q -> run t l (locked m) Q.
Proof. intros H1 H2. apply run_bind, run_ask. intros [] _; [exact H2|by apply run_throw]. Qed.

Lemma run_impl {A} t l (m : M A) (P Q : result Error A -> Table -> list Call -> Prop) :
  run t l m P -> (forall r t' l', P r t' l' -> Q r t' l') -> run t l m Q.
Proof. intros H1 H2 e. apply H2, H1. Qed.

(** ** Statements as steps *)

Lemma update_ok key guard set t t' :
  update key guard set t = Ok t' ->
  exists r, t !! key = Some r /\ guard r = true /\ t' = <[key := set r]> t.
Proof.
  unfold update. destruct (t !! key) as [r|]; [|done]. destruct (guard r) eqn:E; [|done].
  intros [= <-]. eauto.
Qed.

Lemma in_state_true s r : in_state s r = true -> r_state r = s.
Proof. unfold in_state. intros H. by apply bool_decide_eq_true in H. Qed.

Lemma taken_by_other_false column value key t :
  taken_by_other column value key t = false ->
  forall k x, t !! k = Some x -> k <> key -> column x <> Some value.
Proof.
  unfold taken_by_other. intros H k x Hk Hne Hc.
  assert (existsb (fun '(k, r) => bool_decide (column r = Some value) && negb (bool_decide (k = key)))
    (map_to_list t) = true) as Ht; [|congruence].
  apply existsb_exists. exists (k, x). split.
  - apply list_elem_of_In. by apply elem_of_map_to_list.
  - rewrite bool_decide_eq_true_2, bool_decide_eq_false_2 by done. done.
Qed.

Lemma taken_false column value t :
  taken column value t = false -> forall k x, t !! k = Some x -> column x <> Some value.
Proof.
  unfold taken. intros H k x Hk Hc.
  assert (existsb (fun '(_, r) => bool_decide (column r = Some value)) (map_to_list t) = true) as Ht;
    [|congruence].
  apply existsb_exists. exists (k, x). split.
  - apply list_elem_of_In. by apply elem_of_map_to_list.
  - by apply bool_decide_eq_true_2.
Qed.

(** Every row is stored under its own order id. *)
Definition keyed (t : Table) : Prop := forall key r, t !! key = Some r -> order_id (r_quote r) = key.

Lemma move_quote key r r' : move key r r' -> r_quote r' = r_quote r.
Proof. by destruct 1. Qed.

Lemma keyed_insert (t : Table) key r : keyed t -> order_id (r_quote r) = key -> keyed (<[key := r]> t).
Proof. intros H Hk k x Hx. apply lookup_insert_Some in Hx as [[<- <-]|[_ Hx]]; eauto. Qed.

Lemma step_keyed b b' : step b b' -> keyed b.1 -> keyed b'.1.
Proof.
  destruct 1 as [t l q req|t l key r r' Hr Hm|t l key r Hr|t l key r rot|t l key r j]; cbn;
    intros Hk; try done; apply keyed_insert; try done; cbn; [|by apply Hk].
  rewrite (move_quote _ _ _ Hm). by apply Hk.
Qed.

Lemma steps_keyed b b' : rtc step b b' -> keyed b.1 -> keyed b'.1.
Proof. induction 1; eauto using step_keyed. Qed.

(** Moves that set no unique column. *)
Lemma step_move_same t l key r r' :
  t !! key = Some r -> move key r r' -> r_payment_hash r' = r_payment_hash r ->
  r_note_id r' = r_note_id r -> r_settlement r' = r_settlement r -> step (t, l) (<[key := r']> t, l).
Proof. intros H1 H2 H3 H4 H5. by apply (s_move t l key r); try left. Qed.

Definition done_from (t0 : Table) (l0 : list Call) {A} (_ : result Error A) (t : Table) (l : list Call)
  : Prop := rtc step (t0, l0) (t, l).

Lemma update_state_step key from to t t' l :
  update_state key from to t = Ok t' ->
  (forall r, t !! key = Some r -> r_state r = from -> move key r (set_state to r)) ->
  step (t, l) (t', l).
Proof.
  intros H Hm. apply update_ok in H as (r & Hr & Hg & ->). apply in_state_true in Hg.
  apply (step_move_same t l key r); [done|auto|done..].
Qed.

Lemma insert_order_step q req t t' l :
  insert_order quote_digest_of q req t = Ok t' -> rtc step (t, l) (t', l).
Proof.
  unfold insert_order. destruct (t !! order_id q) as [x|] eqn:E; [by intros [= <-]|].
  destruct (Z.ltb_spec (Z.of_nat (size t)) MAX_ORDERS); [|done]. intros [= <-].
  apply rtc_once. by constructor.
Qed.

Lemma record_invoice_step key inv hash t t' l r :
  record_invoice key inv hash t = Ok t' -> t !! key = Some r -> invoice_valid (r_quote r) inv hash ->
  step (t, l) (t', l).
Proof.
  unfold record_invoice. destruct (taken_by_other _ _ _ _) eqn:E; [done|]. intros H Hr Hv.
  apply update_ok in H as (r1 & Hr1 & Hg & ->). apply in_state_true in Hg.
  rewrite Hr in Hr1. injection Hr1 as <-.
  apply (s_move t l key r); try done; [by constructor|right|by left..].
  intros k x Hk Hne. exact (taken_by_other_false _ _ _ _ E k x Hk Hne).
Qed.

Lemma activate_step key rc t t' l :
  activate key rc t = Ok t' -> store_activated key rc -> step (t, l) (t', l).
Proof.
  intros H Hs. apply update_ok in H as (r & Hr & Hg & ->). apply in_state_true in Hg.
  apply (step_move_same t l key r); [done| |done..]. by constructor.
Qed.

Lemma settle_note_step key rot signature t t' l r :
  settle key LnurlPending (note_ref rot) (Some (certified rot signature)) t = Ok t' ->
  t !! key = Some r -> r_rotation r = Some rot -> note_evidence (r_quote r) rot signature ->
  step (t, l) (t', l).
Proof.
  unfold settle. destruct (taken_by_other _ _ _ _) eqn:E; [done|]. intros H Hr Hrot Hv.
  apply update_ok in H as (r1 & Hr1 & Hg & ->). apply in_state_true in Hg.
  rewrite Hr in Hr1. injection Hr1 as <-.
  apply (s_move t l key r); try done; [by constructor|by left|by left|right].
  intros k x Hk Hne. exact (taken_by_other_false _ _ _ _ E k x Hk Hne).
Qed.

Lemma settle_lightning_step key hash t t' l r :
  settle key AwaitingPayment (lightning_ref hash) None t = Ok t' ->
  t !! key = Some r -> r_payment_hash r = Some hash -> paid_evidence hash ->
  step (t, l) (t', l).
Proof.
  unfold settle. destruct (taken_by_other _ _ _ _) eqn:E; [done|]. intros H Hr Hh Hv.
  apply update_ok in H as (r1 & Hr1 & Hg & ->). apply in_state_true in Hg.
  rewrite Hr in Hr1. injection Hr1 as <-.
  apply (s_move t l key r); try done; [by constructor|by left|by left|right].
  intros k x Hk Hne. exact (taken_by_other_false _ _ _ _ E k x Hk Hne).
Qed.

Lemma rotate_order_step key nid rot t t' l r :
  rotate_order key nid rot t = Ok t' -> t !! key = Some r -> in_time (r_quote r) ->
  note_offered (r_quote r) nid rot ->
  step (t, l) (t', l) /\ t' = <[key := set_rotation nid rot r]> t.
Proof.
  unfold rotate_order. destruct (taken r_note_id nid t) eqn:E; [done|]. intros H Hr Ht Hc.
  apply update_ok in H as (r1 & Hr1 & Hg & ->). apply in_state_true in Hg.
  rewrite Hr in Hr1. injection Hr1 as <-. split; [|done].
  apply (s_move t l key r); try done; [by constructor|by left|right|by left].
  intros k x Hk Hne. exact (taken_false _ _ _ E k x Hk).
Qed.

Lemma start_refund_step key j t t' l r :
  start_refund key j t = Ok t' -> t !! key = Some r -> refund_prepared r j ->
  step (t, l) (t', l) /\ t' = <[key := set_refund RefundRequired j r]> t.
Proof.
  intros H Hr Hj. apply update_ok in H as (r1 & Hr1 & Hg & ->).
  rewrite Hr in Hr1. injection Hr1 as <-. split; [|done].
  apply andb_prop in Hg as [Hg Hn]. apply in_state_true in Hg. apply bool_decide_eq_true in Hn.
  apply (step_move_same t l key r); [done| |done..]. by constructor.
Qed.

Lemma update_refund_step key j v t t' l r :
  update_refund key (with_issuer_verify v j) t = Ok t' -> t !! key = Some r -> r_refund r = Some j ->
  melt_answered (r_quote r) j v ->
  step (t, l) (t', l) /\ t' = <[key := set_refund RefundRequired (with_issuer_verify v j) r]> t.
Proof.
  unfold update_refund, get. intros H Hr Hj Hm. rewrite Hr in H. cbn in H. rewrite Hj in H.
  destruct (_ || _); [done|].
  apply update_ok in H as (r1 & Hr1 & Hg & ->). apply in_state_true in Hg.
  rewrite Hr in Hr1. injection Hr1 as <-. split; [|done].
  apply (step_move_same t l key r); [done| |done..]. by constructor.
Qed.

Lemma complete_refund_step key n j t t' l r :
  complete_refund key (with_refunded_at n j) t = Ok t' -> t !! key = Some r -> r_refund r = Some j ->
  clock_read n -> refund_evidence j -> step (t, l) (t', l).
Proof.
  unfold complete_refund. cbn [with_refunded_at refunded_at]. intros H Hr Hj Hn He.
  apply update_ok in H as (r1 & Hr1 & Hg & ->). apply in_state_true in Hg.
  rewrite Hr in Hr1. injection Hr1 as <-.
  apply (step_move_same t l key r); [done| |done..]. by constructor.
Qed.

(** ** Handlers as sequences of steps *)

(** Goes through the calls that leave the book alone; stops at statements,
    log entries and handlers. *)
Ltac quiet :=
  repeat (cbn beta iota zeta; lazymatch goal with
  | |- done_from _ _ _ _ _ => first [assumption|apply rtc_refl]
  | |- run _ _ (bind _ _) _ => apply run_bind
  | |- run _ _ (ret _) _ => apply run_ret
  | |- run _ _ (throw _) _ => apply run_throw
  | |- run _ _ (lift _) _ => apply run_lift
  | |- run _ _ now _ => apply run_now; [|intros ? ?]
  | |- run _ _ (ask_or _ _) _ => apply run_ask_or; [|intros ? ?]
  | |- run _ _ (ask _) _ => apply run_ask; intros ? ?
  | |- run _ _ (ledger_get _) _ => apply run_get
  | |- run _ _ (get_or _ _) _ => apply run_get_or; [intros ?|intros ? ?]
  | |- run _ _ (locked _) _ => apply run_locked
  | |- run _ _ (if ?b then _ else _) _ => destruct b eqn:?
  | |- run _ _ (match ?x with _ => _ end) _ => destruct x eqn:?
  | |- match ok_or ?o _ with _ => _ end => destruct o eqn:?; cbn [ok_or]
  | |- match map_err _ ?o with _ => _ end => destruct o eqn:?; cbn [map_err]
  end).

Lemma run_from {A} t0 l0 t l (m : M A) :
  rtc step (t0, l0) (t, l) -> run t l m (done_from t l) -> run t l m (done_from t0 l0).
Proof. intros H1 H2. eapply run_impl; [exact H2|]. intros r t' l' H. unfold done_from in *. by etrans. Qed.

(** A statement that is a step, or nothing. *)
Lemma run_step_statement t l f (Q : result Error unit -> Table -> list Call -> Prop) :
  (forall t', f t = Ok t' -> step (t, l) (t', l)) ->
  (forall e, Q (Err e) t l) ->
  (forall t', f t = Ok t' -> rtc step (t, l) (t', l) -> Q (Ok tt) t' l) ->
  run t l (statement f) Q.
Proof.
  intros H1 H2 H3. apply run_statement; [exact H2|]. intros t' H. apply H3; [done|].
  by apply rtc_once, H1.
Qed.

(** ... as the last thing a handler does. *)
Lemma run_last_statement t l f :
  (forall t', f t = Ok t' -> step (t, l) (t', l)) -> run t l (statement f) (done_from t l).
Proof. intros H. apply run_step_statement; [done|intros; apply rtc_refl|done]. Qed.

Lemma run_load t l p key Q :
  (forall e, Q (Err e) t l) -> (forall r, t !! key = Some r -> Q (Ok (record_of r)) t l) ->
  run t l (load p key) Q.
Proof.
  intros H1 H2. unfold load. destruct (negb (id key)); [by apply run_throw|].
  apply run_bind, run_get; [apply H1|]. unfold get. destruct (t !! key) as [r|]; cbn.
  - destruct (bool_decide _); [by apply run_ret, H2|by apply run_throw].
  - by apply run_throw.
Qed.

Lemma run_get_order t l p key : run t l (get_order p key) (done_from t l).
Proof.
  apply run_bind, run_load; [intros; apply rtc_refl|]. intros r _. apply run_ret, rtc_refl.
Qed.

Lemma run_consent t l p key c Q :
  (forall e, Q (Err e) t l) -> (forall r, t !! key = Some r -> Q (Ok (record_of r)) t l) ->
  run t l (consent p key c) Q.
Proof.
  intros H1 H2. apply run_bind, run_load; [exact H1|]. intros r Hr.
  destruct (negb _); [by apply run_throw|by apply run_ret, H2].
Qed.

Lemma run_reserve t l key r :
  keyed t -> t !! key = Some r -> run t l (reserve (record_of r)) (done_from t l).
Proof.
  intros Hk Hr. unfold reserve. cbn [record_of order quote state]. rewrite (Hk _ _ Hr). quiet.
  all: apply run_step_statement; [intros t' Ht|intros; apply rtc_refl|intros t' ? Hs; quiet].
  all: eapply update_state_step; [exact Ht|]; intros r1 Hr1 E; rewrite Hr in Hr1; injection Hr1 as <-.
  - apply m_expire with n; [done..|]. by apply Z.leb_le.
  - apply m_quote; [done| |].
    + exists n. split; [done|]. by apply Z.leb_gt.
    + match goal with x : () |- _ => destruct x end. unfold store_reserved, sale_of.
      by rewrite (Hk _ _ Hr).
Qed.

Lemma run_fulfil t l key : run t l (fulfil key) (done_from t l).
Proof.
  unfold fulfil. quiet; apply run_last_statement; intros t' Ht.
  - by eapply activate_step.
  - eapply update_state_step; [exact Ht|]. intros r _ E. by apply m_refund_required.
Qed.

Lemma run_finish t l p key :
  run t l (bind (fulfil key) (fun _ => get_order p key)) (done_from t l).
Proof.
  apply run_bind. eapply run_impl; [apply run_fulfil|]. intros [] t' l' H; [|done].
  apply run_from; [exact H|]. apply run_get_order.
Qed.

Lemma run_fetch self t l url Q :
  (forall e, Q (Err e) t l) -> (forall b, note_answer url b -> Q (Ok b) t l) -> run t l (fetch self url) Q.
Proof.
  intros H1 H2. unfold fetch. quiet; try apply H1.
  match goal with H : exists e e', note_get _ e = _ |- _ => destruct H as (e & e' & H) end.
  destruct (json_body _) eqn:E; [|apply H1]. apply H2. by eexists _, e, e'.
Qed.

Lemma run_try_fetch self t l url Q :
  Q (Ok None) t l -> (forall b, note_answer url b -> Q (Ok (Some b)) t l) -> run t l (try_fetch self url) Q.
Proof.
  intros H1 H2 e. unfold try_fetch.
  pose proof (run_fetch self t l url (fun r t' l' => t' = t /\ l' = l /\
    forall b, r = Ok b -> note_answer url b)) as H.
  specialize (H ltac:(done) ltac:(by intros b Hb; split_and!; [..|intros ? [= <-]]) e).
  destruct (fetch self url _) as [[b|e'] w']; cbn in *; destruct H as (-> & -> & Hb); auto.
Qed.

Lemma run_refund_fetch self t l url Q :
  (forall e, Q (Err e) t l) -> (forall b, refund_answer url b -> Q (Ok b) t l) -> run t l (refund_fetch self url) Q.
Proof.
  intros H1 H2. unfold refund_fetch. quiet; try apply H1.
  match goal with H : exists e e', refund_get _ e = _ |- _ => destruct H as (e & e' & H) end.
  destruct (json_body _) eqn:E; [|apply H1]. apply H2. by eexists _, e, e'.
Qed.

Lemma run_try_refund_fetch self t l url Q :
  Q (Ok None) t l -> (forall b, refund_answer url b -> Q (Ok (Some b)) t l) -> run t l (try_refund_fetch self url) Q.
Proof.
  intros H1 H2 e. unfold try_refund_fetch.
  pose proof (run_refund_fetch self t l url (fun r t' l' => t' = t /\ l' = l /\
    forall b, r = Ok b -> refund_answer url b)) as H.
  specialize (H ltac:(done) ltac:(by intros b Hb; split_and!; [..|intros ? [= <-]]) e).
  destruct (refund_fetch self url _) as [[b|e'] w']; cbn in *; destruct H as (-> & -> & Hb); auto.
Qed.

Lemma run_certify t l key rot signature r :
  t !! key = Some r -> r_rotation r = Some rot -> note_evidence (r_quote r) rot signature ->
  run t l (certify key rot signature) (done_from t l).
Proof.
  intros H1 H2 H3. apply run_last_statement. intros t' Ht.
  by apply (settle_note_step key rot signature t t' l r Ht).
Qed.

Lemma run_rotate self t l key r rot :
  t !! key = Some r -> r_state r = LnurlPending -> r_rotation r = Some rot ->
  run t l (rotate self key (r_quote r) rot) (done_from t l).
Proof.
  intros H1 H2 H3. unfold rotate. quiet. apply run_log. apply run_from.
  { apply rtc_once. by apply s_rotate with r. }
  apply run_bind, run_fetch; [intros; apply rtc_refl|]. intros b Hb. quiet.
  match goal with H : negb _ = false |- _ => apply negb_false_iff in H end.
  by apply run_certify with r.
Qed.

Lemma run_recover_rotation self t l key r rot :
  t !! key = Some r -> r_rotation r = Some rot ->
  run t l (recover_rotation self key (r_quote r) rot)
    (fun res t' l' => rtc step (t, l) (t', l') /\ (res = Ok false -> t' = t /\ l' = l)).
Proof.
  intros H1 H2. unfold recover_rotation.
  quiet; try (split; [apply rtc_refl|done]).
  apply run_try_fetch; [apply run_ret; split; [apply rtc_refl|done]|]. intros b _.
  quiet; try (split; [apply rtc_refl|done]).
  match goal with H : (_ || _) = false |- _ => apply orb_false_iff in H as [_ H];
    apply negb_false_iff in H end.
  eapply run_impl; [by apply run_certify with r|]. intros [] t' l' H; [|by split].
  apply run_ret. by split.
Qed.

Lemma get_Some t key rec : get t key = Some rec -> exists r, t !! key = Some r /\ rec = record_of r.
Proof. unfold get. destruct (t !! key) as [r|]; [|done]. intros [= <-]. eauto. Qed.

Lemma insert_order_keyed q req t t' : insert_order quote_digest_of q req t = Ok t' -> keyed t -> keyed t'.
Proof. intros H. apply (insert_order_step q req t t' []) in H. exact (steps_keyed _ _ H). Qed.

Lemma run_quote self t l p rq : keyed t -> run t l (quote_order self p rq) (done_from t l).
Proof.
  intros Hk. unfold quote_order. quiet.
  { match goal with H : get _ _ = Some _ |- _ => apply get_Some in H as (x & Hx & ->) end.
    by eapply run_reserve. }
  apply run_statement; [intros; apply rtc_refl|]. intros t' Ht.
  pose proof (insert_order_keyed _ _ _ _ Ht Hk) as Hk'.
  apply insert_order_step with (l := l) in Ht. quiet.
  apply run_from; [exact Ht|]. by eapply run_reserve.
Qed.

Lemma run_validate_invoice t l q inv b Q :
  (forall e, Q (Err e) t l) ->
  (invoice_valid q (bolt11 inv) (inv_payment_hash inv) -> Q (Ok tt) t l) ->
  run t l (validate_invoice q inv b) Q.
Proof.
  intros H1 H2. unfold validate_invoice. quiet; try apply H1; apply H2.
  all: repeat match goal with
       | H : (_ || _) = false |- _ => apply orb_false_iff in H as [? ?]
       | H : negb _ = false |- _ => apply negb_false_iff in H
       | H : bool_decide _ = true |- _ => apply bool_decide_eq_true in H
       | H : (_ <? _) = false |- _ => apply Z.ltb_ge in H
       | H : (_ <=? _) = false |- _ => apply Z.leb_gt in H
       end.
  all: match goal with H : bolt11_parse _ = Some ?x, H' : b_expires_at ?x = Some ?e |- _ =>
         exists x, e end; split_and!; auto.
Qed.

Lemma in_time_intro q n : clock_read n -> (expires_at q <=? n) = false -> in_time q.
Proof. intros H1 H2. exists n. split; [done|]. by apply Z.leb_gt. Qed.

Lemma run_lightning self t l p key c : run t l (lightning self p key c) (done_from t l).
Proof.
  unfold lightning. quiet. apply run_consent; [intros; apply rtc_refl|]. intros r Hr. unfold fresh.
  cbn [record_of order quote state]. quiet. apply run_statement; [intros; apply rtc_refl|].
  intros t' Ht. apply update_ok in Ht as (r1 & Hr1 & Hg & ->). rewrite Hr in Hr1. injection Hr1 as <-.
  apply in_state_true in Hg. quiet. apply run_log. apply run_from.
  { apply rtc_once. apply s_issue; [done..|]. by eapply in_time_intro. }
  quiet. apply run_validate_invoice; [intros; apply rtc_refl|]. intros Hv. quiet.
  apply run_step_statement; [|intros; apply rtc_refl|].
  - intros t' Ht. eapply record_invoice_step; [exact Ht|apply lookup_insert_eq|exact Hv].
  - intros t' _ Hs. apply run_from; [exact Hs|]. apply run_get_order.
Qed.

Lemma run_recover_invoice t l key inv : run t l (recover_invoice key inv) (done_from t l).
Proof.
  unfold recover_invoice. quiet. apply run_validate_invoice; [intros; apply rtc_refl|]. intros Hv.
  apply run_last_statement. intros t' Ht. by eapply record_invoice_step.
Qed.

Lemma run_lnurlcash self t l p key c input : run t l (lnurlcash self p key c input) (done_from t l).
Proof.
  unfold lnurlcash. quiet. apply run_consent; [intros; apply rtc_refl|]. intros r Hr. unfold fresh.
  cbn [record_of order quote state]. quiet.
  apply run_fetch; [intros; apply rtc_refl|]. intros b Hb. quiet.
  apply run_statement; [intros; apply rtc_refl|]. intros t' Ht.
  match goal with H : match issuer (r_quote r) with _ => _ end = Some ?i |- _ =>
    rename i into iss, H into Hi end.
  assert (issuer (r_quote r) = Some iss) as Hi'
    by (revert Hi; destruct (issuer (r_quote r)); [|done]; by destruct (bool_decide (_ ∈ issuers _))).
  repeat match goal with
    | H : (_ || _) = false |- _ => apply orb_false_iff in H as [? ?]
    | H : negb (bool_decide (_ = _)) = false |- _ => apply negb_false_iff, bool_decide_eq_true in H
    | H : negb (_ =? _) = false |- _ => apply negb_false_iff, Z.eqb_eq in H
    end.
  eapply rotate_order_step with (l := l) in Ht as (Hs & Heq);
    [|exact Hr|by eapply in_time_intro|eexists iss, _, _, b, _, _, _, _; by split_and!].
  subst t'. quiet. apply rtc_once in Hs.
  match goal with |- run ?t1 _ (rotate _ _ (r_quote _) ?rot) _ =>
    match t1 with <[_ := ?r1]> _ =>
      change (r_quote r) with (r_quote r1);
      eapply run_impl; [apply (run_rotate self t1 l key r1 rot); [apply lookup_insert_eq|done|done]|]
    end end.
  intros [] t1 l1 H'; unfold done_from in H'; [|unfold done_from; by etrans].
  apply run_from; [by etrans|]. apply run_finish.
Qed.

Lemma run_check self t l p key c : keyed t -> run t l (check self p key c) (done_from t l).
Proof.
  intros Hk. unfold check. quiet. apply run_consent; [intros; apply rtc_refl|]. intros r Hr.
  cbn [record_of order quote state payment_hash rotation].
  assert (run t l (bind (fulfil key) (fun _ => get_order p key)) (done_from t l)) as Hfin
    by apply run_finish.
  destruct (r_state r) eqn:Est; try (apply run_ret, rtc_refl); try (apply run_throw, rtc_refl);
    try exact Hfin; try by eapply run_reserve.
  - quiet. match goal with H : negb _ = false |- _ => rename H into Hd end.
    apply run_step_statement; [|intros; apply rtc_refl|].
    + intros t' Ht. eapply settle_lightning_step; try done.
      match goal with H : exists e e', check_invoice _ e = _ |- _ => destruct H as (e & e' & He) end.
      eexists e, e', _, _. split; [exact He|].
      match goal with H : negb (paid _) = false |- _ => apply negb_false_iff in H end.
      repeat match goal with H : negb (bool_decide _) = false |- _ =>
        apply negb_false_iff, bool_decide_eq_true in H end. eauto.
    + intros t' _ Hs. apply run_from; [exact Hs|]. apply run_finish.
  - quiet. eapply run_impl; [by apply run_recover_rotation|]. intros [seen|] t' l' [Hs Hsame]; [|done].
    destruct seen; apply run_bind.
    + apply run_ret. apply run_from; [exact Hs|]. apply run_finish.
    + destruct (Hsame eq_refl) as [-> ->].
      eapply run_impl; [by apply run_rotate|]. intros [] t' l' H'; [|done].
      apply run_from; [exact H'|]. apply run_finish.
Qed.

Lemma run_refund_settled_loop self t l j urls Q :
  urls ⊆ option_list (issuer_verify j) ++ option_list (receiver_verify j) ->
  (forall e, Q (Err e) t l) -> Q (Ok false) t l -> (refund_evidence j -> Q (Ok true) t l) ->
  run t l (refund_settled_loop self j urls) Q.
Proof.
  intros Hsub He Hf Ht. induction urls as [|url urls IH]; cbn [refund_settled_loop]; [by apply run_ret|].
  specialize (IH ltac:(set_solver)).
  apply run_bind, run_try_refund_fetch; [exact IH|]. intros b Hb.
  destruct (Some b ≫= parse_verify) as [v|] eqn:Ev; [|exact IH]. cbn in Ev.
  assert (same_invoice (v_pr v) (ref_invoice j) = true -> v_settled v = true ->
    (forall pre, v_preimage v = Some pre -> exists bytes,
       hex_decode pre = Some bytes /\ slen bytes = 32 /\ digest bytes = ref_payment_hash j) ->
    refund_evidence j) as Hev by (intros; exists url, b, v; split_and!; [set_solver|done..]).
  quiet; auto; apply Ht, Hev; try done; try by apply negb_false_iff.
  intros pre' [= <-].
  match goal with H : (_ || _) = false |- _ => apply orb_false_iff in H as [H1 H2] end.
  apply negb_false_iff, Z.eqb_eq in H1. apply negb_false_iff, bool_decide_eq_true in H2. eauto.
Qed.

Lemma run_refund_settled self t l j Q :
  (forall e, Q (Err e) t l) -> Q (Ok false) t l -> (refund_evidence j -> Q (Ok true) t l) ->
  run t l (refund_settled self j) Q.
Proof. intros. by apply run_refund_settled_loop. Qed.

(** The invoice half of [refund_prepared]. *)
Definition refund_invoice_valid (q : Quote) (inv hash : string) : Prop :=
  exists parsed expiry, bolt11_parse inv = Some parsed /\ b_currency parsed = quote_network q /\
    b_amount_msat parsed = Some (price_msat (offer q)) /\ b_payment_hash parsed = hash /\
    b_expires_at parsed = Some expiry /\ exists n, (clock_read n \/ n = U64_MAX) /\ n < expiry.

Lemma run_validate_refund_invoice t l q inv (Q : result Error string -> Table -> list Call -> Prop) :
  (forall e, Q (Err e) t l) -> (forall hash, refund_invoice_valid q inv hash -> Q (Ok hash) t l) ->
  run t l (validate_refund_invoice q inv) Q.
Proof.
  intros H1 H2. unfold validate_refund_invoice, now_or_max. quiet; try apply H1. apply H2.
  match goal with H : (_ || _) = false |- _ => apply orb_false_iff in H as [Hc Ha] end.
  apply negb_false_iff, bool_decide_eq_true in Hc, Ha.
  match goal with H : (_ <=? default _ ?o) = false, H' : b_expires_at ?x = Some ?y |- _ =>
    apply Z.leb_gt in H; exists x, y; split_and!; try done; exists (default U64_MAX o); split; [|done];
    destruct o; [by left|by right] end.
Qed.

Lemma run_prepare_refund self t l key r rot dest :
  t !! key = Some r -> refund_to (r_quote r) = Some dest -> is_lightning_address dest = true ->
  r_rotation r = Some rot -> is_Some (certificate rot) ->
  run t l (prepare_refund self key (record_of r) rot dest)
    (fun res t' l' => rtc step (t, l) (t', l') /\
       (res = Ok tt -> exists j, t' = <[key := set_refund RefundRequired j r]> t)).
Proof.
  intros Hr Hdest Hadr Hrot Hcert.
  assert (forall e : Error, rtc step (t, l) (t, l) /\
    (Err e = Ok tt -> exists j, t = <[key := set_refund RefundRequired j r]> t))
    as Hno by (intros e; split; [apply rtc_refl|done]).
  unfold prepare_refund. cbn [record_of order quote]. quiet; try apply Hno.
  apply run_refund_fetch; [apply Hno|]. intros b _. quiet; try apply Hno.
  destruct (refund_endpoint _) as [[]|]; [|apply Hno]. quiet; try apply Hno.
  apply run_refund_fetch; [apply Hno|]. intros b' _. quiet; try apply Hno.
  apply run_validate_refund_invoice; [apply Hno|]. intros hash (parsed & expiry & Hp). quiet; try apply Hno.
  all: try (destruct (same_origin _ _) as [[]|]; [|apply Hno]); quiet; try apply Hno.
  all: apply run_statement; [apply Hno|]; intros t' Ht;
    apply start_refund_step with (l := l) (r := r) in Ht as (Hs & ->);
    [split; [by apply rtc_once|eauto]|done|].
  all: destruct Hp as (? & ? & ? & ? & ? & ?); eexists parsed, expiry, _, rot; by split_and!.
Qed.

Lemma run_finish_refund t l key j r :
  t !! key = Some r -> r_refund r = Some j -> refund_evidence j ->
  run t l (finish_refund key j) (done_from t l).
Proof.
  intros H1 H2 H3. unfold finish_refund. quiet. apply run_step_statement.
  - intros t'. intros Ht. by eapply complete_refund_step.
  - intros; apply rtc_refl.
  - intros t' _ Hs. quiet.
Qed.

Lemma run_melt self t l key j r :
  t !! key = Some r -> r_state r = RefundRequired -> r_refund r = Some j ->
  run t l (melt self key (r_quote r) j) (done_from t l).
Proof.
  intros H1 H2 H3. unfold melt. apply run_bind, run_log. apply run_from.
  { apply rtc_once. by apply s_melt with r. }
  apply run_bind, run_fetch; [intros; apply rtc_refl|]. intros b Hb. quiet.
  - destruct (same_origin _ _) as [[]|] eqn:Eso; [|apply rtc_refl]. quiet.
    apply run_statement; [intros; apply rtc_refl|]. intros t' Ht.
    eapply update_refund_step with (l := l ++ [MeltNote key (ref_request_url j)]) in Ht as [Hs Heq];
      [|done..|].
    2: { eexists _, b, _. split_and!; try done. intros pr0 Hpr.
         match goal with H : match m_pr _ with _ => _ end = false |- _ => rewrite Hpr in H end.
         by apply negb_false_iff. }
    subst t'. apply rtc_once in Hs. quiet.
    apply run_refund_settled; [intros; exact Hs| |intros Hev]; cbn [negb]; quiet.
    apply run_from; [exact Hs|]. by eapply run_finish_refund; [apply lookup_insert_eq|..].
  - apply run_refund_settled; [intros; apply rtc_refl| |intros Hev]; cbn [negb]; quiet.
    by eapply run_finish_refund.
Qed.

Lemma run_refund self t l key : run t l (refund_order self key) (done_from t l).
Proof.
  unfold refund_order. quiet.
  all: match goal with H : _ !! _ = Some ?r |- _ => rename r into row; rename H into Hr end.
  all: cbn [record_of order quote state refund rotation] in *.
  all: match goal with H : (_ || _) = false |- _ => apply orb_false_iff in H as [Hst _];
        apply negb_false_iff, bool_decide_eq_true in Hst end.
  - apply run_refund_settled; [intros; apply rtc_refl| |intros Hev]; quiet.
    + by apply run_melt.
    + by eapply run_finish_refund.
  - eapply run_impl; [apply run_prepare_refund; first [exact Hr|idtac]|].
    1-4: repeat match goal with H : match ?x with _ => _ end = Some _ |- _ => destruct x eqn:?; [|done] end;
      simplify_eq; eauto.
    intros [[]|] t' l' [Hs Hok]; [|exact Hs].
    destruct (Hok eq_refl) as (j & ->). quiet.
    match goal with H : <[key := _]> t !! key = Some _ |- _ =>
      rewrite lookup_insert_eq in H; injection H as <- end.
    apply run_from; [exact Hs|]. eapply run_melt; [apply lookup_insert_eq|done|done].
Qed.

Lemma run_execute self t l req : keyed t -> run t l (execute self req) (done_from t l).
Proof.
  intros Hk. unfold execute. quiet.
  destruct (match req_authorization req with [] => _ | None :: _ => _ | Some h :: rest => _ end);
    [|apply rtc_refl]. quiet.
  destruct (authenticate _ _ _ _ _); [|apply rtc_refl]. quiet.
  destruct (action_of _ _) as [act|]; [|apply rtc_refl].
  destruct act; cbn [run_action];
    [by apply run_quote|apply run_get_order|apply run_lightning|apply run_lnurlcash|by apply run_check].
Qed.

(** ** Every operation, in every world *)

Inductive Op :=
| OpRequest (r : Request)
| OpRecoverInvoice (key : string) (inv : Invoice)
| OpReconcile (key : string)
| OpRefund (key : string).

Definition run_op (self : Checkout) (o : Op) : M unit :=
  match o with
  | OpRequest r => bind (execute self r) (fun _ => ret tt)
  | OpRecoverInvoice key inv => recover_invoice key inv
  | OpReconcile key => bind (reconcile self key) (fun _ => ret tt)
  | OpRefund key => bind (refund_order self key) (fun _ => ret tt)
  end.

Lemma run_discard {A} t l (m : M A) :
  run t l m (done_from t l) -> run t l (bind m (fun _ => ret tt)) (done_from t l).
Proof.
  intros H. apply run_bind. eapply run_impl; [exact H|]. intros [] t' l' H'; [by apply run_ret|done].
Qed.

Lemma run_op_steps self t l o : keyed t -> run t l (run_op self o) (done_from t l).
Proof.
  intros Hk. destruct o; cbn [run_op].
  - by apply run_discard, run_execute.
  - apply run_recover_invoice.
  - apply run_discard. unfold reconcile. quiet. by apply run_check.
  - apply run_discard, run_refund.
Qed.

(** The books a deployment can reach: the daemon serves requests and the
    operator's commands one after the other, on any clock and with any
    answers from the outside; an operation may fail anywhere. *)
Inductive reachable (self : Checkout) : Table -> list Call -> Prop :=
| reach_empty : reachable self ∅ []
| reach_op t l o e w r : reachable self t l ->
    run_op self o {| w_ledger := t; w_env := e; w_log := l |} = (r, w) ->
    reachable self (w_ledger w) (w_log w).

Lemma reachable_steps self t l : reachable self t l -> rtc step (∅, []) (t, l).
Proof.
  induction 1 as [|t l o e w r H IH Hop]; [apply rtc_refl|].
  etrans; [exact IH|]. pose proof (run_op_steps self t l o (steps_keyed _ _ IH ltac:(done)) e) as Hs.
  by rewrite Hop in Hs.
Qed.

Lemma reachable_keyed self t l : reachable self t l -> keyed t.
Proof. intros H. apply reachable_steps in H. by apply (steps_keyed _ _ H). Qed.
End Proofs.
