(* ===== verification/CheckoutInvariants.v ===== *)
(** * Checkout: invariants of the reachable books

    What holds of the ledger and of the calls that move money after any
    sequence of operations in any world, proved over the steps of
    [CheckoutProofs.v]. *)
From S2P Require Import Prelude CheckoutContract CheckoutLedger CheckoutService CheckoutHttp CheckoutProofs.

Section Invariants.
Context `{L : ServiceLib, Out : Outside, B : BodyLib}.

(** ** Rows *)

Definition settled_state (s : State) : bool :=
  match s with Settled | Active | RefundRequired | Refunded => true | _ => false end.

(** How an order was paid: by Lightning, with a preimage of the hash of a
    valid invoice, or by a note of the quoted value the mint signed for. *)
Definition payment_of (r : Row) (reference : string) : Prop :=
  (exists inv hash, r_invoice r = Some inv /\ r_payment_hash r = Some hash /\
     reference = lightning_ref hash /\ invoice_valid (r_quote r) inv hash /\ paid_evidence hash) \/
  (exists rot signature, r_rotation r = Some (certified rot signature) /\
     reference = note_ref rot /\ note_evidence (r_quote r) rot signature).

Record row_ok (key : string) (r : Row) : Prop := {
  ro_key : order_id (r_quote r) = key;
  ro_digest : r_digest r = quote_digest_of (r_quote r);
  ro_signer : r_signer r = signer_pubkey (r_quote r);
  ro_hash : forall h, r_payment_hash r = Some h ->
    exists inv, r_invoice r = Some inv /\ invoice_valid (r_quote r) inv h;
  ro_await : r_state r = AwaitingPayment -> is_Some (r_payment_hash r);
  ro_pending : r_state r = LnurlPending -> is_Some (r_rotation r) /\ is_Some (r_note_id r);
  ro_settled : is_Some (r_settlement r) <-> settled_state (r_state r) = true;
  ro_paid : forall s, r_settlement r = Some s -> payment_of r s;
  ro_receipt : is_Some (r_receipt r) <-> r_state r = Active;
  ro_refund : is_Some (r_refund r) -> r_state r = RefundRequired \/ r_state r = Refunded;
  ro_refunded : forall j, r_refund r = Some j -> (is_Some (refunded_at j) <-> r_state r = Refunded);
  ro_journal : r_state r = Refunded -> is_Some (r_refund r)
}.

Lemma new_row_ok q req : row_ok (order_id q) (new_row quote_digest_of q req).
Proof.
  split; cbn; try done; try (intros [? ?]; done); split; try done; intros [? ?]; done.
Qed.

Lemma move_row_ok key r r' : row_ok key r -> move key r r' -> row_ok key r'.
Proof.
  intros [K D S H A P St Pd Rc Rf Rd J] Hm.
  assert (settled_state (r_state r) = false -> r_settlement r = None) as Hns.
  { intros E. destruct (r_settlement r); [|done]. rewrite (proj1 St) in E by eauto. done. }
  assert (r_state r <> Active -> r_receipt r = None) as Hnr.
  { intros E. destruct (r_receipt r); [|done]. destruct E. apply Rc. eauto. }
  assert (r_state r <> RefundRequired -> r_state r <> Refunded -> r_refund r = None) as Hnf.
  { intros E1 E2. destruct (r_refund r); [|done]. destruct Rf; eauto; done. }
  assert (settled_state (r_state r) = true -> exists s, r_settlement r = Some s) as Hs.
  { intros E. by apply St in E as [s ?]; eauto. }
  assert (forall j, refund_prepared r j -> refunded_at j = None) as Hj
    by (intros j (? & ? & ? & ? & Hp); apply Hp).
  destruct Hm; match goal with E : r_state r = _ |- _ => rewrite E in * end;
    cbn in *; repeat match goal with
    | X : false = false -> _ |- _ => specialize (X eq_refl)
    | X : true = true -> _ |- _ => specialize (X eq_refl)
    | X : ?a <> ?b -> _ |- _ => specialize (X ltac:(discriminate))
    | X : ex _ |- _ => destruct X
    end; split; cbn; try done.
  all: try (by intros ? [= <-]; eauto).
  all: try (split; [intros [? ?]; congruence|done]).
  all: try (rewrite ?Hns, ?Hnr, ?Hnf; split; [intros [? ?]; done|done]).
  all: try (intros ? ?; congruence).
  all: try (intros [? ?]; congruence).
  - intros s [= <-]. left. destruct (H _ H1) as (inv & Hi & Hv). by exists inv, hash.
  - intros s [= <-]. right. by exists rot, signature.
  - by left.
  - intros j0 [= <-]. rewrite Hj by done. by split; [intros [? ?]|].
  - by left.
  - intros j0 [= <-]. cbn. by apply Rd.
  - by right.
Qed.

(** ** Tables *)

Definition unique (column : Row -> option string) (t : Table) : Prop :=
  forall k1 k2 r1 r2 v, t !! k1 = Some r1 -> t !! k2 = Some r2 ->
    column r1 = Some v -> column r2 = Some v -> k1 = k2.

Record table_ok (t : Table) : Prop := {
  to_rows : forall key r, t !! key = Some r -> row_ok key r;
  to_hash : unique r_payment_hash t;
  to_note : unique r_note_id t;
  to_settlement : unique r_settlement t;
  to_size : Z.of_nat (size t) <= MAX_ORDERS
}.

Lemma unique_insert_new column (t : Table) key r :
  unique column t -> column r = None -> unique column (<[key := r]> t).
Proof.
  intros Hu Hn k1 k2 r1 r2 v H1 H2 E1 E2.
  apply lookup_insert_Some in H1 as [[<- <-]|[_ H1]]; [congruence|].
  apply lookup_insert_Some in H2 as [[<- <-]|[_ H2]]; [congruence|]. by eapply Hu.
Qed.

Lemma unique_insert column t key r r' :
  unique column t -> t !! key = Some r -> column_free t key column r r' ->
  unique column (<[key := r']> t).
Proof.
  intros Hu Hr Hf k1 k2 r1 r2 v H1 H2 E1 E2.
  apply lookup_insert_Some in H1 as [[<- <-]|[N1 H1]];
    apply lookup_insert_Some in H2 as [[<- <-]|[N2 H2]]; try done.
  - destruct Hf as [Hf|Hf]; [apply (Hu _ _ r r2 v); congruence|].
    destruct (Hf k2 r2 H2); congruence.
  - destruct Hf as [Hf|Hf]; [apply (Hu _ _ r1 r v); congruence|].
    destruct (Hf k1 r1 H1); congruence.
  - by eapply Hu.
Qed.

Lemma size_update (t : Table) key r r' : t !! key = Some r -> size (<[key := r']> t) = size t.
Proof. intros H. rewrite map_size_insert_Some; eauto. Qed.

Lemma rows_insert (t : Table) key r' :
  (forall k r, t !! k = Some r -> row_ok k r) -> row_ok key r' ->
  forall k r, <[key := r']> t !! k = Some r -> row_ok k r.
Proof. intros H1 H2 k r H. apply lookup_insert_Some in H as [[<- <-]|[_ H]]; eauto. Qed.

(** [Quoted] to [InvoicePending] keeps the row in order too. *)
Lemma issue_row_ok key r : row_ok key r -> r_state r = Quoted -> row_ok key (set_state InvoicePending r).
Proof.
  intros [K D S H A P St Pd Rc Rf Rd J] E. rewrite E in *.
  split; cbn in *; try done; try (intuition congruence).
  intros j Hj. destruct (Rf ltac:(eauto)); congruence.
Qed.

Lemma step_table_ok t l t' l' : step (t, l) (t', l') -> table_ok t -> table_ok t'.
Proof.
  intros Hstep [R1 R2 R3 R4 R5].
  inversion Hstep as [? ? q req Hn Hsz|? ? key r r' Hr Hm F1 F2 F3|? ? key r Hr Hq
    |? ? key r rot Hr|? ? key r j Hr]; subst; [..|done|done].
  - split; [by apply rows_insert, new_row_ok|by apply unique_insert_new..|].
    rewrite map_size_insert_None by done. lia.
  - split; [apply rows_insert; eauto using move_row_ok|by eapply unique_insert..|].
    by rewrite (size_update _ _ r).
  - split; [apply rows_insert; eauto using issue_row_ok|by eapply unique_insert; [..|left]..|].
    by rewrite (size_update _ _ r).
Qed.

Lemma empty_table_ok : table_ok ∅.
Proof. split; try done; by intros ???????. Qed.

Lemma steps_table_ok b b' : rtc step b b' -> table_ok b.1 -> table_ok b'.1.
Proof. induction 1 as [|[] [] ? H _ IH]; [done|]. intros. eapply IH, step_table_ok; eauto. Qed.

Lemma reachable_table_ok self t l : reachable self t l -> table_ok t.
Proof. intros H%reachable_steps%steps_table_ok; [done|]. apply empty_table_ok. Qed.

(** ** Histories *)

(** The state machine of an order. *)
Definition edge (a b : State) : bool :=
  match a, b with
  | Reserving, (Expired | Quoted) | Quoted, (InvoicePending | LnurlPending)
  | InvoicePending, AwaitingPayment | (AwaitingPayment | LnurlPending), Settled
  | Settled, (Active | RefundRequired) | RefundRequired, (RefundRequired | Refunded) => true
  | _, _ => false
  end.

Definition terminal (s : State) : bool :=
  match s with Expired | Active | Refunded => true | _ => false end.

(** A column that, once set, keeps its value. *)
Definition kept {A} (o o' : option A) : Prop := forall v, o = Some v -> o' = Some v.

Definition same_refund (o o' : option RefundJournal) : Prop :=
  forall j, o = Some j -> exists j', o' = Some j' /\ ref_payment_hash j' = ref_payment_hash j /\
    ref_request_url j' = ref_request_url j /\ ref_invoice j' = ref_invoice j.

Definition same_rotation (r r' : Row) : Prop :=
  forall rot, r_rotation r = Some rot -> r_state r <> Reserving -> r_state r <> Quoted ->
    exists rot', r_rotation r' = Some rot' /\ rot_request_url rot' = rot_request_url rot /\
      new_secret rot' = new_secret rot.

Record advances (r r' : Row) : Prop := {
  ad_state : rtc (fun a b => edge a b = true) (r_state r) (r_state r');
  ad_terms : r_quote r' = r_quote r /\ r_request r' = r_request r /\ r_digest r' = r_digest r;
  ad_hash : is_Some (r_settlement r) -> r_payment_hash r' = r_payment_hash r;
  ad_settlement : kept (r_settlement r) (r_settlement r');
  ad_receipt : kept (r_receipt r) (r_receipt r');
  ad_rotation : same_rotation r r';
  ad_refund : same_refund (r_refund r) (r_refund r');
  ad_terminal : terminal (r_state r) = true -> r' = r
}.

Lemma advances_refl r : advances r r.
Proof. split; try done; intros ?; eauto. Qed.

(** From the first state a given one has passed through. *)
Lemma edge_past a b : rtc (fun a b => edge a b = true) a b ->
  a <> Reserving -> a <> Quoted -> b <> Reserving /\ b <> Quoted.
Proof.
  induction 1 as [|a b c Hab _ IH]; [done|]. intros H1 H2. apply IH; by destruct a, b.
Qed.

Lemma advances_trans r1 r2 r3 : advances r1 r2 -> advances r2 r3 -> advances r1 r3.
Proof.
  intros [A1 (A2 & A3 & A4) A5 A6 A7 A8 A9 A10] [B1 (B2 & B3 & B4) B5 B6 B7 B8 B9 B10]. split.
  - by etrans.
  - by rewrite B2, B3, B4.
  - intros [s Hs]. rewrite B5 by eauto. by apply A5; eauto.
  - intros v Hv. auto.
  - intros v Hv. auto.
  - intros rot Hr H1 H2. destruct (A8 rot Hr H1 H2) as (rot' & Hr' & E1 & E2).
    destruct (edge_past _ _ A1 H1 H2) as [H1' H2'].
    destruct (B8 rot' Hr' H1' H2') as (rot'' & Hr'' & F1 & F2). exists rot''. split; [done|].
    split; congruence.
  - intros j Hj. destruct (A9 j Hj) as (j' & Hj' & E1 & E2 & E3).
    destruct (B9 j' Hj') as (j'' & Hj'' & F1 & F2 & F3). exists j''. split_and!; congruence.
  - intros Ht. specialize (A10 Ht). subst r2. auto.
Qed.

Lemma move_advances key r r' : row_ok key r -> move key r r' -> advances r r'.
Proof.
  intros Hok Hm.
  assert (settled_state (r_state r) = false -> r_settlement r = None) as Hns.
  { intros E. destruct (r_settlement r) eqn:Es; [|done].
    rewrite (proj1 (ro_settled _ _ Hok)) in E by eauto. done. }
  assert (r_state r <> Active -> r_receipt r = None) as Hnr.
  { intros E. destruct (r_receipt r) eqn:Es; [|done]. destruct E. apply (ro_receipt _ _ Hok). eauto. }
  assert (same_rotation r r') as Hrot.
  { destruct Hm; intros rot0 Hr Hn1 Hn2; cbn; eauto; [congruence|].
    assert (rot = rot0) as <- by congruence. by eexists. }
  assert (same_refund (r_refund r) (r_refund r')) as Href.
  { destruct Hm; intros j0 Hj0; cbn; try (exists j0; by split_and!); [congruence| |];
      match goal with E : r_refund r = Some _ |- _ => rewrite Hj0 in E; injection E as <- end;
      eexists; split_and!; try done. }
  destruct Hm; (match goal with E : r_state r = _ |- _ => rename E into Est end);
    rewrite Est in *; split; cbn; try done; try (rewrite Est; done);
    try (apply rtc_once; rewrite Est; done);
    try (rewrite Hns by done; intros [? ?]; done); try (rewrite Hns by done; by intros ? ?);
    try (rewrite Hnr by done; by intros ? ?); by intros ? ?.
Qed.

Lemma step_advances t l t' l' key r :
  step (t, l) (t', l') -> table_ok t -> t !! key = Some r ->
  exists r', t' !! key = Some r' /\ advances r r'.
Proof.
  intros Hstep Hok Hr. pose proof (to_rows _ Hok) as Hrows.
  inversion Hstep as [? ? q req Hn Hsz|? ? k x x' Hx Hm F1 F2 F3|? ? k x Hx Hq
    |? ? k x rot Hx|? ? k x j Hx]; subst; try (exists r; by split; [|apply advances_refl]).
  - exists r. rewrite lookup_insert_ne by congruence. split; [done|apply advances_refl].
  - destruct (decide (k = key)) as [->|Hne].
    + exists x'. rewrite lookup_insert_eq. split; [done|]. assert (x = r) as <- by congruence.
      by eapply move_advances; eauto.
    + exists r. rewrite lookup_insert_ne by done. split; [done|apply advances_refl].
  - destruct (decide (k = key)) as [->|Hne].
    + eexists. rewrite lookup_insert_eq. split; [done|]. assert (x = r) as <- by congruence.
      split; cbn; try done; try (rewrite Hq; done); try (apply rtc_once; by rewrite Hq).
      all: intros ? ?; eauto.
    + exists r. rewrite lookup_insert_ne by done. split; [done|apply advances_refl].
Qed.

Lemma steps_advance b b' key r :
  rtc step b b' -> table_ok b.1 -> b.1 !! key = Some r ->
  exists r', b'.1 !! key = Some r' /\ advances r r'.
Proof.
  intros H. revert r. induction H as [b|[t l] [t1 l1] b' Hs _ IH]; intros r Hok Hr.
  - exists r. split; [done|apply advances_refl].
  - destruct (step_advances _ _ _ _ _ _ Hs Hok Hr) as (r1 & Hr1 & Ha).
    destruct (IH r1) as (r2 & Hr2 & Hb); [by eapply step_table_ok|done|].
    exists r2. split; [done|by eapply advances_trans].
Qed.

(** ** The calls that move money *)

Definition issued (key : string) (l : list Call) : nat :=
  length (List.filter (fun c => bool_decide (c = CreateInvoice key)) l).

Lemma issued_app key l c :
  issued key (l ++ [c]) = (issued key l + if bool_decide (c = CreateInvoice key) then 1 else 0)%nat.
Proof.
  unfold issued. rewrite List.filter_app, length_app. cbn [List.filter].
  by destruct (bool_decide (c = CreateInvoice key)).
Qed.

Definition past_quoted (r : Row) : Prop := r_state r <> Reserving /\ r_state r <> Quoted.

Record log_ok (t : Table) (l : list Call) : Prop := {
  lo_once : forall key, (issued key l <= 1)%nat;
  lo_issued : forall key, issued key l = 1%nat -> exists r, t !! key = Some r /\ past_quoted r;
  lo_rotate : forall key url, RotateNote key url ∈ l ->
    exists r rot, t !! key = Some r /\ past_quoted r /\ r_rotation r = Some rot /\
      rot_request_url rot = url;
  lo_melt : forall key url, MeltNote key url ∈ l ->
    exists r j, t !! key = Some r /\ r_refund r = Some j /\ ref_request_url j = url
}.

(** A log that stays the same keeps its promises while the rows advance. *)
Lemma log_ok_advances t t' l :
  log_ok t l ->
  (forall key r, t !! key = Some r -> exists r', t' !! key = Some r' /\ advances r r') ->
  log_ok t' l.
Proof.
  intros [H1 H2 H3 H4] Hadv. split; [done|..].
  - intros key Hi. destruct (H2 key Hi) as (r & Hr & Hp). destruct (Hadv _ _ Hr) as (r' & Hr' & Ha).
    exists r'. split; [done|]. destruct Hp. by eapply edge_past; [apply Ha|..].
  - intros key url Hi. destruct (H3 key url Hi) as (r & rot & Hr & [Hp1 Hp2] & Hrot & Hu).
    destruct (Hadv _ _ Hr) as (r' & Hr' & Ha).
    destruct (ad_rotation _ _ Ha rot Hrot Hp1 Hp2) as (rot' & Hrot' & E & _).
    exists r', rot'. split_and!; try done; [|congruence]. by eapply edge_past; [apply Ha|..].
  - intros key url Hi. destruct (H4 key url Hi) as (r & j & Hr & Hj & Hu).
    destruct (Hadv _ _ Hr) as (r' & Hr' & Ha).
    destruct (ad_refund _ _ Ha j Hj) as (j' & Hj' & _ & E & _).
    exists r', j'. split_and!; try done. congruence.
Qed.

(** Adding a call the current row justifies. *)
Lemma log_ok_call t l c :
  log_ok t l ->
  match c with
  | CreateInvoice key => issued key l = 0%nat /\ exists r, t !! key = Some r /\ past_quoted r
  | RotateNote key url => exists r rot, t !! key = Some r /\ past_quoted r /\
      r_rotation r = Some rot /\ rot_request_url rot = url
  | MeltNote key url => exists r j, t !! key = Some r /\ r_refund r = Some j /\ ref_request_url j = url
  end -> log_ok t (l ++ [c]).
Proof.
  intros [H1 H2 H3 H4] Hc. split.
  - intros key. rewrite issued_app. case_bool_decide as E; [|rewrite Nat.add_0_r; apply H1].
    subst c. destruct Hc as [-> _]. lia.
  - intros key. rewrite issued_app. case_bool_decide as E; [|rewrite Nat.add_0_r; apply H2].
    subst c. intros _. apply Hc.
  - intros key url Hi. apply elem_of_app in Hi as [Hi|Hi]; [by apply H3|].
    apply list_elem_of_singleton in Hi. by subst c.
  - intros key url Hi. apply elem_of_app in Hi as [Hi|Hi]; [by apply H4|].
    apply list_elem_of_singleton in Hi. by subst c.
Qed.

Lemma step_log_ok t l t' l' :
  step (t, l) (t', l') -> table_ok t -> log_ok t l -> log_ok t' l'.
Proof.
  intros Hstep Hok Hlog.
  pose proof (fun key r => step_advances t l t' l' key r Hstep Hok) as Hadv.
  inversion Hstep as [? ? q req Hn Hsz|? ? k x x' Hx Hm F1 F2 F3|? ? k x Hx Hq
    |? ? k x rot Hx Hst Hrot|? ? k x j Hx Hst Hj]; subst; try by apply (log_ok_advances t).
  - apply log_ok_call; [by apply (log_ok_advances t)|]. split.
    + pose proof (lo_once _ _ Hlog k) as H1. pose proof (lo_issued _ _ Hlog k) as H2.
      destruct (issued k l) as [|[|?]]; [done| |lia].
      destruct (H2 eq_refl) as (r & Hr & Hp). destruct Hp. congruence.
    + eexists. rewrite lookup_insert_eq. split; [done|]. by split.
  - apply log_ok_call; [done|]. exists x, rot. split; [done|]. split; [|done].
    unfold past_quoted. by rewrite Hst.
  - apply log_ok_call; [done|]. by exists x, j.
Qed.

Lemma steps_log_ok b b' :
  rtc step b b' -> table_ok b.1 -> log_ok b.1 b.2 -> log_ok b'.1 b'.2.
Proof.
  induction 1 as [|[t l] [t' l'] ? H _ IH]; [done|]. intros. apply IH.
  - by eapply step_table_ok.
  - by eapply step_log_ok.
Qed.

Lemma empty_log_ok : log_ok ∅ [].
Proof.
  split; [intros key; cbn; lia|done| |]; intros key url H; by apply elem_of_nil in H.
Qed.
End Invariants.
