(* ===== verification/CheckoutTheorems.v ===== *)
(** * Checkout: theorems

    The properties of the checkout component, and a concrete instance of its
    libraries and of the outside on which they are exercised. *)
From Stdlib Require Import Ascii.
From S2P Require Import Prelude CheckoutContract CheckoutLedger CheckoutService CheckoutHttp CheckoutProofs CheckoutInvariants.

Section Theorems.
Context `{L : ServiceLib, Out : Outside, B : BodyLib}.

(** C8: refinement: whatever the request or operator command and the answers of
    the clock, the store, the backends, the mint and SQLite, and also when the
    operation fails half way, a book whose rows are stored under their own
    order ids changes only by legal steps of the order state machine, and
    stays such a book.  A step needs its evidence: a quote stands once the
    store has reserved that very sale before the quote ran out; an invoice is
    asked for after the order has left [Quoted], and recorded if it is one for
    the order's price; a note is taken if the quote's own mint says it is
    worth the price; settling needs the preimage of the order's payment hash,
    or the mint's signature on the replacement note; an order becomes active
    with the receipt the store gave for it, and refundable when the store
    said the allowance cannot be had; a refund is prepared for the buyer's
    own address over the price; and an order is refunded only when one of the
    journal's verification URLs reported its own invoice settled, with no
    preimage but one of the journalled hash. *)
Theorem checkout_operations_are_steps (self : Checkout) (o : Op) (t : Table) (l : list Call) (e : env)
    (Hk : keyed t) :
  let w := (run_op self o {| w_ledger := t; w_env := e; w_log := l |}).2 in
  rtc step (t, l) (w_ledger w, w_log w) /\ keyed (w_ledger w).
Proof.
  pose proof (run_op_steps self t l o Hk e) as H. split; [exact H|exact (steps_keyed _ _ H Hk)].
Qed.

(** C30: every reachable ledger is well formed: each row's columns agree with
    its state, quote digests are right, payment hashes, note identities and
    settlements are unique, and there are at most 10000 orders. *)
Theorem reachable_ledger_ok self t l (H : reachable self t l) : table_ok t.
Proof. exact (reachable_table_ok self t l H). Qed.

(** C22: no storage without payment, and no payment counted twice: an order that
    is settled, active or refundable was paid, by the preimage of its own
    valid invoice or by a note of the quoted value signed by the mint, and no
    other order holds the same settlement. *)
Theorem settled_order_was_paid self t l key r
  (H : reachable self t l) (Hr : t !! key = Some r) (Hs : settled_state (r_state r) = true) :
  exists s, r_settlement r = Some s /\ payment_of r s /\
    forall k x, t !! k = Some x -> r_settlement x = Some s -> k = key.
Proof.
  apply reachable_table_ok in H as Hok. pose proof (to_rows _ Hok key r Hr) as Hrow.
  apply (ro_settled _ _ Hrow) in Hs as [s Hset]. exists s. split_and!; [done|by apply Hrow|].
  intros k x Hx Hxs. by eapply (to_settlement _ Hok).
Qed.

(** C34: over any history at most one invoice is requested for an order; every
    rotation and melt sent for an order uses the request saved in its row, so
    retries can only repeat the same spend. *)
Theorem money_moves_once self t l (H : reachable self t l) :
  (forall key, (issued key l <= 1)%nat) /\
  (forall key url, RotateNote key url ∈ l -> exists r rot,
     t !! key = Some r /\ r_rotation r = Some rot /\ rot_request_url rot = url) /\
  (forall key url, MeltNote key url ∈ l -> exists r j,
     t !! key = Some r /\ r_refund r = Some j /\ ref_request_url j = url) /\
  (forall key url url', MeltNote key url ∈ l -> MeltNote key url' ∈ l -> url = url') /\
  (forall key url url', RotateNote key url ∈ l -> RotateNote key url' ∈ l -> url = url').
Proof.
  apply reachable_steps in H.
  pose proof (steps_log_ok _ _ H empty_table_ok empty_log_ok) as [H1 _ H3 H4]. cbn in *.
  assert (forall key url, RotateNote key url ∈ l -> exists r rot,
     t !! key = Some r /\ r_rotation r = Some rot /\ rot_request_url rot = url) as H3'.
  { intros key url Hi. destruct (H3 key url Hi) as (r & rot & ? & _ & ? & ?). eauto. }
  split_and!; [done|done|done| |].
  - intros key url url' Hi Hi'. destruct (H4 _ _ Hi) as (r & j & ? & ? & <-).
    destruct (H4 _ _ Hi') as (r' & j' & ? & ? & <-). congruence.
  - intros key url url' Hi Hi'. destruct (H3' _ _ Hi) as (r & j & ? & ? & <-).
    destruct (H3' _ _ Hi') as (r' & j' & ? & ? & <-). congruence.
Qed.

(** Orders only move forward: after any operation on a reachable book every
    order is still there with the same terms and digest, its state has
    followed the state machine, its settlement, receipt, note rotation and
    refund payment are what they were, and an expired, active or refunded
    order has not changed at all. *)
Theorem orders_only_advance self t l key r o e
  (H : reachable self t l) (Hr : t !! key = Some r) :
  exists r',
    w_ledger (run_op self o {| w_ledger := t; w_env := e; w_log := l |}).2 !! key = Some r' /\
    advances r r'.
Proof.
  exact (steps_advance _ _ key r (run_op_steps self t l o (reachable_keyed _ _ _ H) e)
    (reachable_table_ok _ _ _ H) Hr).
Qed.

(** Asking again is safe: a quote whose order already exists (and has left
    [Reserving]) changes nothing, and succeeds only for the very request that
    made the order, with that order. *)
Theorem quote_replay self t l p rq key r e
  (Hk : key = digest (pubkey p ++ ":" ++ request_id rq)) (Hr : t !! key = Some r)
  (Hs : r_state r <> Reserving) :
  let out := quote_order self p rq {| w_ledger := t; w_env := e; w_log := l |} in
  w_ledger out.2 = t /\ w_log out.2 = l /\
  forall o, out.1 = Ok o -> r_request r = request_json rq /\ o = order (record_of r).
Proof.
  refine ((_ : run t l (quote_order self p rq) (fun res t' l' => t' = t /\ l' = l /\
    forall o, res = Ok o -> r_request r = request_json rq /\ o = order (record_of r))) e).
  assert (forall x : Error, t = t /\ l = l /\ forall o, Err x = Ok o ->
    r_request r = request_json rq /\ o = order (record_of r)) as Hno by done.
  unfold quote_order. apply run_locked; [apply Hno|].
  destruct (_ || _); [apply run_throw, Hno|].
  apply run_bind, run_get; [apply Hno|]. unfold get. rewrite <- Hk, Hr. cbn [fmap option_fmap option_map].
  cbn [record_of request]. case_bool_decide as E; cbn [negb]; [|apply run_throw, Hno].
  unfold reserve. cbn [order state]. rewrite bool_decide_eq_false_2 by done. cbn [negb].
  apply run_ret. split_and!; try done. intros o [= <-]. done.
Qed.

(** ** A paid order is delivered *)

Lemma run_ask_known {A} t l (f : env -> A * env) a Q :
  (forall e, (f e).1 = a) -> Q (Ok a) t l -> run t l (ask f) Q.
Proof.
  intros Hf HQ. apply run_ask. intros x (e & e' & Hx). specialize (Hf e). rewrite Hx in Hf.
  cbn in Hf. by subst.
Qed.

Lemma run_ask_or_known {A} t l err (f : env -> option A * env) a Q :
  (forall e, (f e).1 = Some a) -> Q (Ok a) t l -> run t l (ask_or err f) Q.
Proof. intros Hf HQ. apply run_bind. eapply run_ask_known; [exact Hf|]. by apply run_lift. Qed.

(** No other order can hold the settlement of a payment hash this one has. *)
Lemma lightning_ref_free t key r hash :
  table_ok t -> t !! key = Some r -> r_payment_hash r = Some hash ->
  taken_by_other r_settlement (lightning_ref hash) key t = false.
Proof.
  intros Hok Hr Hh. apply not_true_is_false. intros Ht. unfold taken_by_other in Ht.
  apply existsb_exists in Ht as ([k x] & Hin & Hx). apply andb_prop in Hx as [Hs Hne].
  apply bool_decide_eq_true in Hs. apply negb_true_iff, bool_decide_eq_false in Hne.
  apply list_elem_of_In, elem_of_map_to_list in Hin.
  destruct (ro_paid _ _ (to_rows _ Hok k x Hin) _ Hs) as [(inv & h & _ & Hh' & E & _)|(rot & sg & _ & E & _)].
  - apply (inj (String.append _)) in E as <-. apply Hne. by eapply (to_hash _ Hok).
  - discriminate E.
Qed.

Section Cooperative.
Hypothesis Hlock : forall e, (try_lock e).1 = true.
Hypothesis Hsql : forall e, (sqlite e).1 = true.

Lemma run_statement_ok t l f t' Q : f t = Ok t' -> Q (Ok tt) t' l -> run t l (statement f) Q.
Proof.
  intros Hf HQ. apply run_bind. eapply run_ask_known; [exact Hsql|]. intros e. cbn. by rewrite Hf.
Qed.

Lemma run_load_ok t l p key r Q :
  id key = true -> t !! key = Some r -> signer_pubkey (r_quote r) = pubkey p ->
  Q (Ok (record_of r)) t l -> run t l (load p key) Q.
Proof.
  intros Hid Hr Hp HQ. unfold load. rewrite Hid. cbn [negb]. apply run_bind.
  apply run_bind. eapply run_ask_known; [exact Hsql|]. intros e. unfold get. cbn [w_ledger]. rewrite Hr. cbn.
  rewrite bool_decide_eq_true_2 by done. by apply run_ret.
Qed.

(** C38: a paid order is delivered: when the backend reports the invoice of an
    [AwaitingPayment] order of a reachable book paid with the right preimage,
    and the store grants the allowance, [check] by its buyer returns the order
    as [Active] with the store's receipt, and the ledger says so. *)
Theorem check_delivers_paid_order self t l p key r hash st pre rc e
  (H : reachable self t l) (Hr : t !! key = Some r) (Hst : r_state r = AwaitingPayment)
  (Hh : r_payment_hash r = Some hash) (Hl : has_lightning self = true) (Hid : id key = true)
  (Hp : pubkey p = signer_pubkey (r_quote r))
  (Hc : forall e, (check_invoice hash e).1 = Some st) (Hpaid : paid st = true)
  (Hpre : preimage_of st = Some pre) (Hdig : digest pre = hash)
  (Hact : forall e, (activate_paid_sale key e).1 = Ok rc) :
  let out := check self p key (r_digest r) {| w_ledger := t; w_env := e; w_log := l |} in
  exists o, out.1 = Ok o /\ state o = Active /\ receipt o = Some rc /\ quote o = r_quote r /\
    exists r', w_ledger out.2 !! key = Some r' /\ r_state r' = Active /\
      r_settlement r' = Some (lightning_ref hash).
Proof.
  apply reachable_table_ok in H as Hok.
  refine ((_ : run t l (check self p key (r_digest r)) (fun res t' l' =>
    exists o, res = Ok o /\ state o = Active /\ receipt o = Some rc /\ quote o = r_quote r /\
    exists r', t' !! key = Some r' /\ r_state r' = Active /\
      r_settlement r' = Some (lightning_ref hash))) e).
  unfold check, locked. apply run_bind. eapply run_ask_known; [exact Hlock|].
  apply run_bind. unfold consent. apply run_bind. eapply run_load_ok; [done|done|done|].
  cbn [record_of order quote_digest state payment_hash]. rewrite bool_decide_eq_true_2 by done.
  cbn [negb]. apply run_ret. cbn [record_of order state payment_hash]. rewrite Hst, Hh, Hl.
  apply run_bind, run_lift. cbn [ok_or negb]. apply run_bind. eapply run_ask_or_known; [exact Hc|].
  rewrite Hpaid. cbn [negb]. apply run_bind, run_lift. rewrite Hpre. cbn [ok_or].
  rewrite bool_decide_eq_true_2 by done. cbn [negb]. apply run_bind.
  eapply run_statement_ok.
  { unfold settle. fold (lightning_ref hash). rewrite (lightning_ref_free t key r hash) by done.
    unfold update, in_state. rewrite Hr, Hst. cbn. reflexivity. }
  apply run_bind. unfold fulfil. apply run_bind. eapply run_ask_known; [exact Hact|].
  eapply run_statement_ok.
  { unfold activate, update. rewrite lookup_insert_eq. cbn. reflexivity. }
  unfold get_order. apply run_bind. eapply run_load_ok; [done|by rewrite lookup_insert_eq|done|].
  apply run_ret. eexists. split; [reflexivity|]. cbn. split_and!; try done.
  eexists. rewrite lookup_insert_eq. done.
Qed.
End Cooperative.
End Theorems.

(** ** Configuration and authentication *)

Section ContractTheorems.
Context `{ContractLib}.

Record offer_ok (o : Offer) : Prop := {
  ok_id : id (o_id o) = true;
  ok_price : price_msat o <> 0 /\ price_msat o <= MAX_SAFE;
  ok_sats : (price_msat o / 1000) * 1000 = price_msat o;
  ok_terms : capacity_bytes o <> 0 /\ duration_seconds o <> 0 /\ delivery_bytes o <> 0
}.

Lemma offer_bad_false seen o : offer_bad seen o = false -> (o_id o ∉ seen) /\ offer_ok o.
Proof.
  unfold offer_bad. rewrite !orb_false_iff.
  intros [[[[[[[[[H1 H2] H3] H4] H5] H6] H7] H8] H9] H10].
  apply bool_decide_eq_false in H3. apply negb_false_iff in H1, H7. cbn in H9.
  rewrite !orb_false_iff in H9. split; [done|]. split.
  - done.
  - apply Z.eqb_neq in H6. destruct H9 as (_ & _ & _ & H9 & _). apply Z.ltb_ge in H9. done.
  - apply Z.eqb_eq in H7. pose proof (Z.div_mod (price_msat o) 1000 ltac:(lia)). lia.
  - apply Z.eqb_neq in H4, H5, H8. done.
Qed.

Lemma validate_offers_ok seen os :
  validate_offers seen os = Ok tt ->
  Forall offer_ok os /\ NoDup (map o_id os) /\ forall o, o ∈ os -> o_id o ∉ seen.
Proof.
  revert seen. induction os as [|o os IH]; intros seen Hv; cbn in *.
  - split_and!; [constructor|constructor|intros o Ho; by apply elem_of_nil in Ho].
  - destruct (offer_bad seen o) eqn:E; [done|]. apply offer_bad_false in E as [Hn Hok].
    apply IH in Hv as (H1 & H2 & H3). split_and!; [by constructor| |].
    + constructor; [|done]. rewrite list_elem_of_fmap. intros (x & Hx & Hin). apply H3 in Hin. set_solver.
    + intros x Hx. apply elem_of_cons in Hx as [->|Hx]; [done|]. apply H3 in Hx. set_solver.
Qed.

(** An accepted configuration sells what it says: not Tor-only, a quote
    lifetime of one minute to one day, between 1 and 32 offers with distinct
    valid ids, and every price a positive whole number of satoshis that
    JavaScript can hold, so the amount asked of the Lightning backend is
    exactly the price. *)
Theorem validated_config_sells_whole_satoshis (c : Config) (H0 : validate c = Ok tt) :
  tor_only c = false /\ 60 <= quote_seconds c <= 86400 /\
  (1 <= length (offers c) <= 32)%nat /\ NoDup (map o_id (offers c)) /\ Forall offer_ok (offers c).
Proof.
  unfold validate in H0. destruct (_ || _) eqn:E; [done|]. rewrite !orb_false_iff in E.
  destruct E as [[[[[[[[E1 _] _] _] _] E6] E7] E8] _].
  apply negb_false_iff in E6. unfold in_range in E6. apply andb_prop in E6 as [E6 E6'].
  apply Z.leb_le in E6, E6'. apply bool_decide_eq_false in E7. apply Z.ltb_ge in E8.
  destruct (endpoint _ _); [|done]. destruct (_ || _); [done|].
  destruct (validate_offers [] (offers c)) as [[]|] eqn:Ev; [|done].
  apply validate_offers_ok in Ev as (V1 & V2 & _). split_and!; try done; try lia.
  destruct (offers c); [done|]. cbn. lia.
Qed.

Lemma tag_ok e name v : tag e name = Ok (Some v) ->
  exists t, [name; v] = t /\ t ∈ e_tags e /\ forall t', t' ∈ e_tags e -> head t' = Some name -> t' = t.
Proof.
  unfold tag. destruct (List.filter _ (e_tags e)) as [|x [|]] eqn:E; [done| |by destruct x as [|?[|?[|]]]].
  destruct x as [|a [|b [|]]]; try done. intros [= ->].
  assert ([a; v] ∈ e_tags e /\ head [a; v] = Some name) as [Hin Hh].
  { assert (In [a; v] (List.filter (fun t => bool_decide (head t = Some name)) (e_tags e))) as Hf
      by (rewrite E; by left).
    apply filter_In in Hf as [H1 H2]. apply bool_decide_eq_true in H2. split; [|done].
    by apply list_elem_of_In. }
  cbn in Hh. injection Hh as <-. eexists. split; [reflexivity|]. split; [done|].
  intros t' Ht' Hh'. assert (In t' [[a; v]]) as Hi; [|by destruct Hi].
  rewrite <- E. apply filter_In. split; [by apply list_elem_of_In|by apply bool_decide_eq_true_2].
Qed.

(** An authenticated principal signed this very request: the key and id
    returned are those of an event whose signature verified, of the HTTP-auth
    kind, made within the last minute (half a minute of clock skew), whose
    only [u] and [method] tags are this URL and method and, for a POST, whose
    [payload] tag is the digest of this body. *)
Theorem authenticate_binds_request header url method body now p
  (H0 : authenticate header url method body now = Ok p) :
  exists e,
    event_verify e = true /\ p = {| pubkey := e_pubkey e; event_id := e_id e |} /\
    e_kind e = HTTP_AUTH /\
    e_created_at e <= saturating_add now 30 /\ now <= saturating_add (e_created_at e) 60 /\
    ["u"%string; url] ∈ e_tags e /\ ["method"%string; method] ∈ e_tags e /\
    (forall t, t ∈ e_tags e -> head t = Some "u"%string -> t = ["u"%string; url]) /\
    (method = "POST"%string -> ["payload"%string; digest body] ∈ e_tags e).
Proof.
  unfold authenticate in H0. destruct (_ || _); [done|].
  destruct (strip_prefix _ _); [|done]. cbn [ok_or] in H0. destruct (base64_decode _); [|done].
  cbn [ok_or] in H0. destruct (_ <? _); [done|].
  destruct (event_from_json _) as [e|]; [|done]. cbn [ok_or] in H0.
  destruct (_ || _) eqn:E; [done|]. rewrite !orb_false_iff in E. destruct E as [[[E1 _] E3] E4].
  apply negb_false_iff, Z.eqb_eq in E1. apply Z.ltb_ge in E3, E4.
  destruct (tag e "u") as [u|] eqn:Tu; [|done].
  destruct (bool_decide_reflect (u = Some url)) as [->|]; [|done]. cbn [negb] in H0.
  destruct (tag e "method") as [m|] eqn:Tm; [|done].
  destruct (bool_decide_reflect (m = Some method)) as [->|]; [|done]. cbn [negb] in H0.
  apply tag_ok in Tu as (? & <- & Hu & Hu'), Tm as (? & <- & Hm & _).
  assert (method = "POST"%string -> ["payload"%string; digest body] ∈ e_tags e) as Hpost.
  { intros ->. rewrite bool_decide_eq_true_2 in H0 by done.
    destruct (tag e "payload") as [pl|] eqn:Tp; [|done].
    destruct (bool_decide_reflect (pl = Some (digest body))) as [->|]; [|done].
    by apply tag_ok in Tp as (? & <- & ? & _). }
  destruct (if bool_decide (method = "POST"%string) then _ else _) as [[]|]; [done| |done].
  destruct (if bool_decide (method = "GET"%string) then _ else _) as [[]|]; [done| |done].
  destruct (event_verify e) eqn:Ev; [|done]. injection H0 as <-. by exists e.
Qed.
End ContractTheorems.

(** ** Admission *)

(** Requests at the given clock readings, each finishing before the next: the
    outcome of each. *)
Fixpoint admit_all (clocks : list Z) (a : Admission) : list bool * Admission :=
  match clocks with
  | [] => ([], a)
  | c :: clocks =>
      let (r, a) := admit_ c a in
      let (rs, a) := admit_all clocks (if is_ok r then release a else a) in (is_ok r :: rs, a)
  end.

(** The rate limit: of any number of requests that arrive within 60 seconds
    of the start of a window, even if each finishes at once, at most as many
    are admitted as the window has left, out of 120. *)
Theorem admission_window_bound clocks a
  (Hc : Forall (fun c => c - window_start a < WINDOW_SECONDS) clocks)
  (Hn : 0 <= window_count a <= WINDOW_REQUESTS) :
  Z.of_nat (length (List.filter (fun b => b) (admit_all clocks a).1))
    <= WINDOW_REQUESTS - window_count a /\
  window_count (admit_all clocks a).2 <= WINDOW_REQUESTS.
Proof.
  revert a Hc Hn. induction clocks as [|c clocks IH]; intros a Hc Hn; [cbn; lia|].
  apply Forall_cons in Hc as [Hc Hcs]. cbn [admit_all]. unfold admit_.
  destruct (free a <=? 0).
  - specialize (IH a Hcs Hn). cbn [is_ok]. destruct (admit_all clocks a). cbn in *. lia.
  - rewrite (proj2 (Z.leb_gt _ _) Hc). destruct (Z.leb_spec WINDOW_REQUESTS (window_count a)).
    + specialize (IH a Hcs Hn). cbn [is_ok]. destruct (admit_all clocks a). cbn in *. lia.
    + cbn [is_ok]. match goal with |- context [admit_all clocks ?x] => set (a' := x) end.
      specialize (IH a' Hcs ltac:(cbn; lia)). destruct (admit_all clocks a').
      cbn in IH |- *. lia.
Qed.

Lemma admission_window_bound_witness :
  length (List.filter (fun b => b)
    (admit_all (replicate 200 5) {| free := 4; window_start := 0; window_count := 100 |}).1) = 20%nat /\
  Z.of_nat (length (List.filter (fun b => b)
    (admit_all (replicate 200 5) {| free := 4; window_start := 0; window_count := 100 |}).1)) <= 20.
Proof.
  split; [vm_compute; reflexivity|].
  apply (admission_window_bound (replicate 200 5) {| free := 4; window_start := 0; window_count := 100 |}).
  - apply Forall_replicate. cbn. unfold WINDOW_SECONDS. lia.
  - cbn. unfold WINDOW_REQUESTS. lia.
Defined.

(** ** A concrete sale *)

Definition toy_char (a : Ascii.ascii) : Ascii.ascii :=
  if id_char (Z.of_N (Ascii.N_of_ascii a)) then a else "_"%char.

(** A stand-in for hexadecimal SHA-256: characters of ids only, and 64 of them
    for a 32-byte input. *)
Definition toy_digest (s : string) : string :=
  let s := String.string_of_list_ascii (map toy_char (String.list_ascii_of_string s)) in
  if slen s =? 32 then String.append s s else s.

Definition toy_url : Url :=
  {| u_scheme := "https"; u_username := ""; u_password := None; u_host := Some "h"%string;
     u_host_is_loopback_ip := false; u_path := "/"; u_query := None; u_query_pairs := [];
     u_fragment := None; u_origin := "https://h"; u_str := "https://h/";
     u_without_query := "https://h/" |}.

Definition toy_target (body : string) : string :=
  if bool_decide (body = "q"%string) then "https://h/checkout/v1/orders"
  else if bool_decide (body = "l"%string) then "https://h/checkout/v1/orders/alice_r1/lightning"
  else "https://h/checkout/v1/orders/alice_r1/check".

Definition toy_event (body : string) : Event :=
  {| e_created_at := 1000; e_kind := HTTP_AUTH; e_content := "";
     e_tags := [["u"; toy_target body]; ["method"; "POST"]; ["payload"; body]]%string;
     e_pubkey := "alice"; e_id := "event" |}.

Definition toy_contract : ContractLib :=
  {| url_parse _ := Some toy_url; is_compressed_pubkey _ := true; config_json_len _ := 500;
     digest := toy_digest; base64_decode := Some; event_from_json b := Some (toy_event b);
     event_verify _ := true |}.

Definition toy_preimage : string := "abcdefghijklmnopqrstuvwxyz012345".

Definition toy_invoice : Bolt11 :=
  {| b_currency := Bitcoin; b_amount_msat := Some 1000; b_expires_at := Some 1300;
     b_description := Some "alice_r1"%string; b_payment_hash := toy_digest toy_preimage;
     b_timestamp := 1000 |}.

Definition toy_lib : ServiceLib :=
  {| body := string; lib_contract := toy_contract; json_body := Some; quote_json _ := "quote"%string;
     request_json := request_id; is_lightning_address _ := true; resolve_note_input := Some;
     note_k1 := Some; note_id_of := Some; note_info_request := Some; parse_note_info _ _ := None;
     rotate_request _ _ _ := None; parse_rotate _ _ := None; parse_melt _ := None;
     verify_note_signature _ _ _ _ _ := false; build_note_url _ _ := None;
     resolve_mint_input := Some; parse_pay_request _ := None; invoice_request _ _ := None;
     parse_invoice _ _ := None; melt_request _ _ _ := None; parse_verify _ := None;
     bolt11_parse _ := Some toy_invoice; hex_decode _ := Some toy_preimage |}.

Definition toy_receipt : Receipt :=
  {| allowance_id := "a"; receipt_bytes := 1; starts_at := 1000; writes_until := 2000;
     retains_until := 3000 |}.

Definition toy_status : InvoiceStatus :=
  {| paid := true; preimage := Some (toy_digest toy_preimage) |}.

Definition toy_outside : Outside :=
  {| env := unit; sys_now e := (Some 1000, e); try_lock e := (true, e); sqlite e := (true, e);
     reserve_paid_sale _ e := (Ok tt, e); activate_paid_sale _ e := (Ok toy_receipt, e);
     create_invoice _ _ e :=
       (Some {| bolt11 := "lnbc"; inv_payment_hash := toy_digest toy_preimage |}, e);
     check_invoice _ e := (Some toy_status, e); note_get _ e := (None, e); refund_get _ e := (None, e);
     generate_note_secret e := (""%string, e) |}.

Definition toy_offer : Offer :=
  {| o_id := "basic"; o_revision := 1; capacity_bytes := 1; duration_seconds := 1000;
     grace_seconds := 1000; price_msat := 1000; delivery_bytes := 1; delivery_policy := "d";
     retention_policy := "r"; refund_policy := "f" |}.

Definition toy_config : Config :=
  {| origin := "https://h/"; seller_id := "s"; seller_name := "Seller"; network := Bitcoin;
     quote_seconds := 600; offers := [toy_offer]; issuers := []; allow_loopback_http := false;
     tor_only := false |}.

Definition toy_self : Checkout :=
  {| config := toy_config; has_lightning := true; has_notes := false; has_refunds := false |}.

Definition toy_quote_request : QuoteRequest :=
  {| request_id := "r1"; offer_id := "basic"; q_rail := Lightning; q_issuer_id := None;
     q_renews := None; q_refund_to := None |}.

Definition toy_bodies : BodyLib :=
  {| json_quote_request _ := Some toy_quote_request; json_consent _ := Some "quote"%string;
     json_note _ := None |}.

#[local] Existing Instances toy_contract toy_lib toy_outside toy_bodies.

Definition toy_request (body path : string) : Op :=
  OpRequest {| req_method := "POST"; req_path := path; req_has_query := false;
               req_authorization := [Some (String.append "Nostr " body)]; req_body := Some body |}.

Definition toy_step (o : Op) (w : World) : World := (run_op toy_self o w).2.

Definition toy_env : @env toy_outside := tt.

Definition toy_w0 : World := {| w_ledger := ∅; w_env := toy_env; w_log := [] |}.
Definition toy_w1 : World := toy_step (toy_request "q" "/checkout/v1/orders") toy_w0.
Definition toy_w2 : World := toy_step (toy_request "l" "/checkout/v1/orders/alice_r1/lightning") toy_w1.
Definition toy_w3 : World := toy_step (toy_request "c" "/checkout/v1/orders/alice_r1/check") toy_w2.

Definition toy_row (w : World) : Row :=
  default (new_row quote_digest_of
    {| version := 1; order_id := ""; quote_seller_id := ""; quote_seller_name := "";
       node_origin := ""; signer_pubkey := ""; quote_network := Bitcoin; rail := Lightning;
       issuer_id := None; offer := toy_offer; issuer := None; created_at := 0; expires_at := 0;
       renews := None; refund_to := None |} "") (w_ledger w !! "alice_r1"%string).

Example toy_sale :
  (r_state (toy_row toy_w1), r_state (toy_row toy_w2), r_state (toy_row toy_w3), w_log toy_w3)
  = (Quoted, AwaitingPayment, Active, [CreateInvoice "alice_r1"]).
Proof. vm_compute. reflexivity. Qed.

Lemma toy_reach_op w o : reachable toy_self (w_ledger w) (w_log w) ->
  reachable toy_self (w_ledger (toy_step o w)) (w_log (toy_step o w)).
Proof.
  intros H. unfold toy_step. destruct w as [t e l].
  eapply (reach_op toy_self t l o e _ (run_op toy_self o {| w_ledger := t; w_env := e; w_log := l |}).1);
    [exact H|]. by destruct (run_op _ _ _).
Qed.

Lemma toy_reach2 : reachable toy_self (w_ledger toy_w2) (w_log toy_w2).
Proof. apply toy_reach_op, toy_reach_op, reach_empty. Qed.

Lemma toy_reach3 : reachable toy_self (w_ledger toy_w3) (w_log toy_w3).
Proof. apply toy_reach_op, toy_reach2. Qed.

Lemma checkout_operations_are_steps_witness :
  rtc step (w_ledger toy_w2, w_log toy_w2) (w_ledger toy_w3, w_log toy_w3) /\ keyed (w_ledger toy_w3).
Proof.
  pose proof (checkout_operations_are_steps toy_self
    (toy_request "c" "/checkout/v1/orders/alice_r1/check") (w_ledger toy_w2) (w_log toy_w2) toy_env
    (reachable_keyed _ _ _ toy_reach2)) as H.
  exact H.
Defined.

Lemma reachable_ledger_ok_witness : table_ok (w_ledger toy_w3).
Proof. exact (reachable_ledger_ok toy_self _ _ toy_reach3). Defined.

Lemma settled_order_was_paid_witness :
  exists s, r_settlement (toy_row toy_w3) = Some s /\ payment_of (toy_row toy_w3) s.
Proof.
  destruct (settled_order_was_paid toy_self _ _ "alice_r1" (toy_row toy_w3) toy_reach3)
    as (s & H1 & H2 & _); [vm_compute; reflexivity|vm_compute; reflexivity|].
  exists s. split; assumption.
Defined.

Lemma money_moves_once_witness : (issued "alice_r1" (w_log toy_w3) <= 1)%nat.
Proof. exact (proj1 (money_moves_once toy_self _ _ toy_reach3) "alice_r1"%string). Defined.

Lemma orders_only_advance_witness :
  exists r', w_ledger (toy_step (toy_request "c" "/checkout/v1/orders/alice_r1/check")
    {| w_ledger := w_ledger toy_w2; w_env := toy_env; w_log := w_log toy_w2 |}) !! "alice_r1"%string = Some r' /\
    advances (toy_row toy_w2) r'.
Proof.
  apply (orders_only_advance toy_self _ _ "alice_r1" _ (toy_request "c" _) toy_env toy_reach2).
  vm_compute. reflexivity.
Defined.

Lemma quote_replay_witness :
  w_ledger (quote_order toy_self {| pubkey := "alice"; event_id := "" |} toy_quote_request
    {| w_ledger := w_ledger toy_w2; w_env := toy_env; w_log := w_log toy_w2 |}).2 = w_ledger toy_w2.
Proof.
  apply (quote_replay toy_self (w_ledger toy_w2) (w_log toy_w2)
    {| pubkey := "alice"; event_id := "" |} toy_quote_request "alice_r1" (toy_row toy_w2) toy_env);
    vm_compute; [reflexivity|reflexivity|discriminate].
Defined.

Lemma check_delivers_paid_order_witness :
  exists o, (check toy_self {| pubkey := "alice"; event_id := "" |} "alice_r1" (r_digest (toy_row toy_w2))
    {| w_ledger := w_ledger toy_w2; w_env := toy_env; w_log := w_log toy_w2 |}).1 = Ok o /\
    state o = Active /\ receipt o = Some toy_receipt.
Proof.
  destruct (@check_delivers_paid_order toy_lib toy_outside toy_bodies (fun _ => eq_refl)
    (fun _ => eq_refl) toy_self _ _
    {| pubkey := "alice"; event_id := "" |} "alice_r1" (toy_row toy_w2) (toy_digest toy_preimage)
    toy_status toy_preimage toy_receipt toy_env toy_reach2) as (o & H1 & H2 & H3 & _);
    try (vm_compute; reflexivity); try (intros; reflexivity).
  exists o. split; [exact H1|]. split; [exact H2|exact H3].
Defined.

Lemma validated_config_witness : tor_only toy_config = false /\ Forall offer_ok (offers toy_config).
Proof.
  destruct (validated_config_sells_whole_satoshis toy_config) as (H1 & _ & _ & _ & H2);
    [vm_compute; reflexivity|]. split; assumption.
Defined.

Lemma authenticate_binds_request_witness :
  exists e, event_verify e = true /\ e_kind e = HTTP_AUTH /\
    ["payload"%string; digest "q"] ∈ e_tags e.
Proof.
  destruct (authenticate_binds_request "Nostr q" "https://h/checkout/v1/orders" "POST" "q" 1000
    {| pubkey := "alice"; event_id := "event" |}) as (e & H1 & _ & H2 & _ & _ & _ & _ & _ & H3);
    [vm_compute; reflexivity|].
  exists e. split; [exact H1|]. split; [exact H2|]. exact (H3 eq_refl).
Defined.
