(* ===== verification/ReplicaPolicy.v ===== *)
(** * Replicas: signed policies

    Models [crates/wildbloomd/src/replicas/policy.rs] and the origin rules of
    [transport.rs] ([Profile::accepts], [valid_domain], [valid_onion]): which
    policies and authorisations an owner's signature makes acceptable.  URL
    parsing, JSON, Nostr events and SHA-3 are operations of [PolicyLib]. *)
From Stdlib Require Import Ascii.
From S2P Require Import Prelude.

Definition MAX_POLICY_BYTES : Z := 256 * 1024.
Definition MAX_EVENT_BYTES : Z := 16 * 1024.
Definition MAX_BLOB_BYTES : Z := 1024 * 1024 * 1024.

Inductive PolicyError := Size_ | Schema | Signature | Time_ | Bounds | Origin | ChangedRequest.

#[export] Instance PolicyError_eq_dec : EqDecision PolicyError.
Proof. solve_decision. Defined.

(** ** Data *)

Inductive Profile := DirectHttps | TorOnly | LoopbackDevelopment.
Inductive Retention := Owner | Friend | Guest.

#[export] Instance Profile_eq_dec : EqDecision Profile.
Proof. solve_decision. Defined.
#[export] Instance Retention_eq_dec : EqDecision Retention.
Proof. solve_decision. Defined.

Record Target := {
  target_id : string; target_origin : string; failure_group : string; retention : Retention }.

Record Blob := { blob_sha256 : string; blob_size : Z }.

#[export] Instance Target_eq_dec : EqDecision Target.
Proof. solve_decision. Defined.
#[export] Instance Blob_eq_dec : EqDecision Blob.
Proof. solve_decision. Defined.

Record Policy := {
  policy_type : string; policy_version : Z; policy_id : string; revision : Z; policy_expires : Z;
  profile : Profile; desired_groups : Z; targets : list Target; blobs : list Blob }.

Record VerifiedPolicy := { policy : Policy; event_id : string; owner : string }.

(** The raw fields, and a Nostr event before and after signing. *)
Record StrictEvent := {
  raw_id : string; raw_pubkey : string; raw_created_at : Z; raw_kind : Z;
  raw_tags : list (list string); raw_content : string; raw_sig : string }.

Record Event := {
  ev_id : string; ev_pubkey : string; ev_created_at : Z; ev_kind : Z; ev_tags : list (list string);
  ev_content : string }.

Record UnsignedEvent := {
  un_pubkey : string; un_created_at : Z; un_kind : Z; un_tags : list (list string);
  un_content : string }.

(** What [Profile::accepts] reads of a URL. *)
Record Url := {
  scheme : string; username : string; password : option string; host_str : option string;
  host_is_ip : bool; host_is_loopback_v4 : bool; port : option Z; path : string;
  query : option string; fragment : option string; as_str : string }.

Class PolicyLib := {
  url_parse : string -> option Url;
  strict_event : string -> option StrictEvent;
  event_from_json : string -> option Event;
  event_verify : Event -> bool;
  (** [PublicKey::from_hex] succeeds. *)
  public_key : string -> bool;
  policy_from_json : string -> option Policy;
  policy_to_json : Policy -> option string;
  compute_id : UnsignedEvent -> string;
  sha3_256 : list Z -> list Z;
  (** [u64::to_string]. *)
  decimal : Z -> string;
  base64_url : string -> string;
  (** [AuthPolicy::new([host]).with_allowed_pubkeys([key]).verify_upload(..)]. *)
  verify_upload : string -> string -> string -> string -> Z -> bool
}.

(** ** Syntax *)

Definition lower_hex (b : Z) : bool := in_range 48 b 57 || in_range 97 b 102.

Definition canonical_hex (value : string) (bytes : Z) : bool :=
  (slen value =? bytes * 2) && forallb lower_hex (codes value).

Definition identifier_char (b : Z) : bool :=
  in_range 97 b 122 || in_range 48 b 57 || (b =? 45) || (b =? 95).

Definition identifier (value : string) : bool :=
  negb (is_empty value) && (slen value <=? 64) && forallb identifier_char (codes value).

(** [host.split('.')]. *)
Fixpoint split_dots (l : list Z) : list (list Z) :=
  match l with
  | [] => [[]]
  | c :: l =>
      if c =? 46 then [] :: split_dots l
      else match split_dots l with w :: ws => (c :: w) :: ws | [] => [[c]] end
  end.

Definition alphanumeric (b : Z) : bool := in_range 48 b 57 || in_range 65 b 90 || in_range 97 b 122.

Definition valid_label (l : list Z) : bool :=
  negb (bool_decide (l = [])) && (Z.of_nat (length l) <=? 63)
  && match head l with Some c => alphanumeric c | None => false end
  && match last l with Some c => alphanumeric c | None => false end
  && forallb (fun b => in_range 97 b 122 || in_range 48 b 57 || (b =? 45)) l.

Definition valid_domain (host : string) : bool :=
  (slen host <=? 253) && existsb (fun c => c =? 46) (codes host)
  && forallb valid_label (split_dots (codes host)).

(** One character of base32. *)
Definition base32_value (b : Z) : option Z :=
  if in_range 97 b 122 then Some (b - 97) else if in_range 50 b 55 then Some (b - 50 + 26) else None.

(** The decoding loop: the accumulator keeps 16 bits, a byte comes out
    whenever eight are there. *)
Fixpoint base32_loop (l : list Z) (accumulator bits : Z) (decoded : list Z) : option (list Z * Z) :=
  match l with
  | [] => Some (decoded, bits)
  | b :: l =>
      match base32_value b with
      | None => None
      | Some value =>
          let accumulator := Z.land (Z.lor (Z.shiftl accumulator 5) value) 0xffff in
          let bits := bits + 5 in
          if 8 <=? bits
          then base32_loop l accumulator (bits - 8)
                 (decoded ++ [Z.land (Z.shiftr accumulator (bits - 8)) 0xff])
          else base32_loop l accumulator bits decoded
      end
  end.

Definition strip_suffix (suffix s : string) : option string :=
  if ends_with suffix s then Some (String.substring 0 (String.length s - String.length suffix) s)
  else None.

Definition onion_prefix : list Z := codes ".onion checksum".

Section Policies.
Context `{PolicyLib}.
Local Open Scope wb_scope.

Definition valid_onion (host : string) : bool :=
  match strip_suffix ".onion" host with
  | None => false
  | Some label =>
      if negb (slen label =? 56) then false
      else
        match base32_loop (codes label) 0 0 [] with
        | None => false
        | Some (decoded, bits) =>
            if negb (Z.of_nat (length decoded) =? 35) || negb (bits =? 0)
               || negb (bool_decide (decoded !! 34%nat = Some 3))
            then false
            else bool_decide (take 2 (drop 32 decoded)
                              = take 2 (sha3_256 (onion_prefix ++ take 32 decoded ++ [3])))
        end
  end.

Definition accepts (p : Profile) (url : Url) : bool :=
  if negb (bool_decide (path url = "/"%string)) || bool_decide (is_Some (query url))
     || bool_decide (is_Some (fragment url)) || negb (is_empty (username url))
     || bool_decide (is_Some (password url)) || bool_decide (port url = Some 0)
  then false
  else
    match host_str url with
    | None => false
    | Some host =>
        match p with
        | DirectHttps =>
            bool_decide (scheme url = "https"%string) && valid_domain host
            && negb (ends_with ".onion" host) && negb (host_is_ip url)
        | TorOnly =>
            (bool_decide (scheme url = "http"%string) || bool_decide (scheme url = "https"%string))
            && valid_onion host
        | LoopbackDevelopment =>
            bool_decide (scheme url = "http"%string) && host_is_loopback_v4 url
        end
    end.

(** ** Events *)

Definition signed_event (bytes owner : string) (limit : Z) : result PolicyError Event :=
  if limit <? slen bytes then Err Size_
  else
    let? raw := ok_or (strict_event bytes) Schema in
    if negb (canonical_hex (raw_id raw) 32) || negb (canonical_hex (raw_pubkey raw) 32)
       || negb (canonical_hex (raw_sig raw) 64) || negb (bool_decide (raw_pubkey raw = owner))
    then Err Signature
    else if (128 * 1024 <? slen (raw_content raw)) || (8 <? Z.of_nat (length (raw_tags raw)))
            || existsb (fun tag => (3 <? Z.of_nat (length tag)) || existsb (fun part => 256 <? slen part) tag)
                 (raw_tags raw)
    then Err Bounds
    else
      let? event := ok_or (event_from_json bytes) Schema in
      if negb (event_verify event) then Err Signature
      else if negb (ev_kind event =? raw_kind raw) || negb (ev_created_at event =? raw_created_at raw)
      then Err Schema else Ok event.

(** ** Validation *)

Record Seen := { ids : list string; origins : list string; groups_seen : list string }.

Fixpoint validate_targets (p : Profile) (seen : Seen) (ts : list Target) : result PolicyError Seen :=
  match ts with
  | [] => Ok seen
  | t :: ts =>
      if negb (identifier (target_id t)) || negb (identifier (failure_group t))
         || bool_decide (target_id t ∈ ids seen) || bool_decide (target_origin t ∈ origins seen)
      then Err Bounds
      else
        let? url := ok_or (url_parse (target_origin t)) Origin in
        if negb (bool_decide (as_str url = target_origin t)) || negb (accepts p url) then Err Origin
        else
          validate_targets p
            {| ids := target_id t :: ids seen; origins := target_origin t :: origins seen;
               groups_seen := if bool_decide (retention t = Owner)
                                 && negb (bool_decide (failure_group t ∈ groups_seen seen))
                              then failure_group t :: groups_seen seen else groups_seen seen |} ts
  end.

Fixpoint validate_blobs (hashes : list string) (bs : list Blob) : result PolicyError unit :=
  match bs with
  | [] => Ok tt
  | b :: bs =>
      if negb (canonical_hex (blob_sha256 b) 32) || (blob_size b =? 0) || (MAX_BLOB_BYTES <? blob_size b)
         || bool_decide (blob_sha256 b ∈ hashes)
      then Err Bounds else validate_blobs (blob_sha256 b :: hashes) bs
  end.

Definition validate (p : Policy) : result PolicyError unit :=
  if negb (bool_decide (policy_type p = "wildbloom.replica-policy"%string))
     || negb (policy_version p =? 1) || negb (identifier (policy_id p)) || (revision p =? 0)
     || (policy_expires p =? 0) || (16 <? Z.of_nat (length (targets p)))
     || (128 <? Z.of_nat (length (blobs p)))
  then Err Bounds
  else
    let? seen := validate_targets (profile p) {| ids := []; origins := []; groups_seen := [] |}
                   (targets p) in
    let? _ := validate_blobs [] (blobs p) in
    if (Z.of_nat (length (groups_seen seen)) <? desired_groups p)
       || ((0 <? desired_groups p) && bool_decide (blobs p = []))
    then Err Bounds else Ok tt.

Definition policy_template (p : Policy) (own : string) (now : Z) : result PolicyError UnsignedEvent :=
  let? _ := validate p in
  if policy_expires p <=? now then Err Time_
  else if negb (canonical_hex own 32) then Err Signature
  else if negb (public_key own) then Err Signature
  else
    let? content := ok_or (policy_to_json p) Schema in
    Ok {| un_pubkey := own; un_created_at := now; un_kind := 30078;
          un_tags := [["d"%string; String.append "wildbloom.replica-policy.v1:" (policy_id p)];
                      ["expiration"%string; decimal (policy_expires p)]];
          un_content := content |}.

Definition verify_policy (bytes own : string) (now : Z) : result PolicyError VerifiedPolicy :=
  let? event := signed_event bytes own MAX_POLICY_BYTES in
  if negb (ev_kind event =? 30078) then Err Schema
  else
    let? p := ok_or (policy_from_json (ev_content event)) Schema in
    let? _ := validate p in
    if (policy_expires p <=? now) || (saturating_add now 30 <? ev_created_at event)
       || (policy_expires p <=? ev_created_at event)
    then Err Time_
    else
      let? expected := policy_template p own (ev_created_at event) in
      if negb (bool_decide (ev_tags event = un_tags expected))
         || negb (bool_decide (ev_content event = un_content expected))
      then Err Schema
      else Ok {| policy := p; owner := own; event_id := ev_id event |}.

(** ** Authorisations *)

Definition repair_template (vp : VerifiedPolicy) (b : Blob) (t : Target) (now : Z)
    : result PolicyError UnsignedEvent :=
  let? origin := ok_or (url_parse (target_origin t)) Origin in
  let? server := ok_or (host_str origin) Origin in
  if negb (public_key (owner vp)) then Err Signature
  else
    Ok {| un_pubkey := owner vp; un_created_at := saturating_sub now 1; un_kind := 24242;
          un_tags :=
            [["t"; "upload"]; ["x"; blob_sha256 b]; ["server"; server];
             ["expiration"; decimal (Z.min (saturating_add now 120) (policy_expires (policy vp)))]]%string;
          un_content :=
            String.append "Mirror one configured blob; policy event "
              (String.append (event_id vp) (String.append "; destination " (target_origin t))) |}.

(** [.find(|tag| first == name).and_then(|tag| tag.get(1))]. *)
Definition tag_value (name : string) (tags : list (list string)) : option string :=
  match List.find (fun tag => bool_decide (head tag = Some name)) tags with
  | Some tag => tag !! 1%nat
  | None => None
  end.

Definition verify_return (bytes : string) (request : UnsignedEvent) (now : Z)
    : result PolicyError Event :=
  let? event := signed_event bytes (un_pubkey request) MAX_EVENT_BYTES in
  if negb (bool_decide (ev_id event = compute_id request)) then Err ChangedRequest
  else
    let? origin_tag := ok_or (tag_value "server" (un_tags request)) Schema in
    let? hash := ok_or (tag_value "x" (un_tags request)) Schema in
    if verify_upload origin_tag (un_pubkey request) (String.append "Nostr " (base64_url bytes)) hash now
    then Ok event else Err Time_.
End Policies.
