(* ===== verification/ReplicaState.v ===== *)
(** * Replicas: coordinator state

    Models [crates/wildbloomd/src/replicas/state.rs]: the snapshot kept in
    [state.json], its acceptance check on load, rollback protection in
    [accept], and the pending-request files.  The world is the snapshot in
    memory, the one on disk, the pending directory, the log of transport calls
    and an arbitrary outside that decides which I/O fails. *)
From Stdlib Require Import Ascii.
From S2P Require Import Prelude ReplicaPolicy.

Definition MAX_STATE_BYTES : Z := 2 * 1024 * 1024.

Inductive StateError := SDirectory | SLocked | SIo | SSchema | SIdentity | SRollback.

Inductive NetworkFailure := Unreachable | Unavailable | InvalidBytes | InvalidResponse | Refused.

Inductive Observation :=
| Verified (at_ : Z) | Failed (reason : NetworkFailure) | AwaitingAuthorisation | SignerUnavailable
| Acknowledged | Deferred.

Record Pending := { requested_at : Z; pending_event : string }.

Record Snapshot := {
  s_version : Z; s_owner : string; s_policy_id : string; s_revision : Z; s_event_id : string;
  s_profile : Profile; observed_at : option Z; cursor : Z; repair_cursors : gmap string Z;
  observations : gmap string (gmap string Observation); pending : gmap string Pending }.

(** [Error] of [replicas/mod.rs]. *)
Inductive Error :=
| EPolicy (e : PolicyError) | EState (e : StateError) | EJson | EChanged | EInternal
| EConfiguration (why : string) | EEnrol (why : string).

(** ** The world *)

(** How [write_private] ends: it may fail before the rename (with [Directory]
    or [Io]) or after it, when only the directory sync fails. *)
Inductive WriteOutcome := WriteFailed (e : StateError) | Written | WrittenNotSynced.

Class ReplicaOutside := {
  env : Type;
  clock : env -> Z * env;
  read_policy : env -> result StateError string * env;
  write_file : env -> WriteOutcome * env;
  io_ok : env -> bool * env;
  (** What other processes do to the pending directory. *)
  handoff : gmap string string -> env -> gmap string string * env;
  sign : UnsignedEvent -> env -> option string * env;
  verify : Target -> Blob -> env -> result NetworkFailure unit * env;
  mirror : Target -> Target -> Blob -> string -> env -> result NetworkFailure unit * env
}.

Class StateLib := {
  policy_lib :: PolicyLib;
  (** The length of the pretty-printed snapshot and of a request. *)
  snapshot_json_len : Snapshot -> option Z;
  request_json : UnsignedEvent -> option string;
  event_as_json : Event -> string
}.

Inductive Call :=
| CVerify (t : Target) (b : Blob) (ok : bool)
| CMirror (t source : Target) (b : Blob).

Record World `{ReplicaOutside} := {
  memory : option Snapshot; disk : option Snapshot; dir : gmap string string; w_env : env;
  w_log : list Call }.

Section State.
Context `{L : StateLib, Out : ReplicaOutside}.
Local Open Scope wb_scope.

Definition M (A : Type) : Type := SM World Error A.

Definition ask {A} (f : env -> A * env) : M A := fun w =>
  let (a, e) := f (w_env w) in
  (Ok a, {| memory := memory w; disk := disk w; dir := dir w; w_env := e; w_log := w_log w |}).

Definition log (c : Call) : M unit := fun w =>
  (Ok tt, {| memory := memory w; disk := disk w; dir := dir w; w_env := w_env w;
             w_log := w_log w ++ [c] |}).

Definition set_memory (s : option Snapshot) : M unit := fun w =>
  (Ok tt, {| memory := s; disk := disk w; dir := dir w; w_env := w_env w; w_log := w_log w |}).

Definition set_disk (s : option Snapshot) : M unit := fun w =>
  (Ok tt, {| memory := memory w; disk := s; dir := dir w; w_env := w_env w; w_log := w_log w |}).

Definition set_dir (d : gmap string string) : M unit := fun w =>
  (Ok tt, {| memory := memory w; disk := disk w; dir := d; w_env := w_env w; w_log := w_log w |}).

Definition get_world : M World := fun w => (Ok w, w).

(** [state.snapshot.as_ref().ok_or(Error::Internal)?]. *)
Definition get_snapshot : M Snapshot := let! w := get_world in lift (ok_or (memory w) EInternal).

(** [let s = state.snapshot.as_mut().ok_or(Error::Internal)?; ...]. *)
Definition modify (f : Snapshot -> Snapshot) : M unit :=
  let! s := get_snapshot in set_memory (Some (f s)).

Definition fail_state {A} (e : StateError) : M A := throw (EState e).

(** ** Loading *)

Definition pending_key_ok (key : string) (p : Pending) : bool :=
  match split_once ":"%char key with
  | None => false
  | Some (hash, target) =>
      canonical_hex hash 32 && identifier target && negb (requested_at p =? 0)
      && canonical_hex (pending_event p) 32
  end.

(** The checks of [StateDirectory::open] on a decoded snapshot. *)
Definition snapshot_ok (s : Snapshot) : bool :=
  (s_version s =? 1) && negb (s_revision s =? 0) && canonical_hex (s_owner s) 32
  && canonical_hex (s_event_id s) 32 && identifier (s_policy_id s) && (cursor s <? 128)
  && (Z.of_nat (size (pending s)) <=? 2048) && (Z.of_nat (size (observations s)) <=? 128)
  && (Z.of_nat (size (repair_cursors s)) <=? 128)
  && forallb (fun '(h, c) => canonical_hex h 32 && (c <? 256)) (map_to_list (repair_cursors s))
  && forallb (fun '(k, p) => pending_key_ok k p) (map_to_list (pending s))
  && forallb (fun '(h, ts) => canonical_hex h 32 && (Z.of_nat (size ts) <=? 16)
                              && forallb (fun '(i, _) => identifier i) (map_to_list ts))
       (map_to_list (observations s)).

(** The snapshot part of [open]: [None] in the file's place means no file. *)
Definition open_snapshot (file : option (option Snapshot)) : result StateError (option Snapshot) :=
  match file with
  | None => Ok None
  | Some None => Err SSchema
  | Some (Some s) => if snapshot_ok s then Ok (Some s) else Err SSchema
  end.

(** ** Files *)

Definition save : M unit :=
  let! w := get_world in
  let! s := lift (ok_or (memory w) (EState SSchema)) in
  let! len := lift (ok_or (snapshot_json_len s) (EState SSchema)) in
  if MAX_STATE_BYTES <? len then fail_state SSchema
  else
    let! o := ask write_file in
    match o with
    | WriteFailed e => fail_state e
    | Written => set_disk (Some s)
    | WrittenNotSynced => let! _ := set_disk (Some s) in fail_state SIo
    end.

Definition pending_name (event : string) (signed : bool) : string :=
  String.append (if signed then "signed-" else "request-") (String.append event ".json").

Definition io_or_fail : M unit :=
  let! ok := ask io_ok in if ok : bool then ret tt else fail_state SIo.

Definition write_request (event json : string) : M unit :=
  if negb (canonical_hex event 32) then fail_state SSchema
  else
    let! o := ask write_file in
    let! w := get_world in
    match o with
    | WriteFailed e => fail_state e
    | Written => set_dir (<[pending_name event false := json]> (dir w))
    | WrittenNotSynced =>
        let! _ := set_dir (<[pending_name event false := json]> (dir w)) in fail_state SIo
    end.

(** A missing file is not an error. *)
Definition remove_file (name : string) : M unit :=
  let! w := get_world in
  match dir w !! name with
  | None => ret tt
  | Some _ => let! _ := io_or_fail in set_dir (delete name (dir w))
  end.

Definition remove_request (event : string) : M unit :=
  if negb (canonical_hex event 32) then fail_state SSchema
  else
    let! _ := remove_file (pending_name event false) in
    remove_file (pending_name event true).

(** The event id in a pending file's name. *)
Definition pending_id (name : string) : option string :=
  let body := match strip_prefix "request-" name with
              | Some b => Some b
              | None => strip_prefix "signed-" name
              end in
  match body with Some b => strip_suffix ".json" b | None => None end.

Definition stale (keep : list string) (name : string) : bool :=
  match pending_id name with
  | Some i => canonical_hex i 32 && negb (bool_decide (i ∈ keep))
  | None => false
  end.

Fixpoint reconcile_loop (keep names : list string) : M unit :=
  match names with
  | [] => ret tt
  | name :: names =>
      let! _ := if stale keep name then remove_file name else ret tt in
      reconcile_loop keep names
  end.

Definition reconcile_pending_files (keep : list string) : M unit :=
  let! _ := io_or_fail in
  let! w := get_world in
  reconcile_loop keep (map fst (map_to_list (dir w))).

(** ** Acceptance and invalidation *)

Definition fresh_snapshot (vp : VerifiedPolicy) : Snapshot :=
  {| s_version := 1; s_owner := owner vp; s_policy_id := policy_id (policy vp);
     s_revision := revision (policy vp); s_event_id := event_id vp; s_profile := profile (policy vp);
     observed_at := None; cursor := 0; repair_cursors := ∅; observations := ∅; pending := ∅ |}.

(** The checks of [accept]: [Ok true] when the very event is already
    accepted. *)
Definition accept_check (s : option Snapshot) (vp : VerifiedPolicy) : result StateError bool :=
  match s with
  | None => Ok false
  | Some s =>
      if negb (bool_decide (s_owner s = owner vp)) || negb (bool_decide (s_policy_id s = policy_id (policy vp)))
      then Err SIdentity
      else if (revision (policy vp) <? s_revision s)
              || ((s_revision s =? revision (policy vp)) && negb (bool_decide (s_event_id s = event_id vp)))
      then Err SRollback
      else Ok (bool_decide (s_event_id s = event_id vp))
  end.

Definition accept (vp : VerifiedPolicy) : M unit :=
  let! w := get_world in
  let! already := lift (map_err EState (accept_check (memory w) vp)) in
  if already : bool then ret tt
  else
    let! _ := set_memory (Some (fresh_snapshot vp)) in
    let! _ := save in
    reconcile_pending_files [].

Definition cleared (s : Snapshot) : Snapshot :=
  {| s_version := s_version s; s_owner := s_owner s; s_policy_id := s_policy_id s;
     s_revision := s_revision s; s_event_id := s_event_id s; s_profile := s_profile s;
     observed_at := None; cursor := cursor s; repair_cursors := repair_cursors s; observations := ∅;
     pending := ∅ |}.

Definition invalidate : M unit :=
  let! w := get_world in
  let! _ := match memory w with
            | Some s => let! _ := set_memory (Some (cleared s)) in save
            | None => ret tt
            end in
  reconcile_pending_files [].
End State.
