(* ===== verification/ReplicaEngine.v ===== *)
(** * Replicas: the maintenance pass

    Models [crates/wildbloomd/src/replicas/engine.rs]: the policy guard, the
    work limits, the authorisation of one repair, pruning, and the pass that
    verifies every configured copy and repairs missing ones within a byte and
    attempt budget.  Counters are small enough never to overflow (a blob has at
    most 2^30 bytes, and there are at most 16 targets and 16 repairs). *)
From Stdlib Require Import Ascii.
From S2P Require Import Prelude ReplicaPolicy ReplicaState.

Record Limits := { verification_bytes : Z; mirrors : Z }.

Record BlobReport := {
  br_sha256 : string; verified_configured_groups : Z; br_desired_groups : Z;
  br_observations : gmap string Observation }.

Record Report := {
  r_policy_id : string; r_revision : Z; r_observed_at : Z; r_stopped : bool;
  verification_bytes_reserved : Z; mirror_attempts : Z; repair_attempts : Z;
  r_blobs : list BlobReport; pending_event_ids : list string }.

Inductive Authorisation := Ready (header : string) | Awaiting | AuthUnavailable.

(** What a pass has spent. *)
Record Spent := { used : Z; attempts : Z; writes : Z }.

Definition target_count (vp : VerifiedPolicy) : Z := Z.of_nat (length (targets (policy vp))).

Definition limits_ok (l : Limits) (vp : VerifiedPolicy) : result Error unit :=
  if negb (in_range 1 (mirrors l) 16) || (verification_bytes l =? 0)
     || (256 * MAX_BLOB_BYTES <? verification_bytes l)
  then Err (EConfiguration "invalid replica work limits")
  else if (0 <? desired_groups (policy vp))
          && existsb (fun b => verification_bytes l <? blob_size b * (target_count vp + mirrors l))
               (blobs (policy vp))
  then Err (EConfiguration
    "verification budget cannot fit one complete blob scan and repair read-backs")
  else Ok tt.

(** The failure groups with a verified owner copy. *)
Definition is_verified (o : option Observation) : bool :=
  match o with Some (Verified _) => true | _ => false end.

Definition groups (vp : VerifiedPolicy) (obs : gmap string Observation) : gset string :=
  list_to_set (map failure_group
    (List.filter (fun t => bool_decide (retention t = Owner) && is_verified (obs !! target_id t))
       (targets (policy vp)))).

Definition group_count (vp : VerifiedPolicy) (obs : gmap string Observation) : Z :=
  Z.of_nat (size (groups vp obs)).

Section Engine.
Context `{L : StateLib, Out : ReplicaOutside}.
Local Open Scope wb_scope.

(** The guard holds the policy the pass started with; [has_signer] says
    whether a local signer is configured. *)
Variable expected : VerifiedPolicy.
Variable has_signer : bool.

Definition now : M Z := ask clock.

Definition load_policy (own : string) (t : Z) : M VerifiedPolicy :=
  let! bytes := ask read_policy in
  let! bytes := lift (map_err EState bytes) in
  lift (map_err EPolicy (verify_policy bytes own t)).

Definition guard_check : M unit :=
  let! t := now in
  let! current := load_policy (owner expected) t in
  if bool_decide (event_id current = event_id expected) then ret tt else throw EChanged.

Definition pair_key (b : Blob) (t : Target) : string :=
  String.append (blob_sha256 b) (String.append ":" (target_id t)).

Definition live (now : Z) (p : Pending) : bool :=
  (requested_at p <=? now) && (now <? saturating_add (requested_at p) 120).

Definition drop_pending (key : string) (s : Snapshot) : Snapshot :=
  {| s_version := s_version s; s_owner := s_owner s; s_policy_id := s_policy_id s;
     s_revision := s_revision s; s_event_id := s_event_id s; s_profile := s_profile s;
     observed_at := observed_at s; cursor := cursor s; repair_cursors := repair_cursors s;
     observations := observations s; pending := delete key (pending s) |}.

Definition put_pending (key : string) (p : Pending) (s : Snapshot) : Snapshot :=
  {| s_version := s_version s; s_owner := s_owner s; s_policy_id := s_policy_id s;
     s_revision := s_revision s; s_event_id := s_event_id s; s_profile := s_profile s;
     observed_at := observed_at s; cursor := cursor s; repair_cursors := repair_cursors s;
     observations := observations s; pending := <[key := p]> (pending s) |}.

(** The two ways to obtain the signed bytes: the local signer, or the file
    handoff ([Awaiting] when no signed file is there). *)
Definition signed_bytes (key : string) (request : UnsignedEvent) (requested : Z)
    : M (option (option string)) :=
  let id := compute_id request in
  if has_signer then
    let! _ := guard_check in
    let! result := ask (sign request) in
    let! _ := guard_check in
    ret (Some result)
  else
    let! _ := modify (put_pending key {| requested_at := requested; pending_event := id |}) in
    let! _ := save in
    let! json := lift (ok_or (request_json request) EJson) in
    let! _ := write_request id json in
    let! w := get_world in
    let! d := ask (handoff (dir w)) in
    let! _ := set_dir d in
    let! ok := ask io_ok in
    if negb ok then fail_state SIo
    else
      match d !! pending_name id true with
      | None => ret None
      | Some bytes =>
          let! ok := ask io_ok in
          ret (Some (if ok && (slen bytes <=? MAX_EVENT_BYTES) then Some bytes else None))
      end.

Definition authorise (b : Blob) (t : Target) : M Authorisation :=
  let! _ := guard_check in
  let key := pair_key b t in
  let! n := now in
  let! s := get_snapshot in
  let! requested :=
    match pending s !! key with
    | Some p =>
        if live n p then ret (requested_at p)
        else
          let! _ := remove_request (pending_event p) in
          let! _ := modify (drop_pending key) in
          ret n
    | None => ret n
    end in
  let! request := lift (map_err EPolicy (repair_template expected b t requested)) in
  let id := compute_id request in
  let! s := get_snapshot in
  if match pending s !! key with Some old => negb (bool_decide (pending_event old = id)) | None => false end
  then throw EInternal
  else
    let! bytes := signed_bytes key request requested in
    match bytes with
    | None => ret Awaiting
    | Some bytes =>
        let! _ := guard_check in
        let! event :=
          match bytes with
          | None => ret None
          | Some bytes =>
              let! n := now in
              ret (match verify_return bytes request n with Ok e => Some e | Err _ => None end)
          end in
        let! _ := modify (drop_pending key) in
        let! _ := save in
        let! _ := remove_request id in
        ret (match event with
             | Some e => Ready (String.append "Nostr " (base64_url (event_as_json e)))
             | None => AuthUnavailable
             end)
    end.

(** ** Pruning *)

Definition completed (obs : gmap string (gmap string Observation)) (hash : string) : bool :=
  match obs !! hash with
  | Some o => desired_groups (policy expected) <=? group_count expected o
  | None => false
  end.

Definition keep_pending (n : Z) (obs : gmap string (gmap string Observation)) (key : string) (p : Pending)
    : bool :=
  match split_once ":"%char key with
  | None => false
  | Some (hash, id) =>
      match List.find (fun b => bool_decide (blob_sha256 b = hash)) (blobs (policy expected)),
            List.find (fun t => bool_decide (target_id t = id) && bool_decide (retention t = Owner))
              (targets (policy expected)) with
      | Some b, Some t =>
          negb (completed obs hash) && live n p
          && negb (is_verified (obs !! hash ≫= (fun o => o !! id)))
          && match repair_template expected b t (requested_at p) with
             | Ok request => bool_decide (compute_id request = pending_event p)
             | Err _ => false
             end
      | _, _ => false
      end
  end.

Definition set_pending (ps : gmap string Pending) (s : Snapshot) : Snapshot :=
  {| s_version := s_version s; s_owner := s_owner s; s_policy_id := s_policy_id s;
     s_revision := s_revision s; s_event_id := s_event_id s; s_profile := s_profile s;
     observed_at := observed_at s; cursor := cursor s; repair_cursors := repair_cursors s;
     observations := observations s; pending := ps |}.

Definition prune_pending : M unit :=
  let! s := get_snapshot in
  let! n := now in
  let ps := filter (fun '(k, p) => keep_pending n (observations s) k p = true) (pending s) in
  let! _ := set_memory (Some (set_pending ps s)) in
  let! _ := save in
  reconcile_pending_files (map (fun '(_, p) => pending_event p) (map_to_list ps)).

(** ** The pass *)

Definition set_observations (obs : gmap string (gmap string Observation)) (s : Snapshot) : Snapshot :=
  {| s_version := s_version s; s_owner := s_owner s; s_policy_id := s_policy_id s;
     s_revision := s_revision s; s_event_id := s_event_id s; s_profile := s_profile s;
     observed_at := observed_at s; cursor := cursor s; repair_cursors := repair_cursors s;
     observations := obs; pending := pending s |}.

Definition start_pass (s : Snapshot) : Snapshot :=
  let p := policy expected in
  let deferred : gmap string Observation :=
    list_to_map (map (fun t => (target_id t, Deferred)) (targets p)) in
  {| s_version := s_version s; s_owner := s_owner s; s_policy_id := s_policy_id s;
     s_revision := s_revision s; s_event_id := s_event_id s; s_profile := s_profile s;
     observed_at := None; cursor := cursor s; repair_cursors := repair_cursors s;
     observations := list_to_map (map (fun b => (blob_sha256 b, deferred)) (blobs p));
     pending := pending s |}.

(** One transport read, logged with its outcome, between two guard checks. *)
Definition checked_verify (t : Target) (b : Blob) : M (result NetworkFailure unit) :=
  let! _ := guard_check in
  let! r := ask (verify t b) in
  let! _ := log (CVerify t b (is_ok r)) in
  let! _ := guard_check in
  ret r.

(** The first loop: read every target. *)
Fixpoint scan (b : Blob) (ts : list Target) (obs : gmap string Observation) (sources : list Target)
    (sp : Spent) : M (gmap string Observation * list Target * Spent) :=
  match ts with
  | [] => ret (obs, sources, sp)
  | t :: ts =>
      let! r := checked_verify t b in
      let sp := {| used := used sp + blob_size b; attempts := attempts sp; writes := writes sp |} in
      match r with
      | Ok _ =>
          let! n := now in
          scan b ts (<[target_id t := Verified n]> obs) (sources ++ [t]) sp
      | Err reason => scan b ts (<[target_id t := Failed reason]> obs) sources sp
      end
  end.

(** [(target, source)] for every verified source and every other owner
    target. *)
Definition pairs (sources : list Target) : list (Target * Target) :=
  flat_map (fun source =>
    map (fun t => (t, source))
      (List.filter (fun t => bool_decide (retention t = Owner)
                             && negb (bool_decide (target_origin source = target_origin t)))
         (targets (policy expected)))) sources.

Definition set_repair_cursor (hash : string) (c : Z) (s : Snapshot) : Snapshot :=
  {| s_version := s_version s; s_owner := s_owner s; s_policy_id := s_policy_id s;
     s_revision := s_revision s; s_event_id := s_event_id s; s_profile := s_profile s;
     observed_at := observed_at s; cursor := cursor s;
     repair_cursors := <[hash := c]> (repair_cursors s); observations := observations s;
     pending := pending s |}.

(** The state of the repair loop. *)
Record Repair := { obs : gmap string Observation; waiting : gset string; spent : Spent }.

Definition observe (t : Target) (o : Observation) (r : Repair) : Repair :=
  {| obs := <[target_id t := o]> (obs r); waiting := waiting r; spent := spent r |}.

Definition wait_for (t : Target) (o : Observation) (r : Repair) : Repair :=
  {| obs := <[target_id t := o]> (obs r); waiting := {[target_id t]} ∪ waiting r; spent := spent r |}.

Definition charge (u a w : Z) (r : Repair) : Repair :=
  {| obs := obs r; waiting := waiting r;
     spent := {| used := used (spent r) + u; attempts := attempts (spent r) + a;
                 writes := writes (spent r) + w |} |}.

(** Mirror to an authorised target and read it back. *)
Definition mirror_and_verify (b : Blob) (t source : Target) (header : string) (r : Repair) : M Repair :=
  let r := charge 0 0 1 r in
  let! _ := log (CMirror t source b) in
  let! result := ask (mirror t source b header) in
  let! _ := guard_check in
  match result with
  | Err reason => ret (observe t (Failed reason) r)
  | Ok _ =>
      let r := observe t Acknowledged r in
      let! _ := modify (fun s => set_observations (<[blob_sha256 b := obs r]> (observations s)) s) in
      let! _ := save in
      let! v := checked_verify t b in
      let r := charge (blob_size b) 0 0 r in
      match v with
      | Ok _ => let! n := now in ret (observe t (Verified n) r)
      | Err reason => ret (observe t (Failed reason) r)
      end
  end.

(** One attempt: authorise, check the header against the target, mirror. *)
Definition attempt (b : Blob) (t source : Target) (r : Repair) : M Repair :=
  let r := charge 0 1 0 r in
  let! a := authorise b t in
  match a with
  | Awaiting => ret (wait_for t AwaitingAuthorisation r)
  | AuthUnavailable => ret (wait_for t SignerUnavailable r)
  | Ready header =>
      let! _ := guard_check in
      let! url := lift (ok_or (url_parse (target_origin t)) EInternal) in
      let! host := lift (ok_or (host_str url) EInternal) in
      let! n := now in
      if negb (verify_upload host (owner expected) header (blob_sha256 b) n)
      then ret (observe t SignerUnavailable r)
      else mirror_and_verify b t source header r
  end.

(** The repair loop over [(repair_start + offset) % pairs.len()]. *)
Fixpoint repair_loop (limits : Limits) (b : Blob) (ps : list (Target * Target)) (start : Z)
    (offsets : list nat) (r : Repair) : M Repair :=
  match offsets with
  | [] => ret r
  | offset :: offsets =>
      let index := (start + Z.of_nat offset) mod Z.of_nat (length ps) in
      match ps !! Z.to_nat index with
      | None => throw EInternal
      | Some (t, source) =>
          if (desired_groups (policy expected) <=? group_count expected (obs r))
             || (mirrors limits <=? attempts (spent r))
          then ret r
          else if negb (bool_decide (retention t = Owner))
                  || bool_decide (failure_group t ∈ groups expected (obs r))
                  || bool_decide (target_id t ∈ waiting r)
          then repair_loop limits b ps start offsets r
          else
            let! _ := modify (set_repair_cursor (blob_sha256 b)
                                ((index + 1) mod Z.of_nat (length ps))) in
            let! _ := save in
            let! r := attempt b t source r in
            repair_loop limits b ps start offsets r
      end
  end.

Definition set_cursor (hash : string) (o : gmap string Observation) (c : Z) (s : Snapshot) : Snapshot :=
  {| s_version := s_version s; s_owner := s_owner s; s_policy_id := s_policy_id s;
     s_revision := s_revision s; s_event_id := s_event_id s; s_profile := s_profile s;
     observed_at := observed_at s; cursor := c; repair_cursors := repair_cursors s;
     observations := <[hash := o]> (observations s); pending := pending s |}.

(** One blob: scan, then repair, then move the cursor past it. *)
Definition one_blob (limits : Limits) (b : Blob) (index : Z) (sp : Spent) : M Spent :=
  let! (o, sources, sp) := scan b (targets (policy expected)) ∅ [] sp in
  let ps := pairs sources in
  let! s := get_snapshot in
  let start := default 0 (repair_cursors s !! blob_sha256 b) in
  let! r := repair_loop limits b ps start (seq 0 (length ps))
              {| obs := o; waiting := ∅; spent := sp |} in
  let! _ := modify (set_cursor (blob_sha256 b) (obs r)
                      ((index + 1) mod Z.of_nat (length (blobs (policy expected))))) in
  let! _ := save in
  ret (spent r).

Fixpoint blob_loop (limits : Limits) (start : Z) (offsets : list nat) (sp : Spent) : M Spent :=
  match offsets with
  | [] => ret sp
  | offset :: offsets =>
      let index := (start + Z.of_nat offset) mod Z.of_nat (length (blobs (policy expected))) in
      match blobs (policy expected) !! Z.to_nat index with
      | None => throw EInternal
      | Some b =>
          let reserve := blob_size b * (target_count expected + mirrors limits - attempts sp) in
          if verification_bytes limits <? used sp + reserve then ret sp
          else
            let! sp := one_blob limits b index sp in
            blob_loop limits start offsets sp
      end
  end.

Definition blob_report (s : Snapshot) (b : Blob) : BlobReport :=
  let o := default ∅ (observations s !! blob_sha256 b) in
  {| br_sha256 := blob_sha256 b; verified_configured_groups := group_count expected o;
     br_desired_groups := desired_groups (policy expected); br_observations := o |}.

Definition set_observed_at (n : Z) (s : Snapshot) : Snapshot :=
  {| s_version := s_version s; s_owner := s_owner s; s_policy_id := s_policy_id s;
     s_revision := s_revision s; s_event_id := s_event_id s; s_profile := s_profile s;
     observed_at := Some n; cursor := cursor s; repair_cursors := repair_cursors s;
     observations := observations s; pending := pending s |}.

Definition stopped : bool := desired_groups (policy expected) =? 0.

(** Up to the blob loop; the result is the blob cursor. *)
Definition begin_pass (limits : Limits) : M Z :=
  let! _ := guard_check in
  let! _ := lift (limits_ok limits expected) in
  let! _ := accept expected in
  let! _ := if stopped then invalidate else ret tt in
  let! s := get_snapshot in
  let! _ := set_memory (Some (start_pass s)) in
  let! _ := save in
  let! _ := prune_pending in
  ret (cursor s).

Definition all_blobs (limits : Limits) (start : Z) : M Spent :=
  let zero := {| used := 0; attempts := 0; writes := 0 |} in
  if stopped then ret zero
  else blob_loop limits start (seq 0 (length (blobs (policy expected)))) zero.

(** After the blob loop. *)
Definition finish_pass (sp : Spent) : M Report :=
  let p := policy expected in
  let! _ := guard_check in
  let! _ := prune_pending in
  let! s := get_snapshot in
  let! n := now in
  let! _ := set_memory (Some (set_observed_at n s)) in
  let report :=
    {| r_policy_id := policy_id p; r_revision := revision p; r_observed_at := n; r_stopped := stopped;
       verification_bytes_reserved := used sp; mirror_attempts := writes sp;
       repair_attempts := attempts sp; r_blobs := map (blob_report (set_observed_at n s)) (blobs p);
       pending_event_ids := map (fun '(_, p) => pending_event p) (map_to_list (pending s)) |} in
  let! _ := save in
  ret report.

Definition pass_inner (limits : Limits) : M Report :=
  let! start := begin_pass limits in
  let! sp := all_blobs limits start in
  finish_pass sp.

Definition run_pass (limits : Limits) : M Report := fun w =>
  match pass_inner limits w with
  | (Ok report, w) => (Ok report, w)
  | (Err e, w) => (let! _ := invalidate in throw e) w
  end.
End Engine.
