(* ===== verification/ReplicaSteps.v ===== *)
(** * Replicas: what the coordinator's operations leave alone

    A [Benign] relation between worlds allows everything the bookkeeping of a
    pass does: I/O, clock readings, saving, and edits of the snapshot that keep
    the accepted policy and the cursor.  Every operation but [accept] and the
    pass itself respects every such relation, so a property of a pass starts
    from one instance. *)
From S2P Require Import Prelude ReplicaPolicy ReplicaState ReplicaEngine.

(** The part of a snapshot that only [accept] and the end of a blob change. *)
Definition core (s : Snapshot) : (string * string * Z * string) * Z :=
  (s_owner s, s_policy_id s, s_revision s, s_event_id s, cursor s).

Section Steps.
Context `{L : StateLib, Out : ReplicaOutside}.

Definition with_memory (s : option Snapshot) (w : World) : World :=
  {| memory := s; disk := disk w; dir := dir w; w_env := w_env w; w_log := w_log w |}.
Definition with_disk (s : option Snapshot) (w : World) : World :=
  {| memory := memory w; disk := s; dir := dir w; w_env := w_env w; w_log := w_log w |}.
Definition with_outside (d : gmap string string) (e : env) (w : World) : World :=
  {| memory := memory w; disk := disk w; dir := d; w_env := e; w_log := w_log w |}.

(** ** The basic operations as Hoare rules *)

Lemma wp_get_snapshot (Q : result Error Snapshot -> World -> Prop) w :
  (forall s, memory w = Some s -> Q (Ok s) w) -> (memory w = None -> Q (Err EInternal) w) ->
  wp get_snapshot Q w.
Proof.
  intros H1 H2. unfold wp, get_snapshot, get_world, bind, lift. cbn.
  destruct (memory w); [by apply H1|by apply H2].
Qed.

Lemma wp_set_memory s (Q : result Error unit -> World -> Prop) w :
  Q (Ok tt) (with_memory s w) -> wp (set_memory s) Q w.
Proof. done. Qed.

Lemma wp_now (Q : result Error Z -> World -> Prop) w :
  (forall n e, Q (Ok n) (with_outside (dir w) e w)) -> wp now Q w.
Proof. intros H. unfold wp, now, ask. destruct (clock (w_env w)) as [n e]. apply H. Qed.

Lemma wp_modify f (Q : result Error unit -> World -> Prop) w :
  (forall s, memory w = Some s -> Q (Ok tt) (with_memory (Some (f s)) w)) ->
  (memory w = None -> Q (Err EInternal) w) -> wp (modify f) Q w.
Proof.
  intros H1 H2. apply wp_bind, wp_get_snapshot; [|exact H2]. intros s Hs. by apply wp_set_memory, H1.
Qed.

(** Saving touches only the disk. *)
Record saved (r : result Error unit) (w w' : World) : Prop := {
  sv_memory : memory w' = memory w;
  sv_log : w_log w' = w_log w;
  sv_dir : dir w' = dir w;
  sv_disk : disk w' = disk w \/ (is_Some (memory w) /\ disk w' = memory w);
  sv_ok : r = Ok tt -> is_Some (memory w) /\ disk w' = memory w;
  sv_error : forall e, r = Err e -> exists se, e = EState se
}.

Lemma wp_save (Q : result Error unit -> World -> Prop) w :
  (forall r w', saved r w w' -> Q r w') -> wp save Q w.
Proof.
  intros H. apply H. unfold save, fail_state, bind, get_world, lift, throw, set_disk, ask. cbn.
  destruct (memory w) as [s|] eqn:E; cbn; [|split; auto; naive_solver].
  destruct (snapshot_json_len s); cbn; [|split; auto; naive_solver].
  destruct (_ <? _); cbn; [split; auto; naive_solver|].
  destruct (write_file (w_env w)) as [[] e]; cbn; split; cbn; rewrite ?E; eauto; try done;
    intros ? [= <-]; eauto.
Qed.

(** ** Benign relations *)

Class Benign (R : World -> World -> Prop) : Prop := {
  benign_refl :: Reflexive R;
  benign_trans :: Transitive R;
  benign_outside w d e : R w (with_outside d e w);
  benign_save w s : memory w = Some s -> R w (with_disk (Some s) w);
  benign_edit w s s' : memory w = Some s -> core s' = core s ->
    observations s' = observations s \/ observations s' = ∅ -> R w (with_memory (Some s') w)
}.

Section Benign.
Context (R : World -> World -> Prop) `{HR : !Benign R}.

Lemma benign_ask {A} (f : env -> A * env) : respects R (ask f).
Proof.
  intros w. unfold ask. destruct (f (w_env w)) as [a e]. apply (benign_outside w (dir w) e).
Qed.
Lemma benign_get_world : respects R get_world.
Proof. intros w. cbn. reflexivity. Qed.
Lemma benign_set_dir d : respects R (set_dir d).
Proof. intros w. apply (benign_outside w d (w_env w)). Qed.
Lemma benign_get_snapshot : respects R get_snapshot.
Proof. intros w. unfold get_snapshot, get_world, bind, lift. cbn. reflexivity. Qed.

Lemma benign_modify f :
  (forall s, core (f s) = core s /\ (observations (f s) = observations s \/ observations (f s) = ∅)) ->
  respects R (modify f).
Proof.
  intros H w. unfold modify, get_snapshot, get_world, bind, lift.
  destruct (memory w) as [s|] eqn:E; cbn; [|reflexivity].
  apply (benign_edit w s (f s)); [done|apply H..].
Qed.

#[local] Hint Resolve benign_ask benign_get_world benign_set_dir benign_get_snapshot : respects.
#[local] Hint Extern 1 (respects R (modify _)) => apply benign_modify; by auto : respects.

(** What is saved is what is in memory. *)
Lemma benign_save_op : respects R save.
Proof.
  intros w. unfold save, fail_state, bind, get_world, lift, throw, set_disk, ask.
  destruct (memory w) as [s|] eqn:E; cbn; [|reflexivity].
  destruct (snapshot_json_len s); cbn; [|reflexivity]. destruct (_ <? _); cbn; [reflexivity|].
  destruct (write_file (w_env w)) as [o e]. cbn.
  set (w1 := with_outside (dir w) e w).
  assert (R w w1) as H1 by apply benign_outside.
  assert (R w (with_disk (Some s) w1)) as H2 by (etransitivity; [exact H1|by apply benign_save]).
  destruct o; cbn; [exact H1|exact H2|exact H2].
Qed.
Lemma benign_io_or_fail : respects R io_or_fail.
Proof. unfold io_or_fail, fail_state. respects. Qed.
#[local] Hint Resolve benign_save_op benign_io_or_fail : respects.
Lemma benign_remove_file n : respects R (remove_file n).
Proof. unfold remove_file. respects. Qed.
#[local] Hint Resolve benign_remove_file : respects.
Lemma benign_write_request e j : respects R (write_request e j).
Proof. unfold write_request, fail_state. respects. Qed.
Lemma benign_remove_request e : respects R (remove_request e).
Proof. unfold remove_request, fail_state. respects. Qed.
Lemma benign_reconcile keep : respects R (reconcile_pending_files keep).
Proof.
  unfold reconcile_pending_files. respects.
  match goal with |- respects R (reconcile_loop _ ?l) => generalize l end.
  intros l. induction l; cbn [reconcile_loop]; respects.
Qed.
#[local] Hint Resolve benign_write_request benign_remove_request benign_reconcile : respects.

Lemma benign_invalidate : respects R invalidate.
Proof.
  unfold invalidate. intros w. unfold bind at 1, get_world at 1. cbn beta iota zeta.
  destruct (memory w) as [s|] eqn:E.
  - unfold bind at 1, bind at 1, set_memory at 1. cbn beta iota zeta.
    etransitivity; [by apply (benign_edit w s (cleared s)); auto|].
    assert (respects R (bind save (fun _ => reconcile_pending_files []))) as Hm by respects.
    exact (Hm (with_memory (Some (cleared s)) w)).
  - assert (respects R (bind (ret tt) (fun _ : unit => reconcile_pending_files []))) as Hm by respects.
    exact (Hm w).
Qed.

Variables (expected : VerifiedPolicy) (has_signer : bool).

Lemma benign_now : respects R now.
Proof. unfold now. respects. Qed.
#[local] Hint Resolve benign_now : respects.
Lemma benign_guard : respects R (guard_check expected).
Proof. unfold guard_check, load_policy. respects. Qed.
#[local] Hint Resolve benign_guard : respects.
Lemma benign_authorise b t : respects R (authorise expected has_signer b t).
Proof. unfold authorise, signed_bytes, fail_state. respects. Qed.

(** Reading the snapshot and the clock and writing the snapshot back. *)
Lemma benign_rewrite {A} (f : Z -> Snapshot -> Snapshot) (k : Snapshot -> Z -> M A) :
  (forall n s, core (f n s) = core s /\ observations (f n s) = observations s) ->
  (forall s n, respects R (k s n)) ->
  respects R (let! s := get_snapshot in let! n := now in let! _ := set_memory (Some (f n s)) in k s n).
Proof.
  intros Hf Hk w. unfold bind at 1. unfold get_snapshot, bind at 1, get_world, lift at 1.
  destruct (memory w) as [s|] eqn:E; cbn [ok_or]; [|reflexivity].
  unfold bind at 1. unfold now at 1, ask at 1. destruct (clock (w_env w)) as [n e]. cbn beta iota zeta.
  unfold bind at 1. unfold set_memory at 1. cbn beta iota zeta.
  destruct (Hf n s) as [H1 H2]. etransitivity; [apply (benign_outside w (dir w) e)|].
  etransitivity; [apply (benign_edit (with_outside (dir w) e w) s (f n s)); [done|done|by left]|].
  apply (Hk s n).
Qed.

Lemma benign_prune : respects R (prune_pending expected).
Proof.
  unfold prune_pending.
  apply (benign_rewrite (fun n s => set_pending
    (filter (fun '(k, p) => keep_pending expected n (observations s) k p = true) (pending s)) s));
    [done|]. intros s n. respects.
Qed.
End Benign.
End Steps.

#[export] Hint Resolve benign_ask benign_get_world benign_set_dir benign_get_snapshot benign_save_op
  benign_io_or_fail benign_remove_file benign_write_request benign_remove_request benign_reconcile
  benign_invalidate benign_now benign_guard benign_authorise benign_prune : respects.
#[export] Hint Extern 1 (respects _ (modify _)) => apply benign_modify; [exact _|by auto] : respects.
#[export] Hint Extern 0 (Benign _) => typeclasses eauto : respects.
