(* ===== verification/ReplicaProofs.v ===== *)
(** * Replicas: what a maintenance pass may do

    The byte and attempt budget of a pass, which reads and mirrors it makes,
    and what its observations rest on, over every outside and every point of
    failure. *)
From S2P Require Import Prelude ReplicaPolicy ReplicaState ReplicaEngine ReplicaSteps.

Section Proofs.
Context `{L : StateLib, Out : ReplicaOutside}.

(** ** Computations that make no transport call

    ... and add nothing to the observations: [quiet]. *)
Record quiet_step (w w' : World) : Prop := {
  qs_log : w_log w' = w_log w;
  qs_obs : forall s', memory w' = Some s' ->
    observations s' = ∅ \/ exists s, memory w = Some s /\ observations s' = observations s
}.

Abbreviation quiet := (respects quiet_step).

#[export] Instance quiet_benign : Benign quiet_step.
Proof.
  split.
  - split; eauto.
  - intros a b c [A1 A2] [B1 B2]. split; [congruence|]. intros s Hs.
    destruct (B2 s Hs) as [H|(s1 & H1 & H2)]; [by left|].
    destruct (A2 s1 H1) as [H|(s0 & H3 & H4)]; [left|right]; [congruence|].
    exists s0. split; [done|congruence].
  - intros w d e. split; [done|]. cbn. eauto.
  - intros w s Hs. split; [done|]. cbn. eauto.
  - intros w s s' Hs _ Ho. split; [done|]. cbn. intros ? [= <-]. destruct Ho; eauto.
Qed.

Lemma quiet_set_empty s : observations s = ∅ -> quiet (set_memory (Some s)).
Proof. intros H w. split; [done|]. cbn. intros s' [= <-]. by left. Qed.
#[local] Hint Extern 1 (quiet (set_memory (Some _))) => by apply quiet_set_empty : respects.

Lemma quiet_accept vp : quiet (accept vp).
Proof. unfold accept. respects. Qed.
#[local] Hint Resolve quiet_accept : respects.

Variables (expected : VerifiedPolicy) (has_signer : bool).

(** ** What the log of a pass says *)

Definition call_cost (c : Call) : Z := match c with CVerify _ b _ => blob_size b | CMirror _ _ _ => 0 end.
Definition cost (l : list Call) : Z := foldr (fun c n => call_cost c + n) 0 l.
Definition call_mirror (c : Call) : Z := match c with CVerify _ _ _ => 0 | CMirror _ _ _ => 1 end.
Definition mirrored (l : list Call) : Z := foldr (fun c n => call_mirror c + n) 0 l.

Lemma cost_app a b : cost (a ++ b) = cost a + cost b.
Proof. unfold cost. induction a; cbn; lia. Qed.
Lemma mirrored_app a b : mirrored (a ++ b) = mirrored a + mirrored b.
Proof. unfold mirrored. induction a; cbn; lia. Qed.

(** A mirror goes to an owner target, from another configured target that
    has been read in full in this pass. *)
Definition mirror_ok (before : list Call) (c : Call) : Prop :=
  match c with
  | CVerify _ _ _ => True
  | CMirror t source b =>
      t ∈ targets (policy expected) /\ retention t = Owner /\ source ∈ targets (policy expected) /\
      target_origin source <> target_origin t /\ CVerify source b true ∈ before
  end.

Definition mirrors_ok (l : list Call) : Prop :=
  forall a c rest, l = a ++ c :: rest -> mirror_ok a c.

Lemma mirrors_ok_snoc l c : mirrors_ok l -> mirror_ok l c -> mirrors_ok (l ++ [c]).
Proof.
  intros Hl Hc a x rest E. destruct rest as [|y rest _] using rev_ind.
  - apply app_inj_tail in E as [-> ->]. done.
  - rewrite app_comm_cons, app_assoc in E. apply app_inj_tail in E as [-> _]. by apply (Hl a x rest).
Qed.

(** A verified observation of [b] rests on a read of this pass. *)
Definition read_ok (l : list Call) (i : string) (b : Blob) : Prop :=
  exists t, t ∈ targets (policy expected) /\ target_id t = i /\ CVerify t b true ∈ l.

Definition supported (l : list Call) (b : Blob) (o : gmap string Observation) : Prop :=
  forall i n, o !! i = Some (Verified n) -> read_ok l i b.

Definition mem_ok (l : list Call) (w : World) : Prop :=
  forall s, memory w = Some s -> forall h o i n,
    observations s !! h = Some o -> o !! i = Some (Verified n) ->
    exists b, b ∈ blobs (policy expected) /\ blob_sha256 b = h /\ read_ok l i b.

Record pass_ok (l0 l : list Call) (w : World) : Prop := {
  po_log : w_log w = l0 ++ l;
  po_mirrors : mirrors_ok l;
  po_mem : mem_ok l w
}.

Lemma read_ok_app l l' i b : read_ok l i b -> read_ok (l ++ l') i b.
Proof. intros (t & H1 & H2 & H3). exists t. split_and!; try done. apply elem_of_app. by left. Qed.

Lemma supported_app l l' b o : supported l b o -> supported (l ++ l') b o.
Proof. intros H i n Hi. by apply read_ok_app, (H i n). Qed.

Lemma mem_ok_app l l' w : mem_ok l w -> mem_ok (l ++ l') w.
Proof.
  intros H s Hs h o i n Ho Hi. destruct (H s Hs h o i n Ho Hi) as (b & Hin & Hb & Hr).
  exists b. split_and!; [done..|]. by apply read_ok_app.
Qed.

Lemma pass_ok_quiet l0 l w w' : pass_ok l0 l w -> quiet_step w w' -> pass_ok l0 l w'.
Proof.
  intros [H1 H2 H3] [Q1 Q2]. split; [congruence|done|]. intros s Hs h o i n Ho Hi.
  destruct (Q2 s Hs) as [E|(s0 & E0 & E)]; rewrite E in Ho; [by rewrite lookup_empty in Ho|].
  by apply (H3 s0 E0 h o i n).
Qed.

(** A logged call. *)
Lemma pass_ok_log l0 l w c :
  pass_ok l0 l w -> mirror_ok l c -> pass_ok l0 (l ++ [c]) (log c w).2.
Proof.
  intros [H1 H2 H3] Hc. split; cbn.
  - by rewrite H1, app_assoc.
  - by apply mirrors_ok_snoc.
  - by apply (mem_ok_app l [c] w).
Qed.

Lemma wp_quiet {A} l0 l (m : M A) Q w :
  quiet m -> pass_ok l0 l w -> (forall r w', pass_ok l0 l w' -> Q r w') -> wp m Q w.
Proof.
  intros Hm Hw HQ. apply (wp_respects quiet_step); [done|]. intros r w' H.
  by apply HQ, (pass_ok_quiet l0 l w).
Qed.

(** ** The loops *)

Lemma wp_checked_verify l0 l t b Q w :
  t ∈ targets (policy expected) -> pass_ok l0 l w ->
  (forall e w', pass_ok l0 l w' -> Q (Err e) w') ->
  (forall e ok w', pass_ok l0 (l ++ [CVerify t b ok]) w' -> Q (Err e) w') ->
  (forall r w', pass_ok l0 (l ++ [CVerify t b (is_ok r)]) w' -> Q (Ok r) w') ->
  wp (checked_verify expected t b) Q w.
Proof.
  intros Ht Hw H1 H2 H3. unfold checked_verify.
  apply wp_bind, (wp_quiet l0 l); [auto with respects|done|]. intros [] w1 Hw1; [|by apply H1].
  apply wp_bind, (wp_quiet l0 l); [auto with respects|done|]. intros [r|] w2 Hw2; [|by apply H1].
  apply wp_bind. unfold wp at 1. cbn [log fst snd].
  pose proof (pass_ok_log l0 l w2 (CVerify t b (is_ok r)) Hw2 I) as Hw3. cbn [log snd] in Hw3.
  apply wp_bind, (wp_quiet l0 (l ++ [CVerify t b (is_ok r)])); [auto with respects|done|].
  intros [] w4 Hw4; [|by eapply H2]. unfold wp. cbn. by apply H3.
Qed.

(** What a stretch of the pass that reads only [b] spent: [reads] reads at
    most, [tries] mirrors at most. *)
Record stretch (b : Blob) (l l' : list Call) (reads tries : Z) : Prop := {
  st_cost : 0 <= cost l' <= reads * blob_size b;
  st_mirrored : 0 <= mirrored l' <= tries
}.

Definition sources_ok (b : Blob) (l : list Call) (sources : list Target) : Prop :=
  forall s, s ∈ sources -> s ∈ targets (policy expected) /\ CVerify s b true ∈ l.

Lemma sources_ok_app b l l' s : sources_ok b l s -> sources_ok b (l ++ l') s.
Proof. intros H x Hx. destruct (H x Hx). split; [done|]. apply elem_of_app. by left. Qed.

Lemma supported_insert l b o t obs :
  supported l b o -> t ∈ targets (policy expected) ->
  (forall n, obs = Verified n -> CVerify t b true ∈ l) -> supported l b (<[target_id t := obs]> o).
Proof.
  intros H Ht Hv i n Hi. apply lookup_insert_Some in Hi as [[<- ->]|[_ Hi]]; [|by apply (H i n)].
  exists t. split_and!; try done. by apply (Hv n).
Qed.

(** How scanning [ts] ends. *)
Definition scan_post (l0 l : list Call) (b : Blob) (ts : list Target) (sp : Spent)
    (r : result Error (gmap string Observation * list Target * Spent)) (w' : World) : Prop :=
  exists l',
    pass_ok l0 (l ++ l') w' /\ stretch b l l' (Z.of_nat (length ts)) 0 /\
    match r with
    | Err _ => True
    | Ok (obs', sources', sp') =>
        supported (l ++ l') b obs' /\ sources_ok b (l ++ l') sources' /\
        cost l' = Z.of_nat (length ts) * blob_size b /\
        sp' = {| used := used sp + Z.of_nat (length ts) * blob_size b; attempts := attempts sp;
                 writes := writes sp |}
    end.

(** The rest of the scan after the read [c] of [t]. *)
Lemma scan_post_cons l0 l b t ts c sp r w :
  0 <= blob_size b -> call_cost c = blob_size b -> call_mirror c = 0 ->
  scan_post l0 (l ++ [c]) b ts
    {| used := used sp + blob_size b; attempts := attempts sp; writes := writes sp |} r w ->
  scan_post l0 l b (t :: ts) sp r w.
Proof.
  intros Hb Hc Hm (l' & Hp & [H1 H2] & Hr). exists (c :: l').
  rewrite <- app_assoc in Hp, Hr. cbn [app] in Hp, Hr. split; [done|].
  assert (cost (c :: l') = blob_size b + cost l') as Ec by (rewrite <- Hc; done).
  assert (mirrored (c :: l') = 0 + mirrored l') as Em by (rewrite <- Hm; done).
  cbn [length]. split; [split; lia|]. destruct r as [[[o' s'] sp']|]; [|done].
  destruct Hr as (R1 & R2 & R3 & R4). split_and!; try done; [lia|].
  rewrite R4. cbn [used attempts writes]. f_equal. lia.
Qed.

Lemma scan_spec b (Hb : 0 <= blob_size b) l0 ts :
  forall obs sources sp l w,
  (forall t, t ∈ ts -> t ∈ targets (policy expected)) ->
  pass_ok l0 l w -> supported l b obs -> sources_ok b l sources ->
  wp (scan expected b ts obs sources sp) (scan_post l0 l b ts sp) w.
Proof.
  induction ts as [|t ts IH]; intros obs sources sp l w Hts Hw Hs Hsrc; cbn [scan].
  { unfold wp. cbn. exists []. rewrite app_nil_r. split_and!; try done.
    destruct sp. cbn. f_equal. lia. }
  assert (t ∈ targets (policy expected)) as Ht by (apply Hts; left).
  apply wp_bind, (wp_checked_verify l0 l); [done|done| | |].
  { intros e w' H. exists []. rewrite app_nil_r. split_and!; try done. split; cbn; lia. }
  { intros e ok w' H. exists [CVerify t b ok]. split_and!; try done. split; cbn; lia. }
  intros r w1 Hw1. set (c := CVerify t b (is_ok r)) in *.
  assert (forall obs' sources' w2, supported (l ++ [c]) b obs' -> sources_ok b (l ++ [c]) sources' ->
    pass_ok l0 (l ++ [c]) w2 ->
    wp (scan expected b ts obs' sources' {| used := used sp + blob_size b; attempts := attempts sp;
      writes := writes sp |}) (scan_post l0 l b (t :: ts) sp) w2) as Hrec.
  { intros obs' sources' w2 Hs' Hsrc' Hw2.
    eapply wp_impl; [apply (IH obs' sources' _ (l ++ [c]) w2); [|done..]|].
    - intros x Hx. apply Hts. by right.
    - intros r' w'. by apply scan_post_cons. }
  destruct r as [[]|reason].
  - apply wp_bind, (wp_quiet l0 (l ++ [c])); [auto with respects|done|].
    assert (CVerify t b true ∈ l ++ [c]) as Hin
      by (apply elem_of_app; right; by apply list_elem_of_singleton).
    intros [n|] w2 Hw2.
    + apply Hrec; [apply supported_insert; [by apply supported_app|done|done]| |done].
      intros x Hx. apply elem_of_app in Hx as [Hx|Hx].
      * by apply (sources_ok_app b l [c] sources Hsrc).
      * by apply list_elem_of_singleton in Hx as ->.
    + exists [c]. split_and!; try done. split; cbn; lia.
  - apply Hrec; [|by apply sources_ok_app|done].
    apply supported_insert; [by apply supported_app|done|done].
Qed.

(** How one repair attempt, or several, end. *)
Definition repair_post (l0 l : list Call) (b : Blob) (tries : Z) (r0 : Repair)
    (r : result Error Repair) (w' : World) : Prop :=
  exists l',
    pass_ok l0 (l ++ l') w' /\ stretch b l l' tries tries /\
    match r with
    | Err _ => True
    | Ok r1 =>
        supported (l ++ l') b (obs r1) /\
        used (spent r1) = used (spent r0) + cost l' /\
        writes (spent r1) = writes (spent r0) + mirrored l' /\
        attempts (spent r0) <= attempts (spent r1) <= attempts (spent r0) + tries /\
        cost l' <= (attempts (spent r1) - attempts (spent r0)) * blob_size b /\
        mirrored l' <= attempts (spent r1) - attempts (spent r0)
    end.

Lemma mirror_spec b t source header (Hb : 0 <= blob_size b) (Hin : b ∈ blobs (policy expected)) l0 l r w :
  t ∈ targets (policy expected) -> mirror_ok l (CMirror t source b) ->
  pass_ok l0 l w -> supported l b (obs r) ->
  wp (mirror_and_verify expected b t source header (charge 0 1 0 r)) (repair_post l0 l b 1 r) w.
Proof.
  intros Ht Hm Hw Hs. unfold mirror_and_verify. apply wp_bind. unfold wp at 1. cbn [log fst snd].
  pose proof (pass_ok_log l0 l w _ Hw Hm) as Hw1. cbn [log snd] in Hw1.
  set (c := CMirror t source b) in *.
  assert (forall e w', pass_ok l0 (l ++ [c]) w' -> repair_post l0 l b 1 r (Err e) w') as Hfail.
  { intros e w' H. exists [c]. split_and!; try done. split; cbn; lia. }
  assert (forall w' o, pass_ok l0 (l ++ [c]) w' -> (forall n, o <> Verified n) ->
    repair_post l0 l b 1 r (Ok (observe t o (charge 0 0 1 (charge 0 1 0 r)))) w') as Hone.
  { intros w' o H Ho. exists [c]. split_and!; try done; try (cbn; lia); [split; cbn; lia|].
    cbn [observe charge obs]. apply supported_insert; [by apply supported_app|done|].
    intros n En. by destruct (Ho n). }
  apply wp_bind, (wp_quiet l0 (l ++ [c])); [auto with respects|done|]. intros [res|] w2 Hw2; [|by apply Hfail].
  apply wp_bind, (wp_quiet l0 (l ++ [c])); [auto with respects|done|]. intros [[]|] w3 Hw3; [|by apply Hfail].
  destruct res as [[]|reason]; [|apply Hone; done].
  set (r2 := observe t Acknowledged (charge 0 0 1 (charge 0 1 0 r))).
  assert (supported (l ++ [c]) b (obs r2)) as Hs2.
  { apply supported_insert; [by apply supported_app|done|done]. }
  apply wp_bind, wp_modify; [|by intros _; apply Hfail]. intros s Emem. set (w4 := with_memory _ w3).
  assert (pass_ok l0 (l ++ [c]) w4) as Hw4.
  { destruct Hw3 as [A1 A2 A3]. split; [done|done|]. intros s' [= <-] h o i n Ho Hi. cbn in Ho.
    apply lookup_insert_Some in Ho as [[<- <-]|[_ Ho]]; [|by apply (A3 s Emem h o i n)].
    exists b. split_and!; [done..|]. by apply (Hs2 i n). }
  apply wp_bind, (wp_quiet l0 (l ++ [c])); [auto with respects|done|]. intros [[]|] w5 Hw5; [|by apply Hfail].
  apply wp_bind, (wp_checked_verify l0 (l ++ [c])); [done|done|exact Hfail| |].
  { intros e ok w' H. rewrite <- app_assoc in H. exists ([c] ++ [CVerify t b ok]).
    split_and!; try done. split; cbn; lia. }
  intros v w6 Hw6. rewrite <- app_assoc in Hw6. set (d := CVerify t b (is_ok v)) in *.
  assert (forall o w', pass_ok l0 (l ++ [c; d]) w' -> (forall n, o = Verified n -> d = CVerify t b true) ->
    repair_post l0 l b 1 r (Ok (observe t o (charge (blob_size b) 0 0 r2))) w') as Htwo.
  { intros o w' H Ho. exists [c; d]. split_and!; try done; try (cbn; lia); [split; cbn; lia|].
    cbn [observe charge obs r2]. apply supported_insert.
    - apply supported_insert; [by apply supported_app|done|done].
    - done.
    - intros n En. rewrite <- (Ho n En). apply elem_of_app. right. right. left. }
  destruct v as [[]|reason].
  - apply wp_bind, (wp_quiet l0 (l ++ [c; d])); [auto with respects|done|].
    intros [n|] w7 Hw7; [unfold wp; cbn; by apply Htwo|].
    exists [c; d]. split_and!; try done. split; cbn; lia.
  - unfold wp. cbn. by apply Htwo.
Qed.

Lemma attempt_spec b t source (Hb : 0 <= blob_size b) (Hin : b ∈ blobs (policy expected)) l0 l r w :
  t ∈ targets (policy expected) -> mirror_ok l (CMirror t source b) ->
  pass_ok l0 l w -> supported l b (obs r) ->
  wp (attempt expected has_signer b t source r) (repair_post l0 l b 1 r) w.
Proof.
  intros Ht Hm Hw Hs. unfold attempt.
  assert (forall e w', pass_ok l0 l w' -> repair_post l0 l b 1 r (Err e) w') as Hfail.
  { intros e w' H. exists []. rewrite app_nil_r. split_and!; try done. split; cbn; lia. }
  assert (forall w' o q, pass_ok l0 l w' -> (forall n, o <> Verified n) ->
    obs q = <[target_id t := o]> (obs r) -> spent q = spent (charge 0 1 0 r) ->
    repair_post l0 l b 1 r (Ok q) w') as Hnone.
  { intros w' o q H Ho Eo Es. exists []. rewrite app_nil_r, Es.
    split_and!; try done; try (cbn; lia); [split; cbn; lia|].
    rewrite Eo. apply supported_insert; [done|done|]. intros n En. by destruct (Ho n). }
  apply wp_bind, (wp_quiet l0 l); [auto with respects|done|]. intros [a|] w1 Hw1; [|by apply Hfail].
  destruct a as [header| |]; [|by apply (Hnone w1 AwaitingAuthorisation)
    |by apply (Hnone w1 SignerUnavailable)].
  apply wp_bind, (wp_quiet l0 l); [auto with respects|done|]. intros [[]|] w2 Hw2; [|by apply Hfail].
  apply wp_bind, (wp_quiet l0 l); [apply respects_lift; exact _|done|]. intros [url|] w3 Hw3; [|by apply Hfail].
  apply wp_bind, (wp_quiet l0 l); [apply respects_lift; exact _|done|]. intros [host|] w4 Hw4; [|by apply Hfail].
  apply wp_bind, (wp_quiet l0 l); [auto with respects|done|]. intros [n|] w5 Hw5; [|by apply Hfail].
  destruct (negb _); [by apply (Hnone w5 SignerUnavailable)|].
  by apply (mirror_spec b t source header Hb Hin l0 l r w5).
Qed.

Lemma repair_post_seq l0 l l1 b tries r r1 res w w1 :
  0 <= blob_size b ->
  attempts (spent r) <= attempts (spent r1) ->
  used (spent r1) = used (spent r) + cost l1 -> writes (spent r1) = writes (spent r) + mirrored l1 ->
  0 <= cost l1 <= (attempts (spent r1) - attempts (spent r)) * blob_size b ->
  0 <= mirrored l1 <= attempts (spent r1) - attempts (spent r) ->
  pass_ok l0 (l ++ l1) w1 ->
  repair_post l0 (l ++ l1) b (tries - attempts (spent r1)) r1 res w ->
  repair_post l0 l b (tries - attempts (spent r)) r res w.
Proof.
  intros Hb Ha Hu Hwr Hc Hm _ (l' & Hp & [S1 S2] & Hr). exists (l1 ++ l').
  rewrite <- app_assoc in Hp, Hr. split; [done|].
  split; [split; rewrite ?cost_app, ?mirrored_app; nia|].
  destruct res as [r2|]; [|done]. destruct Hr as (R1 & R2 & R3 & R4 & R5 & R6).
  rewrite cost_app, mirrored_app. split_and!; try done; nia.
Qed.

Definition pairs_ok (b : Blob) (l : list Call) (ps : list (Target * Target)) : Prop :=
  forall t source, (t, source) ∈ ps -> mirror_ok l (CMirror t source b).

Lemma pairs_ok_app b l l' ps : pairs_ok b l ps -> pairs_ok b (l ++ l') ps.
Proof.
  intros H t s Hin. destruct (H t s Hin) as (H1 & H2 & H3 & H4 & H5).
  split_and!; try done. apply elem_of_app. by left.
Qed.

Lemma pairs_spec b l sources : sources_ok b l sources -> pairs_ok b l (pairs expected sources).
Proof.
  intros H t source Hin. unfold pairs in Hin. apply list_elem_of_In, in_flat_map in Hin as (s & Hs & Hin).
  apply in_map_iff in Hin as (t' & [= <- <-] & Hf). apply filter_In in Hf as [Ht Hb].
  apply andb_prop in Hb as [Hb1 Hb2]. apply bool_decide_eq_true in Hb1.
  apply negb_true_iff, bool_decide_eq_false in Hb2.
  apply list_elem_of_In in Hs, Ht. destruct (H s Hs). by split_and!.
Qed.

Lemma repair_loop_spec limits b (Hb : 0 <= blob_size b) (Hin : b ∈ blobs (policy expected)) ps start l0 offsets :
  forall r l w,
  pass_ok l0 l w -> supported l b (obs r) -> pairs_ok b l ps ->
  attempts (spent r) <= mirrors limits ->
  wp (repair_loop expected has_signer limits b ps start offsets r)
     (repair_post l0 l b (mirrors limits - attempts (spent r)) r) w.
Proof.
  induction offsets as [|offset offsets IH]; intros r l w Hw Hs Hps Ha; cbn [repair_loop].
  { unfold wp. cbn. exists []. rewrite app_nil_r. split_and!; try done; try (cbn; lia). split; cbn; nia. }
  assert (forall e w', pass_ok l0 l w' ->
    repair_post l0 l b (mirrors limits - attempts (spent r)) r (Err e) w') as Hfail.
  { intros e w' H. exists []. rewrite app_nil_r. split_and!; try done. split; cbn; nia. }
  destruct (ps !! Z.to_nat _) as [[t source]|] eqn:Ep; [|by apply Hfail].
  apply list_elem_of_lookup_2 in Ep. pose proof (Hps t source Ep) as Hm.
  destruct (_ || _) eqn:Estop.
  { unfold wp. cbn. exists []. rewrite app_nil_r. split_and!; try done; try (cbn; lia). split; cbn; nia. }
  apply orb_false_iff in Estop as [_ Eatt]. apply Z.leb_gt in Eatt.
  destruct (_ || _); [by apply IH|].
  apply wp_bind, (wp_quiet l0 l); [auto with respects|done|]. intros [[]|] w1 Hw1; [|by apply Hfail].
  apply wp_bind, (wp_quiet l0 l); [auto with respects|done|]. intros [[]|] w2 Hw2; [|by apply Hfail].
  apply wp_bind. eapply wp_impl; [apply (attempt_spec b t source Hb Hin l0 l r w2); [apply Hm|done..]|].
  intros [r1|e] w3 (l1 & Hw3 & [C1 M1] & Hr1).
  - destruct Hr1 as (R1 & R2 & R3 & R4 & R5 & R6).
    eapply wp_impl; [apply (IH r1 (l ++ l1) w3 Hw3 R1); [by apply pairs_ok_app|lia]|].
    intros res w4 H4. apply (repair_post_seq l0 l l1 b _ r r1 res w4 w3); try done; lia.
  - exists l1. split_and!; try done. split; nia.
Qed.

(** How a blob, or several, end within a budget of [bytes] and [tries]. *)
Definition spend_post (l0 l : list Call) (bytes tries : Z) (sp : Spent) (r : result Error Spent)
    (w' : World) : Prop :=
  exists l',
    pass_ok l0 (l ++ l') w' /\ 0 <= cost l' <= bytes /\ 0 <= mirrored l' <= tries /\
    match r with
    | Err _ => True
    | Ok sp' =>
        used sp' = used sp + cost l' /\ writes sp' = writes sp + mirrored l' /\
        attempts sp <= attempts sp' <= attempts sp + tries /\
        mirrored l' <= attempts sp' - attempts sp
    end.

Lemma one_blob_spec limits b index (Hb : 0 <= blob_size b) (Hin : b ∈ blobs (policy expected)) l0 l sp w :
  pass_ok l0 l w -> attempts sp <= mirrors limits ->
  wp (one_blob expected has_signer limits b index sp)
     (spend_post l0 l (blob_size b * (target_count expected + mirrors limits - attempts sp))
        (mirrors limits - attempts sp) sp) w.
Proof.
  intros Hw Ha. unfold one_blob. apply wp_bind.
  eapply wp_impl; [apply (scan_spec b Hb l0 _ ∅ [] sp l w); try done|].
  { intros s Hs. by apply elem_of_nil in Hs. }
  intros r w1 (l1 & Hw1 & [C1 M1] & Hr). fold (target_count expected) in C1, Hr.
  set (budget := blob_size b * (target_count expected + mirrors limits - attempts sp)).
  assert (forall e l2 w', pass_ok l0 (l ++ l1 ++ l2) w' ->
    0 <= cost l2 <= (mirrors limits - attempts sp) * blob_size b ->
    0 <= mirrored l2 <= mirrors limits - attempts sp ->
    spend_post l0 l budget (mirrors limits - attempts sp) sp (Err e) w') as Hfail.
  { intros e l2 w' H Hc Hm. exists (l1 ++ l2). rewrite cost_app, mirrored_app.
    split_and!; try done; unfold budget; nia. }
  assert (forall e w', pass_ok l0 (l ++ l1) w' ->
    spend_post l0 l budget (mirrors limits - attempts sp) sp (Err e) w') as Hfail1.
  { intros e w' H. apply (Hfail e []); [by rewrite app_nil_r|cbn; nia|cbn; lia]. }
  destruct r as [[[o sources] sp1]|e]; [|by apply Hfail1].
  destruct Hr as (R1 & R2 & R3 & ->).
  apply wp_bind, (wp_quiet l0 (l ++ l1)); [auto with respects|done|]. intros [s|] w2 Hw2; [|by apply Hfail1].
  apply wp_bind. eapply wp_impl; [apply (repair_loop_spec limits b Hb Hin _ _ l0 _ _ (l ++ l1) w2 Hw2)|].
  { done. } { by apply pairs_spec. } { done. }
  cbn [spent attempts used writes obs]. intros [r2|e] w3 (l2 & Hw3 & [C2 M2] & Hr2);
    rewrite <- app_assoc in Hw3; [|by apply (Hfail e l2)].
  destruct Hr2 as (S1 & S2 & S3 & S4 & S5 & S6). cbn [spent used writes attempts] in S2, S3, S4, S5, S6.
  apply wp_bind, wp_modify; [|by intros _; apply (Hfail _ l2)]. intros s3 Emem.
  set (w4 := with_memory _ w3).
  assert (pass_ok l0 (l ++ l1 ++ l2) w4) as Hw4.
  { destruct Hw3 as [A1 A2 A3]. split; [done|done|]. intros s' [= <-] h o' i n Ho Hi. cbn in Ho.
    apply lookup_insert_Some in Ho as [[<- <-]|[_ Ho]]; [|by apply (A3 s3 Emem h o' i n)].
    exists b. split_and!; [done..|]. rewrite app_assoc. by apply (S1 i n). }
  apply wp_bind, (wp_quiet l0 (l ++ l1 ++ l2)); [auto with respects|done|].
  intros [[]|] w5 Hw5; [|by apply (Hfail _ l2)].
  unfold wp. cbn. exists (l1 ++ l2). rewrite cost_app, mirrored_app. unfold budget.
  split_and!; try done; nia.
Qed.

Lemma blob_loop_spec limits start l0 offsets (Hsz : Forall (fun b => 0 <= blob_size b) (blobs (policy expected))) :
  forall sp l w,
  pass_ok l0 l w -> attempts sp <= mirrors limits -> used sp <= verification_bytes limits ->
  wp (blob_loop expected has_signer limits start offsets sp)
     (spend_post l0 l (verification_bytes limits - used sp) (mirrors limits - attempts sp) sp) w.
Proof.
  induction offsets as [|offset offsets IH]; intros sp l w Hw Ha Hu; cbn [blob_loop].
  { unfold wp. cbn. exists []. rewrite app_nil_r. split_and!; try done; cbn; lia. }
  destruct (blobs (policy expected) !! Z.to_nat _) as [b|] eqn:Eb.
  2:{ exists []. rewrite app_nil_r. split_and!; try done; cbn; lia. }
  assert (0 <= blob_size b) as Hb by (by eapply Forall_lookup_1 in Hsz).
  destruct (Z.ltb_spec (verification_bytes limits)
    (used sp + blob_size b * (target_count expected + mirrors limits - attempts sp))).
  { unfold wp. cbn. exists []. rewrite app_nil_r. split_and!; try done; cbn; lia. }
  apply wp_bind. eapply wp_impl; [by apply (one_blob_spec limits b _ Hb ltac:(by eapply list_elem_of_lookup_2) l0 l sp w)|].
  intros [sp1|e] w1 (l1 & Hw1 & C1 & M1 & Hr).
  - destruct Hr as (R1 & R2 & R3 & R4).
    eapply wp_impl; [apply (IH sp1 (l ++ l1) w1 Hw1); lia|].
    intros res w2 (l2 & Hw2 & C2 & M2 & Hr2). exists (l1 ++ l2).
    rewrite cost_app, mirrored_app, app_assoc. split_and!; try done; try lia.
    destruct res as [sp2|]; [|done]. destruct Hr2 as (Q1 & Q2 & Q3 & Q4). split_and!; lia.
  - exists l1. split_and!; try done; lia.
Qed.
(** ** The pass *)

(** What a pass that began with the log [l0] has done when it returns [r]. *)
Definition pass_post (limits : Limits) (l0 : list Call) (r : result Error Report) (w' : World) : Prop :=
  exists l',
    w_log w' = l0 ++ l' /\ mirrors_ok l' /\
    0 <= cost l' <= verification_bytes limits /\ 0 <= mirrored l' <= mirrors limits /\
    match r with
    | Err _ => True
    | Ok rep =>
        verification_bytes_reserved rep = cost l' /\ mirror_attempts rep = mirrored l' /\
        mirrored l' <= repair_attempts rep <= mirrors limits /\
        exists s, memory w' = Some s /\ mem_ok l' w' /\
          r_blobs rep = map (blob_report expected s) (blobs (policy expected))
    end.

(** The types of the counters. *)
Record counters_ok (limits : Limits) : Prop := {
  co_bytes : 0 <= verification_bytes limits;
  co_mirrors : 0 <= mirrors limits;
  co_sizes : Forall (fun b => 0 <= blob_size b) (blobs (policy expected))
}.

Lemma deferred_not_verified h o i n (bs : list Blob) (ts : list Target) :
  (list_to_map (map (fun b => (blob_sha256 b,
     (list_to_map (map (fun t => (target_id t, Deferred)) ts) : gmap string Observation))) bs)
   : gmap string (gmap string Observation)) !! h = Some o ->
  o !! i = Some (Verified n) -> False.
Proof.
  intros Ho%elem_of_list_to_map_2 Hi. apply list_elem_of_In, in_map_iff in Ho as (b & [= _ <-] & _).
  apply elem_of_list_to_map_2, list_elem_of_In, in_map_iff in Hi as (t & [=] & _).
Qed.

Lemma start_pass_ok s w : mem_ok [] (with_memory (Some (start_pass expected s)) w).
Proof. intros s' [= <-] h o i n Ho Hi. by destruct (deferred_not_verified h o i n _ _ Ho Hi). Qed.

(** The blobs, within the whole budget. *)
Lemma blobs_spec limits start l0 l w :
  counters_ok limits -> pass_ok l0 l w ->
  wp (all_blobs expected has_signer limits start)
     (spend_post l0 l (verification_bytes limits) (mirrors limits) {| used := 0; attempts := 0; writes := 0 |}) w.
Proof.
  intros [C1 C2 C3] Hw. unfold all_blobs. destruct (stopped expected).
  - unfold wp. cbn. exists []. rewrite app_nil_r. split_and!; try done; cbn; lia.
  - eapply wp_impl; [apply (blob_loop_spec limits start l0 _ C3 _ l w Hw); cbn; lia|].
    cbn [attempts used]. by rewrite !Z.sub_0_r.
Qed.

(** The end of a pass: a guard check, pruning, and the report. *)
Lemma finish_spec limits sp l0 l w :
  pass_ok l0 l w -> 0 <= cost l <= verification_bytes limits -> 0 <= mirrored l <= mirrors limits ->
  used sp = cost l -> writes sp = mirrored l -> mirrored l <= attempts sp <= mirrors limits ->
  wp (finish_pass expected sp) (pass_post limits l0) w.
Proof.
  intros Hw Hc Hm Eu Ew Ha. unfold finish_pass.
  assert (forall e w', pass_ok l0 l w' -> pass_post limits l0 (Err e) w') as Hfail.
  { intros e w' [A1 A2 A3]. by exists l. }
  apply wp_bind, (wp_quiet l0 l); [auto with respects|done|]. intros [[]|] w1 Hw1; [|by apply Hfail].
  apply wp_bind, (wp_quiet l0 l); [auto with respects|done|]. intros [[]|] w2 Hw2; [|by apply Hfail].
  apply wp_bind, wp_get_snapshot; [|by intros _; apply Hfail]. intros s E2.
  apply wp_bind, wp_now. intros n e.
  apply wp_bind, wp_set_memory. set (s3 := set_observed_at n s). set (w3 := with_memory _ _).
  assert (pass_ok l0 l w3) as Hw3.
  { destruct Hw2 as [A1 A2 A3]. split; [done|done|]. intros s' [= <-]. exact (A3 s E2). }
  apply wp_bind, wp_save. intros r w4 [V1 V2 _ _ _ _].
  assert (pass_ok l0 l w4) as Hw4.
  { destruct Hw3 as [A1 A2 A3]. split; [congruence|done|]. unfold mem_ok. by rewrite V1. }
  destruct r as [[]|]; [|by apply Hfail].
  unfold wp. cbn [ret fst snd]. destruct Hw4 as [B1 B2 B3]. exists l.
  cbn [verification_bytes_reserved mirror_attempts repair_attempts r_blobs].
  split_and!; try done; try lia. by exists s3.
Qed.

(** The start of a pass makes no transport call and forgets every earlier
    observation. *)
Lemma begin_spec limits w :
  wp (begin_pass expected limits)
     (fun r w' => w_log w' = w_log w /\ (is_ok r = true -> pass_ok (w_log w) [] w')) w.
Proof.
  unfold begin_pass.
  apply wp_bind, (wp_respects quiet_step); [auto with respects|]. intros [[]|] w1 [Q1 _]; [|done].
  apply wp_bind. unfold wp at 1, lift. cbn [fst snd]. destruct (limits_ok limits expected) as [[]|]; [|done].
  apply wp_bind, (wp_respects quiet_step); [auto with respects|].
  intros [[]|] w2 [Q2 _]; [|split; [congruence|done]].
  apply wp_bind, (wp_respects quiet_step); [destruct (stopped _); respects|].
  intros [[]|] w3 [Q3 _]; [|split; [congruence|done]].
  apply wp_bind, wp_get_snapshot; [|intros _; split; [congruence|done]]. intros s E3.
  apply wp_bind, wp_set_memory. set (w4 := with_memory _ _).
  assert (pass_ok (w_log w) [] w4) as Hw4.
  { split; [cbn; rewrite app_nil_r; congruence|intros a c rest Ha; by destruct a|].
    apply (start_pass_ok s w3). }
  assert (forall w', pass_ok (w_log w) [] w' -> w_log w' = w_log w) as Hl.
  { intros w' [B _ _]. by rewrite app_nil_r in B. }
  apply wp_bind, (wp_quiet (w_log w) []); [auto with respects|done|].
  intros [[]|] w5 Hw5; [|split; [by apply Hl|done]].
  apply wp_bind, (wp_quiet (w_log w) []); [auto with respects|done|].
  intros [[]|] w6 Hw6; (split; [by apply Hl|done]).
Qed.

Lemma pass_inner_spec limits w :
  counters_ok limits ->
  wp (pass_inner expected has_signer limits) (pass_post limits (w_log w)) w.
Proof.
  intros Hco. pose proof Hco as [C1 C2 C3]. unfold pass_inner.
  apply wp_bind. eapply wp_impl; [apply begin_spec|]. intros [start|e] w1 [Q1 Hw1].
  2:{ exists []. rewrite app_nil_r. split_and!; try done; cbn; try lia.
      intros a c rest Ha. by destruct a. }
  apply wp_bind. eapply wp_impl; [exact (blobs_spec limits start (w_log w) [] w1 Hco (Hw1 eq_refl))|].
  cbn [app]. intros [sp|e] w7 (l & Hw7 & H1 & H2 & H3).
  - cbn [used writes attempts] in H3. destruct H3 as (U1 & U2 & U3 & U4).
    apply (finish_spec limits sp (w_log w) l); try done; lia.
  - destruct Hw7 as [B1 B2 B3]. by exists l.
Qed.

Lemma run_pass_spec limits w :
  counters_ok limits ->
  wp (run_pass expected has_signer limits) (pass_post limits (w_log w)) w.
Proof.
  intros Hco. pose proof (pass_inner_spec limits w Hco) as H. unfold wp in H |- *. unfold run_pass.
  destruct (pass_inner expected has_signer limits w) as [[rep|e] w1]; [exact H|].
  destruct H as (l & A1 & A2 & A3 & A4 & _). cbn [snd] in A1.
  assert (quiet (let! _ := invalidate in (throw e : M Report))) as Hq by respects.
  destruct (Hq w1) as [Q _]. exists l. rewrite Q. split_and!; try done; try lia.
  unfold bind, throw. by destruct (invalidate w1) as [[[]|] w2].
Qed.
End Proofs.
