(* ===== verification/ReplicaRuns.v ===== *)
(** * Replicas: many passes

    What outlives one maintenance pass: the accepted policy only moves
    forward, a failed pass leaves no evidence, and the blob cursor visits
    every blob. *)
From S2P Require Import Prelude ReplicaPolicy ReplicaState ReplicaEngine ReplicaSteps.

Definition ident (s : Snapshot) : string * string * Z * string := (core s).1.

(** The identity of a policy. *)
Definition policy_ident (vp : VerifiedPolicy) : string * string * Z * string :=
  (owner vp, policy_id (policy vp), revision (policy vp), event_id vp).

(** ** The order of accepted policies *)

Definition supersedes (a b : string * string * Z * string) : Prop :=
  a.1.1.1 = b.1.1.1 /\ a.1.1.2 = b.1.1.2 /\ (a.1.2 < b.1.2 \/ (a.1.2 = b.1.2 /\ a.2 = b.2)).

#[export] Instance supersedes_refl : Reflexive supersedes.
Proof. intros a. unfold supersedes. auto. Qed.
#[export] Instance supersedes_trans : Transitive supersedes.
Proof.
  intros a b c (A1 & A2 & A3) (B1 & B2 & B3). split_and!; [congruence..|].
  destruct A3 as [|[]], B3 as [|[]]; [left; lia..|right; split; congruence].
Qed.

(** A recorded policy is kept or superseded. *)
Definition newer (a b : option Snapshot) : Prop :=
  forall s, a = Some s -> exists s', b = Some s' /\ supersedes (ident s) (ident s').

#[export] Instance newer_refl : Reflexive newer.
Proof. intros a s H. exists s. split; [done|reflexivity]. Qed.
#[export] Instance newer_trans : Transitive newer.
Proof.
  intros a b c H1 H2 s Hs. destruct (H1 s Hs) as (s1 & E1 & S1). destruct (H2 s1 E1) as (s2 & E2 & S2).
  exists s2. split; [done|by etransitivity].
Qed.

Lemma newer_ident a b : ident <$> a = ident <$> b -> newer a b.
Proof.
  intros E s ->. destruct b as [s'|]; [|done]. apply (inj Some) in E. exists s'. split; [done|].
  rewrite E. reflexivity.
Qed.

Section Runs.
Context `{L : StateLib, Out : ReplicaOutside}.

(** ** What a pass keeps

    [g] of the snapshot's core, in memory and, when saved, on disk. *)
Record keeps {A} (g : (string * string * Z * string) * Z -> A) (w w' : World) : Prop := {
  kp_log : w_log w `prefix_of` w_log w';
  kp_memory : (fun s => g (core s)) <$> memory w' = (fun s => g (core s)) <$> memory w;
  kp_disk : disk w' = disk w \/ (fun s => g (core s)) <$> disk w' = (fun s => g (core s)) <$> memory w'
}.

#[export] Instance keeps_benign {A} (g : (string * string * Z * string) * Z -> A) : Benign (keeps g).
Proof.
  split.
  - intros w. split; auto.
  - intros a b c [A1 A2 A3] [B1 B2 B3]. split; [by etransitivity|congruence|].
    destruct B3 as [->|B3]; [|by right]. destruct A3 as [->|A3]; [by left|right]. congruence.
  - intros w d e. split; auto.
  - intros w s Hs. split; cbn; auto. right. by rewrite Hs.
  - intros w s s' Hs Hc _. split; auto. cbn [memory with_memory]. rewrite Hs. cbn [fmap option_fmap option_map]. by rewrite Hc.
Qed.

(** ... and makes no transport call. *)
Definition silently (R : World -> World -> Prop) (w w' : World) : Prop := R w w' /\ w_log w' = w_log w.

#[export] Instance silently_benign R : Benign R -> Benign (silently R).
Proof.
  intros HR. split.
  - intros w. split; [reflexivity|done].
  - intros a b c [A1 A2] [B1 B2]. split; [by etransitivity|congruence].
  - intros w d e. split; [apply benign_outside|done].
  - intros w s Hs. split; [by apply benign_save|done].
  - intros w s s' Hs Hc Ho. split; [by apply (benign_edit w s)|done].
Qed.

Section Pass.
Variables (expected : VerifiedPolicy) (has_signer : bool).
Context {A : Type} (g : (string * string * Z * string) * Z -> A).

Lemma keeps_log c : respects (keeps g) (log c).
Proof. intros w. split; cbn; auto. by exists [c]. Qed.

Lemma keeps_modify f : (forall s, g (core (f s)) = g (core s)) -> respects (keeps g) (modify f).
Proof.
  intros H w. apply (wp_modify f (fun _ w' => keeps g w w')); [|intros; reflexivity]. intros s Hs. split; auto.
  cbn [memory with_memory]. rewrite Hs. cbn [fmap option_fmap option_map]. by rewrite H.
Qed.
#[local] Hint Resolve keeps_log : respects.
#[local] Hint Extern 0 (respects (keeps g) (modify _)) => by apply keeps_modify : respects.

Lemma keeps_checked_verify t b : respects (keeps g) (checked_verify expected t b).
Proof. unfold checked_verify. respects. Qed.
#[local] Hint Resolve keeps_checked_verify : respects.
Lemma keeps_scan b ts obs sources sp : respects (keeps g) (scan expected b ts obs sources sp).
Proof. revert obs sources sp. induction ts; intros; cbn [scan]; respects. Qed.
Lemma keeps_mirror b t source h r : respects (keeps g) (mirror_and_verify expected b t source h r).
Proof. unfold mirror_and_verify. respects. Qed.
#[local] Hint Resolve keeps_scan keeps_mirror : respects.
Lemma keeps_attempt b t source r : respects (keeps g) (attempt expected has_signer b t source r).
Proof. unfold attempt. respects. Qed.
#[local] Hint Resolve keeps_attempt : respects.
Lemma keeps_repair_loop limits b ps start offsets r :
  respects (keeps g) (repair_loop expected has_signer limits b ps start offsets r).
Proof. revert r. induction offsets; intros; cbn [repair_loop]; respects. Qed.
#[local] Hint Resolve keeps_repair_loop : respects.

Lemma finish_silent sp : respects (silently (keeps g)) (finish_pass expected sp).
Proof.
  unfold finish_pass. do 2 (apply respects_bind; [exact _|auto with respects|intros _]).
  apply (benign_rewrite (silently (keeps g)) set_observed_at); [done|]. intros. respects.
Qed.
Lemma keeps_finish sp : respects (keeps g) (finish_pass expected sp).
Proof. intros w. apply finish_silent. Qed.
End Pass.
#[local] Hint Resolve keeps_log keeps_checked_verify keeps_scan keeps_mirror keeps_attempt
  keeps_repair_loop keeps_finish : respects.

Section Blobs.
Variables (expected : VerifiedPolicy) (has_signer : bool).

Lemma keeps_one_blob limits b index sp :
  respects (keeps fst) (one_blob expected has_signer limits b index sp).
Proof. unfold one_blob. respects. by apply keeps_modify. Qed.
#[local] Hint Resolve keeps_one_blob : respects.
Lemma keeps_all_blobs limits start : respects (keeps fst) (all_blobs expected has_signer limits start).
Proof.
  unfold all_blobs. respects.
  match goal with |- respects _ (blob_loop _ _ _ _ ?o ?sp) => generalize sp; generalize o end.
  intros os. induction os; intros; cbn [blob_loop]; respects.
Qed.
End Blobs.
#[local] Hint Resolve keeps_all_blobs : respects.

(** ** Forward: the record on disk is only ever superseded *)

(** [good] is any property of the identities a directory may record. *)
Section Forward.
Variable good : string * string * Z * string -> Prop.

Definition tracked (w : World) : Prop :=
  forall s, memory w = Some s \/ disk w = Some s -> good (ident s).

Record forward (w w' : World) : Prop := {
  fw_memory : newer (memory w) (memory w');
  fw_disk : disk w' = disk w \/ (newer (memory w) (disk w') /\ newer (disk w') (memory w'));
  fw_good : tracked w -> tracked w'
}.

#[export] Instance forward_refl : Reflexive forward.
Proof. intros w. split; [reflexivity|by left|done]. Qed.
#[export] Instance forward_trans : Transitive forward.
Proof.
  intros a b c [A1 A2 A3] [B1 B2 B3]. split; [by etransitivity| |auto].
  destruct B2 as [E|[B2 B4]]; [|right; split; [by etransitivity|done]].
  rewrite E. destruct A2 as [E'|[A2 A4]]; [by left|right; split; [done|by etransitivity]].
Qed.

Lemma forward_same w w' : memory w' = memory w -> disk w' = disk w -> forward w w'.
Proof. intros M D. split; [by rewrite M|by left|]. intros T s. rewrite M, D. apply T. Qed.

Lemma keeps_fst w w' : keeps id w w' -> keeps fst w w'.
Proof.
  intros [K1 K2 K3]. split; [done|..].
  - apply (f_equal (fmap fst)) in K2. by rewrite <- !option_fmap_compose in K2.
  - destruct K3 as [K3|K3]; [by left|right]. apply (f_equal (fmap fst)) in K3.
    by rewrite <- !option_fmap_compose in K3.
Qed.

Lemma keeps_some w w' s : keeps id w w' -> memory w = Some s ->
  exists s', memory w' = Some s' /\ core s' = core s.
Proof.
  intros [_ K _] E. rewrite E in K. destruct (memory w') as [s'|]; [|done].
  apply (inj Some) in K. by exists s'.
Qed.

Lemma keeps_core w w' s s' : keeps id w w' -> memory w = Some s -> memory w' = Some s' -> core s' = core s.
Proof. intros K E E'. destruct (keeps_some w w' s K E) as (s1 & E1 & C). congruence. Qed.

Lemma keeps_forward w w' : keeps fst w w' -> forward w w'.
Proof.
  intros [_ K2 K3]. change (fun s => (core s).1) with ident in K2, K3. split.
  - by apply newer_ident.
  - destruct K3 as [->|K3]; [by left|right]. split; apply newer_ident; congruence.
  - assert (forall m, ident <$> m = ident <$> memory w -> tracked w ->
      forall s, m = Some s -> good (ident s)) as Hm.
    { intros m E T s ->. destruct (memory w) as [s0|] eqn:E0; [|done]. apply (inj Some) in E.
      rewrite E. apply T. by left. }
    intros T s [E|E]; [by apply (Hm (memory w'))|].
    destruct K3 as [K3|K3]; [rewrite K3 in E; apply T; by right|].
    apply (Hm (disk w')); try done. congruence.
Qed.

(** What [accept] turns the snapshot [m] into: it stays when it records this
    very event, and otherwise the record starts afresh. *)
Definition accepted (vp : VerifiedPolicy) (m : option Snapshot) (s : Snapshot) : Prop :=
  (m = Some s /\ s_owner s = owner vp /\ s_policy_id s = policy_id (policy vp) /\
     s_event_id s = event_id vp /\ s_revision s <= revision (policy vp)) \/
  (s = fresh_snapshot vp /\ forall s0, m = Some s0 ->
     supersedes (ident s0) (policy_ident vp) /\ s_event_id s0 <> event_id vp).

Lemma accept_check_false s vp :
  accept_check (Some s) vp = Ok false ->
  supersedes (ident s) (policy_ident vp) /\ s_event_id s <> event_id vp.
Proof.
  cbn [accept_check]. destruct (negb _ || negb _) eqn:E1; [done|]. destruct ((_ <? _) || _) eqn:E2; [done|]. intros [= E3].
  apply orb_false_iff in E1 as [E1a E1b]. apply orb_false_iff in E2 as [E2a E2b].
  apply negb_false_iff, bool_decide_eq_true in E1a, E1b. apply Z.ltb_ge in E2a.
  rewrite E3, andb_true_r in E2b. apply Z.eqb_neq in E2b. apply bool_decide_eq_false in E3.
  unfold supersedes. cbn. split_and!; try done. left. lia.
Qed.

Lemma accept_check_true m vp :
  accept_check m vp = Ok true -> exists s, m = Some s /\ accepted vp m s.
Proof.
  destruct m as [s|]; [|done]. cbn [accept_check]. destruct (negb _ || negb _) eqn:E1; [done|].
  destruct ((_ <? _) || _) eqn:E2; [done|]. intros [= E3].
  apply orb_false_iff in E1 as [E1a E1b]. apply orb_false_iff in E2 as [E2a E2b].
  apply negb_false_iff, bool_decide_eq_true in E1a, E1b. apply Z.ltb_ge in E2a.
  apply bool_decide_eq_true in E3. exists s. split; [done|]. left. done.
Qed.

(** Cleaning the pending directory touches nothing else. *)
Definition same_state (w w' : World) : Prop :=
  memory w' = memory w /\ disk w' = disk w /\ w_log w' = w_log w.

#[local] Instance same_state_refl : Reflexive same_state.
Proof. done. Qed.
#[local] Instance same_state_trans : Transitive same_state.
Proof. intros a b c (? & ? & ?) (? & ? & ?). split_and!; congruence. Qed.

Lemma same_remove_file n : respects same_state (remove_file n).
Proof.
  unfold remove_file, io_or_fail, fail_state. respects.
  - by intros w.
  - intros w. unfold ask. by destruct (io_ok (w_env w)).
  - by intros w.
Qed.

Lemma same_reconcile keep : respects same_state (reconcile_pending_files keep).
Proof.
  unfold reconcile_pending_files, io_or_fail, fail_state. respects.
  - intros w. unfold ask. by destruct (io_ok (w_env w)).
  - by intros w.
  - match goal with |- respects _ (reconcile_loop _ ?l) => generalize l end.
    intros l. induction l; cbn [reconcile_loop]; respects. apply same_remove_file.
Qed.

Lemma same_guard vp : respects same_state (guard_check vp).
Proof.
  unfold guard_check, load_policy, now. respects; intros w; unfold ask;
    [by destruct (clock (w_env w))|by destruct (read_policy (w_env w))].
Qed.

Lemma accept_spec vp w :
  good (policy_ident vp) ->
  wp (accept vp) (fun r w' => forward w w' /\ w_log w' = w_log w /\
    (r = Ok tt -> exists s, memory w' = Some s /\ accepted vp (memory w) s)) w.
Proof.
  intros Hg. unfold accept. apply wp_bind. unfold wp at 1, get_world. cbn [fst snd].
  apply wp_bind. unfold wp at 1, lift. cbn [fst snd].
  destruct (accept_check (memory w) vp) as [[]|e] eqn:E; cbn [map_err].
  - unfold wp. cbn. split_and!; [reflexivity|done|]. intros _. by apply accept_check_true.
  - assert (forall s, memory w = Some s ->
      supersedes (ident s) (policy_ident vp) /\ s_event_id s <> event_id vp) as Hs.
    { intros s Es. rewrite Es in E. by apply accept_check_false. }
    assert (newer (memory w) (Some (fresh_snapshot vp))) as Hn.
    { intros s Es. exists (fresh_snapshot vp). split; [done|by apply Hs]. }
    apply wp_bind, wp_set_memory. apply wp_bind, wp_save. intros r w2 [V1 V2 _ V4 _ _].
    cbn [with_memory memory disk w_log] in V1, V2, V4.
    assert (forward w w2) as H2.
    { split; [by rewrite V1|..].
      - destruct V4 as [->|[_ ->]]; [by left|right]. rewrite V1. split; [done|reflexivity].
      - intros T s. rewrite V1. destruct V4 as [->|[_ ->]]; intros [[= <-]|E']; try done.
        + apply T. by right.
        + by injection E' as <-. }
    destruct r as [[]|]; [|split_and!; [done|congruence|done]].
    apply (wp_respects same_state); [apply same_reconcile|].
    intros r w3 (K1 & K2 & K3). split_and!; [|congruence|].
    + etransitivity; [exact H2|by apply forward_same].
    + intros _. exists (fresh_snapshot vp). split; [congruence|by right].
  - unfold wp. cbn. split_and!; [reflexivity|done|done].
Qed.

(** ** One pass *)

Section OnePass.
Variables (expected : VerifiedPolicy) (has_signer : bool).
Hypothesis Hgood : good (policy_ident expected).

(** The start of a pass leaves the accepted policy and its cursor. *)
Lemma begin_accepts limits w :
  wp (begin_pass expected limits) (fun r w' =>
    forward w w' /\ w_log w' = w_log w /\
    forall c, r = Ok c -> limits_ok limits expected = Ok tt /\
      exists s0 s, accepted expected (memory w) s0 /\ memory w' = Some s /\ core s = core s0 /\
        c = cursor s0) w.
Proof.
  unfold begin_pass.
  apply wp_bind, (wp_respects same_state); [apply same_guard|]. intros [[]|] w1 (M1 & D1 & L1).
  2:{ split_and!; [by apply forward_same|done|done]. }
  assert (forward w w1) as F1 by (by apply forward_same).
  apply wp_bind. unfold wp at 1, lift. cbn [fst snd].
  destruct (limits_ok limits expected) as [[]|]; [|done].
  apply wp_bind. eapply wp_impl; [apply accept_spec, Hgood|]. intros [[]|] w2 (F2 & L2 & H2).
  2:{ split_and!; [by etransitivity|congruence|done]. }
  destruct (H2 eq_refl) as (s0 & Em & Hacc). rewrite M1 in Hacc.
  assert (forward w w2) as F by (by etransitivity). assert (w_log w2 = w_log w) as Lw by congruence.
  clear F1 F2 H2 M1 D1 L1 L2 w1.
  apply wp_bind, (wp_respects (silently (keeps id))); [destruct (stopped _); respects|].
  assert (forall w', silently (keeps id) w2 w' -> forward w w' /\ w_log w' = w_log w) as HF.
  { intros w' [K Lk]. split; [|congruence]. etransitivity; [exact F|]. by apply keeps_forward, keeps_fst. }
  intros r w3 K3. destruct r as [[]|]; [|by destruct (HF _ K3); split_and!].
  apply wp_bind, wp_get_snapshot; [|by intros _; destruct (HF _ K3); split_and!]. intros s3 E3.
  assert (core s3 = core s0) as Ec by (by apply (keeps_core w2 w3); [apply K3|..]).
  apply wp_bind, wp_set_memory.
  assert (silently (keeps id) w2 (with_memory (Some (start_pass expected s3)) w3)) as K4.
  { etransitivity; [exact K3|]. split; [|done]. split; auto. cbn. by rewrite E3. }
  apply wp_bind, (wp_respects (silently (keeps id))); [auto with respects|].
  intros r5 w5 K5. assert (silently (keeps id) w2 w5) as K25 by (by etransitivity).
  destruct r5 as [[]|]; [|by destruct (HF _ K25); split_and!].
  apply wp_bind, (wp_respects (silently (keeps id))); [auto with respects|].
  intros r6 w6 K6. assert (silently (keeps id) w2 w6) as K26 by (by etransitivity).
  destruct (HF _ K26) as [Fw Lw']. destruct r6 as [[]|]; [|by split_and!].
  unfold wp. cbn [ret fst snd]. split_and!; try done. intros c [= <-]. split; [done|].
  destruct (keeps_some w2 w6 s0 (proj1 K26) Em) as (s6 & E6 & C6).
  exists s0, s6. split_and!; try done. by injection Ec.
Qed.

(** A pass that completes has saved what it holds. *)
Lemma finish_saves sp w :
  wp (finish_pass expected sp)
     (fun r w' => is_ok r = true -> is_Some (memory w') /\ disk w' = memory w') w.
Proof.
  unfold finish_pass.
  apply wp_bind, (wp_respects (fun _ _ => True)); [done|]. intros [[]|] w1 _; [|done].
  apply wp_bind, (wp_respects (fun _ _ => True)); [done|]. intros [[]|] w2 _; [|done].
  apply wp_bind, wp_get_snapshot; [|done]. intros s _.
  apply wp_bind, wp_now. intros n e. apply wp_bind, wp_set_memory. apply wp_bind, wp_save.
  intros [[]|] w3 [V1 _ _ _ V5 _]; [|done]. destruct (V5 eq_refl) as [V6 V7].
  unfold wp. cbn [ret fst snd]. intros _. by rewrite V1.
Qed.

Lemma pass_inner_commits limits w :
  wp (pass_inner expected has_signer limits) (fun r w' =>
    forward w w' /\
    (is_ok r = true -> exists s0 s, accepted expected (memory w) s0 /\ memory w' = Some s /\
       disk w' = Some s /\ ident s = ident s0)) w.
Proof.
  unfold pass_inner. apply wp_bind. eapply wp_impl; [apply begin_accepts|].
  intros [c|] w1 (F1 & _ & H1); [|done]. destruct (H1 c eq_refl) as (_ & s0 & s1 & Ha & E1 & C1 & _).
  apply wp_bind, (wp_respects (keeps fst)); [auto with respects|]. intros r w2 K2.
  assert (forward w w2) as F2 by (etransitivity; [exact F1|by apply keeps_forward]).
  destruct r as [sp|]; [|done].
  unfold wp. pose proof (finish_saves sp w2) as Hs. unfold wp in Hs.
  pose proof (keeps_finish expected fst sp w2) as K3.
  destruct (finish_pass expected sp w2) as [r w3]. cbn [fst snd] in *.
  split; [etransitivity; [exact F2|by apply keeps_forward]|]. intros Hr.
  destruct (Hs Hr) as [[s3 E3] D3]. exists s0, s3. split_and!; try done; [congruence|].
  assert (keeps fst w1 w3) as [_ K _] by (by etransitivity).
  rewrite E1, E3 in K. apply (inj Some) in K. unfold ident. congruence.
Qed.

Lemma run_pass_commits limits w :
  wp (run_pass expected has_signer limits) (fun r w' =>
    forward w w' /\
    (is_ok r = true -> exists s0 s, accepted expected (memory w) s0 /\ memory w' = Some s /\
       disk w' = Some s /\ ident s = ident s0)) w.
Proof.
  pose proof (pass_inner_commits limits w) as H. unfold wp in H |- *. unfold run_pass.
  destruct (pass_inner expected has_signer limits w) as [[rep|e] w1]; [exact H|].
  destruct H as [F _]. cbn [fst snd] in F.
  assert (respects (keeps fst) (let! _ := invalidate in (throw e : M Report))) as Hk by respects.
  split; [etransitivity; [exact F|]; apply keeps_forward, Hk|].
  unfold bind, throw. by destruct (invalidate w1) as [[[]|] w2].
Qed.
End OnePass.
End Forward.

(** ** Many passes

    The life of a state directory: passes under any policies the owner
    signed, completed or not, restarts that read the file back, and whatever
    else happens outside in between.  The list is that of the policies of the
    completed passes. *)
Section History.
Variable signed : VerifiedPolicy -> Prop.

Inductive history : list VerifiedPolicy -> World -> Prop :=
| history_new w : memory w = None -> disk w = None -> history [] w
| history_outside h w d e : history h w -> history h (with_outside d e w)
| history_reopen h w m :
    history h w -> open_snapshot (Some <$> disk w) = Ok m -> history h (with_memory m w)
| history_pass h w vp has_signer limits rep w' :
    history h w -> signed vp -> run_pass vp has_signer limits w = (Ok rep, w') -> history (h ++ [vp]) w'
| history_failed h w vp has_signer limits e w' :
    history h w -> signed vp -> run_pass vp has_signer limits w = (Err e, w') -> history h w'.

(** An event id binds the revision it was computed over. *)
Variable revision_of : string -> Z.
Hypothesis bound : forall vp, signed vp -> revision (policy vp) = revision_of (event_id vp).

Definition recorded (vp : VerifiedPolicy) (m : option Snapshot) : Prop :=
  exists s, m = Some s /\ supersedes (policy_ident vp) (ident s).

Definition bound_ident (i : string * string * Z * string) : Prop := i.1.2 = revision_of i.2.

Record directory_ok (h : list VerifiedPolicy) (w : World) : Prop := {
  do_newer : newer (disk w) (memory w);
  do_recorded : forall vp, vp ∈ h -> recorded vp (disk w);
  do_bound : tracked bound_ident w
}.

Lemma recorded_newer vp a b : recorded vp a -> newer a b -> recorded vp b.
Proof.
  intros (s & Es & H) Hn. destruct (Hn s Es) as (s' & Es' & H'). exists s'. split; [done|].
  by etransitivity.
Qed.

Lemma accepted_ident vp m s :
  signed vp -> (forall s, m = Some s -> bound_ident (ident s)) ->
  accepted vp m s -> ident s = policy_ident vp /\ newer m (Some s).
Proof.
  intros Hv Hm [(-> & E1 & E2 & E3 & _)|[-> H]].
  - split; [|reflexivity]. pose proof (Hm s eq_refl) as Hb.
    unfold bound_ident, ident, core, policy_ident in *. cbn in *.
    rewrite E1, E2, E3, Hb, E3, (bound vp Hv). done.
  - split; [done|]. intros s0 Hs0. exists (fresh_snapshot vp). split; [done|]. by apply H.
Qed.

Lemma forward_directory h w w' : directory_ok h w -> forward bound_ident w w' -> directory_ok h w'.
Proof.
  intros [D1 D2 D3] [F1 F2 F3]. split; [| |by apply F3].
  - destruct F2 as [->|[_ F2]]; [by etransitivity|done].
  - intros vp Hin. apply (recorded_newer vp (disk w)); [by apply D2|].
    destruct F2 as [->|[F2 _]]; [reflexivity|by etransitivity].
Qed.

Lemma pass_directory h w vp sg limits rep w' :
  directory_ok h w -> signed vp -> run_pass vp sg limits w = (Ok rep, w') ->
  directory_ok (h ++ [vp]) w' /\ (forall old, old ∈ h -> supersedes (policy_ident old) (policy_ident vp)).
Proof.
  intros D Hv E.
  pose proof (run_pass_commits bound_ident vp sg (bound vp Hv) limits w) as H. unfold wp in H.
  rewrite E in H. cbn [fst snd is_ok] in H. destruct H as [F H].
  destruct (H eq_refl) as (s0 & s & Ha & Em & Ed & Ei). pose proof D as [D1 D2 D3].
  destruct (accepted_ident vp (memory w) s0 Hv ltac:(intros; apply D3; by left) Ha) as [Ei' Hn].
  assert (forall old, old ∈ h -> supersedes (policy_ident old) (policy_ident vp)) as Hold.
  { intros old Hin. destruct (recorded_newer old _ (Some s0) (D2 old Hin)) as (? & [= <-] & Hs);
      [by etransitivity|]. by rewrite <- Ei'. }
  split; [|done]. destruct (forward_directory h w w' D F) as [C1 C2 C3]. split; [done| |done].
  intros old [Hin|Hin]%elem_of_app; [by apply C2|]. apply list_elem_of_singleton in Hin as ->.
  exists s. split; [done|]. rewrite Ei, Ei'. reflexivity.
Qed.

Lemma history_directory h w : history h w ->
  directory_ok h w /\ forall i j a b, (i < j)%nat -> h !! i = Some a -> h !! j = Some b ->
    supersedes (policy_ident a) (policy_ident b).
Proof.
  intros H. induction H as [w Hm Hd|h w d e _ [D IH]|h w m _ [D IH] Ho|h w vp sg lim rep w' _ [D IH] Hv E
    |h w vp sg lim e w' _ [D IH] Hv E].
  - split; [|done]. split; [rewrite Hm, Hd; reflexivity|by intros ? ?%elem_of_nil|].
    intros s. rewrite Hm, Hd. by intros [].
  - split; [|done]. by destruct D as [D1 D2 D3].
  - assert (m = disk w) as ->.
    { destruct (disk w) as [s|]; cbn in Ho; [|congruence]. destruct (snapshot_ok s); congruence. }
    split; [|done]. destruct D as [D1 D2 D3]. split; [reflexivity|done|].
    intros s [Hs|Hs]; apply D3; by right.
  - destruct (pass_directory h w vp sg lim rep w' D Hv E) as [D' Hold]. split; [done|].
    intros i j a b Hij Hi Hj. apply lookup_app_Some in Hj as [Hj|[Hlen Hj]].
    + apply (IH i j a b Hij); [|done]. apply lookup_app_Some in Hi as [Hi|[Hlen _]]; [done|].
      apply lookup_lt_Some in Hj. lia.
    + apply list_lookup_singleton_Some in Hj as [Hj <-]. apply Hold.
      apply lookup_app_Some in Hi as [Hi|[Hlen' _]]; [by eapply list_elem_of_lookup_2|lia].
  - split; [|done]. pose proof (run_pass_commits bound_ident vp sg (bound vp Hv) lim w) as [F _].
    rewrite E in F. by apply (forward_directory h w).
Qed.
End History.
End Runs.
