(* ===== verification/ReplicaProgress.v ===== *)
(** * Replicas: failed passes and progress

    A failed pass leaves no evidence behind, and passes that complete reach
    every blob: the cursor cannot starve one. *)
From S2P Require Import Prelude ReplicaPolicy ReplicaState ReplicaEngine ReplicaSteps ReplicaRuns.

Section Failure.
Context `{L : StateLib, Out : ReplicaOutside}.

(** ** Invalidation *)

Definition state_error {A} (r : result Error A) : Prop :=
  match r with Ok _ => True | Err e => exists se, e = EState se end.

Definition no_evidence (s : Snapshot) : Prop :=
  observations s = ∅ /\ pending s = ∅ /\ observed_at s = None.

(** No pending request or signed authorisation is left in the directory. *)
Definition no_requests (d : gmap string string) : Prop :=
  forall name, stale [] name = true -> d !! name = None.

Lemma remove_file_spec n w :
  wp (remove_file n) (fun r w' => state_error r /\ memory w' = memory w /\ disk w' = disk w /\
    (r = Ok tt -> dir w' = delete n (dir w)) /\ dir w' ⊆ dir w) w.
Proof.
  unfold remove_file, io_or_fail, fail_state, wp, bind, get_world, ask, ret, throw, set_dir. cbn.
  destruct (dir w !! n) eqn:E; cbn.
  - destruct (io_ok (w_env w)) as [[] e]; cbn; split_and!; try done; eauto. apply delete_subseteq.
  - split_and!; try done. intros _. by rewrite delete_id.
Qed.

Lemma reconcile_loop_spec keep names w :
  wp (reconcile_loop keep names) (fun r w' => state_error r /\ memory w' = memory w /\ disk w' = disk w /\
    dir w' ⊆ dir w /\
    (r = Ok tt -> forall n, n ∈ names -> stale keep n = true -> dir w' !! n = None)) w.
Proof.
  revert w. induction names as [|n names IH]; intros w; cbn [reconcile_loop].
  { unfold wp. cbn. split_and!; try done. by intros _ n ?%elem_of_nil. }
  apply wp_bind.
  apply (wp_impl _ (fun r w' => state_error r /\ memory w' = memory w /\ disk w' = disk w /\
    dir w' ⊆ dir w /\ (r = Ok tt -> stale keep n = true -> dir w' !! n = None))).
  { destruct (stale keep n) eqn:Es; [|unfold wp; cbn; by split_and!].
    eapply wp_impl; [apply remove_file_spec|]. intros r w1 (H1 & H2 & H3 & H4 & H5).
    split_and!; try done. intros Hr _. rewrite (H4 Hr). apply lookup_delete_eq. }
  intros [[]|e] w1 (H1 & H2 & H3 & H4 & H5); [|by split_and!].
  eapply wp_impl; [apply IH|]. intros r w2 (G1 & G2 & G3 & G4 & G5).
  split_and!; try done; try congruence; [by etransitivity|].
  intros Hr x [->|Hx]%elem_of_cons Hs; [|by apply G5].
  apply (lookup_weaken_None _ (dir w1)); [by apply H5|done].
Qed.

Lemma wp_io_or_fail (Q : result Error unit -> World -> Prop) w :
  (forall e, Q (Ok tt) (with_outside (dir w) e w)) ->
  (forall e, Q (Err (EState SIo)) (with_outside (dir w) e w)) -> wp io_or_fail Q w.
Proof.
  intros H1 H2. unfold wp, io_or_fail, fail_state, bind, ask, ret, throw.
  destruct (io_ok (w_env w)) as [[] e]; [apply H1|apply H2].
Qed.

Lemma reconcile_spec w :
  wp (reconcile_pending_files []) (fun r w' => state_error r /\ memory w' = memory w /\ disk w' = disk w /\
    (r = Ok tt -> no_requests (dir w'))) w.
Proof.
  unfold reconcile_pending_files. apply wp_bind, wp_io_or_fail; intros e; [|split_and!; try done; by eexists].
  set (w1 := with_outside (dir w) e w). apply wp_bind. unfold wp at 1, get_world. cbn [fst snd].
  eapply wp_impl; [apply reconcile_loop_spec|]. intros r w2 (H1 & H2 & H3 & H4 & H5). split_and!; try done.
  intros Hr n Hs. destruct (dir w1 !! n) as [v|] eqn:E.
  - apply (H5 Hr); [|done]. apply list_elem_of_In, in_map_iff. exists (n, v). split; [done|].
    by apply list_elem_of_In, elem_of_map_to_list.
  - by apply (lookup_weaken_None _ (dir w1)).
Qed.

Lemma invalidate_spec w :
  wp invalidate (fun r w' => state_error r /\ (forall s, memory w' = Some s -> no_evidence s) /\
    (r = Ok tt -> (is_Some (memory w') -> disk w' = memory w') /\ no_requests (dir w'))) w.
Proof.
  unfold invalidate. apply wp_bind. unfold wp at 1, get_world. cbn [fst snd]. apply wp_bind.
  apply (wp_impl _ (fun r w' => state_error r /\ (forall s, memory w' = Some s -> no_evidence s) /\
    (r = Ok tt -> is_Some (memory w') -> disk w' = memory w'))).
  - destruct (memory w) as [s|] eqn:E.
    + apply wp_bind, wp_set_memory, wp_save. intros r w1 [V1 _ _ _ V5 V6]. cbn in V1, V5. split_and!.
      * destruct r; [done|]. by apply V6.
      * rewrite V1. by intros s' [= <-].
      * intros Hr _. rewrite V1. apply (V5 Hr).
    + unfold wp. cbn. rewrite E. split_and!; try done.
  - intros [[]|e] w1 (H1 & H2 & H3); [|by split_and!].
    eapply wp_impl; [apply reconcile_spec|]. intros r w2 (G1 & G2 & G3 & G4).
    split_and!; try done; [by rewrite G2|]. intros Hr. split; [|by apply G4].
    rewrite G2, G3. by apply H3.
Qed.

Lemma failed_pass expected has_signer limits w e w' :
  run_pass expected has_signer limits w = (Err e, w') ->
  (forall s, memory w' = Some s -> no_evidence s) /\
  (state_error (Err e : result Error unit) \/
   ((is_Some (memory w') -> disk w' = memory w') /\ no_requests (dir w'))).
Proof.
  unfold run_pass. destruct (pass_inner expected has_signer limits w) as [[rep|e1] w1]; [done|].
  pose proof (invalidate_spec w1) as H. unfold wp in H. unfold bind, throw.
  destruct (invalidate w1) as [[[]|e2] w2]; cbn [fst snd] in H; intros [= <- <-].
  - destruct H as (_ & H2 & H3). split; [done|]. right. by apply H3.
  - destruct H as (H1 & H2 & _). split; [done|]. by left.
Qed.
End Failure.

(** ** Progress *)

Section Progress.
Context `{L : StateLib, Out : ReplicaOutside}.
Variables (expected : VerifiedPolicy) (has_signer : bool).

(** Every configured copy of [b] was read. *)
Definition scanned (b : Blob) (l : list Call) : Prop :=
  forall t, t ∈ targets (policy expected) -> exists ok, CVerify t b ok ∈ l.

Lemma scanned_app_l b l l' : scanned b l -> scanned b (l ++ l').
Proof. intros H t Ht. destruct (H t Ht) as [ok Hok]. exists ok. apply elem_of_app. by left. Qed.
Lemma scanned_app_r b l l' : scanned b l' -> scanned b (l ++ l').
Proof. intros H t Ht. destruct (H t Ht) as [ok Hok]. exists ok. apply elem_of_app. by right. Qed.

Lemma checked_verify_logs t b w :
  wp (checked_verify expected t b) (fun r w' => is_ok r = true -> exists ok l,
    w_log w' = w_log w ++ CVerify t b ok :: l) w.
Proof.
  unfold checked_verify. apply wp_bind, (wp_respects same_state); [apply same_guard|].
  intros [[]|] w1 (_ & _ & L1); [|done].
  apply wp_bind. unfold wp at 1, ask. destruct (verify t b (w_env w1)) as [r e]. cbn [fst snd].
  apply wp_bind. unfold wp at 1, log. cbn [fst snd w_log].
  apply wp_bind, (wp_respects same_state); [apply same_guard|]. intros [[]|] w3 (_ & _ & L3); [|done].
  unfold wp. cbn. intros _. exists (is_ok r), []. cbn [w_log] in L3. congruence.
Qed.

Lemma scan_reads b ts : forall obs sources sp w,
  wp (scan expected b ts obs sources sp) (fun r w' => is_ok r = true -> exists l,
    w_log w' = w_log w ++ l /\ forall t, t ∈ ts -> exists ok, CVerify t b ok ∈ l) w.
Proof.
  induction ts as [|t ts IH]; intros obs sources sp w; cbn [scan].
  { unfold wp. cbn. intros _. exists []. rewrite app_nil_r. split; [done|]. by intros t ?%elem_of_nil. }
  apply wp_bind. eapply wp_impl; [apply checked_verify_logs|].
  intros r w1 H1. destruct r as [r|]; [|done]. destruct (H1 eq_refl) as (ok & l1 & E1).
  assert (forall obs' sources' sp' w2, w_log w2 = w_log w1 ->
    wp (scan expected b ts obs' sources' sp') (fun r w' => is_ok r = true -> exists l,
      w_log w' = w_log w ++ l /\ forall x, x ∈ t :: ts -> exists ok, CVerify x b ok ∈ l) w2) as Hrec.
  { intros obs' sources' sp' w2 E2. eapply wp_impl; [apply IH|]. intros r' w3 H3 Hr.
    destruct (H3 Hr) as (l & E3 & Hl). exists ((CVerify t b ok :: l1) ++ l).
    split; [by rewrite E3, E2, E1, app_assoc|]. intros x [->|Hx]%elem_of_cons.
    - exists ok. apply elem_of_app. left. left.
    - destruct (Hl x Hx) as [ok' Hok]. exists ok'. apply elem_of_app. by right. }
  destruct r as [[]|reason]; [|by apply Hrec].
  apply wp_bind, wp_now. intros n e. by apply Hrec.
Qed.

Lemma prefix_respects {A} (m : M A) w : respects (keeps fst) m -> w_log w `prefix_of` w_log (m w).2.
Proof. intros H. apply H. Qed.

Abbreviation n_blobs := (Z.of_nat (length (blobs (policy expected)))).

Lemma one_blob_progress limits b index sp w :
  wp (one_blob expected has_signer limits b index sp) (fun r w' => is_ok r = true ->
    exists l s, w_log w' = w_log w ++ l /\ scanned b l /\ memory w' = Some s /\
      cursor s = (index + 1) mod n_blobs) w.
Proof.
  unfold one_blob. apply wp_bind. eapply wp_impl; [apply scan_reads|].
  intros [[[o sources] sp1]|] w1 H1; [|done]. destruct (H1 eq_refl) as (l1 & E1 & Hl1).
  apply wp_bind, wp_get_snapshot; [|done]. intros s1 _.
  apply wp_bind, (wp_respects (keeps id)); [apply keeps_repair_loop|]. intros [r2|] w2 [[l2 E2] _ _]; [|done].
  apply wp_bind, wp_modify; [|done]. intros s2 _.
  apply wp_bind, wp_save. intros [[]|] w3 [V1 V2 _ _ _ _]; [|done].
  unfold wp. cbn [ret fst snd]. intros _. cbn in V1, V2.
  eexists (l1 ++ l2), _. split_and!; [by rewrite V2, E2, E1, app_assoc| |exact V1|done].
  by apply scanned_app_l.
Qed.

(** The blobs at [k] places from [start] on were all scanned. *)
Definition covers (start k : Z) (l : list Call) : Prop :=
  forall j b, 0 <= j < k -> blobs (policy expected) !! Z.to_nat ((start + j) mod n_blobs) = Some b ->
    scanned b l.

Lemma covers_app start k k' l l' :
  covers start k l -> covers (start + k) k' l' -> covers start (k + k') (l ++ l').
Proof.
  intros H H' j b Hj Hb. destruct (Z_lt_le_dec j k).
  - apply scanned_app_l. by apply (H j b); [lia|].
  - apply scanned_app_r. apply (H' (j - k) b); [lia|]. by replace (start + k + (j - k)) with (start + j) by lia.
Qed.

Lemma covers_mod start start' k l :
  0 < n_blobs -> start mod n_blobs = start' mod n_blobs -> covers start k l -> covers start' k l.
Proof.
  intros Hn E H j b Hj. rewrite <- Z.add_mod_idemp_l, <- E, Z.add_mod_idemp_l by lia. by apply H.
Qed.

(** The next blob fits what is left of the budget, whichever it is. *)
Definition fits (limits : Limits) (sp : Spent) : Prop :=
  forall b, b ∈ blobs (policy expected) ->
    used sp + blob_size b * (target_count expected + mirrors limits - attempts sp)
      <= verification_bytes limits.

Lemma blob_loop_progress limits start m : forall i sp w s,
  0 < n_blobs -> memory w = Some s -> cursor s mod n_blobs = (start + Z.of_nat i) mod n_blobs ->
  wp (blob_loop expected has_signer limits start (seq i m) sp) (fun r w' => is_ok r = true ->
    exists k l s', 0 <= k /\ (fits limits sp -> (0 < m)%nat -> 1 <= k) /\ w_log w' = w_log w ++ l /\
      memory w' = Some s' /\ cursor s' mod n_blobs = (start + Z.of_nat i + k) mod n_blobs /\
      covers (start + Z.of_nat i) k l) w.
Proof.
  induction m as [|m IH]; intros i sp w s Hn Em Ec; cbn [seq blob_loop].
  { unfold wp. cbn. intros _. exists 0, [], s. rewrite app_nil_r, Z.add_0_r. split_and!; try done; [lia|].
    intros j b Hj. lia. }
  set (index := (start + Z.of_nat i) mod n_blobs).
  destruct (blobs (policy expected) !! Z.to_nat index) as [b|] eqn:Eb; [|done].
  destruct (Z.ltb_spec (verification_bytes limits)
    (used sp + blob_size b * (target_count expected + mirrors limits - attempts sp))) as [Hlt|Hle].
  { unfold wp. cbn. intros _. exists 0, [], s. rewrite app_nil_r, Z.add_0_r. split_and!; try done.
    - intros Hf _. apply list_elem_of_lookup_2, Hf in Eb. lia.
    - intros j b' Hj. lia. }
  apply wp_bind. eapply wp_impl; [apply one_blob_progress|]. intros [sp1|] w1 H1; [|done].
  destruct (H1 eq_refl) as (l1 & s1 & E1 & Hs1 & M1 & C1).
  assert (cursor s1 mod n_blobs = (start + Z.of_nat (S i)) mod n_blobs) as C1'.
  { rewrite C1, Z.mod_mod by lia. unfold index. rewrite Z.add_mod_idemp_l by lia. f_equal. lia. }
  eapply wp_impl; [by apply (IH (S i) sp1 w1 s1 Hn M1)|]. intros r w2 H2 Hr.
  destruct (H2 Hr) as (k & l2 & s2 & K1 & _ & E2 & M2 & C2 & Hc).
  exists (1 + k), (l1 ++ l2), s2. split_and!; try done; try lia.
  - by rewrite E2, E1, app_assoc.
  - rewrite C2. f_equal. lia.
  - apply covers_app; [|by replace (start + Z.of_nat i + 1) with (start + Z.of_nat (S i)) by lia].
    intros j b' Hj. replace j with 0 by lia. rewrite Z.add_0_r. fold index. rewrite Eb. by intros [= <-].
Qed.

Lemma limits_fit limits :
  limits_ok limits expected = Ok tt -> stopped expected = false -> 0 <= desired_groups (policy expected) ->
  fits limits {| used := 0; attempts := 0; writes := 0 |}.
Proof.
  unfold limits_ok, stopped. intros H Hs Hd b Hb. apply Z.eqb_neq in Hs.
  destruct (negb _ || _ || _); [done|].
  rewrite (proj2 (Z.ltb_lt 0 _)) in H by lia. cbn [andb] in H.
  destruct (existsb _ _) eqn:E; [done|]. cbn [used attempts].
  destruct (Z_lt_le_dec (verification_bytes limits) (blob_size b * (target_count expected + mirrors limits)))
    as [Hlt|]; [|lia].
  exfalso. assert (existsb (fun b => verification_bytes limits <? blob_size b *
    (target_count expected + mirrors limits)) (blobs (policy expected)) = true) as E'; [|congruence].
  apply existsb_exists. exists b. split; [by apply list_elem_of_In|]. by apply Z.ltb_lt.
Qed.

(** The snapshot records the policy of the pass. *)
Definition current (s : Snapshot) : Prop :=
  s_owner s = owner expected /\ s_policy_id s = policy_id (policy expected) /\
  s_event_id s = event_id expected /\ s_revision s <= revision (policy expected).

Lemma accepted_current m s : accepted expected m s -> current s.
Proof. intros [(_ & H)|[-> _]]; [done|]. split_and!; cbn; lia || done. Qed.

Lemma accepted_again s s0 : current s -> accepted expected (Some s) s0 -> s0 = s.
Proof. intros (_ & _ & E & _) [([= ->] & _)|[-> H]]; [done|]. by destruct (H s eq_refl). Qed.

Lemma current_ident s s' : ident s' = ident s -> current s -> current s'.
Proof. unfold ident, core. cbn. intros [= E1 E2 E3 E4]. unfold current. by rewrite E1, E2, E3, E4. Qed.

(** A completed pass scans at least one blob and moves the cursor past what
    it scanned. *)
Lemma run_pass_progress limits w rep w' :
  0 < n_blobs -> 0 < desired_groups (policy expected) ->
  run_pass expected has_signer limits w = (Ok rep, w') ->
  exists s0 s k l, accepted expected (memory w) s0 /\ memory w' = Some s /\ ident s = ident s0 /\ 1 <= k /\
    cursor s mod n_blobs = (cursor s0 + k) mod n_blobs /\ w_log w' = w_log w ++ l /\ covers (cursor s0) k l.
Proof.
  intros Hn Hd. unfold run_pass.
  destruct (pass_inner expected has_signer limits w) as [r w1] eqn:E.
  destruct r as [rep1|]; [|by unfold bind, throw; destruct (invalidate w1) as [[[]|] ?]].
  intros [= -> ->]. revert E. unfold pass_inner.
  assert (stopped expected = false) as Hst by (apply Z.eqb_neq; lia).
  intros E.
  enough (wp (pass_inner expected has_signer limits) (fun r w' => is_ok r = true ->
    exists s0 s k l, accepted expected (memory w) s0 /\ memory w' = Some s /\ ident s = ident s0 /\ 1 <= k /\
    cursor s mod n_blobs = (cursor s0 + k) mod n_blobs /\ w_log w' = w_log w ++ l /\
    covers (cursor s0) k l) w) as H.
  { unfold wp, pass_inner in H. rewrite E in H. by apply H. }
  clear E. unfold pass_inner.
  apply wp_bind. eapply wp_impl; [by apply (begin_accepts (fun _ => True))|].
  intros [c|] w2 (_ & L2 & H2); [|done]. destruct (H2 c eq_refl) as (Hl & s0 & s2 & Ha & M2 & C2 & ->).
  apply wp_bind. unfold all_blobs. rewrite Hst.
  pose proof (keeps_all_blobs expected has_signer limits (cursor s0) w2) as K.
  unfold all_blobs in K. rewrite Hst in K.
  assert (cursor s2 mod n_blobs = (cursor s0 + Z.of_nat 0) mod n_blobs) as C20
    by (rewrite Z.add_0_r; by injection C2 as _ _ _ _ ->).
  eapply wp_impl; [apply (wp_and _ _ (fun _ w' => keeps fst w2 w') w2
    (blob_loop_progress limits (cursor s0) _ 0 _ w2 s2 Hn M2 C20) K)|].
  intros [sp|] w3 [H3 K3]; [|done]. destruct (H3 eq_refl) as (k & l & s3 & K0 & K1 & L3 & M3 & C3 & Hc).
  apply (wp_respects (silently (keeps id))); [apply finish_silent|].
  intros r w4 [K4 L4] _. destruct (keeps_some w3 w4 s3 K4 M3) as (s4 & M4 & C4).
  rewrite Z.add_0_r in C3, Hc.
  exists s0, s4, k, l. split_and!; try done.
  - destruct K3 as [_ K3 _]. rewrite M2, M3 in K3. apply (inj Some) in K3. unfold ident. congruence.
  - apply K1; [|lia]. by apply limits_fit; [..|lia].
  - by injection C4 as _ _ _ _ ->.
  - congruence.
Qed.

(** [n] passes of one coordinator that all complete, with anything happening
    outside between them. *)
Inductive passes (limits : Limits) : nat -> World -> World -> Prop :=
| passes_none w : passes limits 0 w w
| passes_more n w rep w1 d e w' :
    run_pass expected has_signer limits w = (Ok rep, w1) ->
    passes limits n (with_outside d e w1) w' -> passes limits (S n) w w'.

Lemma passes_cover limits n w w' :
  0 < n_blobs -> 0 < desired_groups (policy expected) -> passes limits n w w' ->
  forall s, memory w = Some s -> current s ->
  exists k l, Z.of_nat n <= k /\ w_log w' = w_log w ++ l /\ covers (cursor s) k l.
Proof.
  intros Hn Hd H. induction H as [w|n w rep w1 d e w' E _ IH]; intros s Es Hs.
  { exists 0, []. rewrite app_nil_r. split_and!; [lia|done|]. intros j b Hj. lia. }
  destruct (run_pass_progress limits w rep w1 Hn Hd E)
    as (s0 & s1 & k & l & Ha & M1 & I1 & K1 & C1 & L1 & Hc).
  rewrite Es in Ha. apply accepted_again in Ha as ->; [|done].
  destruct (IH s1 M1 (current_ident s s1 I1 Hs)) as (k' & l' & K2 & L2 & Hc').
  exists (k + k'), (l ++ l'). split_and!; [lia|cbn in L2; by rewrite L2, L1, app_assoc|].
  apply covers_app; [done|]. by apply (covers_mod (cursor s1)).
Qed.

Lemma covers_all start k l b :
  n_blobs <= k -> covers start k l -> b ∈ blobs (policy expected) -> scanned b l.
Proof.
  intros Hk Hc [i Hi]%list_elem_of_lookup. pose proof (lookup_lt_Some _ _ _ Hi) as Hlt.
  apply (Hc ((Z.of_nat i - start) mod n_blobs) b).
  - pose proof (Z.mod_pos_bound (Z.of_nat i - start) n_blobs ltac:(lia)). lia.
  - rewrite Z.add_mod_idemp_r by lia. replace (start + (Z.of_nat i - start)) with (Z.of_nat i) by lia.
    rewrite Z.mod_small, Nat2Z.id by lia. done.
Qed.

Lemma passes_scan_all limits n w w' b :
  0 < desired_groups (policy expected) -> b ∈ blobs (policy expected) -> n_blobs <= Z.of_nat n ->
  passes limits n w w' -> exists l, w_log w' = w_log w ++ l /\ scanned b l.
Proof.
  intros Hd Hb Hle H. pose proof Hb as [i Hi]%list_elem_of_lookup.
  pose proof (lookup_lt_Some _ _ _ Hi) as Hlt. destruct H as [|n w rep w1 d e w' E H]; [cbn in Hle; lia|].
  destruct (run_pass_progress limits w rep w1 ltac:(lia) Hd E)
    as (s0 & s1 & k & l & Ha & M1 & I1 & K1 & C1 & L1 & Hc).
  destruct (passes_cover limits n _ w' ltac:(lia) Hd H s1 M1) as (k' & l' & K2 & L2 & Hc').
  { by apply (current_ident s0), (accepted_current (memory w)). }
  exists (l ++ l'). split; [cbn in L2; by rewrite L2, L1, app_assoc|].
  apply (covers_all (cursor s0) (k + k')); [lia| |done].
  apply covers_app; [done|]. by apply (covers_mod (cursor s1)); [lia|..].
Qed.
End Progress.
