(* ===== verification/ReplicaPolicyProofs.v ===== *)
(** * Replicas: what a signed policy and a signed authorisation promise

    The declarative reading of [Policy::validate], what [verify_policy] and
    [verify_return] accept, and the base32 decoder of onion addresses. *)
From S2P Require Import Prelude ReplicaPolicy.

Section Valid.
Context `{PL : PolicyLib}.

(** ** [Policy::validate] *)

Definition valid_target (p : Profile) (t : Target) : Prop :=
  identifier (target_id t) = true /\ identifier (failure_group t) = true /\
  exists url, url_parse (target_origin t) = Some url /\ as_str url = target_origin t /\ accepts p url = true.

Definition valid_blob (b : Blob) : Prop :=
  canonical_hex (blob_sha256 b) 32 = true /\ blob_size b <> 0 /\ blob_size b <= MAX_BLOB_BYTES.

(** The failure groups with an owner target. *)
Definition owner_groups (ts : list Target) : gset string :=
  list_to_set (map failure_group (List.filter (fun t => bool_decide (retention t = Owner)) ts)).

Record valid_policy (p : Policy) : Prop := {
  vp_type : policy_type p = "wildbloom.replica-policy"%string;
  vp_version : policy_version p = 1;
  vp_id : identifier (policy_id p) = true;
  vp_revision : revision p <> 0;
  vp_expires : policy_expires p <> 0;
  vp_targets_len : Z.of_nat (length (targets p)) <= 16;
  vp_blobs_len : Z.of_nat (length (blobs p)) <= 128;
  vp_targets : Forall (valid_target (profile p)) (targets p);
  vp_ids : NoDup (map target_id (targets p));
  vp_origins : NoDup (map target_origin (targets p));
  vp_blobs : Forall valid_blob (blobs p);
  vp_hashes : NoDup (map blob_sha256 (blobs p));
  vp_groups : desired_groups p <= Z.of_nat (size (owner_groups (targets p)));
  vp_some_blob : 0 < desired_groups p -> blobs p <> []
}.

(** What the loop over the targets has seen after [t]. *)
Definition see (seen : Seen) (t : Target) : Seen :=
  {| ids := target_id t :: ids seen; origins := target_origin t :: origins seen;
     groups_seen := if bool_decide (retention t = Owner)
                       && negb (bool_decide (failure_group t ∈ groups_seen seen))
                    then failure_group t :: groups_seen seen else groups_seen seen |}.

Lemma validate_targets_iff p ts : forall seen seen',
  validate_targets p seen ts = Ok seen' <->
  Forall (valid_target p) ts /\ NoDup (map target_id ts) /\ NoDup (map target_origin ts) /\
  (forall t, t ∈ ts -> (target_id t ∉ ids seen) /\ (target_origin t ∉ origins seen)) /\
  seen' = foldl see seen ts.
Proof.
  induction ts as [|t ts IH]; intros seen seen'; cbn [validate_targets foldl map].
  { split; [intros [= <-]; split_and!; try constructor|by intros (_ & _ & _ & _ & ->)].
    all: by apply elem_of_nil in H. }
  destruct ((_ || bool_decide (target_origin t ∈ origins seen))) eqn:E1.
  { split; [done|]. intros (HF & _ & _ & Hs & _). exfalso. inversion HF as [|?? (H1 & H2 & _)]; subst.
    destruct (Hs t ltac:(left)) as [H3 H4]. rewrite H1, H2 in E1. cbn in E1.
    rewrite !bool_decide_eq_false_2 in E1 by done. done. }
  apply orb_false_iff in E1 as [E1 E4]. apply orb_false_iff in E1 as [E1 E3].
  apply orb_false_iff in E1 as [E1 E2]. apply negb_false_iff in E1, E2.
  apply bool_decide_eq_false in E3, E4.
  destruct (url_parse (target_origin t)) as [url|] eqn:Eu; cbn [ok_or].
  2:{ split; [done|]. intros (HF & _). inversion HF as [|?? (_ & _ & url & H & _)]; subst. congruence. }
  destruct (negb _ || negb (accepts p url)) eqn:E5.
  { split; [done|]. intros (HF & _). inversion HF as [|?? (_ & _ & url' & H1 & H2 & H3)]; subst.
    rewrite H1 in Eu. injection Eu as ->. rewrite H3, bool_decide_eq_true_2 in E5 by done. done. }
  apply orb_false_iff in E5 as [E5 E6]. apply negb_false_iff in E5, E6. apply bool_decide_eq_true in E5.
  fold (see seen t). rewrite IH, Forall_cons, !NoDup_cons.
  assert (valid_target p t) as Hv by (split_and!; eauto). clear IH. split.
  - intros (H1 & H2 & H3 & H4 & ->). split_and!; try done.
    + intros Hin%list_elem_of_In%in_map_iff. destruct Hin as (x & Ex & Hx%list_elem_of_In).
      destruct (H4 x Hx) as [Hn _]. apply Hn. rewrite Ex. left.
    + intros Hin%list_elem_of_In%in_map_iff. destruct Hin as (x & Ex & Hx%list_elem_of_In).
      destruct (H4 x Hx) as [_ Hn]. apply Hn. rewrite Ex. left.
    + intros x [->|Hx]%elem_of_cons; [done|]. destruct (H4 x Hx) as [Ha Hb]. cbn in Ha, Hb.
      split; [intros H; apply Ha; by right|intros H; apply Hb; by right].
  - intros ([_ H1] & [N1 H2] & [N2 H3] & H4 & ->). split_and!; try done.
    intros x Hx. destruct (H4 x ltac:(by right)) as [Ha Hb]. cbn [see ids origins]. split.
    + intros [E|H]%elem_of_cons; [|done]. apply N1. rewrite <- E. apply list_elem_of_In, in_map.
      by apply list_elem_of_In.
    + intros [E|H]%elem_of_cons; [|done]. apply N2. rewrite <- E. apply list_elem_of_In, in_map.
      by apply list_elem_of_In.
Qed.

Lemma see_groups ts : forall seen, NoDup (groups_seen seen) ->
  NoDup (groups_seen (foldl see seen ts)) /\
  list_to_set (groups_seen (foldl see seen ts)) = (list_to_set (groups_seen seen) ∪ owner_groups ts : gset string).
Proof.
  unfold owner_groups. induction ts as [|t ts IH]; intros seen Hn; cbn [foldl List.filter map list_to_set].
  { split; [done|set_solver]. }
  assert (NoDup (groups_seen (see seen t))) as Hn'.
  { cbn. destruct (bool_decide (retention t = Owner)); [|done]. cbn.
    destruct (bool_decide_reflect (failure_group t ∈ groups_seen seen)); [done|]. by constructor. }
  destruct (IH (see seen t) Hn') as [H1 H2]. split; [done|]. rewrite H2. cbn [see groups_seen].
  clear IH Hn Hn' H1 H2.
  destruct (bool_decide (retention t = Owner)); cbn [andb map list_to_set]; [|done].
  destruct (bool_decide_reflect (failure_group t ∈ groups_seen seen)) as [Hin|Hin]; cbn [negb list_to_set];
    [|set_solver].
  assert (failure_group t ∈ (list_to_set (groups_seen seen) : gset string)) by (by apply elem_of_list_to_set).
  set_solver.
Qed.

Lemma validate_blobs_iff bs : forall hashes,
  validate_blobs hashes bs = Ok tt <->
  Forall valid_blob bs /\ NoDup (map blob_sha256 bs) /\ forall b, b ∈ bs -> blob_sha256 b ∉ hashes.
Proof.
  induction bs as [|b bs IH]; intros hashes; cbn [validate_blobs map].
  { split; [intros _; split_and!; [constructor..|by intros b ?%elem_of_nil]|done]. }
  destruct (_ || bool_decide (blob_sha256 b ∈ hashes)) eqn:E.
  { split; [done|]. intros (HF & _ & Hh). exfalso. inversion HF as [|?? (H1 & H2 & H3)]; subst.
    rewrite H1, bool_decide_eq_false_2, (proj2 (Z.eqb_neq _ _) H2), (proj2 (Z.ltb_ge _ _) H3) in E;
      [done|]. apply Hh. left. }
  apply orb_false_iff in E as [E E4]. apply orb_false_iff in E as [E E3].
  apply orb_false_iff in E as [E1 E2]. apply negb_false_iff in E1. apply Z.eqb_neq in E2.
  apply Z.ltb_ge in E3. apply bool_decide_eq_false in E4.
  rewrite IH, Forall_cons, NoDup_cons. split.
  - intros (H1 & H2 & H3). split_and!; try done.
    + intros Hin%list_elem_of_In%in_map_iff. destruct Hin as (x & Ex & Hx%list_elem_of_In).
      apply (H3 x Hx). rewrite Ex. left.
    + intros x [->|Hx]%elem_of_cons; [done|]. intros H. apply (H3 x Hx). by right.
  - intros ([_ H1] & [N1 H2] & H3). split_and!; try done. intros x Hx [E|H]%elem_of_cons.
    + apply N1. rewrite <- E. apply list_elem_of_In, in_map. by apply list_elem_of_In.
    + apply (H3 x); [by right|done].
Qed.

Lemma validate_iff p : validate p = Ok tt <-> valid_policy p.
Proof.
  unfold validate.
  destruct (_ || (128 <? Z.of_nat (length (blobs p)))) eqn:E.
  { split; [done|]. intros [V1 V2 V3 V4 V5 V6 V7]. exfalso.
    rewrite (bool_decide_eq_true_2 _ V1), V2, V3, (proj2 (Z.eqb_neq _ _) V4), (proj2 (Z.eqb_neq _ _) V5),
      (proj2 (Z.ltb_ge _ _) V6), (proj2 (Z.ltb_ge _ _) V7) in E. done. }
  repeat match goal with H : _ || _ = false |- _ => apply orb_false_iff in H as [? ?] end.
  repeat match goal with H : negb _ = false |- _ => apply negb_false_iff in H end.
  repeat match goal with
    | H : bool_decide _ = true |- _ => apply bool_decide_eq_true in H
    | H : (_ =? _) = true |- _ => apply Z.eqb_eq in H
    | H : (_ =? _) = false |- _ => apply Z.eqb_neq in H
    | H : (_ <? _) = false |- _ => apply Z.ltb_ge in H end.
  set (start := {| ids := []; origins := []; groups_seen := [] |}).
  destruct (see_groups (targets p) start ltac:(constructor)) as [Gn Gs].
  destruct (validate_targets (profile p) start (targets p)) as [seen|] eqn:Et.
  2:{ split; [done|]. intros V. exfalso.
      assert (validate_targets (profile p) start (targets p) = Ok (foldl see start (targets p))) as Ht;
        [|congruence].
      apply validate_targets_iff. split_and!; try apply V; [|done]. intros t _. split; by intros ?%elem_of_nil. }
  apply validate_targets_iff in Et as (T1 & T2 & T3 & _ & ->).
  destruct (validate_blobs [] (blobs p)) as [[]|] eqn:Eb.
  2:{ split; [done|]. intros V. exfalso. assert (validate_blobs [] (blobs p) = Ok tt); [|congruence].
      apply validate_blobs_iff. split_and!; try apply V. by intros b _ ?%elem_of_nil. }
  apply validate_blobs_iff in Eb as (B1 & B2 & _).
  assert (size (owner_groups (targets p)) = length (groups_seen (foldl see start (targets p)))) as Hsize.
  { rewrite <- (size_list_to_set (C := gset string) _ Gn), Gs. f_equal. set_solver. }
  destruct (_ || _) eqn:E'.
  - split; [done|]. intros V. exfalso. apply orb_true_iff in E' as [E'|E'].
    + apply Z.ltb_lt in E'. pose proof (vp_groups p V). lia.
    + apply andb_true_iff in E' as [E1 E2]. apply Z.ltb_lt in E1. apply bool_decide_eq_true in E2.
      by apply (vp_some_blob p V).
  - split; [intros _|done]. apply orb_false_iff in E' as [E1 E2]. apply Z.ltb_ge in E1.
    split; try done; [lia|]. intros Hd Hb. rewrite (proj2 (Z.ltb_lt _ _) Hd), bool_decide_eq_true_2 in E2 by done.
    done.
Qed.

(** ** Signed events *)

(** What [signed_event] has checked. *)
Record event_ok (bytes own : string) (limit : Z) (ev : Event) : Prop := {
  eo_size : slen bytes <= limit;
  eo_parsed : event_from_json bytes = Some ev;
  eo_verified : event_verify ev = true;
  eo_author : exists raw, strict_event bytes = Some raw /\ raw_pubkey raw = own /\
    canonical_hex own 32 = true /\ raw_kind raw = ev_kind ev /\ raw_created_at raw = ev_created_at ev
}.

Lemma signed_event_inv bytes own limit ev :
  signed_event bytes own limit = Ok ev -> event_ok bytes own limit ev.
Proof.
  unfold signed_event. destruct (Z.ltb_spec limit (slen bytes)); [done|].
  destruct (strict_event bytes) as [raw|] eqn:Er; cbn [ok_or]; [|done].
  destruct (_ || negb (bool_decide (raw_pubkey raw = own))) eqn:E1; [done|].
  apply orb_false_iff in E1 as [E1 E2]. apply negb_false_iff, bool_decide_eq_true in E2.
  apply orb_false_iff in E1 as [E1 _]. apply orb_false_iff in E1 as [_ E1]. apply negb_false_iff in E1.
  destruct (_ || existsb _ _); [done|].
  destruct (event_from_json bytes) as [ev'|] eqn:Ee; cbn [ok_or]; [|done].
  destruct (event_verify ev') eqn:Ev; cbn [negb]; [|done].
  destruct (negb (_ =? _) || _) eqn:E3; [done|]. intros [= <-].
  apply orb_false_iff in E3 as [E3 E4]. apply negb_false_iff, Z.eqb_eq in E3, E4.
  split; try done. exists raw. subst own. by split_and!.
Qed.

Lemma policy_template_inv p own n u :
  policy_template p own n = Ok u ->
  valid_policy p /\ n < policy_expires p /\ canonical_hex own 32 = true /\ un_kind u = 30078 /\
  un_pubkey u = own /\ un_created_at u = n /\ policy_to_json p = Some (un_content u).
Proof.
  unfold policy_template. destruct (validate p) as [[]|] eqn:Ev; [|done].
  destruct (Z.leb_spec (policy_expires p) n); [done|].
  destruct (canonical_hex own 32); [|done]. destruct (public_key own); [|done].
  destruct (policy_to_json p) as [c|]; [|done]. cbn. intros [= <-]. apply validate_iff in Ev. by split_and!.
Qed.

Lemma verify_policy_inv bytes own n vp :
  verify_policy bytes own n = Ok vp ->
  exists ev u, event_ok bytes own MAX_POLICY_BYTES ev /\ owner vp = own /\ event_id vp = ev_id ev /\
    ev_kind ev = 30078 /\ policy_template (policy vp) own (ev_created_at ev) = Ok u /\
    ev_tags ev = un_tags u /\ ev_content ev = un_content u /\
    ev_created_at ev <= saturating_add n 30 /\ n < policy_expires (policy vp).
Proof.
  unfold verify_policy. destruct (signed_event bytes own MAX_POLICY_BYTES) as [ev|] eqn:Ee; [|done].
  apply signed_event_inv in Ee. destruct (Z.eqb_spec (ev_kind ev) 30078) as [Ek|]; cbn [negb]; [|done].
  destruct (policy_from_json (ev_content ev)) as [p|]; cbn [ok_or]; [|done].
  destruct (validate p) as [[]|]; [|done].
  destruct (_ || _) eqn:E1; [done|]. apply orb_false_iff in E1 as [E1 _].
  apply orb_false_iff in E1 as [E1 E2]. apply Z.leb_gt in E1. apply Z.ltb_ge in E2.
  destruct (policy_template p own (ev_created_at ev)) as [u|] eqn:Et; [|done].
  destruct (negb _ || negb _) eqn:E3; [done|]. intros [= <-].
  apply orb_false_iff in E3 as [E3 E4]. apply negb_false_iff, bool_decide_eq_true in E3, E4.
  exists ev, u. by split_and!.
Qed.

Lemma verify_policy_template p own n0 u bytes ev n :
  policy_template p own n0 = Ok u -> signed_event bytes own MAX_POLICY_BYTES = Ok ev ->
  ev_kind ev = un_kind u -> ev_created_at ev = un_created_at u -> ev_tags ev = un_tags u ->
  ev_content ev = un_content u -> policy_from_json (un_content u) = Some p ->
  n0 <= saturating_add n 30 -> n < policy_expires p ->
  verify_policy bytes own n = Ok {| policy := p; owner := own; event_id := ev_id ev |}.
Proof.
  intros Hu He Hk Hc Ht Hco Hj Hn1 Hn2. pose proof (policy_template_inv p own n0 u Hu)
    as (Hv & Hx & _ & Ek & _ & Ec & _).
  unfold verify_policy. rewrite He, Hk, Ek. cbn [Z.eqb negb Pos.eqb]. rewrite Hco, Hj. cbn [ok_or].
  rewrite (proj2 (validate_iff p) Hv). rewrite Hc, Ec.
  rewrite (proj2 (Z.leb_gt _ _) Hn2), (proj2 (Z.ltb_ge _ _) Hn1), (proj2 (Z.leb_gt _ _) Hx). cbn [orb].
  rewrite Hu, Ht, bool_decide_eq_true_2, bool_decide_eq_true_2 by done. done.
Qed.

(** ** Authorisations *)

Lemma repair_template_inv vp b t n u :
  repair_template vp b t n = Ok u ->
  exists url host, url_parse (target_origin t) = Some url /\ host_str url = Some host /\
    un_pubkey u = owner vp /\ tag_value "server" (un_tags u) = Some host /\
    tag_value "x" (un_tags u) = Some (blob_sha256 b).
Proof.
  unfold repair_template. destruct (url_parse (target_origin t)) as [url|]; cbn [ok_or]; [|done].
  destruct (host_str url) as [host|] eqn:Eh; cbn [ok_or]; [|done].
  destruct (negb _); [done|]. intros [= <-]. exists url, host. by split_and!.
Qed.

Lemma verify_return_inv bytes u n ev :
  verify_return bytes u n = Ok ev ->
  event_ok bytes (un_pubkey u) MAX_EVENT_BYTES ev /\ ev_id ev = compute_id u /\
  exists server hash, tag_value "server" (un_tags u) = Some server /\ tag_value "x" (un_tags u) = Some hash /\
    verify_upload server (un_pubkey u) (String.append "Nostr " (base64_url bytes)) hash n = true.
Proof.
  unfold verify_return. destruct (signed_event bytes _ _) as [ev'|] eqn:Ee; [|done].
  apply signed_event_inv in Ee. destruct (negb _) eqn:Ei; [done|].
  apply negb_false_iff, bool_decide_eq_true in Ei.
  destruct (tag_value "server" _) as [server|] eqn:Es; cbn [ok_or]; [|done].
  destruct (tag_value "x" _) as [hash|] eqn:Ex; cbn [ok_or]; [|done].
  destruct (verify_upload _ _ _ _ _) eqn:Eu; [|done]. intros [= <-]. split_and!; try done. eauto.
Qed.
End Valid.

(** ** Base32 *)

(** Big-endian values in base 32 and base 256. *)
Definition digits_value (base : Z) (ds : list Z) : Z := foldl (fun v d => v * base + d) 0 ds.

Lemma digits_value_app base ds d : digits_value base (ds ++ [d]) = digits_value base ds * base + d.
Proof. unfold digits_value. by rewrite foldl_app. Qed.

Lemma digits_value_cons base v ds :
  foldl (fun v d => v * base + d) v ds = v * base ^ Z.of_nat (length ds) + digits_value base ds.
Proof.
  unfold digits_value. revert v. induction ds as [|d ds IH]; intros v; cbn [foldl length]; [cbn; lia|].
  rewrite IH, (IH (0 * base + d)), Nat2Z.inj_succ, Z.pow_succ_r by lia. lia.
Qed.

Lemma base32_value_range b v : base32_value b = Some v -> 0 <= v < 32.
Proof.
  unfold base32_value, in_range. destruct (Z.leb_spec 97 b), (Z.leb_spec b 122); cbn [andb];
  destruct (Z.leb_spec 50 b), (Z.leb_spec b 55); cbn [andb]; intros [= <-]; lia.
Qed.

Lemma land_shift5 a v : 0 <= v < 32 -> Z.land (Z.shiftl a 5) v = 0.
Proof.
  intros H. apply Z.bits_inj'. intros n Hn. rewrite Z.land_spec, Z.bits_0.
  destruct (Z.ltb_spec n 5); [by rewrite Z.shiftl_spec_low by lia|].
  destruct (Z.eq_dec v 0) as [->|]; [by rewrite Z.bits_0, andb_false_r|].
  rewrite (Z.bits_above_log2 v n), andb_false_r; [done|lia|].
  apply Z.log2_lt_pow2; [lia|]. apply (Z.lt_le_trans _ (2 ^ 5)); [lia|apply Z.pow_le_mono_r; lia].
Qed.

(** One step of the accumulator: the low [bits + 5] bits are the old low bits
    with the new digit behind them. *)
Lemma base32_step acc v bits :
  0 <= acc < 2 ^ 16 -> 0 <= v < 32 -> 0 <= bits < 8 ->
  let acc' := Z.land (Z.lor (Z.shiftl acc 5) v) 0xffff in
  0 <= acc' < 2 ^ 16 /\ acc' mod 2 ^ (bits + 5) = (acc mod 2 ^ bits) * 32 + v.
Proof.
  intros Ha Hv Hb acc'.
  assert (acc' = (acc * 32 + v) mod 2 ^ 16) as ->.
  { unfold acc'. change 0xffff with (Z.ones 16). rewrite Z.land_ones by lia. f_equal.
    pose proof (land_shift5 acc v Hv) as H0. rewrite <- Z.lxor_lor, <- Z.add_nocarry_lxor by done.
    rewrite Z.shiftl_mul_pow2 by lia. done. }
  split; [apply Z.mod_pos_bound; lia|].
  rewrite Z.mod_mod_divide.
  - rewrite Z.pow_add_r, (Z.mul_comm (2 ^ bits)) by lia. change (2 ^ 5) with 32.
    rewrite Z.rem_mul_r by lia. rewrite Z.div_add_l, (Z.div_small v), Z.add_0_r by lia.
    rewrite (Z.add_comm (acc * 32)), Z.mod_add, Z.mod_small by lia. lia.
  - exists (2 ^ (16 - (bits + 5))). rewrite <- Z.pow_add_r by lia. f_equal. lia.
Qed.

Lemma base32_loop_value l : forall acc bits decoded ds,
  0 <= acc < 2 ^ 16 -> 0 <= bits < 8 -> Forall (fun d => 0 <= d < 256) decoded ->
  mapM base32_value l = Some ds ->
  exists decoded' bits' low, base32_loop l acc bits decoded = Some (decoded', bits') /\
    Forall (fun d => 0 <= d < 256) decoded' /\ 0 <= bits' < 8 /\
    8 * Z.of_nat (length decoded') + bits' = 8 * Z.of_nat (length decoded) + bits + 5 * Z.of_nat (length l) /\
    0 <= low < 2 ^ bits' /\
    digits_value 256 decoded' * 2 ^ bits' + low
      = foldl (fun v d => v * 32 + d) (digits_value 256 decoded * 2 ^ bits + acc mod 2 ^ bits) ds.
Proof.
  induction l as [|c l IH]; intros acc bits decoded ds Ha Hb Hd Hm; cbn [base32_loop].
  { injection Hm as <-. exists decoded, bits, (acc mod 2 ^ bits). cbn [length]. split_and!; try done; try lia.
    all: apply Z.mod_pos_bound, Z.pow_pos_nonneg; lia. }
  apply mapM_Some in Hm. inversion Hm as [|? v ? ds' Hv Hds]; subst. apply mapM_Some in Hds.
  rewrite Hv. cbn beta iota zeta. pose proof (base32_value_range c v Hv) as Hr.
  destruct (base32_step acc v bits Ha Hr Hb) as [Ha' Hmod].
  set (acc' := Z.land _ 0xffff) in *. cbn [foldl length].
  assert ((digits_value 256 decoded * 2 ^ bits + acc mod 2 ^ bits) * 32 + v
          = digits_value 256 decoded * 2 ^ (bits + 5) + acc' mod 2 ^ (bits + 5)) as Hval.
  { rewrite Hmod, Z.pow_add_r by lia. change (2 ^ 5) with 32. lia. }
  destruct (Z.leb_spec 8 (bits + 5)) as [H8|H8].
  - set (byte := Z.land (Z.shiftr acc' (bits + 5 - 8)) 0xff).
    assert (byte = acc' mod 2 ^ (bits + 5) / 2 ^ (bits + 5 - 8)) as Hbyte.
    { unfold byte. change 0xff with (Z.ones 8). rewrite Z.land_ones, Z.shiftr_div_pow2 by lia.
      assert (0 < 2 ^ (bits + 5 - 8)) as Hpos by (apply Z.pow_pos_nonneg; lia).
      replace (2 ^ (bits + 5)) with (2 ^ (bits + 5 - 8) * 2 ^ 8) by (rewrite <- Z.pow_add_r by lia; f_equal; lia).
      set (q := 2 ^ (bits + 5 - 8)) in *. rewrite Z.rem_mul_r by lia.
      rewrite (Z.mul_comm q), Z.div_add by lia.
      rewrite (Z.div_small (acc' mod q)) by (apply Z.mod_pos_bound; lia). lia. }
    assert (0 <= byte < 256) as Hrange.
    { unfold byte. change 0xff with (Z.ones 8). rewrite Z.land_ones by lia. apply Z.mod_pos_bound. lia. }
    destruct (IH acc' (bits + 5 - 8) (decoded ++ [byte]) ds') as (d' & b' & low & E & F & B & N & Lw & V);
      try done; [lia|apply Forall_app; split; [done|by constructor]|].
    exists d', b', low. split_and!; try done; try lia; [rewrite length_app in N; cbn in N; lia|].
    rewrite V, digits_value_app, Hval. f_equal. rewrite Hbyte.
    assert (2 ^ (bits + 5) = 256 * 2 ^ (bits + 5 - 8)) as Hp.
    { change 256 with (2 ^ 8). rewrite <- Z.pow_add_r by lia. f_equal. lia. }
    assert ((acc' mod 2 ^ (bits + 5)) mod 2 ^ (bits + 5 - 8) = acc' mod 2 ^ (bits + 5 - 8)) as Hmm.
    { apply Z.mod_mod_divide. exists 256. lia. }
    rewrite <- Hmm, Hp. set (x := acc' mod _).
    pose proof (Z.div_mod x (2 ^ (bits + 5 - 8)) ltac:(apply Z.pow_nonzero; lia)). nia.
  - destruct (IH acc' (bits + 5) decoded ds') as (d' & b' & low & E & F & B & N & Lw & V); try done; [lia|].
    exists d', b', low. split_and!; try done; try lia. by rewrite V, Hval.
Qed.

Lemma base32_loop_none l : forall acc bits decoded,
  mapM base32_value l = None -> base32_loop l acc bits decoded = None.
Proof.
  induction l as [|c l IH]; intros acc bits decoded Hm; [done|]. cbn [base32_loop].
  cbn [mapM] in Hm. destruct (base32_value c) as [v|]; [|done]. cbn in Hm.
  destruct (mapM base32_value l) eqn:E; [done|]. destruct (_ <=? _); by apply IH.
Qed.
