(* ===== verification/ReplicaTheorems.v ===== *)
(** * Replicas: the properties

    The coordinator's theorems, over every outside, and a small concrete
    coordinator on which their hypotheses hold. *)
From S2P Require Import Prelude ReplicaPolicy ReplicaState ReplicaEngine ReplicaSteps ReplicaProofs ReplicaRuns ReplicaProgress ReplicaPolicyProofs.

Section Theorems.
Context `{L : StateLib, Out : ReplicaOutside}.

(** C16: A maintenance pass, whether it completes or fails at any point, reads
    no more bytes than its byte limit and mirrors no more often than its attempt
    limit; every mirror goes to a configured owner target from a different
    configured target whose copy of that blob was read in full earlier in the
    same pass; and the counters of a completed pass are exactly what it did. *)
Theorem replica_pass_within_budget expected has_signer limits w r w' :
  counters_ok expected limits -> run_pass expected has_signer limits w = (r, w') ->
  exists l, w_log w' = w_log w ++ l /\ mirrors_ok expected l /\
    0 <= cost l <= verification_bytes limits /\ 0 <= mirrored l <= mirrors limits /\
    match r with
    | Ok rep => verification_bytes_reserved rep = cost l /\ mirror_attempts rep = mirrored l /\
                mirrored l <= repair_attempts rep <= mirrors limits
    | Err _ => True
    end.
Proof.
  intros Hc E. pose proof (run_pass_spec expected has_signer limits w Hc) as H. unfold wp in H. rewrite E in H.
  destruct H as (l & H1 & H2 & H3 & H4 & H5). exists l. split_and!; try done; try lia.
  destruct r; [|done]. by destruct H5 as (A & B & C & _).
Qed.

(** C23: The number of failure groups a completed pass reports for a blob is
    backed, group by group, by an owner target of that group whose copy of the
    blob the same pass read in full and found intact: nothing is carried over
    from an earlier pass and an acknowledgement alone never counts. *)
Theorem replica_report_rests_on_reads expected has_signer limits w rep w' br :
  counters_ok expected limits -> valid_policy (policy expected) ->
  run_pass expected has_signer limits w = (Ok rep, w') -> br ∈ r_blobs rep ->
  exists l b, w_log w' = w_log w ++ l /\ b ∈ blobs (policy expected) /\ br_sha256 br = blob_sha256 b /\
    verified_configured_groups br = Z.of_nat (size (groups expected (br_observations br))) /\
    forall g, g ∈ groups expected (br_observations br) ->
      exists t, t ∈ targets (policy expected) /\ retention t = Owner /\ failure_group t = g /\
        CVerify t b true ∈ l.
Proof.
  intros Hc Hv E Hbr. pose proof (run_pass_spec expected has_signer limits w Hc) as H. unfold wp in H.
  rewrite E in H. destruct H as (l & H1 & _ & _ & _ & _ & _ & _ & s & Hs & Hm & Er).
  rewrite Er in Hbr. apply list_elem_of_In, in_map_iff in Hbr as (b & <- & Hb%list_elem_of_In).
  exists l, b. split_and!; try done. unfold groups. intros g [x Hg]%elem_of_list_to_set%list_elem_of_fmap.
  destruct Hg as [-> Hx%list_elem_of_In]. apply filter_In in Hx as [Hx%list_elem_of_In Hf].
  apply andb_prop in Hf as [Hf1 Hf2]. apply bool_decide_eq_true in Hf1. exists x. split_and!; try done.
  cbn [blob_report br_observations] in Hf2.
  destruct (observations s !! blob_sha256 b) as [o|] eqn:Eo; cbn [default] in Hf2; [|done].
  change (is_verified (o !! target_id x) = true) in Hf2.
  destruct (o !! target_id x) as [[n|?| | | |]|] eqn:Ex; try done.
  destruct (Hm s Hs (blob_sha256 b) o (target_id x) n Eo Ex) as (b' & Hin & Eb & t & Ht & Ei & Hr).
  assert (b' = b) as -> by (exact (NoDup_map_inj _ _ _ _ (vp_hashes _ Hv) Hin Hb Eb)).
  by assert (t = x) as -> by (exact (NoDup_map_inj _ _ _ _ (vp_ids _ Hv) Ht Hx Ei)).
Qed.

(** C31: Rollback protection: over the whole life of a state directory (passes
    that complete or fail, restarts that read the state file back, anything
    happening outside), the policies under which passes completed only ever
    move forward.  A later one has the same owner and policy id and a higher
    revision, or is the very same signed event. *)
Theorem replica_policies_only_move_forward signed revision_of h w i j a b :
  (forall vp, signed vp -> revision (policy vp) = revision_of (event_id vp)) ->
  history signed h w -> (i < j)%nat -> h !! i = Some a -> h !! j = Some b ->
  owner a = owner b /\ policy_id (policy a) = policy_id (policy b) /\
  (revision (policy a) < revision (policy b) \/
   (revision (policy a) = revision (policy b) /\ event_id a = event_id b)).
Proof.
  intros Hb Hh Hij Ha Hb'. by apply (proj2 (history_directory signed revision_of Hb h w Hh) i j).
Qed.

(** A pass that fails leaves no evidence: the snapshot in memory has no
    observation, no pending request and no time of observation, and unless
    the error is itself one of the state directory, the same holds on disk and
    no pending request or signed authorisation is left in the directory. *)
Theorem replica_failed_pass_leaves_no_evidence expected has_signer limits w e w' :
  run_pass expected has_signer limits w = (Err e, w') ->
  (forall s, memory w' = Some s -> observations s = ∅ /\ pending s = ∅ /\ observed_at s = None) /\
  ((exists se, e = EState se) \/
   ((is_Some (memory w') -> disk w' = memory w') /\
    forall name, stale [] name = true -> dir w' !! name = None)).
Proof. intros E. exact (failed_pass expected has_signer limits w e w' E). Qed.

(** C36: No starvation: under a policy that asks for at least one group (one
    that asks for none is stopped, and its passes read nothing), as many
    completed passes in a row as the policy has blobs read every blob from
    every target, however large the blobs are next to each other and whatever
    happens outside between the passes. *)
Theorem replica_passes_reach_every_blob expected has_signer limits n w w' b t :
  0 < desired_groups (policy expected) ->
  Z.of_nat (length (blobs (policy expected))) <= Z.of_nat n ->
  passes expected has_signer limits n w w' -> b ∈ blobs (policy expected) -> t ∈ targets (policy expected) ->
  exists l ok, w_log w' = w_log w ++ l /\ CVerify t b ok ∈ l.
Proof.
  intros Hd Hn Hp Hb Ht. destruct (passes_scan_all expected has_signer limits n w w' b Hd Hb Hn Hp)
    as (l & El & Hl). destruct (Hl t Ht) as [ok Hok]. by exists l, ok.
Qed.

(** [Policy::validate] accepts exactly the policies of its declarative
    reading: the fixed type and version, at most 16 targets and 128 blobs,
    pairwise distinct identifiers, origins and hashes, every origin one its
    transport profile accepts, blob sizes up to 1 GiB, and no more desired
    groups than there are distinct failure groups with an owner target. *)
Theorem replica_validate_meets_spec (p : Policy) : validate p = Ok tt <-> valid_policy p.
Proof. apply validate_iff. Qed.

(** What [verify_policy] accepts was signed by the expected owner: the
    event verifies, names that owner as author, is of the policy kind, is not
    dated more than 30 seconds ahead, and its tags and content are exactly the
    canonical template of a valid, unexpired policy. *)
Theorem replica_verify_policy_sound bytes own n vp :
  verify_policy bytes own n = Ok vp ->
  owner vp = own /\ valid_policy (policy vp) /\ n < policy_expires (policy vp) /\
  exists ev u, event_ok bytes own MAX_POLICY_BYTES ev /\ event_id vp = ev_id ev /\ ev_kind ev = 30078 /\
    ev_created_at ev <= saturating_add n 30 /\
    policy_template (policy vp) own (ev_created_at ev) = Ok u /\
    ev_tags ev = un_tags u /\ ev_content ev = un_content u.
Proof.
  intros H. destruct (verify_policy_inv bytes own n vp H) as (ev & u & H1 & H2 & H3 & H4 & H5 & H6 & H7 & H8 & H9).
  pose proof (policy_template_inv _ _ _ _ H5) as (Hv & _). split_and!; try done. exists ev, u. by split_and!.
Qed.

(** Round trip: the template an owner is given to sign, once signed,
    verifies to the same policy until it expires. *)
Theorem replica_policy_round_trip p own n0 u bytes ev n :
  policy_template p own n0 = Ok u -> signed_event bytes own MAX_POLICY_BYTES = Ok ev ->
  ev_kind ev = un_kind u -> ev_created_at ev = un_created_at u -> ev_tags ev = un_tags u ->
  ev_content ev = un_content u ->
  (forall c, policy_to_json p = Some c -> policy_from_json c = Some p) ->
  n0 <= saturating_add n 30 -> n < policy_expires p ->
  verify_policy bytes own n = Ok {| policy := p; owner := own; event_id := ev_id ev |}.
Proof.
  intros Hu He Hk Hc Ht Hco Hj. apply (verify_policy_template p own n0 u); try done.
  apply Hj. by apply (policy_template_inv p own n0 u).
Qed.

(** An authorisation that [verify_return] accepts for a repair request is
    the owner's signature of exactly that request, and authorises an upload of
    that blob's hash to the host of that target only. *)
Theorem replica_authorisation_binds_repair vp b t n0 u bytes n ev :
  repair_template vp b t n0 = Ok u -> verify_return bytes u n = Ok ev ->
  event_ok bytes (owner vp) MAX_EVENT_BYTES ev /\ ev_id ev = compute_id u /\
  exists url host, url_parse (target_origin t) = Some url /\ host_str url = Some host /\
    verify_upload host (owner vp) (String.append "Nostr " (base64_url bytes)) (blob_sha256 b) n = true.
Proof.
  intros Hu Hr. destruct (repair_template_inv vp b t n0 u Hu) as (url & host & E1 & E2 & E3 & E4 & E5).
  destruct (verify_return_inv bytes u n ev Hr) as (H1 & H2 & server & hash & H3 & H4 & H5).
  rewrite E3 in H1, H5. split_and!; try done. exists url, host. split_and!; try done. congruence.
Qed.
End Theorems.

(** The onion decoder with its 16-bit accumulator computes the 35 bytes
    whose big-endian value is that of the 56 base-32 digits, with no bits left
    over, and refuses a label with any other character. *)
Theorem onion_label_decoding label :
  slen label = 56 ->
  match mapM base32_value (codes label) with
  | None => base32_loop (codes label) 0 0 [] = None
  | Some ds => exists decoded, base32_loop (codes label) 0 0 [] = Some (decoded, 0) /\
      length decoded = 35%nat /\ Forall (fun d => 0 <= d < 256) decoded /\
      digits_value 256 decoded = digits_value 32 ds
  end.
Proof.
  intros Hlen. assert (length (codes label) = 56%nat) as Hc.
  { pose proof (length_codes label). unfold slen in Hlen. lia. }
  destruct (mapM base32_value (codes label)) as [ds|] eqn:E; [|by apply base32_loop_none].
  destruct (base32_loop_value (codes label) 0 0 [] ds) as (d & b & low & E1 & F & B & N & Lw & V);
    try done.
  rewrite Hc in N. cbn in N. assert (b = 0) as -> by lia. exists d. split_and!; try done; [lia|].
  change (digits_value 256 d * 1 + low = digits_value 32 ds) in V. change (2 ^ 0) with 1 in Lw. lia.
Qed.

(** ** A concrete coordinator

    Two targets in two failure groups, two blobs of ten bytes, and a second
    copy that is missing until it is mirrored.  The outside's state is the
    policy file and whether the mirror was made. *)

Definition rep_char (c : string) (n : nat) : string := String.concat "" (replicate n c).

Definition toy_owner : string := rep_char "a" 64.
Definition toy_id (c : string) : string := rep_char c 64.

Definition toy_target (i : string) : Target :=
  {| target_id := i; target_origin := String.append "http://" i; failure_group := i; retention := Owner |}.

Definition toy_blob (c : string) : Blob := {| blob_sha256 := toy_id c; blob_size := 10 |}.

Definition toy_policy (rev : Z) : Policy :=
  {| policy_type := "wildbloom.replica-policy"; policy_version := 1; policy_id := "home"; revision := rev;
     policy_expires := 5000; profile := LoopbackDevelopment; desired_groups := 2;
     targets := [toy_target "here"; toy_target "there"]; blobs := [toy_blob "c"; toy_blob "d"] |}.

Definition toy_tags : list (list string) :=
  [["d"; "wildbloom.replica-policy.v1:home"]; ["expiration"; "5000"]]%string.

(** The file "p1" or "p2" is the signed policy of that revision, anything
    else a signed authorisation. *)
Definition toy_is_policy (bytes : string) : bool := bool_decide (bytes ∈ ["p1"; "p2"]%string).

Definition toy_event (bytes : string) : Event :=
  if toy_is_policy bytes
  then {| ev_id := toy_id (if bool_decide (bytes = "p1"%string) then "1" else "2"); ev_pubkey := toy_owner;
          ev_created_at := 900; ev_kind := 30078; ev_tags := toy_tags; ev_content := bytes |}
  else {| ev_id := toy_id "3"; ev_pubkey := toy_owner; ev_created_at := 999; ev_kind := 24242;
          ev_tags := []; ev_content := bytes |}.

Definition toy_url (s : string) : Url :=
  {| scheme := "http"; username := ""; password := None; host_str := Some "127.0.0.1"%string;
     host_is_ip := true; host_is_loopback_v4 := true; port := None; path := "/"; query := None;
     fragment := None; as_str := s |}.

Definition toy_policy_lib : PolicyLib :=
  {| url_parse s := Some (toy_url s);
     strict_event bytes :=
       let e := toy_event bytes in
       Some {| raw_id := ev_id e; raw_pubkey := toy_owner; raw_created_at := ev_created_at e;
               raw_kind := ev_kind e; raw_tags := ev_tags e; raw_content := bytes;
               raw_sig := rep_char "f" 128 |};
     event_from_json bytes := Some (toy_event bytes); event_verify _ := true; public_key _ := true;
     policy_from_json c := if bool_decide (c = "p1"%string) then Some (toy_policy 1)
                           else if bool_decide (c = "p2"%string) then Some (toy_policy 2) else None;
     policy_to_json p := Some (if (revision p =? 1)%Z then "p1"%string else "p2"%string);
     compute_id _ := toy_id "3"; sha3_256 l := l; decimal _ := "5000"%string; base64_url s := s;
     verify_upload _ _ _ _ _ := true |}.

Definition toy_state_lib : StateLib :=
  {| policy_lib := toy_policy_lib; snapshot_json_len _ := Some 500; request_json _ := Some "{}"%string;
     event_as_json _ := "{}"%string |}.

Definition toy_outside : ReplicaOutside :=
  {| env := (string * bool)%type; clock e := (1000, e); read_policy e := (Ok e.1, e);
     write_file e := (Written, e); io_ok e := (true, e); handoff d e := (d, e);
     sign _ e := (Some "signed"%string, e);
     verify t _ e :=
       (if bool_decide (target_id t = "here"%string) || e.2 then Ok tt else Err Unavailable, e);
     mirror _ _ _ _ e := (Ok tt, (e.1, true)) |}.

#[local] Existing Instances toy_state_lib toy_outside.

Definition toy_vp (rev : Z) : VerifiedPolicy :=
  {| policy := toy_policy rev; event_id := toy_id (if rev =? 1 then "1" else "2"); owner := toy_owner |}.

(** Room for one blob per pass. *)
Definition toy_limits : Limits := {| verification_bytes := 30; mirrors := 1 |}.

Definition toy_env (file : string) : @env toy_outside := (file, false).
Definition toy_w0 : World :=
  {| memory := None; disk := None; dir := ∅; w_env := toy_env "p1"; w_log := [] |}.

Abbreviation toy_run rev w := (run_pass (toy_vp rev) true toy_limits w).

Definition toy_w1 : World := (toy_run 1 toy_w0).2.
Definition toy_w1' : World := with_outside ∅ (toy_env "p1") toy_w1.
Definition toy_w2 : World := (toy_run 1 toy_w1').2.
Definition toy_w2' : World := with_outside ∅ (toy_env "p2") toy_w2.
Definition toy_w3 : World := (toy_run 2 toy_w2').2.

(** The first pass reads both copies of the first blob, mirrors the missing
    one and reads it back. *)
Example toy_first_pass :
  w_log toy_w1 = [CVerify (toy_target "here") (toy_blob "c") true;
                  CVerify (toy_target "there") (toy_blob "c") false;
                  CMirror (toy_target "there") (toy_target "here") (toy_blob "c");
                  CVerify (toy_target "there") (toy_blob "c") true] /\
  cursor <$> memory toy_w1 = Some 1 /\ disk toy_w1 = memory toy_w1.
Proof. split_and!; vm_compute; reflexivity. Qed.

(** The hypotheses of the theorems, on this coordinator. *)

Lemma toy_counters rev : counters_ok (toy_vp rev) toy_limits.
Proof. split; [by vm_compute..|]. repeat constructor; cbn; lia. Defined.

Definition toy_report (rev : Z) (w : World) : Report :=
  match (toy_run rev w).1 with
  | Ok rep => rep
  | Err _ => {| r_policy_id := ""; r_revision := 0; r_observed_at := 0; r_stopped := true;
                verification_bytes_reserved := 0; mirror_attempts := 0; repair_attempts := 0;
                r_blobs := []; pending_event_ids := [] |}
  end.

Lemma toy_run0 : toy_run 1 toy_w0 = (Ok (toy_report 1 toy_w0), toy_w1).
Proof. vm_compute. reflexivity. Defined.
Lemma toy_run1 : toy_run 1 toy_w1' = (Ok (toy_report 1 toy_w1'), toy_w2).
Proof. vm_compute. reflexivity. Defined.
Lemma toy_run2 : toy_run 2 toy_w2' = (Ok (toy_report 2 toy_w2'), toy_w3).
Proof. vm_compute. reflexivity. Defined.

Lemma toy_valid : valid_policy (policy (toy_vp 1)).
Proof. apply validate_iff. vm_compute. reflexivity. Defined.

Lemma replica_pass_within_budget_witness :
  exists l, w_log toy_w1 = l /\ cost l = 30 /\ mirrored l = 1.
Proof.
  destruct (replica_pass_within_budget (toy_vp 1) true toy_limits toy_w0 _ toy_w1 (toy_counters 1) toy_run0)
    as (l & H1 & _ & H3 & _ & H5 & H6 & _).
  exists l. split_and!; [exact H1|rewrite <- H5; by vm_compute|rewrite <- H6; by vm_compute].
Defined.

Lemma replica_report_rests_on_reads_witness :
  exists l b, w_log toy_w1 = w_log toy_w0 ++ l /\ blob_sha256 b = toy_id "c" /\
    exists t, retention t = Owner /\ failure_group t = "there"%string /\ CVerify t b true ∈ l.
Proof.
  destruct (replica_report_rests_on_reads (toy_vp 1) true toy_limits toy_w0 _ toy_w1
    (blob_report (toy_vp 1) (default (fresh_snapshot (toy_vp 1)) (memory toy_w1)) (toy_blob "c"))
    (toy_counters 1) toy_valid toy_run0) as (l & b & H1 & _ & H3 & _ & H5).
  { apply list_elem_of_lookup. exists 0%nat. vm_compute. reflexivity. }
  assert ("there"%string ∈ groups (toy_vp 1) (br_observations
    (blob_report (toy_vp 1) (default (fresh_snapshot (toy_vp 1)) (memory toy_w1)) (toy_blob "c")))) as Hg
    by (apply (bool_decide_unpack _); vm_compute; exact I).
  destruct (H5 _ Hg) as (t & _ & T1 & T2 & T3).
  exact (ex_intro _ l (ex_intro _ b (conj H1 (conj (eq_sym H3) (ex_intro _ t (conj T1 (conj T2 T3))))))).
Defined.

(** The life of the toy directory: two passes under the first policy, a
    restart, and one under the second. *)
Definition toy_signed (vp : VerifiedPolicy) : Prop := vp = toy_vp 1 \/ vp = toy_vp 2.

Lemma toy_history : history toy_signed [toy_vp 1; toy_vp 1; toy_vp 2] toy_w3.
Proof.
  apply (history_pass _ [toy_vp 1; toy_vp 1] toy_w2' (toy_vp 2) true toy_limits (toy_report 2 toy_w2'));
    [apply history_outside|by right|exact toy_run2].
  apply (history_pass _ [toy_vp 1] toy_w1' (toy_vp 1) true toy_limits (toy_report 1 toy_w1'));
    [apply history_outside|by left|exact toy_run1].
  apply (history_pass _ [] toy_w0 (toy_vp 1) true toy_limits (toy_report 1 toy_w0));
    [|by left|exact toy_run0].
  by apply history_new.
Defined.

Lemma replica_policies_only_move_forward_witness :
  revision (policy (toy_vp 1)) < revision (policy (toy_vp 2)) \/
  (revision (policy (toy_vp 1)) = revision (policy (toy_vp 2)) /\ event_id (toy_vp 1) = event_id (toy_vp 2)).
Proof.
  apply (replica_policies_only_move_forward toy_signed
    (fun i => if bool_decide (i = toy_id "1") then 1 else 2)
    [toy_vp 1; toy_vp 1; toy_vp 2] toy_w3 0 2 (toy_vp 1) (toy_vp 2)).
  - by intros vp [->| ->]; vm_compute.
  - exact toy_history.
  - lia.
  - reflexivity.
  - reflexivity.
Defined.

(** A pass under a superseded policy fails, and leaves nothing. *)
Definition toy_stale_world : World := with_outside ∅ (toy_env "p1") toy_w3.

Lemma toy_stale_pass :
  toy_run 1 toy_stale_world = (Err (EState SRollback), (toy_run 1 toy_stale_world).2).
Proof. vm_compute. reflexivity. Defined.

Definition toy_failed : Snapshot :=
  default (fresh_snapshot (toy_vp 1)) (memory (toy_run 1 toy_stale_world).2).

Lemma toy_failed_eq : memory (toy_run 1 toy_stale_world).2 = Some toy_failed.
Proof. vm_compute. reflexivity. Defined.

Lemma replica_failed_pass_leaves_no_evidence_witness :
  observations toy_failed = ∅ /\ pending toy_failed = ∅ /\ observed_at toy_failed = None.
Proof.
  exact (proj1 (replica_failed_pass_leaves_no_evidence (toy_vp 1) true toy_limits
    toy_stale_world (EState SRollback) _ toy_stale_pass) toy_failed toy_failed_eq).
Defined.

Lemma toy_passes : passes (toy_vp 1) true toy_limits 2 toy_w0 toy_w2'.
Proof.
  apply (passes_more _ _ _ 1 toy_w0 (toy_report 1 toy_w0) toy_w1 ∅ (toy_env "p1") _ toy_run0).
  apply (passes_more _ _ _ 0 toy_w1' (toy_report 1 toy_w1') toy_w2 ∅ (toy_env "p2") _ toy_run1).
  apply passes_none.
Defined.

Lemma replica_passes_reach_every_blob_witness :
  exists l ok, w_log toy_w2' = w_log toy_w0 ++ l /\ CVerify (toy_target "there") (toy_blob "d") ok ∈ l.
Proof.
  apply (replica_passes_reach_every_blob (toy_vp 1) true toy_limits 2 toy_w0 toy_w2').
  - reflexivity.
  - by vm_compute.
  - exact toy_passes.
  - right. left.
  - right. left.
Defined.

Lemma replica_verify_policy_sound_witness : owner (toy_vp 1) = toy_owner /\ valid_policy (policy (toy_vp 1)).
Proof.
  destruct (replica_verify_policy_sound "p1" toy_owner 1000 (toy_vp 1)) as (H1 & H2 & _);
    [vm_compute; reflexivity|by split].
Defined.

Definition toy_template : UnsignedEvent :=
  {| un_pubkey := toy_owner; un_created_at := 900; un_kind := 30078; un_tags := toy_tags; un_content := "p1" |}.

Lemma replica_policy_round_trip_witness : verify_policy "p1" toy_owner 4999 = Ok (toy_vp 1).
Proof.
  apply (replica_policy_round_trip (toy_policy 1) toy_owner 900 toy_template "p1" (toy_event "p1") 4999).
  - vm_compute. reflexivity.
  - vm_compute. reflexivity.
  - reflexivity.
  - reflexivity.
  - reflexivity.
  - reflexivity.
  - intros c [= <-]. reflexivity.
  - by vm_compute.
  - reflexivity.
Defined.

Definition toy_request : UnsignedEvent :=
  {| un_pubkey := toy_owner; un_created_at := 999; un_kind := 24242;
     un_tags := [["t"; "upload"]; ["x"; toy_id "c"]; ["server"; "127.0.0.1"]; ["expiration"; "5000"]]%string;
     un_content := String.append "Mirror one configured blob; policy event "
       (String.append (toy_id "1") "; destination http://there") |}.

Lemma replica_authorisation_binds_repair_witness :
  event_ok "signed" toy_owner MAX_EVENT_BYTES (toy_event "signed").
Proof.
  apply (replica_authorisation_binds_repair (toy_vp 1) (toy_blob "c") (toy_target "there") 1000 toy_request
    "signed" 1000); vm_compute; reflexivity.
Defined.

Lemma onion_label_decoding_witness :
  exists decoded, base32_loop (codes (rep_char "b" 56)) 0 0 [] = Some (decoded, 0) /\ length decoded = 35%nat.
Proof.
  pose proof (onion_label_decoding (rep_char "b" 56) ltac:(vm_compute; reflexivity)) as H.
  destruct (mapM base32_value (codes (rep_char "b" 56))) as [ds|] eqn:E; [|vm_compute in E; done].
  destruct H as (d & H1 & H2 & _). by exists d.
Defined.
