(* ===== verification/GrantEvent.v ===== *)
(** * Device grants: signed events

    Models [crates/wildbloomd/src/grants/event.rs]: what an owner signs to
    delegate storage to a device or to end the delegation.  JSON, base64 and
    Nostr events are operations of [EventLib]. *)
From Stdlib Require Import Ascii.
From S2P Require Import Prelude.

Definition DEVICE_GRANT_KIND : Z := 27540.
Definition MAX_EVENT_BYTES : Z := 16 * 1024.
Definition MAX_EVENT_LIFETIME : Z := 10 * 60.
Definition FUTURE_SKEW : Z := 30.
Definition MAX_GRANT_SECONDS : Z := 2 * 366 * 24 * 60 * 60.
Definition MAX_CONTENT_BYTES : Z := 512.

Record GrantTerms := { gt_device : string; gt_recovery : string; gt_byte_limit : Z; gt_until : Z }.

Inductive Action := Grant (terms : GrantTerms) | Revoke (device : string).

Record Authorised := {
  au_owner : string; au_event_id : string; au_created_at : Z; au_expires_at : Z; au_action : Action }.

Inductive EventError := Invalid | Unauthorised.

Record RawEvent := {
  rw_pubkey : string; rw_created_at : Z; rw_kind : Z; rw_tags : list (list string); rw_content : string }.

(** What the code reads of a parsed Nostr event. *)
Record NostrEvent := { ne_id : string; ne_pubkey : string; ne_tags : list (list string) }.

Class EventLib := {
  raw_event : string -> option RawEvent;
  nostr_event : string -> option NostrEvent;
  nostr_verify : NostrEvent -> bool;
  standard : string -> option string;
  standard_no_pad : string -> option string;
  url_safe : string -> option string;
  url_safe_no_pad : string -> option string
}.

(** ** Values *)

Definition lower_hex_digit (b : Z) : bool := in_range 48 b 57 || in_range 97 b 102.

Definition is_canonical_key (value : string) : bool :=
  (slen value =? 64) && forallb lower_hex_digit (codes value).

Definition canonical_key (value : string) : result EventError string :=
  if is_canonical_key value then Ok value else Err Invalid.

(** [u64::from_str] of digits. *)
Definition digits_u64 (value : string) : option Z :=
  let n := foldl (fun n d => n * 10 + (d - 48)) 0 (codes value) in
  if n <=? U64_MAX then Some n else None.

Definition decimal (value : string) : result EventError Z :=
  if is_empty value || (19 <? slen value) || negb (forallb (fun b => in_range 48 b 57) (codes value))
     || ((1 <? slen value) && starts_with "0" value)
  then Err Invalid
  else ok_or (digits_u64 value) Invalid.

Definition lower_ascii (c : ascii) : ascii :=
  let n := Z.of_N (N_of_ascii c) in
  if in_range 65 n 90 then ascii_of_N (Z.to_N (n + 32)) else c.

(** [str::to_ascii_lowercase]. *)
Fixpoint to_ascii_lowercase (s : string) : string :=
  match s with
  | EmptyString => EmptyString
  | String c s => String (lower_ascii c) (to_ascii_lowercase s)
  end.

(** ** Tags *)

Fixpoint singleton_loop (map : gmap string string) (tags : list (list string))
    : result EventError (gmap string string) :=
  match tags with
  | [] => Ok map
  | [name; value] :: tags =>
      if bool_decide (is_Some (map !! name)) then Err Invalid
      else singleton_loop (<[name := value]> map) tags
  | _ :: _ => Err Invalid
  end.

Definition singleton_tags (tags : list (list string)) : result EventError (gmap string string) :=
  if 16 <? Z.of_nat (length tags) then Err Invalid else singleton_loop ∅ tags.

Definition grant_tags : list string :=
  ["t"; "device"; "recovery"; "bytes"; "until"; "server"; "expiration"]%string.
Definition revoke_tags : list string := ["t"; "device"; "server"; "expiration"]%string.

Definition allowed_tags (verb : string) : result EventError (list string) :=
  if bool_decide (verb = "grant"%string) then Ok grant_tags
  else if bool_decide (verb = "revoke"%string) then Ok revoke_tags
  else Err Invalid.

(** [tags[name]], on tags known to hold the name. *)
Definition tag_at (tags : gmap string string) (name : string) : string := default "" (tags !! name).

Section Events.
Context `{Lib : EventLib}.
Local Open Scope wb_scope.

Definition decode_header (header : string) : option string :=
  match strip_prefix "Nostr " header with
  | None => None
  | Some encoded =>
      if is_empty encoded || (MAX_EVENT_BYTES * 2 <? slen encoded) then None
      else
        let bytes := match standard encoded with Some b => Some b | None =>
                     match standard_no_pad encoded with Some b => Some b | None =>
                     match url_safe encoded with Some b => Some b | None => url_safe_no_pad encoded end end end in
        match bytes with
        | Some b => if slen b <=? MAX_EVENT_BYTES then Some b else None
        | None => None
        end
  end.

Definition x_tag (tag : list string) : option string :=
  match tag with
  | [name; value] => if bool_decide (name = "x"%string) && is_canonical_key value then Some value else None
  | _ => None
  end.

Definition signed_header (header : string) : option (string * list string) :=
  match decode_header header with
  | None => None
  | Some bytes =>
      match nostr_event bytes with
      | None => None
      | Some event =>
          if nostr_verify event then Some (ne_pubkey event, take 32 (omap x_tag (ne_tags event))) else None
      end
  end.

(** The action the tags describe. *)
Definition action_of_tags (verb : string) (tags : gmap string string) : result EventError Action :=
  let? device := canonical_key (tag_at tags "device") in
  let? _ := decimal (tag_at tags "expiration") in
  if bool_decide (verb = "grant"%string) then
    let? recovery := canonical_key (tag_at tags "recovery") in
    let? byte_limit := decimal (tag_at tags "bytes") in
    let? until := decimal (tag_at tags "until") in
    if bool_decide (recovery = device) || (byte_limit =? 0) || (I64_MAX <? byte_limit) then Err Invalid
    else Ok (Grant {| gt_device := device; gt_recovery := recovery; gt_byte_limit := byte_limit;
                      gt_until := until |})
  else Ok (Revoke device).

Definition verify (bytes : string) (owners : gset string) (server_names : list string) (now : Z)
    : result EventError Authorised :=
  if MAX_EVENT_BYTES <? slen bytes then Err Invalid
  else
    let? raw := ok_or (raw_event bytes) Invalid in
    if negb (rw_kind raw =? DEVICE_GRANT_KIND) || (MAX_CONTENT_BYTES <? slen (rw_content raw)) then Err Invalid
    else
      let? tags := singleton_tags (rw_tags raw) in
      let? verb := ok_or (tags !! "t"%string) Invalid in
      let? allowed := allowed_tags verb in
      if negb (Z.of_nat (size tags) =? Z.of_nat (length allowed))
         || existsb (fun name => negb (bool_decide (is_Some (tags !! name)))) allowed
      then Err Invalid
      else
        let? action := action_of_tags verb tags in
        let? expires_at := decimal (tag_at tags "expiration") in
        let? event := ok_or (nostr_event bytes) Invalid in
        if negb (nostr_verify event) then Err Unauthorised
        else if negb (bool_decide (ne_pubkey event = rw_pubkey raw))
                || negb (bool_decide (ne_pubkey event ∈ owners))
        then Err Unauthorised
        else if negb (existsb (fun accepted => bool_decide (to_ascii_lowercase accepted = tag_at tags "server"))
                        server_names)
        then Err Unauthorised
        else
          let created_at := rw_created_at raw in
          if (saturating_add now FUTURE_SKEW <? created_at) || (expires_at <=? now) || (expires_at <? created_at)
             || (MAX_EVENT_LIFETIME <? expires_at - created_at)
          then Err Unauthorised
          else if match action with
                  | Grant terms => (gt_until terms <=? now) || (gt_until terms <=? created_at)
                                   || (saturating_add now MAX_GRANT_SECONDS <? gt_until terms)
                  | Revoke _ => false
                  end
          then Err Invalid
          else Ok {| au_owner := ne_pubkey event; au_event_id := ne_id event; au_created_at := created_at;
                     au_expires_at := expires_at; au_action := action |}.
End Events.
