(* ===== verification/GrantEventProofs.v ===== *)
(** * Device grants: what a verified event says

    [verify_iff]: an event is accepted exactly when an owner signed it, it
    names this server, its window is open, and its tags are, in some order, the
    ones of a grant or of a revocation.  [decimal_iff]: the numbers in it are
    written canonically. *)
From Stdlib Require Import Ascii.
From stdpp Require Import pretty.
From S2P Require Import Prelude GrantEvent.

(** ** Tags *)

Definition pair_tags (l : list (string * string)) : list (list string) := map (fun '(n, v) => [n; v]) l.

Lemma singleton_loop_ok (l : list (string * string)) map :
  NoDup l.*1 -> (forall n, n ∈ l.*1 -> map !! n = None) ->
  singleton_loop map (pair_tags l) = Ok (list_to_map l ∪ map).
Proof.
  revert map. induction l as [|[n v] l IH]; intros map Hnd Hd; cbn; [by rewrite (left_id_L ∅ (∪))|].
  apply NoDup_cons in Hnd as [Hn Hnd]. rewrite bool_decide_eq_false_2 by (rewrite (Hd n); [by intros []|by left]).
  rewrite IH; [|done|].
  - f_equal. rewrite <- insert_union_r; [by rewrite insert_union_l|]. by apply not_elem_of_list_to_map.
  - intros k Hk. rewrite lookup_insert_ne by (intros ->; done). apply Hd. by right.
Qed.

Lemma singleton_loop_inv tags map m : singleton_loop map tags = Ok m ->
  exists l, tags = pair_tags l /\ NoDup l.*1 /\ (forall n, n ∈ l.*1 -> map !! n = None) /\ m = list_to_map l ∪ map.
Proof.
  revert map. induction tags as [|tag tags IH]; intros map; cbn.
  - intros [= <-]. exists []. cbn. split_and!; [done|constructor|intros n Hn; by apply elem_of_nil in Hn|].
    by rewrite (left_id_L ∅ (∪)).
  - destruct tag as [|n [|v [|]]]; try done. destruct (bool_decide_reflect (is_Some (map !! n))) as [|Hn]; [done|].
    apply eq_None_not_Some in Hn. intros H. apply IH in H as (l & -> & Hnd & Hd & ->).
    assert (n ∉ l.*1) as Hnl. { intros Hin. apply Hd in Hin. by rewrite lookup_insert_eq in Hin. }
    exists ((n, v) :: l). cbn. split_and!; [done|by constructor| |].
    + intros k [->|Hk]%elem_of_cons; [done|]. specialize (Hd k Hk). by apply lookup_insert_None in Hd as [? _].
    + rewrite <- insert_union_r; [by rewrite insert_union_l|]. by apply not_elem_of_list_to_map.
Qed.

Lemma singleton_tags_iff tags m : singleton_tags tags = Ok m <->
  exists l, tags = pair_tags l /\ NoDup l.*1 /\ (length l <= 16)%nat /\ m = list_to_map l.
Proof.
  unfold singleton_tags. destruct (Z.ltb_spec 16 (Z.of_nat (length tags))) as [Hl|Hl].
  - split; [done|]. intros (l & -> & _ & H & _). unfold pair_tags in Hl. rewrite length_map in Hl. lia.
  - split.
    + intros H. apply singleton_loop_inv in H as (l & -> & Hnd & _ & ->). exists l.
      unfold pair_tags in Hl. rewrite length_map in Hl. rewrite (right_id_L ∅ (∪)). split_and!; (done || lia).
    + intros (l & -> & Hnd & _ & ->). rewrite singleton_loop_ok; [by rewrite (right_id_L ∅ (∪))|done|].
      intros n _. apply lookup_empty.
Qed.

(** Tags with exactly these names are these pairs in some order. *)
Lemma tags_permutation (l c : list (string * string)) :
  NoDup l.*1 -> NoDup c.*1 -> length l = length c ->
  (forall n v, (n, v) ∈ c -> (list_to_map l : gmap string string) !! n = Some v) -> l ≡ₚ c.
Proof.
  intros Hl Hc Hlen Hsub. rewrite <- (map_to_list_to_map (M := gmap string) l) by done.
  rewrite <- (map_to_list_to_map (M := gmap string) c) by done. f_equiv.
  symmetry. apply map_subseteq_size_eq.
  - apply map_subseteq_spec. intros n v H. apply Hsub. by apply elem_of_list_to_map.
  - rewrite <- !length_map_to_list, !map_to_list_to_map by done. lia.
Qed.

Lemma list_to_map_size (l : list (string * string)) :
  NoDup l.*1 -> size (list_to_map l : gmap string string) = length l.
Proof. intros H. by rewrite <- length_map_to_list, map_to_list_to_map. Qed.

(** ** The meaning of an event *)

Section Verify.
Context `{Lib : EventLib}.

(** The tags of an action, in the order the code lists them. *)
Inductive action_tags (server expiration : string) : Action -> list (string * string) -> Prop :=
| GrantTags terms bytes until :
    is_canonical_key (gt_device terms) = true -> is_canonical_key (gt_recovery terms) = true ->
    gt_recovery terms <> gt_device terms ->
    decimal bytes = Ok (gt_byte_limit terms) -> gt_byte_limit terms <> 0 -> gt_byte_limit terms <= I64_MAX ->
    decimal until = Ok (gt_until terms) ->
    action_tags server expiration (Grant terms)
      [("t", "grant"); ("device", gt_device terms); ("recovery", gt_recovery terms); ("bytes", bytes);
       ("until", until); ("server", server); ("expiration", expiration)]%string
| RevokeTags device :
    is_canonical_key device = true ->
    action_tags server expiration (Revoke device)
      [("t", "revoke"); ("device", device); ("server", server); ("expiration", expiration)]%string.

(** A grant runs past now and for at most two years. *)
Definition terms_current (now created_at : Z) (action : Action) : Prop :=
  match action with
  | Grant terms => now < gt_until terms /\ created_at < gt_until terms
                   /\ gt_until terms <= saturating_add now MAX_GRANT_SECONDS
  | Revoke _ => True
  end.

Inductive valid_event (bytes : string) (owners : gset string) (server_names : list string) (now : Z)
    : Authorised -> Prop :=
| ValidEvent raw event server expiration l c a :
    slen bytes <= MAX_EVENT_BYTES ->
    raw_event bytes = Some raw -> rw_kind raw = DEVICE_GRANT_KIND -> slen (rw_content raw) <= MAX_CONTENT_BYTES ->
    rw_tags raw = pair_tags l -> l ≡ₚ c -> action_tags server expiration (au_action a) c ->
    decimal expiration = Ok (au_expires_at a) ->
    nostr_event bytes = Some event -> nostr_verify event = true ->
    ne_pubkey event = rw_pubkey raw -> ne_pubkey event ∈ owners ->
    (exists name, name ∈ server_names /\ to_ascii_lowercase name = server) ->
    rw_created_at raw <= saturating_add now FUTURE_SKEW -> now < au_expires_at a ->
    rw_created_at raw <= au_expires_at a -> au_expires_at a - rw_created_at raw <= MAX_EVENT_LIFETIME ->
    terms_current now (rw_created_at raw) (au_action a) ->
    au_owner a = ne_pubkey event -> au_event_id a = ne_id event -> au_created_at a = rw_created_at raw ->
    valid_event bytes owners server_names now a.

Lemma action_of_tags_inv verb tags action : action_of_tags verb tags = Ok action ->
  (verb = "grant"%string \/ verb = "revoke"%string) ->
  exists c, action_tags (tag_at tags "server") (tag_at tags "expiration") action c
    /\ c.*1 = (if bool_decide (verb = "grant"%string) then grant_tags else revoke_tags)
    /\ (forall n v, (n, v) ∈ c -> (n = "t"%string /\ v = verb) \/ v = tag_at tags n).
Proof.
  intros H Hverb. unfold action_of_tags, canonical_key in H.
  destruct (is_canonical_key (tag_at tags "device")) eqn:Ed; [|done].
  destruct (decimal (tag_at tags "expiration")) as [x|] eqn:Ex; [|done].
  destruct (bool_decide_reflect (verb = "grant"%string)) as [->|Hg].
  - destruct (is_canonical_key (tag_at tags "recovery")) eqn:Er; [|done].
    destruct (decimal (tag_at tags "bytes")) as [limit|] eqn:Eb; [|done].
    destruct (decimal (tag_at tags "until")) as [until|] eqn:Eu; [|done].
    destruct (bool_decide_reflect (tag_at tags "recovery" = tag_at tags "device")) as [|Hne]; [done|].
    destruct (Z.eqb_spec limit 0) as [|H0]; [done|].
    destruct (Z.ltb_spec I64_MAX limit) as [|Hm]; [done|]. injection H as <-.
    eexists. split; [by econstructor|]. split; [done|]. intros n v Hin.
    repeat (apply elem_of_cons in Hin as [Hin|Hin]; [injection Hin as -> ->; auto| ]). by apply elem_of_nil in Hin.
  - injection H as <-. destruct Hverb as [? | ->]; [done|].
    eexists. split; [by econstructor|]. split; [done|]. intros n v Hin.
    repeat (apply elem_of_cons in Hin as [Hin|Hin]; [injection Hin as -> ->; auto| ]). by apply elem_of_nil in Hin.
Qed.

Lemma tags_of_action server expiration action c : action_tags server expiration action c -> NoDup c.*1.
Proof. intros [terms bytes until|device]; cbn; apply (bool_decide_unpack _); vm_compute; exact I. Qed.

Lemma list_to_map_perm (l c : list (string * string)) : NoDup l.*1 -> l ≡ₚ c ->
  (list_to_map l : gmap string string) = list_to_map c.
Proof. intros. by apply list_to_map_proper. Qed.

(** The structural half of [verify], on the tags. *)
Definition read_action (tags : gmap string string) : result EventError (Action * Z) :=
  let? verb := ok_or (tags !! "t"%string) Invalid in
  let? allowed := allowed_tags verb in
  if negb (Z.of_nat (size tags) =? Z.of_nat (length allowed))
     || existsb (fun name => negb (bool_decide (is_Some (tags !! name)))) allowed
  then Err Invalid
  else
    let? action := action_of_tags verb tags in
    let? expires_at := decimal (tag_at tags "expiration") in
    Ok (action, expires_at).

Lemma tag_lookup (c : list (string * string)) n v : NoDup c.*1 -> (n, v) ∈ c ->
  (list_to_map c : gmap string string) !! n = Some v /\ tag_at (list_to_map c) n = v.
Proof.
  intros Hnd Hin. apply (elem_of_list_to_map_1 (M := gmap string)) in Hin; [|done].
  split; [exact Hin|]. unfold tag_at. by rewrite Hin.
Qed.

Lemma tags_present (c : list (string * string)) : NoDup c.*1 ->
  existsb (fun name => negb (bool_decide (is_Some ((list_to_map c : gmap string string) !! name)))) c.*1 = false.
Proof.
  intros Hnd. apply not_true_iff_false. intros (n & Hin & Hn)%existsb_exists.
  apply list_elem_of_In, list_elem_of_fmap in Hin as ([n' v] & -> & Hin). cbn in Hn.
  destruct (tag_lookup c n' v Hnd Hin) as [E _]. by rewrite E in Hn.
Qed.

Lemma read_action_ok server expiration action c expires_at :
  action_tags server expiration action c -> decimal expiration = Ok expires_at ->
  read_action (list_to_map c) = Ok (action, expires_at) /\ tag_at (list_to_map c) "server" = server.
Proof.
  intros H He. pose proof (tags_of_action _ _ _ _ H) as Hnd. pose proof (tags_present c Hnd) as Hall.
  pose proof (list_to_map_size c Hnd) as Hsize. pose proof (tag_lookup c) as Hl.
  unfold read_action, action_of_tags, canonical_key. set (m := list_to_map c : gmap string string) in *.
  destruct H as [[d r b u] bytes until H1 H2 H3 H4 H5 H6 H7|device H1];
    cbn [gt_device gt_recovery gt_byte_limit gt_until] in *; rewrite Hsize.
  - destruct (Hl "t" "grant") as [-> _]; [done|repeat constructor|]. cbn [ok_or].
    change (allowed_tags "grant") with (Ok grant_tags : result EventError (list string)).
    change grant_tags with (["t"; "device"; "recovery"; "bytes"; "until"; "server"; "expiration"]%string).
    cbn [fmap list_fmap fst] in Hall. lazy beta iota. rewrite Hall. cbn [length Z.of_nat negb orb Z.eqb].
    destruct (Hl "device" d) as [_ ->]; [done|repeat constructor|]. destruct (Hl "recovery" r) as [_ ->]; [done|repeat constructor|].
    destruct (Hl "bytes" bytes) as [_ ->]; [done|repeat constructor|]. destruct (Hl "until" until) as [_ ->]; [done|repeat constructor|].
    destruct (Hl "server" server) as [_ ->]; [done|repeat constructor|].
    destruct (Hl "expiration" expiration) as [_ ->]; [done|repeat constructor|].
    rewrite H1, H2, H4, H7, He, (bool_decide_eq_false_2 (r = d)) by done.
    destruct (Z.eqb_spec b 0) as [E|_]; [contradiction|].
    destruct (Z.ltb_spec I64_MAX b) as [Hlt|_]; [lia|]. split; reflexivity.
  - destruct (Hl "t" "revoke") as [-> _]; [done|repeat constructor|]. cbn [ok_or].
    change (allowed_tags "revoke") with (Ok ["t"; "device"; "server"; "expiration"]%string : result EventError (list string)).
    cbn [fmap list_fmap fst] in Hall. lazy beta iota. rewrite Hall. cbn [length Z.of_nat negb orb Z.eqb].
    destruct (Hl "device" device) as [_ ->]; [done|repeat constructor|]. destruct (Hl "server" server) as [_ ->]; [done|repeat constructor|].
    destruct (Hl "expiration" expiration) as [_ ->]; [done|repeat constructor|].
    rewrite H1, He. split; reflexivity.
Qed.

Lemma read_action_inv (l : list (string * string)) action expires_at : NoDup l.*1 ->
  read_action (list_to_map l) = Ok (action, expires_at) ->
  exists expiration c, action_tags (tag_at (list_to_map l) "server") expiration action c
    /\ l ≡ₚ c /\ decimal expiration = Ok expires_at.
Proof.
  intros Hnd H. unfold read_action in H. set (tags := list_to_map l : gmap string string) in *.
  destruct (tags !! "t"%string) as [verb|] eqn:Et; [|done]. cbn [ok_or] in H.
  destruct (allowed_tags verb) as [allowed|] eqn:Ea; [|done].
  destruct (_ || _) eqn:Ec; [done|]. apply orb_false_iff in Ec as [E1 E2].
  apply negb_false_iff, Z.eqb_eq in E1. unfold tags in E1. rewrite list_to_map_size in E1 by done.
  destruct (action_of_tags verb tags) as [action'|] eqn:Eo; [|done].
  destruct (decimal (tag_at tags "expiration")) as [x|] eqn:Ex; [|done]. injection H as -> ->.
  assert (verb = "grant"%string \/ verb = "revoke"%string) as Hverb.
  { unfold allowed_tags in Ea. repeat case_bool_decide; auto; done. }
  destruct (action_of_tags_inv verb tags action Eo Hverb) as (c & Hc & Hnames & Hvals).
  exists (tag_at tags "expiration"), c. split_and!; [done| |done].
  assert (allowed = c.*1) as ->.
  { rewrite Hnames. unfold allowed_tags in Ea. destruct Hverb as [-> | ->]; cbn in Ea; by injection Ea. }
  rewrite length_fmap in E1. apply tags_permutation; [done|by eapply tags_of_action|lia|].
  intros n v Hin. fold tags. destruct (Hvals n v Hin) as [ [-> ->] |Hv]; [done|]. rewrite Hv.
  unfold tag_at. destruct (tags !! n) as [v'|] eqn:En; [done|]. exfalso.
  apply not_true_iff_false in E2. apply E2. apply existsb_exists. exists n. split.
  - apply list_elem_of_In. apply list_elem_of_fmap. by exists (n, v).
  - by rewrite En, bool_decide_eq_false_2 by (by intros []).
Qed.

Lemma verify_read bytes owners server_names now :
  verify bytes owners server_names now =
  if MAX_EVENT_BYTES <? slen bytes then Err Invalid
  else
    let? raw := ok_or (raw_event bytes) Invalid in
    if negb (rw_kind raw =? DEVICE_GRANT_KIND) || (MAX_CONTENT_BYTES <? slen (rw_content raw)) then Err Invalid
    else
      let? tags := singleton_tags (rw_tags raw) in
      let? read := read_action tags in
      let? event := ok_or (nostr_event bytes) Invalid in
      if negb (nostr_verify event) then Err Unauthorised
      else if negb (bool_decide (ne_pubkey event = rw_pubkey raw))
              || negb (bool_decide (ne_pubkey event ∈ owners))
      then Err Unauthorised
      else if negb (existsb (fun accepted => bool_decide (to_ascii_lowercase accepted = tag_at tags "server"))
                      server_names)
      then Err Unauthorised
      else if (saturating_add now FUTURE_SKEW <? rw_created_at raw) || (read.2 <=? now)
              || (read.2 <? rw_created_at raw) || (MAX_EVENT_LIFETIME <? read.2 - rw_created_at raw)
      then Err Unauthorised
      else if match read.1 with
              | Grant terms => (gt_until terms <=? now) || (gt_until terms <=? rw_created_at raw)
                               || (saturating_add now MAX_GRANT_SECONDS <? gt_until terms)
              | Revoke _ => false
              end
      then Err Invalid
      else Ok {| au_owner := ne_pubkey event; au_event_id := ne_id event; au_created_at := rw_created_at raw;
                 au_expires_at := read.2; au_action := read.1 |}.
Proof.
  unfold verify, read_action. repeat (case_match; try done). all: by simplify_eq.
Qed.

Lemma verify_iff_valid bytes owners server_names now a :
  verify bytes owners server_names now = Ok a <-> valid_event bytes owners server_names now a.
Proof.
  rewrite verify_read. split.
  - intros H. destruct (Z.ltb_spec MAX_EVENT_BYTES (slen bytes)) as [|Hlen]; [done|].
    destruct (raw_event bytes) as [raw|] eqn:Er; [|done]. cbn [ok_or] in H.
    destruct (_ || _) eqn:Ek; [done|]. apply orb_false_iff in Ek as [Ek1 Ek2].
    apply negb_false_iff, Z.eqb_eq in Ek1. apply Z.ltb_ge in Ek2.
    destruct (singleton_tags (rw_tags raw)) as [tags|] eqn:Et; [|done].
    apply singleton_tags_iff in Et as (l & Hl & Hnd & _ & ->).
    destruct (read_action _) as [[action expires_at]|] eqn:Ea; [|done]. cbn [fst snd] in H.
    apply read_action_inv in Ea as (expiration & c & Hc & Hperm & Hex); [|done].
    destruct (nostr_event bytes) as [event|] eqn:Ee; [|done]. cbn [ok_or] in H.
    destruct (nostr_verify event) eqn:Ev; [|done]. cbn [negb] in H.
    destruct (_ || _) eqn:Eo; [done|]. apply orb_false_iff in Eo as [Eo1 Eo2].
    apply negb_false_iff, bool_decide_eq_true in Eo1, Eo2.
    destruct (existsb _ server_names) eqn:Es; [|done]. cbn [negb] in H.
    apply existsb_exists in Es as (name & Hin & Hname). apply bool_decide_eq_true in Hname.
    destruct (_ || _ || _ || _) eqn:Ew; [done|].
    apply orb_false_iff in Ew as [Ew W4]. apply orb_false_iff in Ew as [Ew W3].
    apply orb_false_iff in Ew as [W1 W2].
    match type of H with (if ?b then _ else _) = _ => destruct b eqn:Eterms end; [done|]. injection H as <-.
    eapply (ValidEvent _ _ _ _ raw event _ expiration l c); cbn; try done; try lia.
    + exists name. split; [by apply list_elem_of_In|done].
    + destruct action as [terms|]; [|done]. cbn. lia.
  - intros [raw event server expiration l c a' Hlen Hraw Hk Hcl Htags Hperm Hact Hex Hev Hver Hpk Hown
      (name & Hin & Hname) T1 T2 T3 T4 Hterms O1 O2 O3].
    destruct (Z.ltb_spec MAX_EVENT_BYTES (slen bytes)); [lia|]. rewrite Hraw. cbn [ok_or].
    rewrite Hk, Z.eqb_refl. destruct (Z.ltb_spec MAX_CONTENT_BYTES (slen (rw_content raw))); [lia|]. cbn [negb orb].
    pose proof (tags_of_action _ _ _ _ Hact) as Hnd.
    assert (singleton_tags (rw_tags raw) = Ok (list_to_map c)) as ->.
    { apply singleton_tags_iff. exists l. assert (NoDup l.*1) by (by rewrite Hperm).
      split_and!; [done|done| |by symmetry; apply list_to_map_perm]. rewrite Hperm. destruct Hact; cbn; lia. }
    destruct (read_action_ok _ _ _ _ _ Hact Hex) as [-> Hserver]. cbn [fst snd].
    rewrite Hev. cbn [ok_or]. rewrite Hver. cbn [negb]. rewrite !bool_decide_eq_true_2 by done. cbn [negb orb].
    rewrite Hserver.
    assert (existsb (fun accepted => bool_decide (to_ascii_lowercase accepted = server)) server_names = true) as ->.
    { apply existsb_exists. exists name. split; [by apply list_elem_of_In|by apply bool_decide_eq_true_2]. }
    cbn [negb].
    destruct (_ || _ || _ || _) eqn:Ew; [exfalso|].
    { rewrite !orb_true_iff, !Z.ltb_lt, Z.leb_le in Ew. lia. }
    match goal with |- (if ?b then _ else _) = _ => destruct b eqn:Eterms end.
    + exfalso. destruct (au_action a'); cbn in Hterms; [|done].
      rewrite !orb_true_iff, Z.ltb_lt, !Z.leb_le in Eterms. lia.
    + destruct a'. cbn in *. by subst.
Qed.

Lemma verify_bounds bytes owners server_names now a : verify bytes owners server_names now = Ok a ->
  au_owner a ∈ owners /\ au_created_at a <= saturating_add now FUTURE_SKEW.
Proof.
  intros H. apply verify_iff_valid in H as []. split; congruence.
Qed.
End Verify.

(** ** Numbers *)

Section Decimal.
Local Open Scope string_scope.

Definition digit (c : ascii) : bool := in_range 48 (Z.of_N (N_of_ascii c)) 57.
Definition dval (c : ascii) : N := (N_of_ascii c - 48)%N.

Fixpoint all_digits (s : string) : bool :=
  match s with EmptyString => true | String c s => digit c && all_digits s end.

(** The value of the digits, after [a]. *)
Fixpoint value (a : N) (s : string) : N :=
  match s with EmptyString => a | String c s => value (a * 10 + dval c) s end.

Lemma all_digits_codes s : forallb (fun b => in_range 48 b 57) (codes s) = all_digits s.
Proof. induction s as [|c s IH]; [done|]. cbn. unfold codes in IH. by rewrite IH. Qed.

Lemma value_codes s a : all_digits s = true ->
  foldl (fun n d => n * 10 + (d - 48)) (Z.of_N a) (codes s) = Z.of_N (value a s).
Proof.
  revert a. induction s as [|c s IH]; intros a; [done|]. cbn [all_digits]. intros [Hc Hs]%andb_prop.
  cbn [value codes String.list_ascii_of_string map foldl]. rewrite <- IH by done. f_equal.
  unfold digit, in_range in Hc. unfold dval. lia.
Qed.

Lemma dval_lt c : digit c = true -> (dval c < 10)%N.
Proof. unfold digit, in_range, dval. lia. Qed.

Lemma digit_char c : digit c = true -> pretty_N_char (dval c) = c.
Proof.
  destruct c as [b0 b1 b2 b3 b4 b5 b6 b7]. destruct b0, b1, b2, b3, b4, b5, b6, b7; vm_compute; done.
Qed.

Lemma char_digit d : (d < 10)%N -> digit (pretty_N_char d) = true /\ dval (pretty_N_char d) = d.
Proof.
  intros H. assert (d = 0 ∨ d = 1 ∨ d = 2 ∨ d = 3 ∨ d = 4 ∨ d = 5 ∨ d = 6 ∨ d = 7 ∨ d = 8 ∨ d = 9)%N as Hd by lia.
  repeat destruct Hd as [->|Hd]; try by vm_compute. subst d. by vm_compute.
Qed.

(** Digits after a printed number are printed with it. *)
Lemma print_value a s : all_digits s = true -> (0 < a)%N -> pretty_N_go (value a s) "" = pretty_N_go a s.
Proof.
  revert a. induction s as [|c s IH]; intros a; [done|]. cbn [all_digits value]. intros [Hc Hs]%andb_prop Ha.
  pose proof (dval_lt c Hc) as Hd. rewrite IH by (done || lia). rewrite pretty_N_go_step by lia.
  assert (((a * 10 + dval c) `div` 10) = a /\ ((a * 10 + dval c) `mod` 10) = dval c)%N as [-> ->].
  { rewrite N.add_comm. split; [rewrite N.div_add by done|rewrite N.Div0.mod_add by done].
    - by rewrite N.div_small.
    - by apply N.mod_small. }
  by rewrite digit_char.
Qed.

(** No sign, no leading zero. *)
Definition canonical (s : string) : bool :=
  match s with
  | EmptyString => false
  | String c s' => all_digits s && (is_empty s' || negb (bool_decide (c = "0"%char)))
  end.

Lemma print_canonical s : canonical s = true -> pretty (value 0 s) = s.
Proof.
  destruct s as [|c s]; [done|]. cbn [canonical all_digits value]. intros [[Hc Hs]%andb_prop Hz]%andb_prop.
  pose proof (dval_lt c Hc) as Hd. rewrite N.mul_0_l, N.add_0_l. unfold pretty, pretty_N.
  destruct (decide (c = "0"%char)) as [->|Hne].
  - destruct s as [|]; [done|]. by rewrite bool_decide_eq_true_2 in Hz.
  - assert (0 < dval c)%N as Hpos.
    { destruct (N.eq_0_gt_0_cases (dval c)) as [E|]; [|done]. apply digit_char in Hc. rewrite E in Hc. by destruct Hne. }
    assert (forall a, (a <= value a s)%N) as Hge.
    { clear. induction s as [|c s IH]; intros a; cbn; [lia|]. etrans; [|apply IH]. lia. }
    destruct (decide (value (dval c) s = 0%N)) as [E|_]; [specialize (Hge (dval c)); lia|].
    rewrite print_value by done. rewrite pretty_N_go_step by done.
    rewrite N.div_small, N.mod_small, pretty_N_go_0 by done. by rewrite digit_char.
Qed.

Lemma value_bound a s : all_digits s = true ->
  (value a s < (a + 1) * 10 ^ N.of_nat (String.length s))%N.
Proof.
  revert a. induction s as [|c s IH]; intros a; cbn [all_digits value]; [intros _; cbn; lia|].
  intros [Hc Hs]%andb_prop. pose proof (dval_lt c Hc). specialize (IH (a * 10 + dval c)%N Hs).
  cbn [String.length]. rewrite Nat2N.inj_succ, N.pow_succ_r'. nia.
Qed.

Lemma value_snoc a s c : value a (s ++ String c "") = (value a s * 10 + dval c)%N.
Proof. revert a. induction s as [|x s IH]; intros a; [done|]. cbn. apply IH. Qed.

Lemma length_snoc s c : String.length (s ++ String c "") = S (String.length s).
Proof.
  induction s as [|x s IH]; [done|].
  change (S (String.length (s ++ String c "")) = S (S (String.length s))). by rewrite IH.
Qed.

(** Every number has canonical digits. *)
Lemma canonical_exists k n : (0 < n < 10 ^ N.of_nat k)%N ->
  exists s, canonical s = true /\ value 0 s = n /\ (String.length s <= k)%nat.
Proof.
  revert n. induction k as [|k IH]; intros n Hn; [cbn in Hn; lia|].
  rewrite Nat2N.inj_succ, N.pow_succ_r' in Hn.
  destruct (char_digit (n `mod` 10)) as [C1 C2]; [by apply N.mod_lt|].
  pose proof (N.div_mod n 10 ltac:(done)) as Hdm. pose proof (N.mod_lt n 10 ltac:(done)).
  destruct (N.eq_0_gt_0_cases (n `div` 10)) as [E|Hpos].
  - exists (String (pretty_N_char (n `mod` 10)) ""). cbn. rewrite C1, C2. split_and!; (done || lia).
  - destruct (IH (n `div` 10)%N) as (s & H1 & H2 & H3); [lia|].
    exists (s ++ String (pretty_N_char (n `mod` 10)) ""). rewrite value_snoc, length_snoc, H2, C2.
    split_and!; [|lia|lia]. destruct s as [|c s]; [done|].
    change (String c s ++ ?x) with (String c (s ++ x)). cbn [canonical all_digits] in H1 |- *.
    apply andb_prop in H1 as [[H1a H1b]%andb_prop H1c]. rewrite H1a.
    assert (all_digits (s ++ String (pretty_N_char (n `mod` 10)) "") = true) as ->.
    { clear -H1b C1. induction s as [|x s IH]; [change (digit (pretty_N_char (n `mod` 10)) && true = true); by rewrite C1|].
      change (String x s ++ ?y) with (String x (s ++ y)). cbn [all_digits] in *. apply andb_prop in H1b as [-> ?]. by apply IH. }
    cbn [andb]. destruct s as [|x s]; [|exact H1c].
    destruct (bool_decide_reflect (c = "0"%char)) as [->|]; [|apply orb_true_r]. exfalso.
    change (value 0 (String "0"%char "")) with 0%N in H2. lia.
Qed.

Lemma canonical_decimal s : decimal s =
  if canonical s && (slen s <=? 19)%Z then Ok (Z.of_N (value 0 s)) else Err Invalid.
Proof.
  unfold decimal. rewrite all_digits_codes. destruct s as [|c s]; [done|].
  cbn [is_empty canonical]. destruct (all_digits (String c s)) eqn:Ed; [|by rewrite !orb_true_r].
  destruct (Z.ltb_spec 19 (slen (String c s))) as [Hl|Hl]; cbn [orb negb andb].
  { rewrite (proj2 (Z.leb_gt _ _)) by lia. by rewrite andb_false_r. }
  rewrite (proj2 (Z.leb_le _ _)) by lia. rewrite andb_true_r.
  assert ((1 <? slen (String c s))%Z && starts_with "0" (String c s)
          = negb (is_empty s || negb (bool_decide (c = "0"%char)))) as ->.
  { assert (starts_with "0" (String c s) = bool_decide (c = "0"%char)) as ->.
    { unfold starts_with. cbn [strip_prefix]. destruct (decide (c = "0"%char)) as [->|Hne]; [done|].
      rewrite (bool_decide_eq_false_2 (c = _)) by done. by rewrite decide_False by congruence. }
    rewrite negb_orb, negb_involutive. f_equal. unfold slen. destruct s; [done|]. cbn [String.length is_empty negb]. apply Z.ltb_lt. lia. }
  destruct (is_empty s || _); cbn [negb]; [|done].
  unfold digits_u64. pose proof (value_codes (String c s) 0 Ed) as Hv. cbn [Z.of_N] in Hv.
  rewrite Hv. pose proof (value_bound 0 (String c s) Ed) as Hb.
  rewrite (proj2 (Z.leb_le _ _)); [done|]. unfold slen in Hl.
  assert (10 ^ N.of_nat (String.length (String c s)) <= 10 ^ 19)%N by (apply N.pow_le_mono_r; lia).
  unfold U64_MAX. lia.
Qed.

Lemma decimal_canonical_iff s n : decimal s = Ok n <-> 0 <= n < 10 ^ 19 /\ s = pretty (Z.to_N n).
Proof.
  rewrite canonical_decimal. split.
  - destruct (canonical s) eqn:Ec; [|done]. destruct (Z.leb_spec (slen s) 19) as [Hl|]; [|done]. cbn. intros [= <-].
    rewrite N2Z.id, print_canonical by done. split; [|done]. split; [lia|].
    assert (all_digits s = true) as Hd by (destruct s; [done|]; by apply andb_prop in Ec as [? _]).
    pose proof (value_bound 0 s Hd). unfold slen in Hl.
    assert (10 ^ N.of_nat (String.length s) <= 10 ^ 19)%N by (apply N.pow_le_mono_r; lia). lia.
  - intros [Hn ->]. destruct (decide (n = 0)) as [->|Hnz]; [done|].
    destruct (canonical_exists 19 (Z.to_N n)) as (s & H1 & H2 & H3); [lia|].
    rewrite <- H2, print_canonical, H1 by done. unfold slen.
    destruct (Z.leb_spec (Z.of_nat (String.length s)) 19); [|lia]. cbn. f_equal. lia.
Qed.
End Decimal.
