(* ===== verification/GrantDb.v ===== *)
(** * Device grants: the database

    Models [crates/wildbloomd/src/grants/db.rs]: each table is a finite map on
    its primary key, each statement a function on the tables, [None] when a
    CHECK refuses it.  Opening and migrating the file is not modelled. *)
From stdpp Require Import sorting.
From S2P Require Import Prelude.

Record GrantRow := {
  g_device : string; g_recovery : string; g_issuer : string; g_byte_limit : Z; g_until : Z;
  granted_at : Z; last_event_at : Z; revoked_at : option Z }.

Record Member := { m_issuer : string; m_byte_limit : Z; since : Z }.

Record MovedClaim := {
  mv_hash : string; mv_owner : string; mv_size : Z; mv_type : string; mv_class : option string;
  independent : bool; adopted : bool; moved_at : Z }.

#[export] Instance GrantRow_eq_dec : EqDecision GrantRow.
Proof. solve_decision. Defined.
#[export] Instance Member_eq_dec : EqDecision Member.
Proof. solve_decision. Defined.

Definition owner_claim_is_ours (r : MovedClaim) : bool := negb (independent r) && negb (adopted r).

(** [Rows]: what a snapshot holds in memory. *)
Record Rows := {
  grants : gmap string GrantRow; members : gmap string Member; markers : gmap string Z }.

(** The tables.  [moved_claims] is keyed by (pubkey, hash) and [owner_writes]
    by (owner, hash). *)
Record Db := {
  device_grants : gmap string GrantRow; core_members : gmap string Member;
  revocation_markers : gmap string Z; moved_claims : gmap (string * string) MovedClaim;
  owner_writes : gmap (string * string) Z; used_events : gmap string Z }.

(** An INTEGER column holds 64 signed bits. *)
Definition int (value : Z) : Z := Z.min value I64_MAX.

Definition set_grants (t : gmap string GrantRow) (d : Db) : Db :=
  {| device_grants := t; core_members := core_members d; revocation_markers := revocation_markers d;
     moved_claims := moved_claims d; owner_writes := owner_writes d; used_events := used_events d |}.
Definition set_members (t : gmap string Member) (d : Db) : Db :=
  {| device_grants := device_grants d; core_members := t; revocation_markers := revocation_markers d;
     moved_claims := moved_claims d; owner_writes := owner_writes d; used_events := used_events d |}.
Definition set_markers (t : gmap string Z) (d : Db) : Db :=
  {| device_grants := device_grants d; core_members := core_members d; revocation_markers := t;
     moved_claims := moved_claims d; owner_writes := owner_writes d; used_events := used_events d |}.
Definition set_moved (t : gmap (string * string) MovedClaim) (d : Db) : Db :=
  {| device_grants := device_grants d; core_members := core_members d;
     revocation_markers := revocation_markers d; moved_claims := t; owner_writes := owner_writes d;
     used_events := used_events d |}.
Definition set_writes (t : gmap (string * string) Z) (d : Db) : Db :=
  {| device_grants := device_grants d; core_members := core_members d;
     revocation_markers := revocation_markers d; moved_claims := moved_claims d; owner_writes := t;
     used_events := used_events d |}.
Definition set_used (t : gmap string Z) (d : Db) : Db :=
  {| device_grants := device_grants d; core_members := core_members d;
     revocation_markers := revocation_markers d; moved_claims := moved_claims d;
     owner_writes := owner_writes d; used_events := t |}.

Definition read_rows (d : Db) : Rows :=
  {| grants := device_grants d; members := core_members d; markers := revocation_markers d |}.

Definition stored_grant (row : GrantRow) : GrantRow :=
  {| g_device := g_device row; g_recovery := g_recovery row; g_issuer := g_issuer row;
     g_byte_limit := int (g_byte_limit row); g_until := int (g_until row);
     granted_at := int (granted_at row); last_event_at := int (last_event_at row);
     revoked_at := int <$> revoked_at row |}.

Definition write_grant (row : GrantRow) (d : Db) : option Db :=
  if 0 <? int (g_byte_limit row)
  then Some (set_grants (<[g_device row := stored_grant row]> (device_grants d)) d) else None.

Definition delete_grant (device : string) (d : Db) : option Db :=
  Some (set_grants (delete device (device_grants d)) d).

(** [since] is kept on conflict. *)
Definition write_member (key : string) (m : Member) (d : Db) : option Db :=
  if 0 <? int (m_byte_limit m)
  then Some (set_members (<[key := {| m_issuer := m_issuer m; m_byte_limit := int (m_byte_limit m);
                                      since := match core_members d !! key with
                                               | Some old => since old
                                               | None => int (since m)
                                               end |}]> (core_members d)) d)
  else None.

Definition delete_member (key : string) (d : Db) : option Db :=
  Some (set_members (delete key (core_members d)) d).

Definition write_marker (device : string) (at_ : Z) (d : Db) : option Db :=
  Some (set_markers (<[device := int at_]> (revocation_markers d)) d).

(** [true] when the id was not there. *)
Definition consume_event (event_id : string) (expires_at : Z) (d : Db) : bool * Db :=
  match used_events d !! event_id with
  | Some _ => (false, d)
  | None => (true, set_used (<[event_id := int expires_at]> (used_events d)) d)
  end.

(** The two deletions of [prune], each a statement of its own. *)
Definition prune_used (now : Z) (d : Db) : Db :=
  set_used (filter (fun '(_, e) => (e <? int now) = false) (used_events d)) d.

Definition prune_writes (now owner_write_window : Z) (d : Db) : Db :=
  set_writes (filter (fun '(_, a) => (a <? int (saturating_sub now owner_write_window)) = false)
                (owner_writes d)) d.

Definition adopt_move (r : MovedClaim) : MovedClaim :=
  {| mv_hash := mv_hash r; mv_owner := mv_owner r; mv_size := mv_size r; mv_type := mv_type r;
     mv_class := mv_class r; independent := independent r; adopted := true; moved_at := moved_at r |}.

(** The two statements of [mark_owner_write]. *)
Definition record_owner_write (owner hash : string) (now : Z) (d : Db) : Db :=
  set_writes (<[(owner, hash) := int now]> (owner_writes d)) d.

Definition adopt_moves (owner hash : string) (d : Db) : Db :=
  set_moved (map_imap (fun '(_, h) r => Some (if bool_decide (mv_owner r = owner) && bool_decide (h = hash)
                                              then adopt_move r else r)) (moved_claims d)) d.

Definition recent_owner_write (owner hash : string) (since : Z) (d : Db) : bool :=
  match owner_writes d !! (owner, hash) with Some a => int since <=? a | None => false end.

Definition moved_row (key hash : string) (d : Db) : option MovedClaim := moved_claims d !! (key, hash).

(** An existing record keeps its flags. *)
Definition insert_move (key : string) (r : MovedClaim) (d : Db) : option Db :=
  match moved_claims d !! (key, mv_hash r) with
  | Some _ => Some d
  | None =>
      Some (set_moved (<[(key, mv_hash r) :=
        {| mv_hash := mv_hash r; mv_owner := mv_owner r; mv_size := int (mv_size r); mv_type := mv_type r;
           mv_class := mv_class r; independent := independent r; adopted := adopted r;
           moved_at := int (moved_at r) |}]> (moved_claims d)) d)
  end.

Record OtherMoves := { om_count : Z; om_independent : bool; om_adopted : bool }.

(** The records of other keys for this owner and blob. *)
Definition others_of (owner hash except : string) (d : Db) : list MovedClaim :=
  omap (fun '((k, h), r) => if bool_decide (mv_owner r = owner) && bool_decide (h = hash)
                               && negb (bool_decide (k = except)) then Some r else None)
    (map_to_list (moved_claims d)).

Definition other_moves (owner hash except : string) (d : Db) : OtherMoves :=
  let rs := others_of owner hash except d in
  {| om_count := Z.of_nat (length rs); om_independent := existsb independent rs;
     om_adopted := existsb adopted rs |}.

Definition forget_move (key hash : string) (d : Db) : Db :=
  set_moved (delete (key, hash) (moved_claims d)) d.

(** ** One page of a key's moves to an owner, in hash order *)

Definition hash_le (a b : MovedClaim) : Prop := String.leb (mv_hash a) (mv_hash b) = true.
#[export] Instance hash_le_dec : RelDecision hash_le.
Proof. intros a b. unfold hash_le. apply _. Defined.

Definition moved_page (key owner after : string) (limit : nat) (d : Db) : list MovedClaim :=
  take limit (merge_sort hash_le
    (omap (fun '((k, h), r) => if bool_decide (k = key) && bool_decide (mv_owner r = owner)
                                  && String.ltb after h then Some r else None)
       (map_to_list (moved_claims d)))).
