(* ===== verification/GrantWorld.v ===== *)
(** * Device grants: the world

    The state of [Grants] ([crates/wildbloomd/src/grants/mod.rs]): the
    database, the snapshot requests read, the keys due for a hand-back, the
    in-flight counts, and the core's store.  The store is another package: its
    operations are those of [CoreStore], and [CoreLaws] states what the code
    relies on. *)
From S2P Require Import Prelude GrantEvent GrantDb.

(** ** The core store *)

Inductive StoreError :=
| NotClaimant | MissingBlob | Tombstoned | LengthMismatch | FriendLimitExceeded | InvalidCursor
| OtherStoreError.

Record ClaimMetadata := {
  sha256 : string; c_size : Z; content_type : string; c_class : option string; uploaded : Z }.

Inductive RetentionTier := OwnerTier | FriendTier.

Record ClaimSpec := {
  signer_pubkey : string; retention_tier : RetentionTier; cs_type : string; grant_id : option string;
  claim_expires_at : option Z; cs_byte_limit : option Z; cs_class : option string }.

Inductive UploadStart := Existing | Reserved.

Record FriendGrant := {
  f_pubkey : string; f_byte_limit : Z; f_expires_at : Z; f_grant_id : string; f_issuer : option string }.

Class CoreStore := {
  core : Type;
  list_claims : string -> option string -> nat -> core -> result StoreError (list ClaimMetadata) * core;
  list_claims_for_grant : string -> string -> option string -> nat -> core ->
    result StoreError (list ClaimMetadata) * core;
  begin_claimed_mirror : string -> Z -> ClaimSpec -> core -> result StoreError UploadStart * core;
  delete_claim : string -> string -> core -> result StoreError unit * core;
  (** [store.get(hash)?.is_some()]. *)
  blob_exists : string -> core -> result StoreError bool * core
}.

(** Which signer holds a claim on which blob, and how the operations change
    it: a mirror of an existing blob adds the signer's claim, a delete removes
    one claim, an error and a listing change none, and the listing cursor must
    be one of the signer's claims. *)
Class CoreLaws (S : CoreStore) := {
  holds : core -> string -> string -> Prop;
  list_same s cur n c r c' : list_claims s cur n c = (r, c') -> forall k h, holds c' k h <-> holds c k h;
  list_cursor s h n c r c' : list_claims s (Some h) n c = (r, c') ->
    match r with Ok _ => holds c s h | Err InvalidCursor => ~ holds c s h | Err _ => True end;
  list_grant_same s g cur n c r c' :
    list_claims_for_grant s g cur n c = (r, c') -> forall k h, holds c' k h <-> holds c k h;
  list_grant_holds s g cur n c page c' claim :
    list_claims_for_grant s g cur n c = (Ok page, c') -> claim ∈ page -> holds c s (sha256 claim);
  mirror_claims h size spec c r c' : begin_claimed_mirror h size spec c = (r, c') ->
    forall k x, holds c' k x <-> holds c k x \/ (r = Ok Existing /\ k = signer_pubkey spec /\ x = h);
  delete_claims h s c r c' : delete_claim h s c = (r, c') ->
    forall k x, holds c' k x <-> holds c k x /\ ~ (r = Ok tt /\ k = s /\ x = h);
  get_same h c r c' : blob_exists h c = (r, c') -> forall k x, holds c' k x <-> holds c k x
}.

(** ** The outside *)

Class GrantOutside := {
  genv : Type;
  g_clock : genv -> Z * genv;
  (** A statement, a commit or taking the database lock succeeds. *)
  g_io : genv -> bool * genv;
  (** Reading the tables into a snapshot succeeds. *)
  g_read : genv -> bool * genv;
  (** The keys group mode claims. *)
  g_group : genv -> gset string * genv;
  (** The friend grants of group mode. *)
  g_group_grants : genv -> list FriendGrant * genv;
  (** The core accepts a set of friend grants. *)
  g_push : list FriendGrant -> genv -> bool * genv;
  (** What other requests do to the in-flight counts meanwhile. *)
  g_flights : gmap string Z -> genv -> gmap string Z * genv;
  (** [AuthPolicy::verify_delete] for an authorisation and a hash: the signer. *)
  g_verify_delete : option string -> string -> genv -> option string * genv;
  (** The core router's answer to a request. *)
  g_next : genv -> Z * genv
}.

(** [Inner], without locks and notifications. *)
Record Config := {
  owners : gset string; reserved : gset string; server_names : list string; origin : string;
  cli_friend_grants : list FriendGrant; attached : bool }.

Record World `{GrantOutside, CoreStore} := {
  db : Db; snapshot : Rows; due : gset string; flights : gmap string Z; store : core; w_env : genv }.

Section World.
Context `{Out : GrantOutside, St : CoreStore}.
Local Open Scope wb_scope.

Abbreviation M E A := (SM World E A).

Definition with_db (d : Db) (w : World) : World :=
  {| db := d; snapshot := snapshot w; due := due w; flights := flights w; store := store w; w_env := w_env w |}.
Definition with_snapshot (r : Rows) (w : World) : World :=
  {| db := db w; snapshot := r; due := due w; flights := flights w; store := store w; w_env := w_env w |}.
Definition with_due (s : gset string) (w : World) : World :=
  {| db := db w; snapshot := snapshot w; due := s; flights := flights w; store := store w; w_env := w_env w |}.
Definition with_flights (f : gmap string Z) (w : World) : World :=
  {| db := db w; snapshot := snapshot w; due := due w; flights := f; store := store w; w_env := w_env w |}.
Definition with_store (c : core) (w : World) : World :=
  {| db := db w; snapshot := snapshot w; due := due w; flights := flights w; store := c; w_env := w_env w |}.
Definition with_env (e : genv) (w : World) : World :=
  {| db := db w; snapshot := snapshot w; due := due w; flights := flights w; store := store w; w_env := e |}.

Definition get {E} : M E World := fun w => (Ok w, w).
Definition put {E} (w : World) : M E unit := fun _ => (Ok tt, w).
Definition ask {E A} (f : genv -> A * genv) : M E A := fun w =>
  let (a, e) := f (w_env w) in (Ok a, with_env e w).
Definition on_store {E A} (f : core -> A * core) : M E A := fun w =>
  let (a, c) := f (store w) in (Ok a, with_store c w).

(** Something that may fail outside. *)
Definition io {E} (e : E) : M E unit := let! ok := ask g_io in if ok : bool then ret tt else throw e.

(** A statement: it may fail outside or on a constraint. *)
Definition statement {E} (e : E) (f : Db -> option Db) : M E unit :=
  let! _ := io e in
  let! w := get in
  match f (db w) with Some d => put (with_db d w) | None => throw e end.

(** A query. *)
Definition query {E A} (e : E) (f : Db -> A) : M E A :=
  let! _ := io e in let! w := get in ret (f (db w)).

(** A transaction: the tables are those of its start unless it commits. *)
Definition transaction {E A} (e : E) (m : M E A) : M E A := fun w =>
  match (let! a := m in let! _ := io e in ret a) w with
  | (Ok a, w') => (Ok a, w')
  | (Err e, w') => (Err e, with_db (db w) w')
  end.
End World.
