(* ===== verification/GrantClaims.v ===== *)
(** * Device grants: the claim lifecycle

    Models [crates/wildbloomd/src/grants/claims.rs]: moving an ended key's
    claims to its owner, handing them back, releasing one on a delete, and
    re-adopting demoted claims.  A walk over pages of a listing runs for at most
    [fuel] pages. *)
From S2P Require Import Prelude GrantEvent GrantDb GrantWorld.

Definition PAGE : nat := 100.
Definition MOVED_PAGE : nat := 500.
Definition ADOPT_BATCH : nat := (100 * 100)%nat.
Definition PAID_ONLY : string := "".
Definition CORE_GRANT_SENTINEL : Z := I64_MAX.
Definition OWNER_WRITE_WINDOW : Z := 60 * 60.

(** The [String] errors of this module; [OutOfPages] marks a walk that was
    still going when the pages ran out. *)
Inductive ClaimError := LockFailed | DatabaseFailed | StoreFailed (e : StoreError) | OutOfPages.

Definition declared_type (value : string) : string :=
  if is_empty value || (255 <? slen value) then "application/octet-stream" else value.

Definition friend_spec (key grant : string) (member : Member) (declared : string) (class : option string)
    : ClaimSpec :=
  {| signer_pubkey := key; retention_tier := FriendTier; cs_type := declared; grant_id := Some grant;
     claim_expires_at := Some CORE_GRANT_SENTINEL; cs_byte_limit := Some (m_byte_limit member);
     cs_class := class |}.

Definition owner_spec (owner declared : string) (class : option string) : ClaimSpec :=
  {| signer_pubkey := owner; retention_tier := OwnerTier; cs_type := declared; grant_id := None;
     claim_expires_at := None; cs_byte_limit := None; cs_class := class |}.

(** The blob is gone or refused. *)
Definition gone (r : result StoreError UploadStart) : bool :=
  match r with
  | Ok Reserved | Err MissingBlob | Err Tombstoned | Err LengthMismatch => true
  | _ => false
  end.

Section Claims.
Context `{Out : GrantOutside, St : CoreStore}.
Local Open Scope wb_scope.

Abbreviation M A := (SM World ClaimError A).

Definition lock : M unit := io LockFailed.
Definition exec (f : Db -> option Db) : M unit := statement DatabaseFailed f.
Definition select {A} (f : Db -> A) : M A := query DatabaseFailed f.

Definition store_ok {A} (r : result StoreError A) : M A := lift (map_err StoreFailed r).

(** One listing page: of a grant, or of all the key's claims. *)
Definition listing (key : string) (grant : option string) (cursor : option string)
    : M (list ClaimMetadata) :=
  let! r := on_store (match grant with
                      | Some g => list_claims_for_grant key g cursor PAGE
                      | None => list_claims key cursor PAGE
                      end) in
  store_ok r.

(** [each_claim], collecting the claims it visits. *)
Fixpoint each_claim (fuel : nat) (key : string) (grant : option string) (cursor : option string)
    (seen : list ClaimMetadata) : M (list ClaimMetadata) :=
  match fuel with
  | 0%nat => throw OutOfPages
  | S fuel =>
      let! page := listing key grant cursor in
      let seen := seen ++ page in
      if (length page =? PAGE)%nat
      then each_claim fuel key grant (sha256 <$> last page) seen
      else ret seen
  end.

Definition hash_set (fuel : nat) (key : string) (grant : option string) : M (gset string) :=
  let! claims := each_claim fuel key grant None [] in
  ret (list_to_set (map sha256 claims)).

Definition holds_claim (signer hash : string) : M bool :=
  let! r := on_store (list_claims signer (Some hash) 1) in
  match r with
  | Ok _ => ret true
  | Err InvalidCursor => ret false
  | Err e => throw (StoreFailed e)
  end.

(** [match store.delete_claim(..) { Ok(_) | Err(NotClaimant | MissingBlob) => {} .. }]. *)
Definition drop_claim (hash signer : string) : M unit :=
  let! r := on_store (delete_claim hash signer) in
  match r with
  | Ok _ | Err NotClaimant | Err MissingBlob => ret tt
  | Err e => throw (StoreFailed e)
  end.

Definition drop_owner_claim_if_ours (key hash : string) : M unit :=
  let! record := select (moved_row key hash) in
  match record with
  | None => ret tt
  | Some record =>
      let! others := select (other_moves (mv_owner record) hash key) in
      let! _ := if owner_claim_is_ours record && (om_count others =? 0)
                then drop_claim hash (mv_owner record) else ret tt in
      exec (fun d => Some (forget_move key hash d))
  end.

(** ** Moving to the owner *)

(** Record the intent, unless an earlier pass left a record. *)
Definition record_move (key owner : string) (claim : ClaimMetadata) (now : Z) : M unit :=
  let hash := sha256 claim in
  let! _ := lock in
  let! old := select (moved_row key hash) in
  match old with
  | Some _ => ret tt
  | None =>
      let! others := select (other_moves owner hash key) in
      let! held := holds_claim owner hash in
      let! recent := if om_adopted others then ret true
                     else select (recent_owner_write owner hash (saturating_sub now OWNER_WRITE_WINDOW)) in
      exec (insert_move key
        {| mv_hash := hash; mv_owner := owner; mv_size := c_size claim;
           mv_type := declared_type (content_type claim); mv_class := c_class claim;
           independent := held && ((om_count others =? 0) || om_independent others);
           adopted := recent; moved_at := now |})
  end.

(** One claim: [true] when it moved. *)
Definition move_claim (key owner : string) (now : Z) (claim : ClaimMetadata) : M bool :=
  let! _ := record_move key owner claim now in
  let! r := on_store (begin_claimed_mirror (sha256 claim) (c_size claim)
                        (owner_spec owner (declared_type (content_type claim)) (c_class claim))) in
  if gone r then
    let! _ := lock in
    let! _ := exec (fun d => Some (forget_move key (sha256 claim) d)) in
    ret false
  else
    let! _ := store_ok r in
    let! _ := drop_claim (sha256 claim) key in
    ret true.

(** The claims of one page. *)
Record Walk := { attempted : gset string; at_ : option string; moved : Z }.

Fixpoint transfer_page (key owner : string) (now : Z) (paid : gset string) (page : list ClaimMetadata)
    (s : Walk) : M Walk :=
  match page with
  | [] => ret s
  | claim :: page =>
      let id := sha256 claim in
      if bool_decide (id ∈ paid) || bool_decide (id ∈ attempted s)
      then transfer_page key owner now paid page
             {| attempted := attempted s; at_ := Some id; moved := moved s |}
      else
        let s := {| attempted := {[id]} ∪ attempted s; at_ := at_ s; moved := moved s |} in
        let! ok := move_claim key owner now claim in
        transfer_page key owner now paid page
          {| attempted := attempted s; at_ := at_ s; moved := if ok : bool then moved s + 1 else moved s |}
  end.

Fixpoint transfer_loop (fuel : nat) (key owner grant : string) (now : Z) (paid : gset string) (s : Walk)
    : M Z :=
  match fuel with
  | 0%nat => throw OutOfPages
  | S fuel =>
      let! page := listing key (Some grant) (at_ s) in
      let! s := transfer_page key owner now paid page s in
      if (length page =? PAGE)%nat then transfer_loop fuel key owner grant now paid s
      else ret (moved s)
  end.

Definition transfer (fuel : nat) (key owner grant : string) (now : Z) : M Z :=
  let! paid := hash_set fuel key (Some PAID_ONLY) in
  transfer_loop fuel key owner grant now paid {| attempted := ∅; at_ := None; moved := 0 |}.

(** ** Handing back *)

Fixpoint restore_page (key grant : string) (member : Member) (page : list MovedClaim) (n : Z * Z)
    : M (Z * Z) :=
  match page with
  | [] => ret n
  | record :: page =>
      let! held := holds_claim (m_issuer member) (mv_hash record) in
      if negb held then
        let! _ := lock in
        let! _ := exec (fun d => Some (forget_move key (mv_hash record) d)) in
        restore_page key grant member page n
      else
        let! r := on_store (begin_claimed_mirror (mv_hash record) (mv_size record)
                              (friend_spec key grant member (mv_type record) (mv_class record))) in
        if gone r then
          let! _ := lock in
          let! _ := exec (fun d => Some (forget_move key (mv_hash record) d)) in
          restore_page key grant member page n
        else
          match r with
          | Err FriendLimitExceeded => restore_page key grant member page (n.1, n.2 + 1)
          | Err e => throw (StoreFailed e)
          | Ok _ =>
              let! _ := lock in
              let! _ := drop_owner_claim_if_ours key (mv_hash record) in
              restore_page key grant member page (n.1 + 1, n.2)
          end
  end.

Fixpoint restore_loop (fuel : nat) (key grant : string) (member : Member) (after : string) (n : Z * Z)
    : M (Z * Z) :=
  match fuel with
  | 0%nat => throw OutOfPages
  | S fuel =>
      let! _ := lock in
      let! page := select (moved_page key (m_issuer member) after MOVED_PAGE) in
      match last page with
      | None => ret n
      | Some l =>
          let! n := restore_page key grant member page n in
          restore_loop fuel key grant member (mv_hash l) n
      end
  end.

Definition restore (fuel : nat) (key : string) (member : Member) (grant : string) : M (Z * Z) :=
  restore_loop fuel key grant member "" (0, 0).

(** ** Releasing one claim *)

Definition release (key owner hash : string) : M (option unit) :=
  let! _ := lock in
  let! r := select (moved_row key hash) in
  match r with
  | Some record =>
      if bool_decide (mv_owner record = owner)
      then let! _ := drop_owner_claim_if_ours key hash in ret (Some tt)
      else ret None
  | None => ret None
  end.

(** ** Re-adopting *)

Fixpoint adopt_batch (key grant : string) (member : Member) (batch : list ClaimMetadata)
    (s : Z * Z * gset string) : M (Z * Z * gset string) :=
  match batch with
  | [] => ret s
  | claim :: batch =>
      let! r := on_store (begin_claimed_mirror (sha256 claim) (c_size claim)
                  (friend_spec key grant member (declared_type (content_type claim)) (c_class claim))) in
      let '(adopted, refused, set) := s in
      match r with
      | Ok Existing => adopt_batch key grant member batch (adopted + 1, refused, set)
      | Ok Reserved | Err FriendLimitExceeded | Err MissingBlob | Err Tombstoned | Err LengthMismatch =>
          adopt_batch key grant member batch (adopted, refused + 1, {[sha256 claim]} ∪ set)
      | Err e => throw (StoreFailed e)
      end
  end.

Fixpoint adopt_loop (fuel : nat) (key grant : string) (member : Member) (s : Z * Z * gset string)
    : M (Z * Z) :=
  match fuel with
  | 0%nat => throw OutOfPages
  | S fuel =>
      let! placed := hash_set fuel key (Some grant) in
      let! claims := each_claim fuel key None None [] in
      let batch := take ADOPT_BATCH
        (List.filter (fun c => (since member <=? uploaded c) && negb (bool_decide (sha256 c ∈ placed))
                               && negb (bool_decide (sha256 c ∈ s.2))) claims) in
      match batch with
      | [] => ret s.1
      | _ =>
          let! s := adopt_batch key grant member batch s in
          adopt_loop fuel key grant member s
      end
  end.

Definition adopt (fuel : nat) (key : string) (member : Member) (grant : string) : M (Z * Z) :=
  adopt_loop fuel key grant member (0, 0, ∅).
End Claims.
