(* ===== verification/GrantClaimsProofs.v ===== *)
(** * Device grants: what the claim lifecycle keeps

    A move never leaves a blob without a claim, and no step of the lifecycle
    drops a claim the owner holds in its own right. *)
From S2P Require Import Prelude GrantEvent GrantDb GrantWorld GrantClaims.

Section Proofs.
Context `{Out : GrantOutside, St : CoreStore} {Laws : CoreLaws St}.

(** Reading, asking and listing change neither the tables nor the claims. *)
Class Observes (R : World -> World -> Prop) : Prop := {
  obs_refl :: Reflexive R;
  obs_trans :: Transitive R;
  obs_env w e : R w (with_env e w);
  obs_store w c : (forall k h, holds c k h <-> holds (store w) k h) -> R w (with_store c w)
}.

Section Observes.
Context (R : World -> World -> Prop) `{HR : !Observes R}.

Lemma obs_ask {E A} (f : genv -> A * genv) : respects R (ask (E := E) f).
Proof. intros w. unfold ask. destruct (f (w_env w)) as [a e]. apply obs_env. Qed.
Lemma obs_get {E} : respects R (get (E := E)).
Proof. intros w. cbn. reflexivity. Qed.
#[local] Hint Resolve obs_ask obs_get : respects.
Lemma obs_io {E} (e : E) : respects R (io e).
Proof. unfold io. respects. Qed.
#[local] Hint Resolve obs_io : respects.
Lemma obs_query {E A} (e : E) (f : Db -> A) : respects R (query e f).
Proof. unfold query. respects. Qed.
Lemma obs_statement {E} (e : E) (f : Db -> option Db) :
  (forall w d, f (db w) = Some d -> R w (with_db d w)) -> respects R (statement e f).
Proof.
  intros H. unfold statement. apply respects_bind; [exact _|auto with respects|intros _].
  intros w. unfold bind, get. destruct (f (db w)) as [d|] eqn:E'; cbn; [by apply H|reflexivity].
Qed.
Lemma obs_listing key grant cursor : respects R (listing key grant cursor).
Proof.
  unfold listing, store_ok. apply respects_bind; [exact _| |intros r; respects].
  intros w. unfold on_store. destruct grant as [g|].
  - destruct (list_claims_for_grant key g cursor PAGE (store w)) as [r c] eqn:E.
    apply obs_store. by apply (list_grant_same key g cursor PAGE _ r).
  - destruct (list_claims key cursor PAGE (store w)) as [r c] eqn:E.
    apply obs_store. by apply (list_same key cursor PAGE _ r).
Qed.
#[local] Hint Resolve obs_query obs_listing : respects.
Lemma obs_each_claim fuel key grant cursor seen : respects R (each_claim fuel key grant cursor seen).
Proof. revert cursor seen. induction fuel; intros; cbn [each_claim]; respects. Qed.
#[local] Hint Resolve obs_each_claim : respects.
Lemma obs_hash_set fuel key grant : respects R (hash_set fuel key grant).
Proof. unfold hash_set. respects. Qed.
Lemma obs_lock : respects R lock.
Proof. unfold lock. respects. Qed.
Lemma obs_select {A} (f : Db -> A) : respects R (select f).
Proof. unfold select. respects. Qed.
Lemma obs_holds_claim signer hash : respects R (holds_claim signer hash).
Proof.
  unfold holds_claim. apply respects_bind; [exact _| |intros r; respects].
  intros w. unfold on_store. destruct (list_claims signer (Some hash) 1 (store w)) as [r c] eqn:E.
  apply obs_store. by apply (list_same signer (Some hash) 1 _ r).
Qed.
End Observes.
#[local] Hint Resolve obs_ask obs_get obs_io obs_query obs_listing obs_each_claim obs_hash_set obs_lock
  obs_select obs_holds_claim : respects.
#[local] Hint Extern 0 (Observes _) => typeclasses eauto : respects.

(** ** No blob is orphaned *)

Record safe (key owner : string) (w w' : World) : Prop := {
  sf_key : forall h, holds (store w) key h -> holds (store w') key h \/ holds (store w') owner h;
  sf_other : forall k h, k <> key -> holds (store w) k h -> holds (store w') k h
}.

Section Move.
Variables (key owner : string).
Hypothesis distinct : owner <> key.

#[local] Instance safe_observes : Observes (safe key owner).
Proof.
  split.
  - intros w. split; auto.
  - intros a b c [A1 A2] [B1 B2]. split.
    + intros h H. destruct (A1 h H) as [H1|H1]; [by apply B1|right]. by apply B2.
    + intros k h Hk H. by apply B2, A2.
  - intros w e. split; auto.
  - intros w c H. split; intros; cbn; rewrite H; auto.
Qed.

Lemma safe_exec f : respects (safe key owner) (exec f).
Proof. apply obs_statement; [exact _|]. intros w d _. split; auto. Qed.
#[local] Hint Resolve safe_exec : respects.

Lemma safe_record_move claim n : respects (safe key owner) (record_move key owner claim n).
Proof. unfold record_move. respects. Qed.
#[local] Hint Resolve safe_record_move : respects.

(** The owner's claim is there before the key's is dropped. *)
Lemma safe_move_claim n claim : respects (safe key owner) (move_claim key owner n claim).
Proof.
  unfold move_claim. apply respects_bind; [exact _|auto with respects|intros _].
  intros w. unfold bind at 1, on_store at 1.
  set (spec := owner_spec _ _ _).
  destruct (begin_claimed_mirror (sha256 claim) (c_size claim) spec (store w)) as [r c] eqn:E.
  pose proof (mirror_claims _ _ _ _ _ _ E) as Hc. cbn beta iota zeta.
  assert (safe key owner w (with_store c w)) as H1.
  { split; [intros h Hh; left|intros k h _ Hh]; cbn; apply Hc; by left. }
  destruct (gone r) eqn:Eg.
  { etransitivity; [exact H1|].
    match goal with |- safe _ _ _ (?m _).2 => assert (respects (safe key owner) m) as Hm by respects; apply Hm end. }
  destruct r as [u|e]; [|exact H1].
  destruct u; [|done].
  unfold bind at 1, store_ok, lift. cbn [map_err]. unfold bind at 1, drop_claim at 1, bind at 1, on_store.
  cbn [store with_store].
  destruct (delete_claim (sha256 claim) key c) as [r2 c2] eqn:E2.
  pose proof (delete_claims _ _ _ _ _ E2) as Hd.
  assert (safe key owner w (with_store c2 (with_store c w))) as H2.
  { assert (holds c2 owner (sha256 claim)) as Ho.
    { apply Hd. split; [apply Hc; by right|]. by intros (_ & ? & _). }
    split.
    - intros h Hh. cbn. destruct (decide (h = sha256 claim)) as [->|Hne]; [by right|left].
      apply Hd. split; [apply Hc; by left|]. by intros (_ & _ & ?).
    - intros k h Hk Hh. cbn. apply Hd. split; [apply Hc; by left|]. by intros (_ & ? & _). }
  destruct r2 as [[]|[]]; exact H2.
Qed.
#[local] Hint Resolve safe_move_claim : respects.

Lemma safe_transfer_page n paid page s :
  respects (safe key owner) (transfer_page key owner n paid page s).
Proof. revert s. induction page; intros; cbn [transfer_page]; respects. Qed.
#[local] Hint Resolve safe_transfer_page : respects.

Lemma safe_transfer fuel grant n : respects (safe key owner) (transfer fuel key owner grant n).
Proof.
  unfold transfer. apply respects_bind; [exact _|auto with respects|intros paid].
  generalize {| attempted := ∅; at_ := None; moved := 0 |}.
  induction fuel; intros; cbn [transfer_loop]; respects.
Qed.
End Move.

(** ** The basic operations as Hoare rules *)

Lemma wp_io {E} (e : E) (Q : result E unit -> World -> Prop) w :
  (forall v, Q (Ok tt) (with_env v w)) -> (forall v, Q (Err e) (with_env v w)) -> wp (io e) Q w.
Proof.
  intros H1 H2. unfold wp, io, bind, ask, ret, throw. destruct (g_io (w_env w)) as [[] v]; [apply H1|apply H2].
Qed.

Lemma wp_query {E A} (e : E) (f : Db -> A) (Q : result E A -> World -> Prop) w :
  (forall v, Q (Ok (f (db w))) (with_env v w)) -> (forall v, Q (Err e) (with_env v w)) -> wp (query e f) Q w.
Proof. intros H1 H2. apply wp_bind, wp_io; [intros v|exact H2]. apply (H1 v). Qed.

Lemma wp_statement {E} (e : E) f (Q : result E unit -> World -> Prop) w :
  (forall v d, f (db w) = Some d -> Q (Ok tt) (with_db d (with_env v w))) ->
  (forall v, Q (Err e) (with_env v w)) -> wp (statement e f) Q w.
Proof.
  intros H1 H2. apply wp_bind, wp_io; [intros v|exact H2]. unfold wp, bind, get, put, throw. cbn.
  destruct (f (db w)) as [d|] eqn:E'; [by apply (H1 v)|apply H2].
Qed.

Lemma wp_holds_claim signer hash (Q : result ClaimError bool -> World -> Prop) w :
  (forall r c, (forall k h, holds c k h <-> holds (store w) k h) ->
     (forall b, r = Ok b -> b = true <-> holds (store w) signer hash) -> Q r (with_store c w)) ->
  wp (holds_claim signer hash) Q w.
Proof.
  intros H. unfold wp, holds_claim, bind, on_store.
  destruct (list_claims signer (Some hash) 1 (store w)) as [r c] eqn:E.
  pose proof (list_same _ _ _ _ _ _ E) as Hs. pose proof (list_cursor _ _ _ _ _ _ E) as Hc.
  destruct r as [p|[]]; cbn; apply H; try done; intros b [= <-]; by split.
Qed.

(** ** The owner's own claims stay *)

Section Own.
Variables (owner hash : string).

Definition kept (r : MovedClaim) : Prop := independent r = true \/ adopted r = true.

(** The owner holds a claim on the blob, and every recorded move of it to this
    owner says so. *)
Record own (w : World) : Prop := {
  own_holds : holds (store w) owner hash;
  own_kept : forall k r, moved_claims (db w) !! (k, hash) = Some r -> mv_owner r = owner -> kept r
}.

Definition keeps_own (w w' : World) : Prop := own w -> own w'.

#[local] Instance keeps_own_observes : Observes keeps_own.
Proof.
  split.
  - intros w H. exact H.
  - intros a b c H1 H2 Ha. by apply H2, H1.
  - intros w e [H1 H2]. by split.
  - intros w c H [H1 H2]. split; [by apply H|done].
Qed.

Lemma own_forget k x : respects keeps_own (exec (fun d => Some (forget_move k x d))).
Proof.
  apply obs_statement; [exact _|]. intros w d [= <-] [H1 H2]. split; [done|]. cbn.
  intros k' r Hr. apply lookup_delete_Some in Hr as [_ Hr]. by apply (H2 k').
Qed.

Lemma own_mirror x size spec :
  respects keeps_own (on_store (E := ClaimError) (begin_claimed_mirror x size spec)).
Proof.
  intros w. unfold on_store. destruct (begin_claimed_mirror x size spec (store w)) as [r c] eqn:E.
  intros [H1 H2]. split; [|done]. cbn. apply (mirror_claims _ _ _ _ _ _ E). by left.
Qed.

Lemma own_drop_claim x signer : x <> hash \/ signer <> owner -> respects keeps_own (drop_claim x signer).
Proof.
  intros Hne w [H1 H2]. unfold drop_claim, bind, on_store.
  destruct (delete_claim x signer (store w)) as [r c] eqn:E.
  assert (own (with_store c w)) as Ho.
  { split; [|done]. cbn. apply (delete_claims _ _ _ _ _ E). split; [done|]. intros (_ & E1 & E2).
    destruct Hne as [Hne|Hne]; apply Hne; congruence. }
  by destruct r as [[]|[]].
Qed.
#[local] Hint Resolve own_forget own_mirror : respects.

Lemma own_drop_owner_claim key x : respects keeps_own (drop_owner_claim_if_ours key x).
Proof.
  intros w Hw. unfold drop_owner_claim_if_ours. apply (wp_bind _ _ (fun _ w' => own w')).
  apply wp_query; [intros v|intros v; by apply (obs_env (R := keeps_own) w v)].
  assert (own (with_env v w)) as Hv by (by apply (obs_env (R := keeps_own) w v)).
  destruct (moved_row key x (db w)) as [record|] eqn:Er; [|exact Hv].
  apply wp_bind, wp_query; [intros v2|intros v2; by apply (obs_env (R := keeps_own) (with_env v w) v2)].
  match goal with |- wp ?m _ ?w2 => enough (respects keeps_own m) as Hm; [apply (Hm w2); by apply (obs_env (R := keeps_own) (with_env v w) v2)|] end.
  apply respects_bind; [exact _| |intros _; auto with respects].
  destruct (_ && _) eqn:Eo; [|respects]. apply own_drop_claim.
  destruct (decide (x = hash)) as [->|]; [right|by left]. intros Hro.
  destruct Hw as [_ H2]. apply andb_prop in Eo as [Eo _]. unfold owner_claim_is_ours in Eo.
  apply andb_prop in Eo as [E1 E2]. apply negb_true_iff in E1, E2.
  destruct (H2 key record Er Hro); congruence.
Qed.
#[local] Hint Resolve own_drop_owner_claim : respects.

(** Other keys' records for the same owner and blob. *)
Lemma elem_of_others o x key d r :
  r ∈ others_of o x key d <->
  exists k, moved_claims d !! (k, x) = Some r /\ mv_owner r = o /\ k <> key.
Proof.
  unfold others_of. rewrite list_elem_of_omap. split.
  - intros ([[k h] r'] & Hin & H). apply elem_of_map_to_list in Hin.
    destruct (_ && _) eqn:E; [|done]. injection H as ->.
    apply andb_prop in E as [E E3]. apply andb_prop in E as [E1 E2].
    apply bool_decide_eq_true in E1, E2. apply negb_true_iff, bool_decide_eq_false in E3. subst. eauto.
  - intros (k & H1 & H2 & H3). exists ((k, x), r). split; [by apply elem_of_map_to_list|].
    rewrite (bool_decide_eq_true_2 (mv_owner r = o)), (bool_decide_eq_true_2 (x = x)),
      (bool_decide_eq_false_2 (k = key)) by done. done.
Qed.

(** A new record of the owner's own blob is kept: the owner holds it, and the
    records of other keys are kept. *)
Lemma new_record_kept key d (recent : bool) :
  (forall k r, moved_claims d !! (k, hash) = Some r -> mv_owner r = owner -> kept r) ->
  let others := other_moves owner hash key d in
  (om_count others =? 0) || om_independent others = true \/ om_adopted others || recent = true.
Proof.
  intros H others. unfold others, other_moves. cbn.
  destruct (others_of owner hash key d) as [|r rs] eqn:E; [by left|].
  assert (r ∈ others_of owner hash key d) as Hin by (rewrite E; left).
  apply elem_of_others in Hin as (k & Hk & Ho & _). cbn [existsb length].
  destruct (H k r Hk Ho) as [-> | ->]; [left; cbn; apply orb_true_r|by right].
Qed.

Lemma own_record_move key o claim n : respects keeps_own (record_move key o claim n).
Proof.
  intros w Hw. unfold record_move. apply (wp_bind _ _ (fun _ w' => own w')).
  apply wp_io; [intros v|intros v; by apply (obs_env (R := keeps_own) w v)].
  assert (forall w v, own w -> own (with_env v w)) as Henv by (intros w' v' H; by apply (obs_env (R := keeps_own) w' v')).
  apply wp_bind, wp_query; [intros v1|intros v1; by do 2 apply Henv].
  set (w1 := with_env v1 (with_env v w)). assert (own w1) as Hw1 by (by do 2 apply Henv).
  change (db (with_env v w)) with (db w1). destruct (moved_row key (sha256 claim) (db w1)) as [?|] eqn:Er;
    [exact Hw1|].
  apply wp_bind, wp_query; [intros v2|intros v2; by apply Henv].
  set (w2 := with_env v2 w1). assert (own w2) as Hw2 by (by apply Henv). change (db w1) with (db w2) in *.
  set (others := other_moves o (sha256 claim) key (db w2)).
  apply wp_bind, wp_holds_claim. intros held c Hc Hh.
  assert (own (with_store c w2)) as Hw3.
  { destruct Hw2 as [A1 A2]. split; [by apply Hc|done]. }
  destruct held as [held|]; [|exact Hw3]. set (w3 := with_store c w2) in *.
  change (db w2) with (db w3) in *.
  (* the record, once inserted *)
  assert (forall w4 (recent : bool), own w4 -> db w4 = db w3 ->
    (om_adopted others = true -> recent = true) ->
    wp (exec (insert_move key {| mv_hash := sha256 claim; mv_owner := o; mv_size := c_size claim;
      mv_type := declared_type (content_type claim); mv_class := c_class claim;
      independent := held && ((om_count others =? 0) || om_independent others);
      adopted := recent; moved_at := n |})) (fun _ w' => own w') w4) as Hins.
  { intros w4 recent Hw4 Ed Hrec. apply wp_statement; [|intros v4; by apply Henv].
    intros v4 d Hd. destruct Hw4 as [B1 B2]. split; [done|]. cbn [with_db db].
    unfold insert_move in Hd. rewrite Ed in Hd, B2. cbn [mv_hash] in Hd. unfold moved_row in Er.
    rewrite Er in Hd. injection Hd as <-. cbn. intros k r Hr Hro.
    apply lookup_insert_Some in Hr as [[Ek <-]|[_ Hr]]; [|by apply (B2 k)].
    injection Ek as _ Esh. cbn in Hro. subst o. unfold kept. cbn.
    assert (held = true) as -> by (apply (Hh held eq_refl); rewrite Esh; apply Hw2).
    change (om_adopted (other_moves owner (sha256 claim) key (db w3)) = true -> recent = true) in Hrec.
    change ((om_count (other_moves owner (sha256 claim) key (db w3)) =? 0)
      || om_independent (other_moves owner (sha256 claim) key (db w3)) = true \/ recent = true).
    rewrite Esh in Hrec |- *.
    destruct (new_record_kept key (db w3) false) as [H|H].
    - intros k' r' Hr'. by apply (B2 k').
    - left. exact H.
    - right. rewrite orb_false_r in H. by apply Hrec. }
  apply wp_bind. destruct (om_adopted others) eqn:Ea.
  - unfold wp at 1. cbn [ret fst snd]. by apply Hins.
  - apply wp_query; [intros v5|intros v5; by apply Henv]. apply Hins; [by apply Henv|done|done].
Qed.
#[local] Hint Resolve own_record_move : respects.

Section Keys.
Variable key : string.
Hypothesis distinct : key <> owner.

Lemma own_move_claim o n claim : respects keeps_own (move_claim key o n claim).
Proof.
  unfold move_claim. apply respects_bind; [exact _|auto with respects|intros _].
  unfold store_ok. respects. apply own_drop_claim. by right.
Qed.
#[local] Hint Resolve own_move_claim : respects.
Lemma own_transfer_page o n paid page s : respects keeps_own (transfer_page key o n paid page s).
Proof. revert s. induction page; intros; cbn [transfer_page]; respects. Qed.
#[local] Hint Resolve own_transfer_page : respects.
Lemma own_transfer fuel o grant n : respects keeps_own (transfer fuel key o grant n).
Proof.
  unfold transfer. apply respects_bind; [exact _|auto with respects|intros paid].
  generalize {| attempted := ∅; at_ := None; moved := 0 |}.
  induction fuel; intros; cbn [transfer_loop]; respects.
Qed.
End Keys.

Lemma own_restore_page key grant member page n : respects keeps_own (restore_page key grant member page n).
Proof.
  revert n. induction page; intros; cbn [restore_page]; respects.
Qed.
#[local] Hint Resolve own_restore_page : respects.
Lemma own_restore fuel key member grant : respects keeps_own (restore fuel key member grant).
Proof.
  unfold restore. generalize (0, 0), ""%string. induction fuel; intros; cbn [restore_loop]; respects.
Qed.

Lemma own_release key o x : respects keeps_own (release key o x).
Proof. unfold release. respects. Qed.

Lemma own_adopt_batch key grant member batch s : respects keeps_own (adopt_batch key grant member batch s).
Proof.
  revert s. induction batch; intros; cbn [adopt_batch]; respects.
Qed.
#[local] Hint Resolve own_adopt_batch : respects.
Lemma own_adopt fuel key member grant : respects keeps_own (adopt fuel key member grant).
Proof.
  unfold adopt. generalize (0, 0, ∅ : gset string). induction fuel; intros; cbn [adopt_loop]; respects.
Qed.
End Own.
End Proofs.
