(* ===== verification/GrantService.v ===== *)
(** * Device grants: requests and sweeps

    Models [crates/wildbloomd/src/grants/mod.rs]: which keys are active, how a
    signed event changes the grants, the maintenance sweep and the gate in front
    of the core.  A grant and a sweep release the update lock before the core
    answers, so each is also given in its two locked halves. *)
From Stdlib Require Import Ascii.
From S2P Require Import Prelude GrantEvent GrantDb GrantWorld GrantClaims.

Record ApiError := { status : Z; message : string }.

Definition bad_request (m : string) : ApiError := {| status := 400; message := m |}.
Definition unauthorised (m : string) : ApiError := {| status := 401; message := m |}.
Definition forbidden (m : string) : ApiError := {| status := 403; message := m |}.
Definition conflict (m : string) : ApiError := {| status := 409; message := m |}.
Definition unavailable : ApiError := {| status := 503; message := "device grant state is unavailable" |}.

Definition of_event_error (e : EventError) : ApiError :=
  match e with
  | Invalid => bad_request "invalid device grant event"
  | Unauthorised => unauthorised "device grant event is not authorised"
  end.

Record GrantStatus := {
  st_device : string; st_recovery : option string; st_bytes : option Z; st_until : option Z;
  st_state : string }.

(** ** [impl Rows] *)

Definition grant_active (row : GrantRow) (owners : gset string) (now : Z) : bool :=
  bool_decide (revoked_at row = None) && (now <? g_until row) && bool_decide (g_issuer row ∈ owners).

Definition names (key : string) (row : GrantRow) : bool :=
  bool_decide (g_device row = key) || bool_decide (g_recovery row = key).

Definition values (r : Rows) : list GrantRow := map snd (map_to_list (grants r)).

Definition key_active (r : Rows) (key : string) (owners : gset string) (now : Z) : bool :=
  existsb (fun row => names key row && grant_active row owners now) (values r).

Definition knows (r : Rows) (key : string) : bool :=
  bool_decide (is_Some (members r !! key)) || existsb (names key) (values r).

(** [Iterator::max]. *)
Definition max_list_opt (l : list Z) : option Z :=
  match l with [] => None | x :: l => Some (foldl Z.max x l) end.

Definition active_limit (r : Rows) (key : string) (owners : gset string) (now : Z) : option Z :=
  max_list_opt (map g_byte_limit
    (List.filter (fun row => names key row && grant_active row owners now) (values r))).

(** [Option::max]. *)
Definition opt_max (a b : option Z) : option Z :=
  match a, b with Some a, Some b => Some (Z.max a b) | Some a, None => Some a | None, b => b end.

Definition rows_last_event_at (r : Rows) (device : string) : option Z :=
  opt_max (last_event_at <$> grants r !! device) (markers r !! device).

Definition not_newer (r : Rows) (device : string) (created_at : Z) : bool :=
  match rows_last_event_at r device with Some last => created_at <=? last | None => false end.

Definition core_grant_id (key : string) : string := String.append "wildbloom-delegated:" key.

Definition cli_keys (c : Config) : gset string := list_to_set (map f_pubkey (cli_friend_grants c)).

(** The SHA-256 named by a path. *)
Definition blob_hash (path : string) : option string :=
  match strip_prefix "/" path with
  | None => None
  | Some segment =>
      let parts := if slen segment =? 64 then Some (segment, None)
                   else match split_once "."%char segment with
                        | Some (hash, suffix) => Some (hash, Some suffix)
                        | None => None
                        end in
      match parts with
      | None => None
      | Some (hash, suffix) =>
          if bool_decide (suffix = Some EmptyString) || negb (is_canonical_key hash) then None else Some hash
      end
  end.

Inductive Method := GET | OPTIONS | HEAD | PUT | POST | DELETE.

#[export] Instance Method_eq_dec : EqDecision Method.
Proof. solve_decision. Defined.

Definition is_read (method : Method) (path : string) : bool :=
  match method with
  | GET | OPTIONS => true
  | HEAD => negb (bool_decide (path = "/upload"%string))
  | _ => false
  end.

Section Service.
Context `{Lib : EventLib, Out : GrantOutside, St : CoreStore}.
Local Open Scope wb_scope.

Variable self : Config.

Abbreviation M A := (SM World ApiError A).

Definition now {E} : SM World E Z := ask g_clock.
Definition get_rows {E} : SM World E Rows := let! w := get in ret (snapshot w).

Definition reload {E} (e : E) : SM World E unit :=
  let! ok := ask g_read in
  if ok : bool then let! w := get in put (with_snapshot (read_rows (db w)) w) else throw e.

Definition restore_due {E} (key : string) : SM World E unit :=
  let! w := get in put (with_due ({[key]} ∪ due w) w).

Definition is_active (key : string) : M bool :=
  let! r := get_rows in let! n := now in ret (key_active r key (owners self) n).

Definition status_of (row : GrantRow) : M GrantStatus :=
  let! n := now in
  ret {| st_device := g_device row; st_recovery := Some (g_recovery row);
         st_bytes := Some (g_byte_limit row); st_until := Some (g_until row);
         st_state := if bool_decide (is_Some (revoked_at row)) then "revoked"
                     else if negb (bool_decide (g_issuer row ∈ owners self)) then "withdrawn"
                     else if g_until row <=? n then "expired" else "active" |}.

(** ** The core's set *)

Definition core_friend_grants (r : Rows) (group : list FriendGrant) : list FriendGrant :=
  cli_friend_grants self
  ++ map (fun '(key, m) => {| f_pubkey := key; f_byte_limit := m_byte_limit m;
                              f_expires_at := CORE_GRANT_SENTINEL; f_grant_id := core_grant_id key;
                              f_issuer := Some (m_issuer m) |}) (map_to_list (members r))
  ++ group.

(** [true] when the core accepted, or is not attached. *)
Definition push_core_policy {E} : SM World E bool :=
  if negb (attached self) then ret true
  else
    let! r := get_rows in
    let! group := ask g_group_grants in
    ask (g_push (core_friend_grants r group)).

(** ** Grants *)

Fixpoint check_keys (r : Rows) (group : gset string) (owner : string) (keys : list string)
    : result ApiError unit :=
  match keys with
  | [] => Ok tt
  | key :: keys =>
      if bool_decide (key ∈ owners self) || bool_decide (key ∈ cli_keys self)
         || bool_decide (key ∈ reserved self)
      then Err (conflict "a delegated key cannot be an owner, friend or service key")
      else if bool_decide (key ∈ group)
      then Err (conflict "a delegated key cannot be a group keeper or group device")
      else if match members r !! key with
              | Some m => negb (bool_decide (m_issuer m = owner))
              | None => false
              end
      then Err (conflict "this key is still delegated by another owner")
      else check_keys r group owner keys
  end.

Fixpoint check_rows (owner : string) (terms : GrantTerms) (rows : list GrantRow) : result ApiError unit :=
  match rows with
  | [] => Ok tt
  | row :: rows =>
      if bool_decide (g_device row = gt_device terms) then check_rows owner terms rows
      else if bool_decide (g_recovery row = gt_device terms) || bool_decide (g_device row = gt_recovery terms)
      then Err (conflict "a key cannot be both a device and a recovery identity")
      else if bool_decide (g_recovery row = gt_recovery terms) && negb (bool_decide (g_issuer row = owner))
      then Err (conflict "this recovery identity belongs to another owner")
      else check_rows owner terms rows
  end.

Definition check_grant_conflicts (r : Rows) (group : gset string) (a : Authorised) (terms : GrantTerms)
    : result ApiError unit :=
  let? _ := check_keys r group (au_owner a) [gt_device terms; gt_recovery terms] in
  let? _ := check_rows (au_owner a) terms (values r) in
  if not_newer r (gt_device terms) (au_created_at a)
  then Err (conflict "a newer event for this device was already accepted") else Ok tt.

(** [consume_event] in a transaction. *)
Definition consume (event_id : string) (expires_at : Z) : M unit :=
  let! _ := io unavailable in
  let! w := get in
  let (fresh, d) := consume_event event_id expires_at (db w) in
  let! _ := put (with_db d w) in
  if fresh : bool then ret tt else throw (conflict "device grant event was already used").

Definition row_of (a : Authorised) (terms : GrantTerms) : GrantRow :=
  {| g_device := gt_device terms; g_recovery := gt_recovery terms; g_issuer := au_owner a;
     g_byte_limit := gt_byte_limit terms; g_until := gt_until terms; granted_at := au_created_at a;
     last_event_at := au_created_at a; revoked_at := None |}.

(** The recovery identity's ceiling, with the new row in place. *)
Definition recovery_limit (r : Rows) (row : GrantRow) (n : Z) : Z :=
  default (g_byte_limit row)
    (active_limit {| grants := <[g_device row := row]> (grants r); members := ∅; markers := ∅ |}
       (g_recovery row) (owners self) n).

(** What a committed grant waits on the core with. *)
Record PendingGrant := {
  p_row : GrantRow; p_previous : option GrantRow; p_members : list (string * option Member) }.

(** Up to releasing the update lock. *)
Definition commit_grant (body : string) : M PendingGrant :=
  let! n := now in
  let! a := lift (map_err of_event_error (verify body (owners self) (server_names self) n)) in
  match au_action a with
  | Revoke _ => throw (bad_request "expected a grant event")
  | Grant terms =>
      let! n := now in
      let! r := get_rows in
      let! group := ask g_group in
      let! _ := lift (check_grant_conflicts r group a terms) in
      let row := row_of a terms in
      let member limit := {| m_issuer := au_owner a; m_byte_limit := limit; since := n |} in
      let! _ := transaction unavailable (
        let! _ := consume (au_event_id a) (au_expires_at a) in
        let! _ := statement unavailable (write_grant row) in
        let! _ := statement unavailable (write_member (gt_device terms) (member (gt_byte_limit terms))) in
        statement unavailable (write_member (gt_recovery terms) (member (recovery_limit r row n)))) in
      let! _ := reload unavailable in
      let! _ := restore_due (gt_device terms) in
      let! _ := restore_due (gt_recovery terms) in
      ret {| p_row := row; p_previous := grants r !! gt_device terms;
             p_members := [(gt_device terms, members r !! gt_device terms);
                           (gt_recovery terms, members r !! gt_recovery terms)] |}
  end.

Fixpoint revert_members (ms : list (string * option Member)) : M unit :=
  match ms with
  | [] => ret tt
  | (key, m) :: ms =>
      let! _ := statement unavailable (match m with Some m => write_member key m | None => delete_member key end) in
      revert_members ms
  end.

Definition revert (device : string) (previous : option GrantRow) (ms : list (string * option Member)) : M unit :=
  let! _ := transaction unavailable (
    let! _ := statement unavailable (match previous with
                                     | Some row => write_grant row
                                     | None => delete_grant device
                                     end) in
    revert_members ms) in
  reload unavailable.

(** After the core refused: put the previous grant back, unless something
    newer replaced this one. *)
Definition undo_grant (p : PendingGrant) : M unit :=
  let! r := get_rows in
  if bool_decide (grants r !! g_device (p_row p) = Some (p_row p))
  then revert (g_device (p_row p)) (p_previous p) (p_members p) else ret tt.

Definition apply_grant (body : string) : M (Z * GrantStatus) :=
  let! p := commit_grant body in
  let! pushed := push_core_policy in
  if pushed : bool then
    let! s := status_of (p_row p) in
    ret (if bool_decide (is_Some (p_previous p)) then 200 else 201, s)
  else
    let! _ := undo_grant p in
    let! _ := push_core_policy in
    throw unavailable.

(** ** Revocations *)

(** The values of the authorisation headers; [None] is not text. *)
Definition single_authorization (values : list (option string)) : result ApiError string :=
  match values with
  | [] => Err (unauthorised "missing authorisation")
  | _ :: _ :: _ => Err (bad_request "duplicate authorisation headers")
  | [v] => ok_or v (bad_request "invalid authorisation header")
  end.

Definition revoked_row (row : GrantRow) (n created_at : Z) : GrantRow :=
  {| g_device := g_device row; g_recovery := g_recovery row; g_issuer := g_issuer row;
     g_byte_limit := g_byte_limit row; g_until := g_until row; granted_at := granted_at row;
     last_event_at := created_at; revoked_at := Some n |}.

Definition apply_revoke (device : string) (headers : list (option string)) : M GrantStatus :=
  let! n := now in
  let! header := lift (single_authorization headers) in
  let! bytes := lift (ok_or (decode_header header) (bad_request "invalid device grant event")) in
  let! a := lift (map_err of_event_error (verify bytes (owners self) (server_names self) n)) in
  match au_action a with
  | Grant _ => throw (bad_request "expected a revoke event")
  | Revoke named =>
      if negb (bool_decide (named = device)) then throw (bad_request "revoke event names a different device")
      else
        let! n := now in
        let! r := get_rows in
        if not_newer r device (au_created_at a)
        then throw (conflict "a newer event for this device was already accepted")
        else
          let row := (fun row => revoked_row row n (au_created_at a)) <$> grants r !! device in
          let! _ := transaction unavailable (
            let! _ := consume (au_event_id a) (au_expires_at a) in
            statement unavailable (match row with
                                   | Some row => write_grant row
                                   | None => write_marker device (au_created_at a)
                                   end)) in
          let! _ := reload unavailable in
          match row with
          | Some row => status_of row
          | None => ret {| st_device := device; st_recovery := None; st_bytes := None; st_until := None;
                           st_state := "revoked" |}
          end
  end.

(** ** The sweep *)

(** A claim task: its error does not stop the sweep. *)
Definition attempt_task {A} (m : SM World ClaimError A) : SM World string (option A) := fun w =>
  match m w with (Ok a, w) => (Ok (Some a), w) | (Err _, w) => (Ok None, w) end.

(** Pages a claim walk may take. *)
Variable fuel : nat.

Fixpoint hand_back (r : Rows) (n : Z) (keys : list string) : SM World string unit :=
  match keys with
  | [] => ret tt
  | key :: keys =>
      match members r !! key with
      | None => hand_back r n keys
      | Some m =>
          if negb (key_active r key (owners self) n) then hand_back r n keys
          else
            let! result := attempt_task (restore fuel key m (core_grant_id key)) in
            let! _ := match result with Some _ => ret tt | None => restore_due key end in
            hand_back r n keys
      end
  end.

Definition adjusted_members (r : Rows) (n : Z) : list (string * Member) :=
  omap (fun '(key, m) =>
    match active_limit r key (owners self) n with
    | Some limit =>
        if limit =? m_byte_limit m then None
        else Some (key, {| m_issuer := m_issuer m; m_byte_limit := limit; since := since m |})
    | None => None
    end) (map_to_list (members r)).

Definition ended_members (r : Rows) (n : Z) : list (string * Member) :=
  List.filter (fun '(key, _) => negb (key_active r key (owners self) n)) (map_to_list (members r)).

Definition in_flight (w : World) (key : string) : Z := default 0 (flights w !! key).

(** Wait for the key's writes until the deadline. *)
Definition wait_idle {E} (key : string) : SM World E bool :=
  let! w := get in
  let! f := ask (g_flights (flights w)) in
  let! w := get in
  let! _ := put (with_flights f w) in
  let! w := get in
  ret (in_flight w key =? 0).

Fixpoint move_ended (n : Z) (ended : list (string * Member)) (transferred : list (string * Member))
    : SM World string (list (string * Member)) :=
  match ended with
  | [] => ret transferred
  | (key, m) :: ended =>
      let! idle := wait_idle key in
      if negb idle then move_ended n ended transferred
      else
        let! result := attempt_task (transfer fuel key (m_issuer m) (core_grant_id key) n) in
        move_ended n ended (match result with
                            | Some _ => transferred ++ [(key, m)]
                            | None => transferred
                            end)
  end.

Definition db_error : string := "device grant database".

Fixpoint delete_members (ms : list (string * Member)) : SM World string unit :=
  match ms with
  | [] => ret tt
  | (key, _) :: ms => let! _ := statement db_error (delete_member key) in delete_members ms
  end.

Fixpoint write_members (ms : list (string * Member)) : SM World string unit :=
  match ms with
  | [] => ret tt
  | (key, m) :: ms => let! _ := statement db_error (write_member key m) in write_members ms
  end.

Fixpoint all_due (ms : list (string * Member)) : SM World string unit :=
  match ms with
  | [] => ret tt
  | (key, _) :: ms => let! _ := restore_due key in all_due ms
  end.

Definition sweep_locked : SM World string (option (list (string * Member))) :=
  if negb (attached self) then ret None
  else
    let! n := now in
    let! r := get_rows in
    let! w := get in
    let! _ := put (with_due ∅ w) in
    let! _ := hand_back r n (elements (due w)) in
    let adjusted := adjusted_members r n in
    let! transferred := move_ended n (ended_members r n) [] in
    match transferred, adjusted with
    | [], [] => ret None
    | _, _ =>
        let! _ := transaction db_error (
          let! _ := delete_members transferred in
          write_members adjusted) in
        let! _ := all_due adjusted in
        let! _ := reload db_error in
        ret (Some transferred)
    end.

(** After the core refused: keys that left the set and were not re-granted
    are put back.  A write that fails is ignored. *)
Fixpoint put_back (r : Rows) (removed : list (string * Member)) : SM World string unit :=
  match removed with
  | [] => ret tt
  | (key, m) :: removed =>
      let! _ := if bool_decide (is_Some (members r !! key)) then ret tt
                else fun w => match statement db_error (write_member key m) w with (_, w) => (Ok tt, w) end in
      put_back r removed
  end.

Definition undo_sweep (removed : list (string * Member)) : SM World string unit :=
  let! r := get_rows in
  let! ok := ask g_io in
  let! _ := if ok : bool then put_back r removed else ret tt in
  fun w => match reload db_error w with (_, w) => (Ok tt, w) end.

Definition finish_sweep (removed : option (list (string * Member))) : SM World string unit :=
  match removed with
  | None => ret tt
  | Some removed =>
      let! pushed := push_core_policy in
      if pushed : bool then ret tt
      else let! _ := undo_sweep removed in throw "core refused the reduced delegated set"%string
  end.

Definition sweep_ended : SM World string unit :=
  let! removed := sweep_locked in finish_sweep removed.

(** ** Starting *)

(** Every delegated key recorded. *)
Definition known_keys (r : Rows) : gset string :=
  dom (members r) ∪ list_to_set (map g_device (values r)) ∪ list_to_set (map g_recovery (values r)).

(** [Grants::open] refuses a configuration that claims a delegated key. *)
Definition open_conflict (r : Rows) : bool :=
  existsb (fun key => bool_decide (key ∈ owners self) || bool_decide (key ∈ cli_keys self)
                      || bool_decide (key ∈ reserved self)) (elements (known_keys r)).

Fixpoint adopt_members (ms : list (string * Member)) : SM World string unit :=
  match ms with
  | [] => ret tt
  | (key, m) :: ms =>
      let! _ := restore_due key in
      let! _ := attempt_task (adopt fuel key m (core_grant_id key)) in
      adopt_members ms
  end.

Definition startup : SM World string unit :=
  if negb (attached self) then ret tt
  else
    let! r := get_rows in
    let! _ := adopt_members (map_to_list (members r)) in
    let! removed := sweep_locked in
    finish_sweep removed.

(** [db::prune], on the locked connection. *)
Definition prune (n owner_write_window : Z) : M unit :=
  let! _ := io unavailable in
  let! _ := statement unavailable (fun d => Some (prune_used n d)) in
  statement unavailable (fun d => Some (prune_writes n owner_write_window d)).

(** [Grants::prune]: a failure is ignored. *)
Definition prune_events : M unit :=
  let! n := now in
  fun w => (Ok tt, (prune n OWNER_WRITE_WINDOW w).2).

(** [get_grant] for a requester whose NIP-98 header was verified ([None]: it
    was refused). *)
Definition grant_status (device : string) (query : bool) (headers : list (option string))
    (authenticate : string -> option string) : M GrantStatus :=
  if negb (is_canonical_key device) then throw (bad_request "invalid device public key")
  else if query then throw (bad_request "queries are not accepted")
  else
    let! header := lift (single_authorization headers) in
    let! requester := lift (ok_or (authenticate header) (unauthorised "status request is not authorised")) in
    let! r := get_rows in
    let row := grants r !! device in
    let allowed := bool_decide (requester ∈ owners self)
                   || match row with Some row => names requester row | None => false end in
    if negb allowed then throw (forbidden "status request is not authorised")
    else
      let! row := lift (ok_or row {| status := 404; message := "unknown device" |}) in
      status_of row.

(** ** The gate *)

Fixpoint mark_loop (owner : string) (n : Z) (hashes : list string) : M unit :=
  match hashes with
  | [] => ret tt
  | hash :: hashes =>
      let! _ := statement unavailable (fun d => Some (record_owner_write owner hash n d)) in
      let! _ := statement unavailable (fun d => Some (adopt_moves owner hash d)) in
      mark_loop owner n hashes
  end.

Definition mark_owner_writes (owner : string) (hashes : list string) : M unit :=
  match hashes with
  | [] => ret tt
  | _ =>
      let! n := now in
      let! _ := io unavailable in
      mark_loop owner n hashes
  end.

(** The count is taken before the check; a refused write drops it again. *)
Definition count_flight (key : string) (by_ : Z) : M unit :=
  let! w := get in
  let c := saturating_sub (in_flight w key + by_) 0 in
  put (with_flights (if c =? 0 then delete key (flights w) else <[key := c]> (flights w)) w).

Definition begin_write (key : string) : M bool :=
  let! _ := count_flight key 1 in
  let! active := is_active key in
  if active : bool then ret true else let! _ := count_flight key (-1) in ret false.

(** What the gate does with a request. *)
Inductive GateResult := Passed (core_status : Z) | Refused (e : ApiError) | Answered (hash : string) (gone : bool).

Definition next : M GateResult := let! s := ask g_next in ret (Passed s).

Definition to_api {A} (m : SM World ClaimError A) : M A := fun w =>
  match m w with (Ok a, w) => (Ok a, w) | (Err _, w) => (Err unavailable, w) end.

(** [Some] answer when the gate answers for the core. *)
Definition release_delete (key path : string) (authorization : option string) : M (option GateResult) :=
  match blob_hash path with
  | None => ret None
  | Some hash =>
      let! r := get_rows in
      match members r !! key with
      | None => ret None
      | Some m =>
          let! verified := ask (g_verify_delete authorization hash) in
          if negb (bool_decide (verified = Some key)) || negb (attached self) then ret None
          else
            let work : M (option GateResult) :=
              let! released := to_api (release key (m_issuer m) hash) in
              match released with
              | None => ret None
              | Some _ =>
                  let! _ := restore_due key in
                  let! held := to_api (holds_claim key hash) in
                  if held : bool then ret None
                  else
                    let! exists_ := on_store (blob_exists hash) in
                    let! exists_ := lift (map_err (fun _ => unavailable) exists_) in
                    ret (Some (Answered hash (negb exists_)))
              end in
            fun w => match work w with
                     | (Ok r, w) => (Ok r, w)
                     | (Err e, w) => (Ok (Some (Refused e)), w)
                     end
      end
  end.

(** [signer] is what [signed_header] read of the authorisation. *)
Definition gate (method : Method) (path : string) (authorization : option string) : M GateResult :=
  if is_read method path then next
  else
    match authorization ≫= signed_header with
    | None => next
    | Some (signer, hashes) =>
        if bool_decide (signer ∈ owners self) then
          if bool_decide (method = PUT)
             && (bool_decide (path = "/upload"%string) || bool_decide (path = "/mirror"%string))
          then
            fun w => match mark_owner_writes signer hashes w with
                     | (Ok _, w) => next w
                     | (Err e, w) => (Ok (Refused e), w)
                     end
          else next
        else
          let! r := get_rows in
          if negb (knows r signer) then next
          else
            let! admitted := begin_write signer in
            if negb admitted then ret (Refused (forbidden "the delegated storage grant has ended"))
            else
              let! answer := if bool_decide (method = DELETE)
                             then release_delete signer path authorization else ret None in
              let! result :=
                match answer with
                | Some answer => ret answer
                | None =>
                    let! s := ask g_next in
                    let! _ := if bool_decide (method = DELETE) && in_range 200 s 299
                              then restore_due signer else ret tt in
                    ret (Passed s)
                end in
              let! _ := count_flight signer (-1) in
              ret result
    end.
End Service.
