(* ===== verification/GrantDeviceAuth.v ===== *)
(** * Device grants: the budget of the issuing routes

    Models [crates/wildbloomd/src/grants/device_auth.rs]: a request of an
    active device is charged against a rolling hour and its event id is spent,
    in that order. *)
From S2P Require Import Prelude GrantEvent GrantDb GrantWorld GrantClaims GrantService.

Definition RATE_WINDOW : Z := 60 * 60.
Definition REPLAY_WINDOW : Z := 120.

Record Refusals := { r_unauthorised : string; r_spent : string; r_replayed : string }.

Abbreviation Rate := (gmap string (list Z)).

(** [while window.front() is old { window.pop_front() }]. *)
Fixpoint expire (n : Z) (window : list Z) : list Z :=
  match window with
  | issued :: rest => if RATE_WINDOW <=? saturating_sub n issued then expire n rest else window
  | [] => []
  end.

(** Every window is expired, and empty ones are dropped. *)
Definition expire_all (n : Z) (rate : Rate) : Rate :=
  omap (fun window => match expire n window with [] => None | w => Some w end) rate.

Definition spent (limit : Z) (device : string) (rate : Rate) : bool :=
  match rate !! device with Some window => limit <=? Z.of_nat (length window) | None => false end.

Definition charge (device : string) (n : Z) (rate : Rate) : Rate :=
  <[device := default [] (rate !! device) ++ [n]]> rate.

Section DeviceAuth.
Context `{Lib : EventLib, Out : GrantOutside, St : CoreStore}.
Local Open Scope wb_scope.

Variable self : Config.
Variables (limit : Z) (refusals : Refusals).

Definition is_active_device (key : string) : SM World ApiError bool :=
  let! r := get_rows in
  match grants r !! key with
  | Some row => let! n := now in ret (grant_active row (owners self) n)
  | None => ret false
  end.

(** The route's own rate table next to the world. *)
Abbreviation M A := (SM (World * Rate) ApiError A).

Definition in_world {A} (m : SM World ApiError A) : M A := fun '(w, rate) =>
  let (r, w) := m w in (r, (w, rate)).

Definition get_rate : M Rate := fun s => (Ok s.2, s).
Definition put_rate (rate : Rate) : M unit := fun s => (Ok tt, (s.1, rate)).

(** [authenticate] verified the NIP-98 header, giving the signer and the event
    id; [body_len] is [None] when the body was too large. *)
Definition authorise (query : bool) (headers : list (option string)) (body_len : option Z)
    (authenticate : string -> Z -> option (string * string)) : M string :=
  if query then throw (bad_request "queries are not accepted")
  else
    let! header := lift (single_authorization headers) in
    let! len := lift (ok_or body_len {| status := 413; message := "body is too large" |}) in
    if negb (len =? 0) then throw (bad_request "the request body must be empty")
    else
      let! n := in_world now in
      let! principal := lift (ok_or (authenticate header n) (unauthorised (r_unauthorised refusals))) in
      let '(device, event_id) := principal in
      let! active := in_world (is_active_device device) in
      if negb active then throw (forbidden "the device has no active grant")
      else
        let! rate := get_rate in
        let rate := expire_all n rate in
        let! _ := put_rate rate in
        if spent limit device rate then throw {| status := 429; message := r_spent refusals |}
        else
          let! _ := in_world (io unavailable) in
          let! w := in_world get in
          let (fresh, d) := consume_event event_id (saturating_add n REPLAY_WINDOW) (db w) in
          let! _ := in_world (put (with_db d w)) in
          if negb fresh then throw (conflict (r_replayed refusals))
          else
            let! _ := put_rate (charge device n rate) in
            ret device.
End DeviceAuth.
