(* ===== verification/GrantProofs.v ===== *)
(** * Device grants: what each operation changes

    Hoare rules for the service, and the relation [aside] of worlds with the
    same grants, members and markers, which every claim task and the gate
    respect. *)
From S2P Require Import Prelude GrantEvent GrantDb GrantWorld GrantClaims GrantClaimsProofs GrantService.

Section Proofs.
Context `{Lib : EventLib, Out : GrantOutside, St : CoreStore}.

(** ** Rules *)

Lemma wp_get {E} (Q : result E World -> World -> Prop) w : Q (Ok w) w -> wp get Q w.
Proof. done. Qed.
Lemma wp_put {E} w' (Q : result E unit -> World -> Prop) w : Q (Ok tt) w' -> wp (put w') Q w.
Proof. done. Qed.
Lemma wp_ask {E A} (f : genv -> A * genv) (Q : result E A -> World -> Prop) w :
  (forall v, Q (Ok (f (w_env w)).1) (with_env v w)) -> wp (ask f) Q w.
Proof. intros H. unfold wp, ask. destruct (f (w_env w)) as [a v] eqn:E'. apply (H v). Qed.
Lemma wp_lift {E A} (r : result E A) (Q : result E A -> World -> Prop) w : Q r w -> wp (lift r) Q w.
Proof. done. Qed.

(** ** Relations that ignore the store and the moves *)

Class Lateral (R : World -> World -> Prop) : Prop := {
  lat_refl :: Reflexive R;
  lat_trans :: Transitive R;
  lat_env w e : R w (with_env e w);
  lat_store w c : R w (with_store c w);
  lat_due w s : R w (with_due s w);
  lat_flights w f : R w (with_flights f w);
  lat_moved w t : R w (with_db (set_moved t (db w)) w);
  lat_writes w t : R w (with_db (set_writes t (db w)) w)
}.

Section Lateral.
Context (R : World -> World -> Prop) `{HR : !Lateral R}.

Lemma lat_ask {E A} (f : genv -> A * genv) : respects R (ask (E := E) f).
Proof. intros w. unfold ask. destruct (f (w_env w)) as [a e]. apply lat_env. Qed.
Lemma lat_get {E} : respects R (get (E := E)).
Proof. intros w. cbn. reflexivity. Qed.
Lemma lat_on_store {E A} (f : core -> A * core) : respects R (on_store (E := E) f).
Proof. intros w. unfold on_store. destruct (f (store w)) as [a c]. apply lat_store. Qed.
#[local] Hint Resolve lat_ask lat_get lat_on_store : respects.
Lemma lat_io {E} (e : E) : respects R (io e).
Proof. unfold io. respects. Qed.
#[local] Hint Resolve lat_io : respects.
Lemma lat_query {E A} (e : E) (f : Db -> A) : respects R (query e f).
Proof. unfold query. respects. Qed.
Lemma lat_statement {E} (e : E) (f : Db -> option Db) :
  (forall w d, f (db w) = Some d -> R w (with_db d w)) -> respects R (statement e f).
Proof.
  intros H. unfold statement. apply respects_bind; [exact _|auto with respects|intros _].
  intros w. unfold bind, get. destruct (f (db w)) as [d|] eqn:E'; cbn; [by apply H|reflexivity].
Qed.
Lemma lat_forget k x : respects R (exec (fun d => Some (forget_move k x d))).
Proof. apply lat_statement. intros w d [= <-]. apply lat_moved. Qed.
Lemma lat_insert k r : respects R (exec (insert_move k r)).
Proof.
  apply lat_statement. intros w d. unfold insert_move. destruct (_ !! _).
  - intros [= <-]. destruct w. cbn. reflexivity.
  - intros [= <-]. apply lat_moved.
Qed.
#[local] Hint Resolve lat_query lat_forget lat_insert : respects.
Lemma lat_lock : respects R lock.
Proof. unfold lock. respects. Qed.
Lemma lat_select {A} (f : Db -> A) : respects R (select f).
Proof. unfold select. respects. Qed.
#[local] Hint Resolve lat_lock lat_select : respects.
Lemma lat_listing key grant cursor : respects R (listing key grant cursor).
Proof. unfold listing, store_ok. respects. Qed.
#[local] Hint Resolve lat_listing : respects.
Lemma lat_each_claim fuel key grant cursor seen : respects R (each_claim fuel key grant cursor seen).
Proof. revert cursor seen. induction fuel; intros; cbn [each_claim]; respects. Qed.
#[local] Hint Resolve lat_each_claim : respects.
Lemma lat_hash_set fuel key grant : respects R (hash_set fuel key grant).
Proof. unfold hash_set. respects. Qed.
Lemma lat_holds_claim signer hash : respects R (holds_claim signer hash).
Proof. unfold holds_claim. respects. Qed.
Lemma lat_drop_claim x s : respects R (drop_claim x s).
Proof. unfold drop_claim. respects. Qed.
#[local] Hint Resolve lat_hash_set lat_holds_claim lat_drop_claim : respects.
Lemma lat_drop_owner k x : respects R (drop_owner_claim_if_ours k x).
Proof. unfold drop_owner_claim_if_ours. respects. Qed.
Lemma lat_record_move k o c n : respects R (record_move k o c n).
Proof. unfold record_move. respects. Qed.
#[local] Hint Resolve lat_drop_owner lat_record_move : respects.
Lemma lat_move_claim k o n c : respects R (move_claim k o n c).
Proof. unfold move_claim, store_ok. respects. Qed.
#[local] Hint Resolve lat_move_claim : respects.
Lemma lat_transfer_page k o n paid page s : respects R (transfer_page k o n paid page s).
Proof. revert s. induction page; intros; cbn [transfer_page]; respects. Qed.
#[local] Hint Resolve lat_transfer_page : respects.
Lemma lat_transfer fuel k o g n : respects R (transfer fuel k o g n).
Proof.
  unfold transfer. apply respects_bind; [exact _|auto with respects|intros paid].
  generalize {| attempted := ∅; at_ := None; moved := 0 |}.
  induction fuel; intros; cbn [transfer_loop]; respects.
Qed.
Lemma lat_restore_page k g m page n : respects R (restore_page k g m page n).
Proof. revert n. induction page; intros; cbn [restore_page]; respects. Qed.
#[local] Hint Resolve lat_restore_page : respects.
Lemma lat_restore fuel k m g : respects R (restore fuel k m g).
Proof.
  unfold restore. generalize (0, 0), ""%string. induction fuel; intros; cbn [restore_loop]; respects.
Qed.
Lemma lat_release k o x : respects R (release k o x).
Proof. unfold release. respects. Qed.
Lemma lat_adopt_batch k g m b s : respects R (adopt_batch k g m b s).
Proof. revert s. induction b; intros; cbn [adopt_batch]; respects. Qed.
#[local] Hint Resolve lat_adopt_batch : respects.
Lemma lat_adopt fuel k m g : respects R (adopt fuel k m g).
Proof.
  unfold adopt. generalize (0, 0, ∅ : gset string). induction fuel; intros; cbn [adopt_loop]; respects.
Qed.
#[local] Hint Resolve lat_transfer lat_restore lat_release lat_adopt : respects.

Lemma lat_attempt {A} (m : SM World ClaimError A) : respects R m -> respects R (attempt_task m).
Proof. intros H w. specialize (H w). unfold attempt_task. by destruct (m w) as [[a|e] w']. Qed.
Lemma lat_to_api {A} (m : SM World ClaimError A) : respects R m -> respects R (to_api m).
Proof. intros H w. specialize (H w). unfold to_api. by destruct (m w) as [[a|e] w']. Qed.
Lemma lat_restore_due {E} key : respects R (restore_due (E := E) key).
Proof. intros w. unfold restore_due, bind, get, put. cbn. apply lat_due. Qed.
Lemma lat_now {E} : respects R (now (E := E)).
Proof. unfold now. respects. Qed.
Lemma lat_get_rows {E} : respects R (get_rows (E := E)).
Proof. unfold get_rows. respects. Qed.
#[local] Hint Resolve lat_restore_due lat_now lat_get_rows : respects.
#[local] Hint Extern 1 (respects R (attempt_task _)) => apply lat_attempt : respects.
#[local] Hint Extern 1 (respects R (to_api _)) => apply lat_to_api : respects.

Variable self : Config.

Lemma lat_push {E} : respects R (push_core_policy (E := E) self).
Proof. unfold push_core_policy. respects. Qed.
Lemma lat_status row : respects R (status_of self row).
Proof. unfold status_of. respects. Qed.
Lemma lat_hand_back fuel r n keys : respects R (hand_back self fuel r n keys).
Proof. induction keys; cbn [hand_back]; respects. Qed.
Lemma lat_wait_idle {E} key : respects R (wait_idle (E := E) key).
Proof.
  unfold wait_idle. apply respects_bind; [exact _|auto with respects|intros w0].
  apply respects_bind; [exact _|auto with respects|intros f].
  intros w. unfold bind, get, put. cbn. apply lat_flights.
Qed.
#[local] Hint Resolve lat_push lat_status lat_hand_back lat_wait_idle : respects.
Lemma lat_move_ended fuel n ended t : respects R (move_ended fuel n ended t).
Proof. revert t. induction ended as [|[k m] ended IH]; intros; cbn [move_ended]; respects. Qed.
Lemma lat_all_due ms : respects R (all_due ms).
Proof. induction ms as [|[k m] ms IH]; cbn [all_due]; respects. Qed.
Lemma lat_adopt_members fuel ms : respects R (adopt_members fuel ms).
Proof. induction ms as [|[k m] ms IH]; cbn [adopt_members]; respects. Qed.
Lemma lat_count_flight key n : respects R (count_flight key n).
Proof. intros w. unfold count_flight, bind, get, put. cbn. apply lat_flights. Qed.
#[local] Hint Resolve lat_count_flight : respects.
Lemma lat_begin_write key : respects R (begin_write self key).
Proof. unfold begin_write, is_active. respects. Qed.
Lemma lat_release_delete k p a : respects R (release_delete self k p a).
Proof.
  unfold release_delete. respects. match goal with |- respects R (fun w => match ?m w with _ => _ end) =>
    assert (respects R m) as Hm by respects end.
  intros w. specialize (Hm w).
  match type of Hm with R w (?m w).2 => destruct (m w) as [[x|e] w'] end; exact Hm.
Qed.
Lemma lat_mark_loop o n hashes : respects R (mark_loop o n hashes).
Proof.
  induction hashes; cbn [mark_loop]; respects; apply lat_statement; intros w d [= <-];
    [apply lat_writes|apply lat_moved].
Qed.
#[local] Hint Resolve lat_mark_loop lat_begin_write lat_release_delete : respects.
Lemma lat_mark_owner_writes o hashes : respects R (mark_owner_writes o hashes).
Proof. unfold mark_owner_writes. respects. Qed.
Lemma lat_next : respects R next.
Proof. unfold next. respects. Qed.
#[local] Hint Resolve lat_next : respects.
Lemma lat_gate method path auth : respects R (gate self method path auth).
Proof.
  unfold gate. respects. intros w. pose proof (lat_mark_owner_writes s l w) as H.
  destruct (mark_owner_writes s l w) as [[[]|e] w']; [|exact H].
  etransitivity; [exact H|]. apply lat_next.
Qed.
End Lateral.

(** ** Transactions *)

Lemma wp_transaction {E A} (e : E) (m : SM World E A) (Q : result E A -> World -> Prop) w :
  wp m (fun r w' => match r with
    | Ok a => (forall v, Q (Ok a) (with_env v w')) /\ (forall v, Q (Err e) (with_db (db w) (with_env v w')))
    | Err e' => Q (Err e') (with_db (db w) w')
    end) w ->
  wp (transaction e m) Q w.
Proof.
  unfold wp, transaction, io, bind. destruct (m w) as [[a|e'] w']; cbn [fst snd]; [|intros H; exact H].
  intros [H1 H2]. unfold ask, ret, throw. destruct (g_io (w_env w')) as [[] v]; cbn; auto.
Qed.

Lemma wp_reload {E} (e : E) (Q : result E unit -> World -> Prop) w :
  (forall v, Q (Ok tt) (with_snapshot (read_rows (db w)) (with_env v w))) ->
  (forall v, (g_read (w_env w)).1 = false -> Q (Err e) (with_env v w)) -> wp (reload e) Q w.
Proof.
  intros H1 H2. unfold wp, reload, bind, ask, get, put, throw.
  destruct (g_read (w_env w)) as [[] v]; cbn; [apply H1|by apply H2].
Qed.

Lemma wp_consume i x (Q : result ApiError unit -> World -> Prop) w :
  (forall v, used_events (db w) !! i = None ->
     Q (Ok tt) (with_db (set_used (<[i := int x]> (used_events (db w))) (db w)) (with_env v w))) ->
  (forall err v d, Q (Err err) (with_db d (with_env v w))) ->
  wp (consume i x) Q w.
Proof.
  intros H1 H2. apply wp_bind, wp_io; [intros v|intros v; exact (H2 _ v (db w))].
  unfold wp, bind, get, put, consume_event. cbn [db with_env].
  destruct (used_events (db w) !! i) as [y|] eqn:E'; cbn; [apply (H2 _ v (db w))|by apply (H1 v)].
Qed.
End Proofs.

#[export] Hint Resolve lat_ask lat_get lat_on_store lat_io lat_query lat_restore_due lat_now lat_get_rows
  lat_push lat_status lat_hand_back lat_wait_idle lat_move_ended lat_all_due lat_adopt_members
  lat_count_flight lat_begin_write lat_release_delete lat_gate : respects.
#[export] Hint Extern 0 (Lateral _) => typeclasses eauto : respects.
