(* ===== verification/GrantSteps.v ===== *)
(** * Device grants: requests that interleave

    A grant and a sweep give up the update lock while the core answers, so
    other requests run between their two halves.  [step] is one locked half or
    one request without such a gap. *)
From S2P Require Import Prelude GrantEvent GrantDb GrantWorld GrantClaims GrantClaimsProofs GrantService GrantProofs.

Section Steps.
Context `{Lib : EventLib, Out : GrantOutside, St : CoreStore}.
Local Open Scope wb_scope.

Variables (self : Config) (fuel : nat).

(** [apply_grant] after the lock was released. *)
Definition finish_grant (p : PendingGrant) : SM World ApiError (Z * GrantStatus) :=
  let! pushed := push_core_policy self in
  if pushed : bool then
    let! s := status_of self (p_row p) in
    ret (if bool_decide (is_Some (p_previous p)) then 200 else 201, s)
  else
    let! _ := undo_grant p in
    let! _ := push_core_policy self in
    throw unavailable.

(** The node: grants waiting on the core, newest first, and a sweep waiting. *)
Record Sys := { sw : World; pend : list PendingGrant; sweeping : option (list (string * Member)) }.

Definition push_pending (r : result ApiError PendingGrant) (ps : list PendingGrant) : list PendingGrant :=
  match r with Ok p => p :: ps | Err _ => ps end.

Definition swept (r : result string (option (list (string * Member)))) : option (list (string * Member)) :=
  match r with Ok removed => removed | Err _ => None end.

Inductive step : Sys -> Sys -> Prop :=
| StepCommit body w w' ps sg r : commit_grant self body w = (r, w') ->
    step {| sw := w; pend := ps; sweeping := sg |}
         {| sw := w'; pend := push_pending r ps; sweeping := sg |}
| StepFinish w w' ps p ps' sg r : finish_grant p w = (r, w') ->
    step {| sw := w; pend := ps ++ p :: ps'; sweeping := sg |} {| sw := w'; pend := ps ++ ps'; sweeping := sg |}
| StepRevoke device headers w w' ps sg r : apply_revoke self device headers w = (r, w') ->
    step {| sw := w; pend := ps; sweeping := sg |} {| sw := w'; pend := ps; sweeping := sg |}
| StepSweep w w' ps r : sweep_locked self fuel w = (r, w') ->
    step {| sw := w; pend := ps; sweeping := None |} {| sw := w'; pend := ps; sweeping := swept r |}
| StepSwept w w' ps removed r : finish_sweep self (Some removed) w = (r, w') ->
    step {| sw := w; pend := ps; sweeping := Some removed |} {| sw := w'; pend := ps; sweeping := None |}
| StepStartup w w' ps r : startup self fuel w = (r, w') ->
    step {| sw := w; pend := ps; sweeping := None |} {| sw := w'; pend := ps; sweeping := None |}
| StepPrune w w' ps sg r : prune_events w = (r, w') ->
    step {| sw := w; pend := ps; sweeping := sg |} {| sw := w'; pend := ps; sweeping := sg |}
| StepGate method path authorization w w' ps sg r : gate self method path authorization w = (r, w') ->
    step {| sw := w; pend := ps; sweeping := sg |} {| sw := w'; pend := ps; sweeping := sg |}
| StepOutside w v ps sg :
    step {| sw := w; pend := ps; sweeping := sg |} {| sw := with_env v w; pend := ps; sweeping := sg |}.

Definition steps : Sys -> Sys -> Prop := rtc step.

(** A request that is not interrupted is its halves in a row. *)
Lemma apply_grant_halves body : apply_grant self body = bind (commit_grant self body) finish_grant.
Proof. reflexivity. Qed.

(** ** What each request does to the rows *)

(** Same rows, in the tables and in the snapshot. *)
Definition aside (w w' : World) : Prop :=
  read_rows (db w') = read_rows (db w) /\ snapshot w' = snapshot w.

#[export] Instance aside_lateral : Lateral aside.
Proof.
  split; try (intros []; done); try (intros [] ?; done).
  intros w1 w2 w3 [A1 A2] [B1 B2]. split; congruence.
Qed.

(** The snapshot is what the tables hold. *)
Definition synced (w : World) : Prop := snapshot w = read_rows (db w).

Lemma aside_synced w w' : aside w w' -> synced w -> synced w'.
Proof. unfold synced. intros [-> ->]. done. Qed.

(** Reading the tables succeeds. *)
Definition Reads : Prop := forall e, (g_read e).1 = true.

Section Outcomes.
Hypothesis reads : Reads.

Lemma wp_reload_ok {E} (e : E) (Q : result E unit -> World -> Prop) w :
  (forall v, Q (Ok tt) (with_snapshot (read_rows (db w)) (with_env v w))) -> wp (reload e) Q w.
Proof. intros H. apply wp_reload; [done|]. intros v Hv. by rewrite reads in Hv. Qed.

(** The rows after a grant. *)
Definition granted (row : GrantRow) (m1 m2 : Member) (d d' : Db) : Prop :=
  exists d1 d2, write_grant row d = Some d1 /\ write_member (g_device row) m1 d1 = Some d2
    /\ write_member (g_recovery row) m2 d2 = Some d'.

(** What a committed grant was checked against and wrote. *)
Inductive committed (body : string) (w : World) : PendingGrant -> World -> Prop :=
| Committed e n a terms group d w' :
    verify body (owners self) (server_names self) (g_clock e).1 = Ok a ->
    au_action a = Grant terms ->
    check_grant_conflicts self (snapshot w) group a terms = Ok tt ->
    read_rows d = read_rows (db w) ->
    granted (row_of a terms)
      {| m_issuer := au_owner a; m_byte_limit := gt_byte_limit terms; since := n |}
      {| m_issuer := au_owner a; m_byte_limit := recovery_limit self (snapshot w) (row_of a terms) n;
         since := n |} d (db w') ->
    synced w' ->
    committed body w
      {| p_row := row_of a terms; p_previous := grants (snapshot w) !! gt_device terms;
         p_members := [(gt_device terms, members (snapshot w) !! gt_device terms);
                       (gt_recovery terms, members (snapshot w) !! gt_recovery terms)] |} w'.

Lemma wp_commit_grant body w :
  wp (commit_grant self body) (fun r w' => match r with
    | Ok p => committed body w p w'
    | Err _ => aside w w'
    end) w.
Proof.
  unfold commit_grant. apply wp_bind, wp_ask. intros v1. apply wp_bind, wp_lift.
  destruct (verify _ _ _ _) as [a|] eqn:Ev; [|done]. cbn [map_err].
  destruct (au_action a) as [terms|] eqn:Ea; [|done].
  apply wp_bind, wp_ask. intros v2. set (n := (g_clock (w_env (with_env v1 w))).1).
  apply wp_bind, wp_bind, wp_get. unfold ret at 1, wp at 1. cbn [fst snd].
  apply wp_bind, wp_ask. intros v3. cbn [w_env with_env]. set (group := (g_group _).1).
  apply wp_bind, wp_lift. destruct (check_grant_conflicts _ _ _ _ _) as [[]|] eqn:Ec; [|done].
  apply wp_bind, wp_transaction. apply wp_bind, wp_consume; [intros v4 _|intros err v d; done].
  apply wp_bind, wp_statement; [intros v5 d1 H1|done].
  apply wp_bind, wp_statement; [intros v6 d2 H2|done].
  apply wp_statement; [intros v7 d3 H3|done].
  split; intros v8; [|done].
  apply wp_bind, wp_reload_ok. intros v9.
  unfold wp, restore_due, bind, get, put, ret. cbn [fst snd].
  match goal with |- committed _ _ _ ?w0 => refine (Committed body w (w_env w) n a terms group
    (set_used (<[au_event_id a := int (au_expires_at a)]> (used_events (db w))) (db w)) w0 Ev Ea Ec eq_refl
    _ _) end; [exact (ex_intro _ d1 (ex_intro _ d2 (conj H1 (conj H2 H3))))|done].
Qed.

Lemma wp_push {E} (Q : result E bool -> World -> Prop) w :
  (forall b v, Q (Ok b) (with_env v w)) -> wp (push_core_policy self) Q w.
Proof.
  intros H. unfold push_core_policy. destruct (attached self); cbn [negb].
  - apply wp_bind, wp_bind, wp_get. unfold ret, wp at 1. cbn [fst snd].
    apply wp_bind, wp_ask. intros v1. apply wp_ask. intros v2. exact (H _ v2).
  - unfold ret, wp. cbn [fst snd]. destruct w. exact (H true w_env).
Qed.

(** Members written and deleted, in order. *)
Fixpoint rewritten (ms : list (string * option Member)) (d d' : Db) : Prop :=
  match ms with
  | [] => d' = d
  | (key, m) :: ms => exists d1, match m with Some m => write_member key m | None => delete_member key end d
                                 = Some d1 /\ rewritten ms d1 d'
  end.

(** What putting the previous grant back writes. *)
Definition reverted (p : PendingGrant) (d d' : Db) : Prop :=
  exists d1, match p_previous p with Some row => write_grant row | None => delete_grant (g_device (p_row p)) end d
             = Some d1 /\ rewritten (p_members p) d1 d'.

Lemma wp_revert_members ms (Q : result ApiError unit -> World -> Prop) w :
  (forall d v, rewritten ms (db w) d -> Q (Ok tt) (with_db d (with_env v w))) ->
  (forall e d v, Q (Err e) (with_db d (with_env v w))) -> wp (revert_members ms) Q w.
Proof.
  revert w. induction ms as [|[key m] ms IH]; intros w H1 H2; cbn [revert_members].
  - unfold ret, wp. cbn [fst snd]. destruct w. exact (H1 db w_env eq_refl).
  - apply wp_bind, wp_statement; [intros v d Hd|intros v; exact (H2 _ (db w) v)].
    apply IH; [intros d' v' H'|intros e d' v'; exact (H2 e d' v')].
    refine (H1 d' v' _). exists d. split; [exact Hd|exact H'].
Qed.

(** The current row is the one the grant wrote and it was put back, or
    nothing changed. *)
Lemma wp_undo_grant p w :
  wp (undo_grant p) (fun r w' =>
    aside w w' \/
    (r = Ok tt /\ grants (snapshot w) !! g_device (p_row p) = Some (p_row p)
     /\ reverted p (db w) (db w') /\ synced w')) w.
Proof.
  unfold undo_grant. apply wp_bind, wp_bind, wp_get. unfold ret at 1, wp at 1. cbn [fst snd].
  destruct (bool_decide_reflect (grants (snapshot w) !! g_device (p_row p) = Some (p_row p))) as [Hp|_]; [|by left].
  unfold revert. apply wp_bind, wp_transaction. apply wp_bind, wp_statement; [intros v1 d1 H1|by left].
  apply wp_revert_members; [intros d2 v2 H2|by left]. split; intros v3; [|by left].
  apply wp_reload_ok. intros v4. right. split; [done|]. split; [exact Hp|]. split; [|done].
  exists d1. split; [exact H1|exact H2].
Qed.

Lemma wp_finish_grant p w :
  wp (finish_grant p) (fun r w' =>
    aside w w' \/ (grants (snapshot w) !! g_device (p_row p) = Some (p_row p)
                   /\ reverted p (db w) (db w') /\ synced w')) w.
Proof.
  unfold finish_grant. apply wp_bind, wp_push. intros [] v1.
  - apply (wp_respects aside); [|intros; by left]. respects.
  - apply wp_bind. eapply wp_impl; [apply wp_undo_grant|]. cbn beta.
    intros r w' [H|(-> & H1 & H2 & H3)].
    + destruct r as [[]|]; [|left; exact H]. apply wp_bind, wp_push. intros b v2. left. exact H.
    + apply wp_bind, wp_push. intros b v2. right. split; [exact H1|]. split; [exact H2|exact H3].
Qed.

(** A revocation ends the row there was, or leaves a marker. *)
Inductive revocation (device : string) (headers : list (option string)) (w : World) : World -> Prop :=
| Revocation e n header bytes a d w' :
    headers = [Some header] -> decode_header header = Some bytes ->
    verify bytes (owners self) (server_names self) (g_clock e).1 = Ok a ->
    au_action a = Revoke device ->
    not_newer (snapshot w) device (au_created_at a) = false ->
    read_rows d = read_rows (db w) ->
    match grants (snapshot w) !! device with
    | Some row => write_grant (revoked_row row n (au_created_at a)) d
    | None => write_marker device (au_created_at a) d
    end = Some (db w') ->
    synced w' ->
    revocation device headers w w'.

Lemma wp_apply_revoke device headers w :
  wp (apply_revoke self device headers) (fun r w' => match r with
    | Ok _ => revocation device headers w w'
    | Err _ => aside w w'
    end) w.
Proof.
  unfold apply_revoke. apply wp_bind, wp_ask. intros v1. apply wp_bind, wp_lift.
  destruct (single_authorization headers) as [header|] eqn:Eh; [|done].
  assert (headers = [Some header]) as Hh.
  { destruct headers as [|[h|] [|]]; try done. cbn in Eh. congruence. }
  apply wp_bind, wp_lift. destruct (decode_header header) as [bytes|] eqn:Eb; [|done]. cbn [ok_or].
  apply wp_bind, wp_lift. destruct (verify _ _ _ _) as [a|] eqn:Ev; [|done]. cbn [map_err].
  destruct (au_action a) as [|named] eqn:Ea; [done|].
  destruct (bool_decide_reflect (named = device)) as [->|]; [|done]. cbn [negb].
  apply wp_bind, wp_ask. intros v2. set (n := (g_clock _).1).
  apply wp_bind, wp_bind, wp_get. unfold ret at 1, wp at 1. cbn [fst snd].
  destruct (not_newer _ _ _) eqn:En; [done|].
  apply wp_bind, wp_transaction. apply wp_bind, wp_consume; [intros v4 _|intros err v d; done].
  apply wp_statement; [intros v5 d H|done]. split; intros v6; [|done].
  apply wp_bind, wp_reload_ok. intros v7. cbn [snapshot with_env] in *.
  match goal with |- wp _ _ ?w0 => assert (revocation device headers w w0) as HR end.
  { refine (Revocation device headers w (w_env w) n header bytes a
      (set_used (<[au_event_id a := int (au_expires_at a)]> (used_events (db w))) (db w)) _ Hh Eb Ev Ea En eq_refl
      _ _); [|done]. refine (eq_trans _ H). by destruct (grants (snapshot w) !! device). }
  destruct (grants (snapshot w) !! device); cbn [fmap option_fmap option_map] in HR |- *; [|exact HR].
  unfold status_of. apply wp_bind, wp_ask. intros v8. unfold wp, ret. cbn [fst snd].
  destruct HR as [e' n' header' bytes' a' d' w' B1 B2 B3 B4 B5 B6 B7 B8].
  exact (Revocation device headers w e' n' header' bytes' a' d' (with_env v8 w') B1 B2 B3 B4 B5 B6 B7 B8).
Qed.

(** ** Sweeps *)

Definition drops (ms : list (string * Member)) : list (string * option Member) := map (fun '(k, _) => (k, None)) ms.
Definition puts (ms : list (string * Member)) : list (string * option Member) := map (fun '(k, m) => (k, Some m)) ms.

Lemma rewritten_app l1 l2 d1 d2 d3 : rewritten l1 d1 d2 -> rewritten l2 d2 d3 -> rewritten (l1 ++ l2) d1 d3.
Proof.
  revert d1. induction l1 as [|[k m] l1 IH]; intros d1; cbn; [by intros ->|].
  intros (d & H & H1) H2. exists d. auto.
Qed.

Lemma wp_delete_members ms (Q : result string unit -> World -> Prop) w :
  (forall d v, rewritten (drops ms) (db w) d -> Q (Ok tt) (with_db d (with_env v w))) ->
  (forall e d v, Q (Err e) (with_db d (with_env v w))) -> wp (delete_members ms) Q w.
Proof.
  revert w. induction ms as [|[key m] ms IH]; intros w H1 H2; cbn [delete_members].
  - unfold ret, wp. cbn [fst snd]. destruct w. exact (H1 db w_env eq_refl).
  - apply wp_bind, wp_statement; [intros v d Hd|intros v; exact (H2 _ (db w) v)].
    apply IH; [intros d' v' H'|intros e d' v'; exact (H2 e d' v')].
    refine (H1 d' v' _). exists d. split; [exact Hd|exact H'].
Qed.

Lemma wp_write_members ms (Q : result string unit -> World -> Prop) w :
  (forall d v, rewritten (puts ms) (db w) d -> Q (Ok tt) (with_db d (with_env v w))) ->
  (forall e d v, Q (Err e) (with_db d (with_env v w))) -> wp (write_members ms) Q w.
Proof.
  revert w. induction ms as [|[key m] ms IH]; intros w H1 H2; cbn [write_members].
  - unfold ret, wp. cbn [fst snd]. destruct w. exact (H1 db w_env eq_refl).
  - apply wp_bind, wp_statement; [intros v d Hd|intros v; exact (H2 _ (db w) v)].
    apply IH; [intros d' v' H'|intros e d' v'; exact (H2 e d' v')].
    refine (H1 d' v' _). exists d. split; [exact Hd|exact H'].
Qed.

#[local] Ltac grow H := let x := fresh in let Hx := fresh in
  intros x Hx; apply H in Hx; revert Hx; rewrite ?elem_of_app, ?elem_of_cons, ?elem_of_nil; tauto.

(** Only members that ended are transferred. *)
Lemma wp_move_ended n ended done (Q : result string (list (string * Member)) -> World -> Prop) w :
  (forall moved w', moved ⊆ done ++ ended -> aside w w' -> Q (Ok moved) w') ->
  (forall e w', aside w w' -> Q (Err e) w') ->
  wp (move_ended fuel n ended done) Q w.
Proof.
  intros H1 H2. assert (wp (move_ended fuel n ended done)
    (fun r _ => match r with Ok moved => moved ⊆ done ++ ended | Err _ => True end) w) as Hm.
  { clear H1 H2. revert w done. induction ended as [|[k m] ended IH]; intros w acc; cbn [move_ended].
    - unfold wp, ret. cbn. by rewrite app_nil_r.
    - apply wp_bind. eapply (wp_respects aside); [auto with respects|].
      intros [idle|]; intros w1 _; [|done]. destruct idle; cbn [negb].
      + apply wp_bind. unfold wp at 1, attempt_task. destruct (transfer _ _ _ _ _ _) as [[z|] w2]; cbn [fst snd].
        * eapply wp_impl; [apply IH|]. intros [moved|] w3 H; [|done]. grow H.
        * eapply wp_impl; [apply IH|]. intros [moved|] w3 H; [|done]. grow H.
      + eapply wp_impl; [apply IH|]. intros [moved|] w3 H; [|done]. grow H. }
  pose proof (lat_move_ended aside fuel n ended done w) as Ha. unfold wp in *.
  destruct (move_ended fuel n ended done w) as [[moved|e] w']; [exact (H1 moved w' Hm Ha)|exact (H2 e w' Ha)].
Qed.

(** The transaction of a sweep. *)
Lemma wp_sweep_write removed adj (Q : result string (option (list (string * Member))) -> World -> Prop) w :
  (forall d w', db w' = d -> rewritten (drops removed ++ puts adj) (db w) d -> synced w' -> Q (Ok (Some removed)) w') ->
  (forall e w', aside w w' -> Q (Err e) w') ->
  wp (let! _ := transaction db_error (let! _ := delete_members removed in write_members adj) in
      let! _ := all_due adj in let! _ := reload db_error in ret (Some removed)) Q w.
Proof.
  intros HQ HE. apply wp_bind, wp_transaction, wp_bind, wp_delete_members;
    [intros d1 v1 H1|intros; by apply HE].
  apply wp_write_members; [intros d2 v2 H2|intros; by apply HE]. split; intros v3; [|by apply HE].
  apply wp_bind. match goal with |- wp ?m _ ?w0 => assert (wp m (fun r w' => r = Ok tt /\ db w' = db w0) w0) as Hd end.
  { match goal with |- wp _ _ ?w0 => generalize w0 end. clear. induction adj as [|[k m] adj IH]; intros w; [done|].
    cbn [all_due]. unfold wp, restore_due, bind, get, put. cbn [fst snd].
    exact (IH (with_due ({[k]} ∪ due w) w)). }
  eapply wp_impl; [exact Hd|]. cbn beta. intros r w' [-> Hdb].
  apply wp_bind, wp_reload_ok. intros v4. unfold wp, ret. cbn [fst snd].
  apply (HQ (db w')); [done| |done]. rewrite Hdb. cbn. by apply (rewritten_app _ _ _ d1).
Qed.

(** What a sweep that changed the members wrote. *)
Definition swept_rows (n : Z) (removed : list (string * Member)) (w w' : World) : Prop :=
  removed ⊆ ended_members self (snapshot w) n /\ synced w' /\
  exists d, read_rows d = read_rows (db w)
    /\ rewritten (drops removed ++ puts (adjusted_members self (snapshot w) n)) d (db w').

Lemma wp_sweep_locked w :
  wp (sweep_locked self fuel) (fun r w' => match r with
    | Ok (Some removed) => exists n, swept_rows n removed w w'
    | _ => aside w w'
    end) w.
Proof.
  unfold sweep_locked. destruct (attached self); cbn [negb]; [|done].
  apply wp_bind, wp_ask. intros v1. set (n := (g_clock _).1).
  apply wp_bind, wp_bind, wp_get. unfold ret at 1, wp at 1. cbn [fst snd].
  apply wp_bind, wp_get. apply wp_bind, wp_put. apply wp_bind.
  eapply (wp_respects aside); [auto with respects|]. intros r1 w1 Ha1.
  assert (aside w w1) as Ha by (destruct Ha1; by split). clear Ha1. destruct r1 as [[]|]; [|exact Ha].
  apply wp_bind, wp_move_ended; [|intros e w2 H; by transitivity w1].
  intros removed w2 Hsub Ha2. assert (aside w w2) as Hw2 by (by transitivity w1).
  change (snapshot (with_env v1 w)) with (snapshot w) in *.
  match goal with |- wp ?m _ _ => assert (wp m (fun r w' => match r with
    | Ok (Some removed) => exists n, swept_rows n removed w w' | _ => aside w w' end) w2) as Hgoal end; [|exact Hgoal].
  cbn [app] in Hsub.
  assert (forall adj, adj = adjusted_members self (snapshot w) n ->
    wp (let! _ := transaction db_error (let! _ := delete_members removed in write_members adj) in
        let! _ := all_due adj in let! _ := reload db_error in ret (Some removed))
      (fun r w' => match r with
        | Ok (Some removed) => exists n, swept_rows n removed w w' | _ => aside w w' end) w2) as Hw.
  { intros adj Hadj. apply wp_sweep_write; [|intros e w' H; by transitivity w2].
    intros d w' H1 H2 H3. exists n. split; [exact Hsub|]. split; [exact H3|]. exists (db w2).
    split; [apply Hw2|]. subst adj d. exact H2. }
  specialize (Hw _ eq_refl). destruct removed; [|exact Hw].
  destruct (adjusted_members self (snapshot w) n); [exact Hw2|exact Hw].
Qed.

(** Members put back after the core refused a sweep. *)
Lemma wp_put_back r removed (Q : result string unit -> World -> Prop) w :
  (forall back d v, back ⊆ filter (fun km => members r !! km.1 = None) removed ->
     rewritten (puts back) (db w) d -> Q (Ok tt) (with_db d (with_env v w))) ->
  wp (put_back r removed) Q w.
Proof.
  revert w. induction removed as [|[key m] removed IH]; intros w H; cbn [put_back].
  - unfold ret, wp. cbn [fst snd]. destruct w. exact (H [] db w_env (fun x Hx => Hx) eq_refl).
  - apply wp_bind. destruct (bool_decide_reflect (is_Some (members r !! key))) as [Hs|Hs].
    + unfold wp at 1, ret. cbn [fst snd]. apply IH. intros back d v Hb Hd. apply (H back); [|done].
      rewrite filter_cons_False; [done|]. cbn. intros E. destruct Hs as [x Hx]. congruence.
    + apply eq_None_not_Some in Hs. rewrite filter_cons_True in H by done.
      match goal with |- wp ?k _ _ => assert (wp k (fun r w' => r = Ok tt /\ exists v d, w' = with_db d (with_env v w)
        /\ (d = db w \/ write_member key m (db w) = Some d)) w) as Hk end.
      { unfold wp, statement, bind, io, bind, ask, get, put, throw, ret.
        destruct (g_io (w_env w)) as [[] v]; cbn [fst snd].
        - change (db (with_env v w)) with (db w). destruct (write_member key m (db w)) as [d|] eqn:Ew; cbn [fst snd].
          + split; [done|]. exists v, d. split; [done|by right].
          + split; [done|]. exists v, (db w). split; [by destruct w|by left].
        - split; [done|]. exists v, (db w). split; [by destruct w|by left]. }
      eapply wp_impl; [exact Hk|]. cbn beta. intros r' w' (-> & v & d & -> & Hd).
      apply IH. intros back d' v' Hb Hd'. destruct Hd as [->|Hd].
      * apply (H back d' v'); [|exact Hd']. intros x Hx. right. by apply Hb.
      * apply (H ((key, m) :: back) d' v').
        -- intros x Hx. apply elem_of_cons in Hx as [->|Hx]; [by left|right; by apply Hb].
        -- exists d. split; [exact Hd|exact Hd'].
Qed.

Lemma wp_finish_sweep removed w :
  wp (finish_sweep self (Some removed)) (fun _ w' => aside w w' \/ (synced w' /\ exists back,
    back ⊆ filter (fun km => members (snapshot w) !! km.1 = None) removed
    /\ rewritten (puts back) (db w) (db w'))) w.
Proof.
  unfold finish_sweep. apply wp_bind, wp_push. intros [] v1; [by left|].
  apply wp_bind. unfold undo_sweep. apply wp_bind, wp_bind, wp_get. unfold ret at 1, wp at 1. cbn [fst snd].
  apply wp_bind, wp_ask. intros v2.
  set (K := fun w0 : World => match reload db_error w0 with (_, w1) => (Ok tt, w1) end : result string unit * World).
  assert (forall w0, exists v, K w0 = (Ok tt, with_snapshot (read_rows (db w0)) (with_env v w0))) as HK.
  { intros w0. unfold K, reload, bind, ask, get, put. pose proof (reads (w_env w0)).
    destruct (g_read (w_env w0)) as [[] v]; [|done]. by exists v. }
  apply wp_bind. destruct (g_io _).1.
  - apply wp_put_back. intros back d v Hb Hd. unfold wp at 1. change (K (with_db d (with_env v (with_env v2 (with_env v1 w))))) with (K (with_db d (with_env v w))).
    destruct (HK (with_db d (with_env v w))) as [v3 ->]. cbn [fst snd]. unfold throw, wp. cbn [fst snd].
    right. split; [done|]. exists back. split; [exact Hb|exact Hd].
  - unfold wp at 1, ret. cbn [fst snd]. unfold wp at 1.
    destruct (HK (with_env v2 (with_env v1 w))) as [v3 HK']. fold K. rewrite HK'. cbn [fst snd]. unfold throw, wp. cbn [fst snd].
    right. split; [done|]. exists []. split; [intros x Hx; by apply elem_of_nil in Hx|done].
Qed.
End Outcomes.
End Steps.
