(* ===== verification/GrantLedger.v ===== *)
(** * Device grants: the abstract ledger

    What the grants promise, without the database, the core or the members: a
    ledger of one row per device, revocation markers, and grants still waiting
    on the core.  [step_refines] shows that every step of the service is a step
    of the ledger. *)
From Stdlib Require Import Sorted.
From S2P Require Import Prelude GrantEvent GrantEventProofs GrantDb GrantWorld GrantClaims GrantClaimsProofs GrantService GrantProofs GrantSteps.

(** [waiting]: a row and the row it replaced, newest first. *)
Record Ledger := {
  l_rows : gmap string GrantRow; l_marks : gmap string Z; waiting : list (GrantRow * option GrantRow) }.

(** An event at [c] or later was already accepted for the device. *)
Definition seen (g : gmap string GrantRow) (m : gmap string Z) (device : string) (c : Z) : Prop :=
  (exists row, g !! device = Some row /\ c <= last_event_at row) \/ (exists x, m !! device = Some x /\ c <= x).

Lemma not_newer_seen r device c : not_newer r device c = true <-> seen (grants r) (markers r) device c.
Proof.
  unfold not_newer, rows_last_event_at, opt_max, seen.
  destruct (grants r !! device) as [row|] eqn:Eg, (markers r !! device) as [x|] eqn:Em;
    cbn [fmap option_fmap option_map]; rewrite ?Z.leb_le.
  - split; [intros H; destruct (Z.max_spec (last_event_at row) x); [right|left]; eexists; split; (done || lia)|].
    intros [(? & [= <-] & ?)|(? & [= <-] & ?)]; lia.
  - split; [intros H; left; eauto|]. intros [(? & [= <-] & ?)|(? & ? & ?)]; done.
  - split; [intros H; right; eauto|]. intros [(? & ? & ?)|(? & [= <-] & ?)]; done.
  - split; [done|]. intros [(? & ? & ?)|(? & ? & ?)]; done.
Qed.

Lemma not_newer_unseen r device c : not_newer r device c = false <-> ~ seen (grants r) (markers r) device c.
Proof. rewrite <- not_newer_seen. by destruct (not_newer r device c). Qed.

(** The row before, put back. *)
Definition put_row (device : string) (prev : option GrantRow) (g : gmap string GrantRow) : gmap string GrantRow :=
  match prev with Some old => <[g_device old := stored_grant old]> g | None => delete device g end.

Section Ledger.
(** Which rows and revocations an owner signed. *)
Variables (signed : GrantRow -> Prop) (revoke_signed : string -> Z -> Prop).

Inductive lstep : Ledger -> Ledger -> Prop :=
| LSkip l : lstep l l
| LGrant row g m ps : signed row -> revoked_at row = None -> last_event_at row <= I64_MAX ->
    ~ seen g m (g_device row) (last_event_at row) ->
    lstep {| l_rows := g; l_marks := m; waiting := ps |}
          {| l_rows := <[g_device row := stored_grant row]> g; l_marks := m;
             waiting := (row, g !! g_device row) :: ps |}
| LDone g m ps x ps' :
    lstep {| l_rows := g; l_marks := m; waiting := ps ++ x :: ps' |}
          {| l_rows := g; l_marks := m; waiting := ps ++ ps' |}
| LUndo g m ps row prev ps' : g !! g_device row = Some row ->
    lstep {| l_rows := g; l_marks := m; waiting := ps ++ (row, prev) :: ps' |}
          {| l_rows := put_row (g_device row) prev g; l_marks := m; waiting := ps ++ ps' |}
| LRevoke device row n c g m ps : revoke_signed device c -> c <= I64_MAX -> g !! device = Some row ->
    ~ seen g m device c ->
    lstep {| l_rows := g; l_marks := m; waiting := ps |}
          {| l_rows := <[g_device row := stored_grant (revoked_row row n c)]> g; l_marks := m; waiting := ps |}
| LMark device c g m ps : revoke_signed device c -> c <= I64_MAX -> g !! device = None -> ~ seen g m device c ->
    lstep {| l_rows := g; l_marks := m; waiting := ps |}
          {| l_rows := g; l_marks := <[device := int c]> m; waiting := ps |}.

(** ** The invariant of the ledger *)

Abbreviation dev p := (g_device p.1).
Abbreviation ev p := (last_event_at p.1).

Definition row_ok (device : string) (row : GrantRow) : Prop :=
  g_device row = device /\ stored_grant row = row.

(** [q] waited before [p] was granted: [p] replaced it or something newer. *)
Definition newer (m : gmap string Z) (p q : GrantRow * option GrantRow) : Prop :=
  dev p = dev q -> ev q < ev p /\
    ((exists row, p.2 = Some row /\ ev q <= last_event_at row) \/ (exists x, m !! dev p = Some x /\ ev q <= x)).

Record ledger_ok (l : Ledger) : Prop := {
  lo_rows device row : l_rows l !! device = Some row -> row_ok device row;
  lo_waiting p : p ∈ waiting l -> revoked_at p.1 = None /\ ev p <= I64_MAX
    /\ seen (l_rows l) (l_marks l) (dev p) (ev p)
    /\ (forall row, p.2 = Some row -> row_ok (dev p) row);
  lo_order : StronglySorted (newer (l_marks l)) (waiting l)
}.

Lemma int_id x : x <= I64_MAX -> int x = x.
Proof. unfold int. lia. Qed.

Lemma stored_stored row : stored_grant (stored_grant row) = stored_grant row.
Proof.
  destruct row as [d rv i b u ga le ra]. unfold stored_grant, int. cbn. f_equal; try lia.
  destruct ra; cbn; [|done]. f_equal. lia.
Qed.

Lemma StronglySorted_drop {A} (R : A -> A -> Prop) l x l' :
  StronglySorted R (l ++ x :: l') -> StronglySorted R (l ++ l').
Proof.
  induction l as [|y l IH]; cbn; intros H; apply StronglySorted_inv in H as [H1 H2]; [done|].
  constructor; [by apply IH|]. rewrite Forall_app in H2 |- *. destruct H2 as [H2 H3].
  split; [done|]. by apply Forall_cons_1 in H3 as [_ H3].
Qed.

Lemma StronglySorted_split {A} (R : A -> A -> Prop) l x l' :
  StronglySorted R (l ++ x :: l') -> (forall y, y ∈ l -> R y x) /\ (forall y, y ∈ l' -> R x y).
Proof.
  induction l as [|z l IH]; cbn; intros H; apply StronglySorted_inv in H as [H1 H2].
  - split; [intros y Hy; by apply elem_of_nil in Hy|]. by rewrite Forall_forall in H2.
  - destruct (IH H1) as [I1 I2]. split; [|done]. intros y Hy. apply elem_of_cons in Hy as [->|Hy]; [|by apply I1].
    rewrite Forall_forall in H2. apply H2. rewrite elem_of_app, elem_of_cons. tauto.
Qed.

Lemma StronglySorted_weaken {A} (R R' : A -> A -> Prop) l :
  (forall x y, R x y -> R' x y) -> StronglySorted R l -> StronglySorted R' l.
Proof.
  intros HR. induction 1; constructor; [done|]. eapply Forall_impl; [eassumption|]. auto.
Qed.

(** Accepting a newer event keeps what was seen. *)
Lemma seen_insert g m device row d c :
  stored_grant row = row -> g_device row = device -> ~ seen g m device (last_event_at row) ->
  seen g m d c -> seen (<[device := row]> g) m d c.
Proof.
  intros _ Hd Hn. destruct (decide (d = device)) as [->|Hne].
  - intros Hs. left. exists row. rewrite lookup_insert_eq. split; [done|].
    apply Z.nlt_ge. intros Hlt. apply Hn. destruct Hs as [(r & H1 & H2)|(x & H1 & H2)];
      [left; exists r|right; exists x]; split; (done || lia).
  - unfold seen. rewrite lookup_insert_ne by done. done.
Qed.

Lemma seen_le g m d c c' : c' <= c -> seen g m d c -> seen g m d c'.
Proof. intros Hle [(r & H1 & H2)|(x & H1 & H2)]; [left; exists r|right; exists x]; split; (done || lia). Qed.

Lemma seen_unseen_lt g m d c c' : seen g m d c' -> ~ seen g m d c -> c' < c.
Proof. intros H1 H2. apply Z.nle_gt. intros Hle. apply H2. by apply (seen_le g m d c'). Qed.

(** A later marker keeps what was seen. *)
Lemma mark_le g m device c d x : ~ seen g m device c -> c <= I64_MAX -> m !! d = Some x ->
  exists y, <[device := int c]> m !! d = Some y /\ x <= y.
Proof.
  intros Hn Hc Hx. rewrite (int_id c) by done. destruct (decide (d = device)) as [->|Hne].
  - exists c. rewrite lookup_insert_eq. split; [done|]. apply Z.nlt_ge. intros Hlt. apply Hn. right. exists x.
    split; (done || lia).
  - exists x. by rewrite lookup_insert_ne.
Qed.

Lemma seen_mark g m device c d x : ~ seen g m device c -> c <= I64_MAX ->
  seen g m d x -> seen g (<[device := int c]> m) d x.
Proof.
  intros Hn Hc [H|(y & H1 & H2)]; [by left|]. right.
  destruct (mark_le g m device c d y Hn Hc H1) as (z & Hz & Hle). exists z. split; (done || lia).
Qed.

Lemma newer_mark g m device c p q : ~ seen g m device c -> c <= I64_MAX ->
  newer m p q -> newer (<[device := int c]> m) p q.
Proof.
  intros Hn Hc H E. destruct (H E) as [Hlt [Hp|(x & H1 & H2)]]; (split; [done|]); [by left|]. right.
  destruct (mark_le g m device c _ x Hn Hc H1) as (z & Hz & Hle). exists z. split; (done || lia).
Qed.

Lemma elem_drop {A} (x y : A) l l' : x ∈ l ++ l' -> x ∈ l ++ y :: l'.
Proof. rewrite !elem_of_app, elem_of_cons. tauto. Qed.

(** Every other grant waiting for the device is older than what is put back. *)
Lemma seen_undo g m ps row prev ps' q :
  StronglySorted (newer m) (ps ++ (row, prev) :: ps') -> g !! g_device row = Some row ->
  (forall old, prev = Some old -> row_ok (g_device row) old) ->
  q ∈ ps ++ ps' -> seen g m (dev q) (ev q) -> seen (put_row (g_device row) prev g) m (dev q) (ev q).
Proof.
  intros Hsort Hg Hprev Hq Hs. destruct (decide (dev q = g_device row)) as [E|Hne].
  - apply StronglySorted_split in Hsort as [S1 S2]. apply elem_of_app in Hq as [Hq|Hq].
    + destruct (S1 q Hq E) as [Hlt _]. destruct Hs as [(r & H1 & H2)|Hs]; [|by right].
      rewrite E, Hg in H1. injection H1 as <-. cbn in Hlt. lia.
    + destruct (S2 q Hq (eq_sym E)) as [_ [(old & H1 & H2)|(x & H1 & H2)]]; cbn in H1.
      * left. exists old. subst prev. destruct (Hprev old eq_refl) as [Hd Hst]. cbn.
        by rewrite E, Hd, Hst, lookup_insert_eq.
      * right. exists x. by rewrite E.
  - unfold seen, put_row. destruct prev as [old|].
    + destruct (Hprev old eq_refl) as [-> _]. by rewrite lookup_insert_ne.
    + by rewrite lookup_delete_ne.
Qed.

Lemma put_row_lookup device prev g d row :
  (forall old, prev = Some old -> row_ok device old) -> put_row device prev g !! d = Some row ->
  (d = device /\ prev = Some row) \/ (d <> device /\ g !! d = Some row).
Proof.
  intros Hp. unfold put_row. destruct prev as [old|].
  - destruct (Hp old eq_refl) as [-> ->]. intros [[-> ->]|[]]%lookup_insert_Some; [by left|by right].
  - intros []%lookup_delete_Some. by right.
Qed.

Lemma revoked_row_ok device row n c : row_ok device row -> row_ok device (stored_grant (revoked_row row n c)).
Proof. intros [Hd Hs]. split; [exact Hd|apply stored_stored]. Qed.

Lemma lstep_ok l l' : ledger_ok l -> lstep l l' -> ledger_ok l'.
Proof.
  intros [Hr Hw Ho] Hs. destruct Hs as [l|row g m ps Hsg Hrv Hle Hn|g m ps x ps'|g m ps row prev ps' Hcur
    |device row n c g m ps Hsg Hle Hrow Hn|device c g m ps Hsg Hle Hrow Hn]; cbn in *.
  - by split.
  - assert (last_event_at (stored_grant row) = last_event_at row) as Hev by (by apply int_id).
    split; cbn.
    + intros d r [[<- <-]|[_ H]]%lookup_insert_Some; [split; [done|apply stored_stored]|by apply Hr].
    + intros p [->|Hp]%elem_of_cons; cbn.
      * split_and!; [done|done|left; exists (stored_grant row)|by intros r H; apply Hr].
        rewrite lookup_insert_eq, Hev. split; (done || lia).
      * destruct (Hw p Hp) as (H1 & H2 & H3 & H4). split_and!; [done|done| |done].
        apply seen_insert; [apply stored_stored|done|by rewrite Hev|done].
    + constructor; [done|]. apply Forall_forall. intros q Hq E. cbn in E |- *.
      destruct (Hw q Hq) as (_ & _ & H3 & _). rewrite E in Hn |- *.
      split; [by apply (seen_unseen_lt g m (dev q))|exact H3].
  - split; cbn; [done| |by eapply StronglySorted_drop]. intros p Hp. by apply Hw, elem_drop.
  - destruct (Hw (row, prev)) as (H1 & H2 & H3 & H4); [rewrite elem_of_app, elem_of_cons; tauto|]. cbn in *.
    split; cbn; [| |by eapply StronglySorted_drop].
    + intros d r [[-> ->]|[_ H]]%put_row_lookup; [by apply H4|by apply Hr|done].
    + intros p Hp. destruct (Hw p (elem_drop p (row, prev) ps ps' Hp)) as (P1 & P2 & P3 & P4).
      split_and!; [done|done| |done]. by apply (seen_undo g m ps row prev ps').
  - destruct (Hr device row Hrow) as [Hd Hst]. rewrite Hd. split; cbn; [|intros p Hp|done].
    + intros d r [[<- <-]|[_ H]]%lookup_insert_Some; [by apply revoked_row_ok|by apply Hr].
    + destruct (Hw p Hp) as (P1 & P2 & P3 & P4). split_and!; [done|done| |done].
      apply seen_insert; [apply stored_stored|done| |done]. cbn. by rewrite int_id.
  - split; cbn; [done|intros p Hp|].
    + destruct (Hw p Hp) as (P1 & P2 & P3 & P4). split_and!; [done|done| |done]. by apply seen_mark.
    + eapply StronglySorted_weaken; [|exact Ho]. intros x y. by apply (newer_mark g).
Qed.

(** ** A revocation lasts *)

(** If the row stands, it is one an owner signed in an event after [c]. *)
Definition later (c : Z) (row : GrantRow) : Prop := revoked_at row = None ->
  c < last_event_at row /\ exists s, signed s /\ row = stored_grant s.

Record revoked_at_c (device : string) (c : Z) (l : Ledger) : Prop := {
  rc_seen : seen (l_rows l) (l_marks l) device c;
  rc_row row : l_rows l !! device = Some row -> later c row;
  rc_waiting p : p ∈ waiting l -> dev p = device -> c < ev p ->
    (forall row, p.2 = Some row -> later c row)
    /\ ((exists row, p.2 = Some row /\ c <= last_event_at row) \/ (exists x, l_marks l !! device = Some x /\ c <= x))
}.

Lemma lstep_revoked device c l l' :
  ledger_ok l -> revoked_at_c device c l -> lstep l l' -> revoked_at_c device c l'.
Proof.
  intros [Hr Hw Ho] [R1 R2 R3] Hs. destruct Hs as [l|row g m ps Hsg Hrv Hle Hn|g m ps x ps'|g m ps row prev ps' Hcur
    |device' row n c' g m ps Hsg Hle Hrow Hn|device' c' g m ps Hsg Hle Hrow Hn]; cbn in *.
  - by split.
  - assert (last_event_at (stored_grant row) = last_event_at row) as Hev by (by apply int_id).
    split; cbn.
    + apply seen_insert; [apply stored_stored|done|by rewrite Hev|done].
    + intros r [[<- <-]|[_ H]]%lookup_insert_Some; [|by apply R2]. intros _. rewrite Hev.
      split; [by apply (seen_unseen_lt g m (g_device row))|by exists row].
    + intros p [->|Hp]%elem_of_cons Hd Hc; [|by apply R3]. cbn in *. subst device. split; [exact R2|exact R1].
  - split; cbn; [done|done|]. intros p Hp. by apply R3, elem_drop.
  - destruct (Hw (row, prev)) as (H1 & H2 & H3 & H4); [rewrite elem_of_app, elem_of_cons; tauto|]. cbn in *.
    assert (forall p, p ∈ ps ++ ps' -> p ∈ ps ++ (row, prev) :: ps') as Hsub by (intros p; apply elem_drop).
    destruct (decide (g_device row = device)) as [<-|Hne].
    + destruct (R3 (row, prev)) as [Q1 Q2]; [rewrite elem_of_app, elem_of_cons; tauto|done|by apply (R2 row)|]. cbn in *.
      split; cbn.
      * destruct Q2 as [(old & -> & Hc)|Hm]; [|by right]. left. exists old. cbn.
        destruct (H4 old eq_refl) as [-> ->]. by rewrite lookup_insert_eq.
      * intros r [[_ Hp]|[? ?]]%put_row_lookup; [by apply Q1|done|done].
      * intros p Hp. by apply R3, Hsub.
    + split; cbn.
      * unfold seen, put_row. destruct prev as [old|]; [destruct (H4 old eq_refl) as [-> _]|].
        -- by rewrite lookup_insert_ne.
        -- by rewrite lookup_delete_ne.
      * intros r [[? _]|[_ Hg]]%put_row_lookup; [done|by apply R2|done].
      * intros p Hp. by apply R3, Hsub.
  - destruct (Hr device' row Hrow) as [Hd Hst]. rewrite Hd. split; cbn; [| |done].
    + apply seen_insert; [apply stored_stored|done| |done]. cbn. by rewrite int_id.
    + intros r [[<- <-]|[_ H]]%lookup_insert_Some; [done|by apply R2].
  - split; cbn; [by apply seen_mark|done|]. intros p Hp Hd Hc. destruct (R3 p Hp Hd Hc) as [Q1 Q2]. split; [done|].
    destruct Q2 as [?|(x & Hx & Hcx)]; [by left|right].
    destruct (mark_le g m device' c' device x Hn Hle Hx) as (z & Hz & Hxz). exists z. split; (done || lia).
Qed.

(** Where a revocation begins. *)
Lemma revoke_starts l l' device c : ledger_ok l -> ~ seen (l_rows l) (l_marks l) device c -> c <= I64_MAX ->
  waiting l' = waiting l ->
  (exists row n, l_rows l !! device = Some row /\ l_marks l' = l_marks l
     /\ l_rows l' = <[g_device row := stored_grant (revoked_row row n c)]> (l_rows l))
  \/ (l_rows l !! device = None /\ l_rows l' = l_rows l /\ l_marks l' = <[device := int c]> (l_marks l)) ->
  revoked_at_c device c l'.
Proof.
  intros [Hr Hw Ho] Hn Hc Hps Hcase.
  assert (forall p, p ∈ waiting l' -> dev p = device -> ~ c < ev p) as Hold.
  { intros p Hp <- Hlt. rewrite Hps in Hp. destruct (Hw p Hp) as (_ & _ & Hs & _).
    pose proof (seen_unseen_lt _ _ _ _ _ Hs Hn). lia. }
  destruct Hcase as [(row & n & Hrow & Em & Er)|(Hrow & Er & Em)].
  - destruct (Hr device row Hrow) as [Hd _]. rewrite Hd in Er. split.
    + left. exists (stored_grant (revoked_row row n c)). rewrite Er, lookup_insert_eq. split; [done|].
      cbn. rewrite int_id by done. lia.
    + rewrite Er. intros r. rewrite lookup_insert_eq. by intros [= <-].
    + intros p Hp Hd' Hlt. by destruct (Hold p Hp Hd').
  - split.
    + right. exists c. rewrite Em, lookup_insert_eq, int_id by done. split; (done || lia).
    + rewrite Er, Hrow. done.
    + intros p Hp Hd' Hlt. by destruct (Hold p Hp Hd').
Qed.

(** ** Only owners' grants *)

(** What is left of a signed row: as signed, or ended since. *)
Definition from_signed (row : GrantRow) : Prop :=
  exists s, signed s /\ (row = stored_grant s \/
    exists n c, revoked_at row = Some n /\ row = revoked_row (stored_grant s) n c).

Record all_signed (l : Ledger) : Prop := {
  as_row device row : l_rows l !! device = Some row -> from_signed row;
  as_waiting p row : p ∈ waiting l -> p.2 = Some row -> from_signed row
}.

Lemma from_signed_revoked row n c : from_signed row -> from_signed (stored_grant (revoked_row row n c)).
Proof.
  intros (s & Hs & Hrow). exists s. split; [done|]. right. exists (int n), (int c). split; [done|].
  assert (stored_grant (revoked_row row n c) = revoked_row (stored_grant row) (int n) (int c)) as -> by done.
  destruct Hrow as [->|(n0 & c0 & _ & ->)]; [by rewrite stored_stored|].
  destruct s as [d rv i b u ga le ra]. unfold revoked_row, stored_grant, int. cbn. f_equal; lia.
Qed.

Lemma lstep_signed l l' : ledger_ok l -> all_signed l -> lstep l l' -> all_signed l'.
Proof.
  intros [Hr Hw Ho] [A1 A2] Hs. destruct Hs as [l|row g m ps Hsg Hrv Hle Hn|g m ps x ps'|g m ps row prev ps' Hcur
    |device row n c g m ps Hsg Hle Hrow Hn|device c g m ps Hsg Hle Hrow Hn]; cbn in *; split; cbn; try done.
  - intros d r [[_ <-]|[_ H]]%lookup_insert_Some; [exists row; auto|by apply (A1 d)].
  - intros p r [->|Hp]%elem_of_cons Hp2; [by apply (A1 (g_device row))|by apply (A2 p)].
  - intros p r Hp. by apply A2, elem_drop.
  - destruct (Hw (row, prev)) as (_ & _ & _ & H4); [rewrite elem_of_app, elem_of_cons; tauto|].
    intros d r [[_ ->]|[_ H]]%put_row_lookup; [|by apply (A1 d)|done].
    apply (A2 (row, Some r)); [rewrite elem_of_app, elem_of_cons; tauto|done].
  - intros p r Hp. by apply A2, elem_drop.
  - intros d r [[_ <-]|[_ H]]%lookup_insert_Some; [by apply from_signed_revoked, (A1 device)|by apply (A1 d)].
Qed.

Lemma ledger_ok_init g m : (forall device row, g !! device = Some row -> row_ok device row) ->
  ledger_ok {| l_rows := g; l_marks := m; waiting := [] |}.
Proof. intros H. split; cbn; [done|intros p Hp; by apply elem_of_nil in Hp|constructor]. Qed.
End Ledger.

(** ** The service implements the ledger *)

Section Refinement.
Context `{Lib : EventLib, Out : GrantOutside, St : CoreStore}.
Variables (self : Config) (fuel : nat).

Definition signed_grant (row : GrantRow) : Prop :=
  exists body e a terms, verify body (owners self) (server_names self) (g_clock e).1 = Ok a
    /\ au_action a = Grant terms /\ row = row_of a terms.

Definition signed_revoke (device : string) (c : Z) : Prop :=
  exists body e a, verify body (owners self) (server_names self) (g_clock e).1 = Ok a
    /\ au_action a = Revoke device /\ au_created_at a = c.

(** The clock is in seconds and far from the end of 64 bits. *)
Definition ClockSane : Prop := forall e, 0 <= (g_clock e).1 /\ (g_clock e).1 + FUTURE_SKEW <= I64_MAX.

Hypotheses (reads : Reads) (clock : ClockSane).

Definition ledger_of (s : Sys) : Ledger :=
  {| l_rows := grants (snapshot (sw s)); l_marks := markers (snapshot (sw s));
     waiting := map (fun p => (p_row p, p_previous p)) (pend s) |}.

Lemma created_bound body e a :
  verify body (owners self) (server_names self) (g_clock e).1 = Ok a -> au_created_at a <= I64_MAX.
Proof.
  intros H. apply verify_bounds in H as [_ H]. specialize (clock e). unfold saturating_add in H. lia.
Qed.

Lemma rewritten_same ms d d' : rewritten ms d d' ->
  device_grants d' = device_grants d /\ revocation_markers d' = revocation_markers d.
Proof.
  revert d. induction ms as [|[k m] ms IH]; intros d; cbn; [by intros ->|].
  intros (d1 & H1 & [H2 H3]%IH). rewrite H2, H3. destruct m as [m|].
  - unfold write_member in H1. destruct (0 <? _); [|done]. by injection H1 as <-.
  - unfold delete_member in H1. by injection H1 as <-.
Qed.

Lemma write_grant_rows row d d' : write_grant row d = Some d' ->
  device_grants d' = <[g_device row := stored_grant row]> (device_grants d)
  /\ revocation_markers d' = revocation_markers d /\ core_members d' = core_members d.
Proof. unfold write_grant. destruct (0 <? _); [|done]. by intros [= <-]. Qed.

Lemma write_member_rows k m d d' : write_member k m d = Some d' ->
  device_grants d' = device_grants d /\ revocation_markers d' = revocation_markers d
  /\ core_members d' = <[k := {| m_issuer := m_issuer m; m_byte_limit := int (m_byte_limit m);
                                 since := match core_members d !! k with
                                          | Some old => since old | None => int (since m) end |}]> (core_members d).
Proof. unfold write_member. destruct (0 <? _); [|done]. by intros [= <-]. Qed.

(** A snapshot and waiting grants that did not change. *)
Lemma same_ledger w w' ps sg sg' : grants (snapshot w') = grants (snapshot w) ->
  markers (snapshot w') = markers (snapshot w) ->
  ledger_of {| sw := w'; pend := ps; sweeping := sg' |} = ledger_of {| sw := w; pend := ps; sweeping := sg |}.
Proof. unfold ledger_of. cbn. by intros -> ->. Qed.

Abbreviation refines := (lstep signed_grant signed_revoke).

Lemma refines_aside w w' ps sg sg' : aside w w' -> synced w ->
  synced w' /\ refines (ledger_of {| sw := w; pend := ps; sweeping := sg |})
                       (ledger_of {| sw := w'; pend := ps; sweeping := sg' |}).
Proof.
  intros Ha Hs. split; [by eapply aside_synced|]. destruct Ha as [_ E].
  rewrite (same_ledger w w' ps sg sg') by (by rewrite E). constructor.
Qed.

Lemma refines_commit body w w' ps sg p : synced w -> committed self body w p w' ->
  synced w' /\ refines (ledger_of {| sw := w; pend := ps; sweeping := sg |})
                       (ledger_of {| sw := w'; pend := p :: ps; sweeping := sg |}).
Proof.
  intros Hs [e n a terms group d w2 Hv Ha Hc Hd (d1 & d2 & H1 & H2 & H3) Hs']. split; [done|].
  apply write_grant_rows in H1 as (G1 & G2 & _). apply write_member_rows in H2 as (M1 & M2 & _).
  apply write_member_rows in H3 as (N1 & N2 & _). unfold synced in Hs, Hs'. unfold read_rows in Hd.
  injection Hd as D1 D2 D3. unfold ledger_of. cbn [sw pend map p_row p_previous]. rewrite Hs'.
  cbn [grants markers read_rows]. rewrite N1, N2, M1, M2, G1, G2, D1, D3, Hs. cbn [grants markers read_rows].
  unfold check_grant_conflicts in Hc. destruct (check_keys _ _ _ _ _); [|done]. destruct (check_rows _ _ _); [|done].
  destruct (not_newer _ _ _) eqn:En; [done|]. apply not_newer_unseen in En. rewrite Hs in En.
  apply (LGrant signed_grant signed_revoke (row_of a terms)); [|done|by eapply created_bound|exact En].
  exists body, e, a, terms. done.
Qed.

Lemma refines_drop w w' ps p ps' sg : aside w w' -> synced w ->
  synced w' /\ refines (ledger_of {| sw := w; pend := ps ++ p :: ps'; sweeping := sg |})
                       (ledger_of {| sw := w'; pend := ps ++ ps'; sweeping := sg |}).
Proof.
  intros Ha Hs. split; [by eapply aside_synced|]. destruct Ha as [_ E].
  unfold ledger_of. cbn [sw pend]. rewrite E, !map_app. cbn [map]. apply LDone.
Qed.

Lemma refines_undo w w' ps p ps' sg : synced w -> synced w' ->
  grants (snapshot w) !! g_device (p_row p) = Some (p_row p) -> reverted p (db w) (db w') ->
  refines (ledger_of {| sw := w; pend := ps ++ p :: ps'; sweeping := sg |})
          (ledger_of {| sw := w'; pend := ps ++ ps'; sweeping := sg |}).
Proof.
  intros Hs Hs' Hp (d1 & H1 & H2). apply rewritten_same in H2 as [E1 E2]. unfold synced in Hs, Hs'.
  unfold ledger_of. cbn [sw pend]. rewrite Hs', !map_app. cbn [map grants markers read_rows]. rewrite E1, E2.
  assert (device_grants d1 = put_row (g_device (p_row p)) (p_previous p) (grants (snapshot w))
          /\ revocation_markers d1 = markers (snapshot w)) as [-> ->].
  { rewrite Hs. destruct (p_previous p) as [old|]; cbn.
    - by apply write_grant_rows in H1 as (-> & -> & _).
    - unfold delete_grant in H1. by injection H1 as <-. }
  by apply LUndo.
Qed.

Lemma refines_revoke device headers w w' ps sg : synced w -> revocation self device headers w w' ->
  synced w' /\ refines (ledger_of {| sw := w; pend := ps; sweeping := sg |})
                       (ledger_of {| sw := w'; pend := ps; sweeping := sg |}).
Proof.
  intros Hs [e n header bytes a d w2 Hh Hb Hv Ha Hn Hd Hw Hs']. split; [done|].
  apply not_newer_unseen in Hn. unfold synced in Hs, Hs'. injection Hd as D1 D2 D3.
  unfold ledger_of. cbn [sw pend]. rewrite Hs'. cbn [grants markers read_rows].
  assert (signed_revoke device (au_created_at a)) as Hsg by (exists bytes, e, a; done).
  destruct (grants (snapshot w) !! device) as [row|] eqn:Eg.
  - apply write_grant_rows in Hw as (-> & -> & _). rewrite D1, D3.
    change (device_grants (db w)) with (grants (read_rows (db w))).
    change (revocation_markers (db w)) with (markers (read_rows (db w))). rewrite <- Hs.
    apply (LRevoke _ _ device row n (au_created_at a)); [done|by eapply created_bound|done|done].
  - unfold write_marker in Hw. injection Hw as <-. cbn. rewrite D1, D3.
    change (device_grants (db w)) with (grants (read_rows (db w))).
    change (revocation_markers (db w)) with (markers (read_rows (db w))). rewrite <- Hs.
    apply (LMark _ _ device (au_created_at a)); [done|by eapply created_bound|done|done].
Qed.

(** A rewrite of the members only. *)
Lemma refines_members w w' ps sg sg' d ms : synced w -> synced w' -> read_rows d = read_rows (db w) ->
  rewritten ms d (db w') ->
  synced w' /\ refines (ledger_of {| sw := w; pend := ps; sweeping := sg |})
                       (ledger_of {| sw := w'; pend := ps; sweeping := sg' |}).
Proof.
  intros Hs Hs' Hd [E1 E2]%rewritten_same. split; [done|]. unfold synced in *. injection Hd as D1 D2 D3.
  rewrite (same_ledger w w' ps sg sg'); [constructor| |]; rewrite Hs, Hs'; cbn; congruence.
Qed.

(** Sweeps and startup change members only. *)
Definition members_only (w w' : World) : Prop := synced w ->
  synced w' /\ grants (snapshot w') = grants (snapshot w) /\ markers (snapshot w') = markers (snapshot w).

#[local] Instance members_only_refl : Reflexive members_only.
Proof. done. Qed.
#[local] Instance members_only_trans : Transitive members_only.
Proof.
  intros w1 w2 w3 H1 H2 Hs. destruct (H1 Hs) as (S2 & G2 & M2). destruct (H2 S2) as (S3 & G3 & M3).
  split_and!; [done|congruence|congruence].
Qed.

Lemma aside_members_only w w' : aside w w' -> members_only w w'.
Proof. intros [H1 H2] Hs. split; [exact (aside_synced w w' (conj H1 H2) Hs)|]. by rewrite H2. Qed.

Lemma rewritten_members_only ms d w w' : synced w' -> read_rows d = read_rows (db w) -> rewritten ms d (db w') ->
  members_only w w'.
Proof.
  intros Hs' Hd [E1 E2]%rewritten_same Hs. unfold synced in *. injection Hd as D1 D2 D3.
  split; [done|]. rewrite Hs, Hs'. cbn. split; congruence.
Qed.

Lemma members_only_locked : respects members_only (sweep_locked self fuel).
Proof.
  intros w. pose proof (wp_sweep_locked self fuel reads w) as H. unfold wp in H.
  destruct (sweep_locked self fuel w) as [[[removed|]|e] w']; cbn [fst snd] in *; [|by apply aside_members_only..].
  destruct H as (n & _ & Hs & d & Hd & Hw). exact (rewritten_members_only _ d w w' Hs Hd Hw).
Qed.

Lemma members_only_finish removed : respects members_only (finish_sweep self removed).
Proof.
  intros w. destruct removed as [removed|]; [|done].
  pose proof (wp_finish_sweep self reads removed w) as H. unfold wp in H.
  destruct H as [H|(Hs & back & _ & Hw)]; [by apply aside_members_only|].
  by apply (rewritten_members_only (puts back) (db w)).
Qed.

Lemma members_only_startup : respects members_only (startup self fuel).
Proof.
  unfold startup. destruct (attached self); cbn [negb]; [|apply respects_ret; exact _].
  apply respects_bind; [exact _|intros w; done|intros r].
  apply respects_bind; [exact _| |intros _].
  { intros w. apply aside_members_only. exact (lat_adopt_members aside fuel (map_to_list (members r)) w). }
  apply respects_bind; [exact _|apply members_only_locked|intros removed; apply members_only_finish].
Qed.

Lemma refines_only w w' ps sg sg' : members_only w w' -> synced w ->
  synced w' /\ refines (ledger_of {| sw := w; pend := ps; sweeping := sg |})
                       (ledger_of {| sw := w'; pend := ps; sweeping := sg' |}).
Proof.
  intros H Hs. destruct (H Hs) as (S2 & G & M). split; [done|]. rewrite (same_ledger w w' ps sg sg') by done. constructor.
Qed.

Lemma aside_prune : respects aside prune_events.
Proof.
  unfold prune_events. apply respects_bind; [exact _|apply (lat_now aside)|intros n w]. cbn [snd].
  assert (respects aside (prune n OWNER_WRITE_WINDOW)) as H; [|exact (H w)]. unfold prune. respects.
  all: apply (lat_statement aside); by intros ? ? [= <-].
Qed.

Lemma step_refines_ledger s s' : synced (sw s) -> step self fuel s s' ->
  synced (sw s') /\ refines (ledger_of s) (ledger_of s').
Proof.
  intros Hs Hstep. destruct Hstep as [body w w' ps sg r E|w w' ps p ps' sg r E|device headers w w' ps sg r E
    |w w' ps r E|w w' ps removed r E|w w' ps r E|w w' ps sg r E|method path auth w w' ps sg r E|w v ps sg]; cbn [sw] in *.
  - pose proof (wp_commit_grant self reads body w) as H. unfold wp in H. rewrite E in H.
    destruct r as [p|e]; [exact (refines_commit body w w' ps sg p Hs H)|exact (refines_aside w w' ps sg sg H Hs)].
  - pose proof (wp_finish_grant self reads p w) as H. unfold wp in H. rewrite E in H.
    destruct H as [H|(H1 & H2 & H3)]; [by apply refines_drop|]. split; [done|]. by apply refines_undo.
  - pose proof (wp_apply_revoke self reads device headers w) as H. unfold wp in H. rewrite E in H.
    destruct r as [st|e]; [exact (refines_revoke device headers w w' ps sg Hs H)|exact (refines_aside w w' ps sg sg H Hs)].
  - apply refines_only; [|done]. pose proof (members_only_locked w) as H. by rewrite E in H.
  - apply refines_only; [|done]. pose proof (members_only_finish (Some removed) w) as H. by rewrite E in H.
  - apply refines_only; [|done]. pose proof (members_only_startup w) as H. by rewrite E in H.
  - apply refines_aside; [|done]. pose proof (aside_prune w) as H. by rewrite E in H.
  - apply refines_aside; [|done]. pose proof (lat_gate aside self method path auth w) as H. by rewrite E in H.
  - by apply refines_aside.
Qed.

(** ** Runs *)

Definition sys_ok (s : Sys) : Prop := synced (sw s) /\ ledger_ok (ledger_of s).

Lemma step_sys_ok s s' : sys_ok s -> step self fuel s s' -> sys_ok s'.
Proof.
  intros [Hs Hl] Hstep. destruct (step_refines_ledger s s' Hs Hstep) as [Hs' Hr]. split; [done|].
  by eapply lstep_ok.
Qed.

Lemma steps_sys_ok s s' : sys_ok s -> steps self fuel s s' -> sys_ok s'.
Proof. intros Hs Hsteps. induction Hsteps; [done|]. eauto using step_sys_ok. Qed.

(** An invariant of the ledger is one of the service. *)
Lemma steps_ledger (P : Ledger -> Prop) s s' :
  (forall l l', ledger_ok l -> P l -> refines l l' -> P l') ->
  sys_ok s -> steps self fuel s s' -> P (ledger_of s) -> P (ledger_of s').
Proof.
  intros HP Hok Hsteps. induction Hsteps as [|s s1 s2 H1 H2 IH]; [done|]. intros Hs.
  apply IH; [by eapply step_sys_ok|].
  destruct Hok as [Hsy Hl]. destruct (step_refines_ledger s s1 Hsy H1) as [_ Hr]. by eapply HP.
Qed.

Lemma revocation_starts device headers w w' ps sg st :
  sys_ok {| sw := w; pend := ps; sweeping := sg |} ->
  apply_revoke self device headers w = (Ok st, w') ->
  exists header bytes e a, headers = [Some header] /\ decode_header header = Some bytes
    /\ verify bytes (owners self) (server_names self) (g_clock e).1 = Ok a /\ au_action a = Revoke device
    /\ revoked_at_c signed_grant device (au_created_at a) (ledger_of {| sw := w'; pend := ps; sweeping := sg |}).
Proof.
  intros [Hs Hl] E. pose proof (wp_apply_revoke self reads device headers w) as H. unfold wp in H. rewrite E in H.
  cbn in H, Hs. destruct H as [e n header bytes a d w2 Hh Hb Hv Ha Hn Hd Hw Hs'].
  exists header, bytes, e, a. split_and!; [done|done|done|done|]. apply not_newer_unseen in Hn.
  apply (revoke_starts signed_grant (ledger_of {| sw := w; pend := ps; sweeping := sg |})); [done|done|by eapply created_bound|done|].
  unfold synced in Hs, Hs'. injection Hd as D1 D2 D3. unfold ledger_of. cbn [sw pend l_rows l_marks]. rewrite Hs'. cbn.
  destruct (grants (snapshot w) !! device) as [row|] eqn:Eg.
  - left. exists row, n. apply write_grant_rows in Hw as (-> & -> & _). rewrite D1, D3, Hs. done.
  - right. unfold write_marker in Hw. injection Hw as <-. cbn. rewrite D1, D3, Hs. done.
Qed.
End Refinement.
