(* ===== verification/GrantInvariant.v ===== *)
(** * Device grants: the roles of keys

    [roles_ok]: a key is a device or a recovery identity and never both, a
    recovery identity has one owner, no delegated key is an owner's, a friend's
    or a service's, and the core's members carry the issuer of the rows that
    name them.  Requests that run one after the other keep it. *)
From S2P Require Import Prelude GrantEvent GrantEventProofs GrantDb GrantWorld GrantClaims GrantClaimsProofs GrantService GrantProofs GrantSteps GrantLedger.

Section Invariant.
Context `{Lib : EventLib, Out : GrantOutside, St : CoreStore}.
Local Open Scope wb_scope.
Variables (self : Config) (fuel : nat).

(** A key with a role of its own in the configuration. *)
Definition taken (key : string) : Prop := key ∈ owners self \/ key ∈ cli_keys self \/ key ∈ reserved self.

Definition issuers (m : gmap string Member) : gmap string string := m_issuer <$> m.

Record roles_ok (g : gmap string GrantRow) (i : gmap string string) : Prop := {
  ro_row k row : g !! k = Some row -> row_ok k row;
  ro_roles k1 r1 k2 r2 : g !! k1 = Some r1 -> g !! k2 = Some r2 -> g_recovery r1 <> g_device r2;
  ro_owner k1 r1 k2 r2 : g !! k1 = Some r1 -> g !! k2 = Some r2 -> g_recovery r1 = g_recovery r2 ->
    g_issuer r1 = g_issuer r2;
  ro_free k row key : g !! k = Some row -> names key row = true -> ~ taken key;
  ro_member_free key issuer : i !! key = Some issuer -> ~ taken key;
  ro_member k row key issuer : g !! k = Some row -> names key row = true -> i !! key = Some issuer ->
    issuer = g_issuer row
}.

Definition rows_ok (r : Rows) : Prop := roles_ok (grants r) (issuers (members r)).

(** Fewer members keep the roles. *)
Lemma roles_ok_anti g i i' : i' ⊆ i -> roles_ok g i -> roles_ok g i'.
Proof.
  intros Hsub [H1 H2 H3 H4 H5 H6]. split; [done|done|done|done| |].
  - intros key issuer Hk. eapply H5, lookup_weaken; eauto.
  - intros k row key issuer Hg Hn Hk. eapply H6; [done|done|]. by eapply lookup_weaken.
Qed.

Lemma names_iff key row : names key row = true <-> g_device row = key \/ g_recovery row = key.
Proof. unfold names. by rewrite orb_true_iff, !bool_decide_eq_true. Qed.

(** ** What the checks establish *)

Lemma check_keys_ok r group owner keys : check_keys self r group owner keys = Ok tt ->
  forall key, key ∈ keys -> ~ taken key /\ (forall m, members r !! key = Some m -> m_issuer m = owner).
Proof.
  induction keys as [|k keys IH]; intros H key Hin; [by apply elem_of_nil in Hin|]. cbn in H.
  destruct (_ || _ || _) eqn:E1; [done|]. destruct (bool_decide (k ∈ group)); [done|].
  match type of H with (if ?b then _ else _) = _ => destruct b eqn:E2 end; [done|].
  apply elem_of_cons in Hin as [->|Hin]; [|by apply IH]. split.
  - apply orb_false_iff in E1 as [E1 E3]. apply orb_false_iff in E1 as [E0 E1].
    apply bool_decide_eq_false in E0, E1, E3. unfold taken. tauto.
  - intros m Hm. rewrite Hm in E2. by apply negb_false_iff, bool_decide_eq_true in E2.
Qed.

Lemma check_rows_ok owner terms rows : check_rows owner terms rows = Ok tt ->
  forall row, row ∈ rows -> g_device row <> gt_device terms ->
  g_recovery row <> gt_device terms /\ g_device row <> gt_recovery terms
  /\ (g_recovery row = gt_recovery terms -> g_issuer row = owner).
Proof.
  induction rows as [|x rows IH]; intros H row Hin Hd; [by apply elem_of_nil in Hin|]. cbn in H.
  apply elem_of_cons in Hin as [->|Hin].
  - rewrite bool_decide_eq_false_2 in H by done. destruct (_ || _) eqn:E1; [done|].
    apply orb_false_iff in E1 as [E1 E2]. apply bool_decide_eq_false in E1, E2. split_and!; [done|done|].
    intros E. rewrite bool_decide_eq_true_2 in H by done. cbn in H.
    destruct (bool_decide_reflect (g_issuer x = owner)); done.
  - destruct (bool_decide (g_device x = gt_device terms)); [by apply IH|].
    destruct (_ || _); [done|]. destruct (_ && _); [done|]. by apply IH.
Qed.

Lemma elem_of_values r k row : grants r !! k = Some row -> row ∈ values r.
Proof.
  intros H. unfold values. apply list_elem_of_fmap. exists (k, row). split; [done|].
  by apply elem_of_map_to_list.
Qed.

Lemma values_lookup r row : row ∈ values r -> exists k, grants r !! k = Some row.
Proof.
  unfold values. intros ([k row'] & -> & H)%list_elem_of_fmap. exists k. by apply elem_of_map_to_list.
Qed.

(** The new row and members after a checked grant. *)
Lemma roles_grant r group a terms i' :
  rows_ok r -> check_grant_conflicts self r group a terms = Ok tt -> gt_recovery terms <> gt_device terms ->
  (forall key, i' !! key = if decide (key = gt_device terms \/ key = gt_recovery terms)
                           then Some (au_owner a) else issuers (members r) !! key) ->
  roles_ok (<[gt_device terms := stored_grant (row_of a terms)]> (grants r)) i'.
Proof.
  intros [H1 H2 H3 H4 H5 H6] Hc Hne Hi. unfold check_grant_conflicts in Hc.
  destruct (check_keys _ _ _ _ _) as [[]|] eqn:Ek; [|done]. pose proof (check_keys_ok _ _ _ _ Ek) as Hk.
  destruct (check_rows _ _ _) as [[]|] eqn:Er; [|done]. pose proof (check_rows_ok _ _ _ Er) as Hr. clear Ek Er Hc.
  destruct (Hk (gt_device terms)) as [Fd Md]; [by left|].
  destruct (Hk (gt_recovery terms)) as [Fr Mr]; [by right; left|].
  assert (forall k row, k <> gt_device terms -> grants r !! k = Some row -> g_device row = k /\
    g_recovery row <> gt_device terms /\ g_device row <> gt_recovery terms /\
    (g_recovery row = gt_recovery terms -> g_issuer row = au_owner a)) as Hold.
  { intros k row Hkd Hg. destruct (H1 k row Hg) as [Hd _]. split; [done|]. apply Hr; [by eapply elem_of_values|congruence]. }
  split.
  - intros k row [[<- <-]|[_ Hg]]%lookup_insert_Some; [split; [done|apply stored_stored]|by apply H1].
  - intros k1 r1 k2 r2 [[<- <-]|[N1 G1]]%lookup_insert_Some [[<- <-]|[N2 G2]]%lookup_insert_Some; cbn.
    + done.
    + destruct (Hold k2 r2) as (_ & _ & Hx & _); [done|done|]. congruence.
    + destruct (Hold k1 r1) as (_ & Hx & _ & _); done.
    + by apply (H2 k1 r1 k2 r2).
  - intros k1 r1 k2 r2 [[<- <-]|[N1 G1]]%lookup_insert_Some [[<- <-]|[N2 G2]]%lookup_insert_Some; cbn.
    + done.
    + intros E. destruct (Hold k2 r2) as (_ & _ & _ & Hx); [done|done|]. symmetry. by apply Hx.
    + intros E. destruct (Hold k1 r1) as (_ & _ & _ & Hx); [done|done|]. by apply Hx.
    + by apply (H3 k1 r1 k2 r2).
  - intros k row key [[<- <-]|[_ Hg]]%lookup_insert_Some Hn; [|by apply (H4 k row)].
    apply names_iff in Hn as [<- | <-]; done.
  - intros key issuer Hkey. rewrite Hi in Hkey. case_decide as Hcase; [|by apply (H5 key issuer)].
    destruct Hcase as [-> | ->]; done.
  - intros k row key issuer Hg Hn Hkey. rewrite Hi in Hkey.
    apply lookup_insert_Some in Hg as [[<- <-]|[Nk Hg]].
    + apply names_iff in Hn. cbn in Hn. rewrite decide_True in Hkey by (destruct Hn; auto).
      by injection Hkey as <-.
    + case_decide as Hcase; [|by apply (H6 k row key)]. injection Hkey as <-. symmetry.
      destruct (Hold k row) as (Hd & Hx & Hy & Hz); [done|done|].
      apply names_iff in Hn. destruct Hcase as [-> | ->], Hn as [E|E]; try congruence. by apply Hz.
Qed.

(** ** Requests one after the other *)

Hypothesis reads : Reads.

Inductive serial : World -> World -> Prop :=
| SerialGrant body w w' r : apply_grant self body w = (r, w') -> serial w w'
| SerialRevoke device headers w w' r : apply_revoke self device headers w = (r, w') -> serial w w'
| SerialSweep w w' r : sweep_ended self fuel w = (r, w') -> serial w w'
| SerialStartup w w' r : startup self fuel w = (r, w') -> serial w w'
| SerialPrune w w' r : prune_events w = (r, w') -> serial w w'
| SerialGate method path auth w w' r : gate self method path auth w = (r, w') -> serial w w'
| SerialOutside w v : serial w (with_env v w).

Definition world_ok (w : World) : Prop := synced w /\ rows_ok (snapshot w).

Lemma aside_world_ok w w' : aside w w' -> world_ok w -> world_ok w'.
Proof. intros Ha [Hs Hr]. split; [by eapply aside_synced|]. destruct Ha as [_ E]. by rewrite E. Qed.

(** Members rewritten with the issuers they had. *)
Lemma rewritten_issuers ms d d' (i : gmap string string) :
  (forall k m, (k, Some m) ∈ ms -> i !! k = Some (m_issuer m)) ->
  issuers (core_members d) ⊆ i -> rewritten ms d d' -> issuers (core_members d') ⊆ i.
Proof.
  revert d. induction ms as [|[k m] ms IH]; intros d Hm Hd; cbn; [by intros ->|].
  intros (d1 & H1 & H2). refine (IH d1 _ _ H2); [intros k' m' H; apply Hm; by right|]. clear IH H2.
  destruct m as [m|].
  - apply write_member_rows in H1 as (_ & _ & ->). unfold issuers. rewrite fmap_insert. cbn.
    apply insert_subseteq_l; [|done]. apply Hm. by left.
  - unfold delete_member in H1. injection H1 as <-. cbn. unfold issuers. rewrite fmap_delete.
    etrans; [apply delete_subseteq|done].
Qed.

Lemma ended_member r n key m : (key, m) ∈ ended_members self r n -> members r !! key = Some m.
Proof.
  unfold ended_members. rewrite list_elem_of_In, filter_In, <- list_elem_of_In. intros [H _].
  by apply elem_of_map_to_list.
Qed.

Lemma adjusted_member r n key m : (key, m) ∈ adjusted_members self r n ->
  exists old limit, members r !! key = Some old /\ active_limit r key (owners self) n = Some limit
    /\ m = {| m_issuer := m_issuer old; m_byte_limit := limit; since := since old |}.
Proof.
  unfold adjusted_members. rewrite list_elem_of_omap. intros ([k old] & Hin & H).
  apply elem_of_map_to_list in Hin. destruct (active_limit r k (owners self) n) as [limit|] eqn:E; [|done].
  destruct (limit =? m_byte_limit old); [done|]. injection H as <- <-. eauto.
Qed.

Lemma issuers_lookup (m : gmap string Member) k x : m !! k = Some x -> issuers m !! k = Some (m_issuer x).
Proof. intros H. unfold issuers. by rewrite lookup_fmap, H. Qed.

(** What is left of the members' issuers after a sweep. *)
Definition members_of (i : gmap string string) (g : gmap string GrantRow) (w : World) : Prop :=
  synced w /\ grants (snapshot w) = g /\ issuers (members (snapshot w)) ⊆ i.

Lemma swept_issuers n removed w w' : synced w -> swept_rows self n removed w w' ->
  members_of (issuers (members (snapshot w))) (grants (snapshot w)) w'
  /\ (forall k m, (k, m) ∈ removed -> issuers (members (snapshot w)) !! k = Some (m_issuer m)).
Proof.
  intros Hs (Hsub & Hs' & d & Hd & Hw). unfold synced in *. injection Hd as D1 D2 D3.
  assert (forall k m, (k, m) ∈ removed -> members (snapshot w) !! k = Some m) as Hrem.
  { intros k m Hin. by apply (ended_member (snapshot w) n), Hsub. }
  split; [|intros k m Hin; by apply issuers_lookup, Hrem].
  destruct (rewritten_same _ _ _ Hw) as [E1 E2]. split; [done|]. rewrite Hs'. cbn. split; [rewrite Hs; cbn; congruence|].
  eapply rewritten_issuers; [| |exact Hw].
  - intros k m Hin. unfold drops, puts in Hin. apply elem_of_app in Hin as [Hin|Hin].
    + apply list_elem_of_fmap in Hin as ([? ?] & [=] & _).
    + apply list_elem_of_fmap in Hin as ([k' m'] & [= -> ->] & Hin).
      apply adjusted_member in Hin as (old & limit & Hold & _ & ->). cbn. by apply issuers_lookup.
  - rewrite D2, Hs. done.
Qed.

Lemma finish_issuers i g removed w : members_of i g w ->
  (forall k m, (k, m) ∈ removed -> i !! k = Some (m_issuer m)) ->
  wp (finish_sweep self (Some removed)) (fun _ w' => members_of i g w') w.
Proof.
  intros (Hs & Hg & Hi) Hrem. eapply wp_impl; [by apply wp_finish_sweep|]. cbn beta.
  intros r w' [Ha|(Hs' & back & Hback & Hw)].
  - split; [by eapply aside_synced|]. destruct Ha as [_ E]. by rewrite E.
  - destruct (rewritten_same _ _ _ Hw) as [E1 E2]. unfold synced in *. split; [done|]. rewrite Hs'. cbn.
    rewrite Hs in Hg, Hi. cbn in Hg, Hi. split; [congruence|].
    eapply rewritten_issuers; [|exact Hi|exact Hw]. intros k m Hin. unfold puts in Hin.
    apply list_elem_of_fmap in Hin as ([k' m'] & [= -> ->] & Hin). apply Hback in Hin.
    apply list_elem_of_filter in Hin as [_ Hin]. by apply Hrem.
Qed.

Lemma members_of_ok g i w : roles_ok g i -> members_of i g w -> world_ok w.
Proof. intros Hr (Hs & Hg & Hi). split; [done|]. unfold rows_ok. rewrite Hg. by eapply roles_ok_anti. Qed.

Lemma world_ok_sweep w : world_ok w -> wp (sweep_ended self fuel) (fun _ w' => world_ok w') w.
Proof.
  intros Hok. pose proof Hok as [Hs Hr]. unfold sweep_ended. apply wp_bind.
  eapply wp_impl; [by apply wp_sweep_locked|]. cbn beta. intros [[removed|]|e] w1 H.
  - destruct H as [n H]. apply swept_issuers in H as [Hm Hrem]; [|done].
    eapply wp_impl; [exact (finish_issuers _ _ removed w1 Hm Hrem)|]. cbn beta. intros _ w2.
    by apply members_of_ok.
  - exact (aside_world_ok w w1 H Hok).
  - exact (aside_world_ok w w1 H Hok).
Qed.

Lemma world_ok_startup w : world_ok w -> wp (startup self fuel) (fun _ w' => world_ok w') w.
Proof.
  intros Hok. unfold startup. destruct (attached self) eqn:Ea; cbn [negb]; [|exact Hok].
  apply wp_bind, wp_bind, wp_get. unfold ret at 1, wp at 1. cbn [fst snd]. apply wp_bind.
  eapply (wp_respects aside); [apply lat_adopt_members; exact _|]. intros [[]|e] w1 Ha;
    pose proof (aside_world_ok w w1 Ha Hok) as Hok1; [|exact Hok1]. exact (world_ok_sweep w1 Hok1).
Qed.

(** The same row ended keeps its keys. *)
Lemma roles_revoke g i device row n c : g !! device = Some row -> roles_ok g i ->
  roles_ok (<[g_device row := stored_grant (revoked_row row n c)]> g) i.
Proof.
  intros Hg [H1 H2 H3 H4 H5 H6]. destruct (H1 device row Hg) as [Hd Hst]. rewrite Hd.
  assert (forall k r, <[device := stored_grant (revoked_row row n c)]> g !! k = Some r ->
    exists r0, g !! k = Some r0 /\ g_device r = g_device r0 /\ g_recovery r = g_recovery r0
      /\ g_issuer r = g_issuer r0) as Hold.
  { intros k r [[<- <-]|[_ Hk]]%lookup_insert_Some; [by exists row|by exists r]. }
  assert (forall key r r0, g_device r = g_device r0 -> g_recovery r = g_recovery r0 ->
    names key r = true -> names key r0 = true) as Hnames.
  { intros key r r0 E1 E2. unfold names. by rewrite E1, E2. }
  split; [| | | |exact H5|].
  - intros k r [[<- <-]|[_ Hk]]%lookup_insert_Some; [|by apply H1]. split; [done|apply stored_stored].
  - intros k1 r1 k2 r2 (x & X1 & X2 & X3 & X4)%Hold (y & Y1 & Y2 & Y3 & Y4)%Hold. rewrite X3, Y2.
    by apply (H2 k1 x k2 y).
  - intros k1 r1 k2 r2 (x & X1 & X2 & X3 & X4)%Hold (y & Y1 & Y2 & Y3 & Y4)%Hold. rewrite X3, X4, Y3, Y4.
    by apply (H3 k1 x k2 y).
  - intros k r key (x & X1 & X2 & X3 & X4)%Hold Hn. apply (H4 k x); [done|by apply (Hnames key r)].
  - intros k r key issuer (x & X1 & X2 & X3 & X4)%Hold Hn. rewrite X4. apply (H6 k x); [done|by apply (Hnames key r)].
Qed.

Lemma world_ok_revoke device headers w : world_ok w ->
  wp (apply_revoke self device headers) (fun _ w' => world_ok w') w.
Proof.
  intros Hok. eapply wp_impl; [by apply wp_apply_revoke|]. cbn beta. intros [st|e] w' H;
    [|exact (aside_world_ok w w' H Hok)].
  destruct Hok as [Hs Hr]. destruct H as [e n header bytes a d w2 Hh Hb Hv Ha Hn Hd Hw Hs']. split; [done|].
  unfold synced in *. unfold rows_ok in *. rewrite Hs'. injection Hd as D1 D2 D3. cbn.
  destruct (grants (snapshot w) !! device) as [row|] eqn:Eg.
  - apply write_grant_rows in Hw as (-> & _ & ->). rewrite D1, D2.
    change (device_grants (db w)) with (grants (read_rows (db w))).
    change (core_members (db w)) with (members (read_rows (db w))). rewrite <- Hs. exact (roles_revoke _ _ device row n _ Eg Hr).
  - unfold write_marker in Hw. injection Hw as <-. cbn. rewrite D1, D2. by rewrite Hs in Hr.
Qed.

(** The issuers after the two members of a grant are written. *)
Lemma granted_issuers row m1 m2 d d' : granted row m1 m2 d d' -> m_issuer m1 = m_issuer m2 ->
  device_grants d' = <[g_device row := stored_grant row]> (device_grants d)
  /\ forall key, issuers (core_members d') !! key =
       if decide (key = g_device row \/ key = g_recovery row) then Some (m_issuer m1)
       else issuers (core_members d) !! key.
Proof.
  intros (d1 & d2 & H1 & H2 & H3) Hi. apply write_grant_rows in H1 as (G1 & _ & G3).
  apply write_member_rows in H2 as (M1 & _ & M3). apply write_member_rows in H3 as (N1 & _ & N3).
  split; [by rewrite N1, M1, G1|]. intros key. rewrite N3, M3, G3. unfold issuers. rewrite !fmap_insert. cbn.
  destruct (decide (key = g_recovery row)) as [->|Hr].
  - rewrite lookup_insert_eq. rewrite decide_True by auto. congruence.
  - rewrite lookup_insert_ne by done. destruct (decide (key = g_device row)) as [->|Hd].
    + rewrite lookup_insert_eq. by rewrite decide_True by auto.
    + rewrite lookup_insert_ne by done. rewrite decide_False by tauto. done.
Qed.

(** Putting the previous grant back restores rows and issuers. *)
Lemma reverted_tables p d0 d d' :
  (forall k row, device_grants d0 !! k = Some row -> row_ok k row) ->
  g_device (p_row p) <> g_recovery (p_row p) ->
  p_previous p = device_grants d0 !! g_device (p_row p) ->
  p_members p = [(g_device (p_row p), core_members d0 !! g_device (p_row p));
                 (g_recovery (p_row p), core_members d0 !! g_recovery (p_row p))] ->
  device_grants d = <[g_device (p_row p) := stored_grant (p_row p)]> (device_grants d0) ->
  (forall key, key <> g_device (p_row p) -> key <> g_recovery (p_row p) ->
     issuers (core_members d) !! key = issuers (core_members d0) !! key) ->
  reverted p d d' ->
  device_grants d' = device_grants d0 /\ issuers (core_members d') = issuers (core_members d0).
Proof.
  intros Hok Hne Hp Hm Hg Hi (d1 & H1 & H2).
  destruct (rewritten_same _ _ _ H2) as [E1 _]. split.
  - rewrite E1. rewrite Hp in H1. destruct (device_grants d0 !! g_device (p_row p)) as [old|] eqn:Eo.
    + destruct (Hok _ _ Eo) as [Hd Hst]. apply write_grant_rows in H1 as (-> & _).
      rewrite Hg, Hd, insert_insert_eq, Hst. by apply insert_id.
    + unfold delete_grant in H1. injection H1 as <-. cbn. rewrite Hg, delete_insert_eq. by apply delete_id.
  - assert (core_members d1 = core_members d) as Ec.
    { destruct (p_previous p).
      - by apply write_grant_rows in H1 as (_ & _ & ->).
      - unfold delete_grant in H1. by injection H1 as <-. }
    rewrite Hm in H2. destruct H2 as (d2 & X1 & d3 & X2 & ->). unfold issuers in *.
    assert (forall k m da db_, match m with Some m => write_member k m | None => delete_member k end da = Some db_ ->
      forall key, (m_issuer <$> core_members db_) !! key =
        if decide (key = k) then m_issuer <$> m else (m_issuer <$> core_members da) !! key) as Hone.
    { intros k m da db_ H key. destruct m as [m|].
      - apply write_member_rows in H as (_ & _ & ->). rewrite fmap_insert. cbn. case_decide as E.
        + subst. by rewrite lookup_insert_eq.
        + by rewrite lookup_insert_ne.
      - unfold delete_member in H. injection H as <-. cbn. rewrite fmap_delete. case_decide as E.
        + subst. by rewrite lookup_delete_eq.
        + by rewrite lookup_delete_ne. }
    apply map_eq. intros key. rewrite (Hone _ _ _ _ X2). case_decide as Er.
    { subst. by rewrite lookup_fmap. }
    rewrite (Hone _ _ _ _ X1). case_decide as Ed.
    { subst. by rewrite lookup_fmap. }
    rewrite Ec. by apply Hi.
Qed.

Lemma granted_keys body e a terms : verify body (owners self) (server_names self) (g_clock e).1 = Ok a ->
  au_action a = Grant terms -> gt_recovery terms <> gt_device terms.
Proof.
  intros Hv Ha. apply verify_iff_valid in Hv.
  destruct Hv as [raw event server expiration l c a _ _ _ _ _ _ Hact]. rewrite Ha in Hact. by inversion Hact.
Qed.

Lemma world_ok_grant body w : world_ok w -> wp (apply_grant self body) (fun _ w' => world_ok w') w.
Proof.
  intros Hok. pose proof Hok as [Hs Hr]. rewrite apply_grant_halves. apply wp_bind.
  eapply wp_impl; [by apply wp_commit_grant|]. cbn beta. intros [p|e] w1 H; [|exact (aside_world_ok w w1 H Hok)].
  destruct H as [e n a terms group d w1 Hv Ha Hc Hd Hw Hs1].
  pose proof (granted_keys body e a terms Hv Ha) as Hne.
  apply granted_issuers in Hw as [Hg Hi]; [|done]. cbn [g_device g_recovery row_of m_issuer] in Hg, Hi.
  unfold synced, rows_ok in *. injection Hd as D1 D2 D3. rewrite D1 in Hg.
  assert (world_ok w1) as Hok1.
  { split; [done|]. unfold rows_ok. rewrite Hs1. cbn. rewrite Hg.
    change (device_grants (db w)) with (grants (read_rows (db w))). rewrite <- Hs.
    eapply roles_grant; [exact Hr|exact Hc|done|]. intros key. rewrite Hi, D2, Hs. done. }
  eapply wp_impl; [by apply wp_finish_grant|]. cbn beta. intros r w2 [Ha2|(Hcur & Hrev & Hs2)].
  - exact (aside_world_ok w1 w2 Ha2 Hok1).
  - split; [done|]. unfold synced, rows_ok in *. rewrite Hs2.
    change (roles_ok (device_grants (db w2)) (issuers (core_members (db w2)))).
    apply (reverted_tables _ (db w)) in Hrev as [-> ->]; [by rewrite Hs in Hr| | | | |exact Hg|].
    + rewrite Hs in Hr. apply Hr.
    + cbn. congruence.
    + cbn. by rewrite Hs.
    + cbn. by rewrite Hs.
    + cbn. intros key H1 H2. rewrite Hi, D2. by rewrite decide_False by tauto.
Qed.

Lemma serial_world_ok w w' : world_ok w -> serial w w' -> world_ok w'.
Proof.
  intros Hok Hstep.
  destruct Hstep as [body w0 w1 r E|device headers w0 w1 r E|w0 w1 r E|w0 w1 r E|w0 w1 r E|method path auth w0 w1 r E|w0 v].
  - pose proof (world_ok_grant body w0 Hok) as H. unfold wp in H. by rewrite E in H.
  - pose proof (world_ok_revoke device headers w0 Hok) as H. unfold wp in H. by rewrite E in H.
  - pose proof (world_ok_sweep w0 Hok) as H. unfold wp in H. by rewrite E in H.
  - pose proof (world_ok_startup w0 Hok) as H. unfold wp in H. by rewrite E in H.
  - apply (aside_world_ok w0); [|done]. pose proof (aside_prune w0) as H. by rewrite E in H.
  - apply (aside_world_ok w0); [|done]. pose proof (lat_gate aside self method path auth w0) as H. by rewrite E in H.
  - by apply (aside_world_ok w0).
Qed.

Lemma serials_world_ok w w' : world_ok w -> rtc serial w w' -> world_ok w'.
Proof. intros Hok H. induction H; [done|]. eauto using serial_world_ok. Qed.
End Invariant.
