(* ===== verification/GrantGate.v ===== *)
(** * Device grants: what the gate and the issuing routes let through

    A device whose grant ended is refused before the core sees the request; the
    issuing routes accept at most [limit] requests of a device in any hour; and
    sweeps, hand-backs and releases keep the claims an owner holds itself. *)
From S2P Require Import Prelude GrantEvent GrantEventProofs GrantDb GrantWorld GrantClaims GrantClaimsProofs GrantService GrantProofs GrantSteps GrantLedger GrantInvariant GrantDeviceAuth.

(** ** The gate *)

Section Gate.
Context `{Lib : EventLib, Out : GrantOutside, St : CoreStore}.
Variable self : Config.

(** A device is named by its own row only. *)
Lemma ended_inactive r device row n : rows_ok self r -> grants r !! device = Some row ->
  grant_active row (owners self) n = false -> key_active r device (owners self) n = false.
Proof.
  intros [H1 H2 _ _ _ _] Hg Ha. apply not_true_iff_false. unfold key_active.
  intros (row' & Hin & [Hn Ha']%andb_prop)%existsb_exists.
  apply list_elem_of_In, values_lookup in Hin as [k Hk]. apply names_iff in Hn.
  destruct (H1 _ _ Hg) as [Hd _], (H1 _ _ Hk) as [Hd' _]. destruct Hn as [E|E].
  - assert (k = device) as -> by congruence. rewrite Hg in Hk. injection Hk as ->. congruence.
  - destruct (H2 k row' device row Hk Hg). congruence.
Qed.

Lemma knows_device r device row : rows_ok self r -> grants r !! device = Some row -> knows r device = true.
Proof.
  intros [H1 _ _ _ _ _] Hg. unfold knows. apply orb_true_iff. right. apply existsb_exists. exists row. split.
  - apply list_elem_of_In. by eapply elem_of_values.
  - apply names_iff. left. by apply (H1 device row Hg).
Qed.

(** The core is not asked: only the clock was read. *)
Definition not_forwarded (w w' : World) : Prop :=
  db w' = db w /\ snapshot w' = snapshot w /\ store w' = store w /\ due w' = due w
  /\ w_env w' = (g_clock (w_env w)).2.

Lemma gate_refuses method path header signer hashes w :
  is_read method path = false -> signed_header header = Some (signer, hashes) -> signer ∉ owners self ->
  knows (snapshot w) signer = true ->
  key_active (snapshot w) signer (owners self) (g_clock (w_env w)).1 = false ->
  exists w', gate self method path (Some header) w
             = (Ok (Refused (forbidden "the delegated storage grant has ended")), w') /\ not_forwarded w w'.
Proof.
  intros Hread Hsig Hown Hknow Hact. unfold gate. rewrite Hread. cbn [mbind option_bind]. rewrite Hsig.
  rewrite bool_decide_eq_false_2 by done. unfold bind at 1, get_rows, bind at 1, get, ret at 1. rewrite Hknow.
  cbn [negb]. unfold begin_write, is_active, get_rows, count_flight, now, ask, bind, get, put, ret.
  cbn [flights snapshot with_flights w_env].
  destruct (g_clock (w_env w)) as [n v] eqn:Ec. cbn [fst] in Hact. cbn [snapshot with_env with_flights].
  rewrite Hact. cbn [negb]. eexists. split; [reflexivity|]. unfold not_forwarded. by rewrite Ec.
Qed.
End Gate.

(** ** The issuing budget *)

Section Rate.
Context `{Lib : EventLib, Out : GrantOutside, St : CoreStore}.
Variables (self : Config) (limit : Z) (refusals : Refusals).

(** Requests of one route, with a clock that does not go back: the time of the
    last one, and which devices were accepted when, newest first. *)
Inductive calls : Z -> Rate -> list (string * Z) -> Prop :=
| CallsNone : calls 0 ∅ []
| CallsMore last rate accepted query headers body_len authenticate w w' rate' r :
    calls last rate accepted ->
    last <= (g_clock (w_env w)).1 ->
    authorise self limit refusals query headers body_len authenticate (w, rate) = (r, (w', rate')) ->
    calls (g_clock (w_env w)).1 rate'
      (match r with Ok device => (device, (g_clock (w_env w)).1) :: accepted | Err _ => accepted end).

(** The times at which the device was accepted, newest first. *)
Definition times (device : string) (accepted : list (string * Z)) : list Z :=
  map snd (filter (fun x => x.1 = device) accepted).

Definition window_of (device : string) (rate : Rate) : list Z := default [] (rate !! device).

(** Accepted times within the hour from [t]. *)
Definition within (t : Z) (l : list Z) : list Z := filter (fun x => t <= x < t + RATE_WINDOW) l.

(** The window holds the newest accepted times: the others are an hour old at
    the last request. *)
Definition window_ok (rate : Rate) (accepted : list (string * Z)) (last : Z) : Prop :=
  forall device, exists old, reverse (times device accepted) = old ++ window_of device rate
    /\ Forall (fun x => x + RATE_WINDOW <= last) old.

Lemma authorise_outcome query headers body_len authenticate w rate r w' rate' :
  authorise self limit refusals query headers body_len authenticate (w, rate) = (r, (w', rate')) ->
  let n := (g_clock (w_env w)).1 in
  match r with
  | Ok device => spent limit device (expire_all n rate) = false /\ rate' = charge device n (expire_all n rate)
  | Err _ => rate' = rate \/ rate' = expire_all n rate
  end.
Proof.
  intros H n. unfold authorise in H. destruct query; [injection H as <- <- <-; by left|].
  unfold bind at 1, lift at 1 in H. destruct (single_authorization headers) as [header|e]; [|injection H as <- <- <-; by left].
  unfold bind at 1, lift at 1 in H. destruct (ok_or body_len _) as [len|e]; [|injection H as <- <- <-; by left].
  destruct (negb (len =? 0)); [injection H as <- <- <-; by left|].
  unfold bind at 1, in_world at 1, now at 1, ask in H. destruct (g_clock (w_env w)) as [n0 v] eqn:Ec.
  cbn in n. subst n. cbn [fst snd] in H.
  unfold bind at 1, lift at 1 in H. destruct (ok_or (authenticate header n0) _) as [[device event_id]|e];
    [|injection H as <- <- <-; by left].
  unfold bind at 1, in_world at 1 in H. destruct (is_active_device self device (with_env v w)) as [[active|e] w1];
    [|injection H as <- <- <-; by left].
  destruct (negb active); [injection H as <- <- <-; by left|].
  unfold bind at 1, get_rate at 1 in H. cbn [snd] in H. unfold bind at 1, put_rate at 1 in H. cbn [fst snd] in H.
  destruct (spent limit device (expire_all n0 rate)) eqn:Es; [injection H as <- <- <-; by right|].
  unfold bind at 1, in_world at 1 in H. destruct (io unavailable w1) as [[[]|e] w2]; [|injection H as <- <- <-; by right].
  unfold bind at 1, in_world at 1, get at 1 in H.
  destruct (consume_event _ _ _) as [fresh d]. unfold bind at 1, in_world at 1, put at 1 in H.
  destruct fresh; cbn [negb] in H; [|injection H as <- <- <-; by right].
  unfold bind, put_rate, ret in H. cbn [fst snd] in H. by injection H as <- <- <-.
Qed.

Lemma expire_split n window : exists old, window = old ++ expire n window /\ Forall (fun x => x + RATE_WINDOW <= n) old.
Proof.
  induction window as [|x window IH]; cbn [expire]; [by exists []|].
  destruct (Z.leb_spec RATE_WINDOW (saturating_sub n x)) as [Hle|]; [|by exists []].
  destruct IH as (old & E & Hold). exists (x :: old). split; [by rewrite E at 1|]. constructor; [|done].
  unfold saturating_sub, RATE_WINDOW in *. lia.
Qed.

Lemma window_expire n rate device : window_of device (expire_all n rate) = expire n (window_of device rate).
Proof.
  unfold window_of, expire_all. rewrite lookup_omap. destruct (rate !! device) as [window|]; [|done]. cbn.
  by destruct (expire n window).
Qed.

Lemma window_ok_expire n rate accepted last : last <= n -> window_ok rate accepted last ->
  window_ok (expire_all n rate) accepted n.
Proof.
  intros Hn H device. destruct (H device) as (old & E & Hold). rewrite window_expire.
  destruct (expire_split n (window_of device rate)) as (old2 & E2 & Hold2).
  exists (old ++ old2). rewrite <- app_assoc, <- E2. split; [done|]. apply Forall_app. split; [|done].
  eapply Forall_impl; [exact Hold|]. cbn. lia.
Qed.

Lemma window_ok_charge device n rate accepted last : window_ok rate accepted last ->
  window_ok (charge device n rate) ((device, n) :: accepted) last.
Proof.
  intros H d. destruct (H d) as (old & E & Hold). exists old. split; [|done]. unfold times, window_of, charge in *.
  destruct (decide (d = device)) as [->|Hne].
  - rewrite filter_cons_True by done. cbn [map snd]. rewrite reverse_cons, E, lookup_insert_eq. cbn.
    by rewrite app_assoc.
  - rewrite filter_cons_False by (cbn; congruence). by rewrite lookup_insert_ne.
Qed.

Lemma length_within_le t l : (length (within t l) <= length l)%nat.
Proof. apply length_filter. Qed.

(** A new time is in an hour with window times only. *)
Lemma within_window t n device rate accepted : window_ok rate accepted n -> t <= n < t + RATE_WINDOW ->
  (length (within t (times device accepted)) <= length (window_of device rate))%nat.
Proof.
  intros H Hn. destruct (H device) as (old & E & Hold).
  assert (length (within t (times device accepted)) = length (within t (reverse (times device accepted)))) as ->.
  { unfold within. apply Permutation_length. f_equiv. symmetry. apply reverse_Permutation. }
  rewrite E. unfold within. rewrite filter_app, length_app.
  assert (filter (fun x => t <= x < t + RATE_WINDOW) old = []) as ->.
  { clear E. induction Hold as [|x old Hx Hold IH]; [done|]. rewrite filter_cons_False; [done|]. cbn in Hx. lia. }
  cbn. apply length_filter.
Qed.

Lemma calls_bounded last rate accepted : 1 <= limit -> calls last rate accepted ->
  window_ok rate accepted last /\ forall device t, Z.of_nat (length (within t (times device accepted))) <= limit.
Proof.
  intros Hlimit H. induction H as [|last rate accepted query headers body_len authenticate w w' rate' r H [IH1 IH2] Hn E].
  { split; [intros device; by exists []|]. intros. cbn. lia. }
  apply authorise_outcome in E. cbn zeta in E. set (n := (g_clock (w_env w)).1) in *.
  pose proof (window_ok_expire n rate accepted last Hn IH1) as Hexp.
  destruct r as [device|e].
  - destruct E as [Hspent ->]. split; [by apply window_ok_charge|]. intros d t. unfold times.
    destruct (decide (d = device)) as [->|Hne];
      [rewrite filter_cons_True by done|rewrite filter_cons_False by (cbn; congruence); apply IH2].
    cbn [map snd]. unfold within. destruct (decide (t <= n < t + RATE_WINDOW)) as [Ht|Ht].
    + rewrite filter_cons_True by done. cbn [length].
      pose proof (within_window t n device _ _ Hexp Ht) as Hw. unfold within, times in Hw.
      unfold spent in Hspent. unfold window_of in Hw. destruct (expire_all n rate !! device) as [window|].
      * apply Z.leb_gt in Hspent. cbn in Hw. lia.
      * cbn in Hw. lia.
    + rewrite filter_cons_False by done. apply IH2.
  - split; [|exact IH2]. destruct E as [-> | ->]; [|done].
    intros device. destruct (IH1 device) as (old & E1 & E2). exists old. split; [done|].
    eapply Forall_impl; [exact E2|]. cbn. lia.
Qed.
End Rate.

(** ** The owner's own claims *)

Section Owner.
Context `{Lib : EventLib, Out : GrantOutside, St : CoreStore} {Laws : CoreLaws St}.
Variables (self : Config) (fuel : nat) (owner hash : string).

Abbreviation keeps := (keeps_own owner hash).

#[local] Instance owner_refl : Reflexive keeps.
Proof. intros w H. exact H. Qed.
#[local] Instance owner_trans : Transitive keeps.
Proof. intros w1 w2 w3 H1 H2 H. by apply H2, H1. Qed.

(** The store and the moves are all that [own] reads. *)
Lemma owner_same w w' : store w' = store w -> moved_claims (db w') = moved_claims (db w) -> keeps w w'.
Proof. intros H1 H2 [O1 O2]. split; [by rewrite H1|by rewrite H2]. Qed.

Lemma owner_ask {E A} (f : genv -> A * genv) : respects keeps (ask (E := E) f).
Proof. intros w. unfold ask. destruct (f (w_env w)). by apply owner_same. Qed.
Lemma owner_get {E} : respects keeps (get (E := E)).
Proof. intros w. reflexivity. Qed.
#[local] Hint Resolve owner_ask owner_get : respects.
Lemma owner_due {E} key : respects keeps (restore_due (E := E) key).
Proof. intros w. by apply owner_same. Qed.
Lemma owner_rows {E} : respects keeps (get_rows (E := E)).
Proof. unfold get_rows. respects. Qed.
#[local] Hint Resolve owner_due owner_rows : respects.
Lemma owner_reload {E} (e : E) : respects keeps (reload e).
Proof.
  unfold reload. apply respects_bind; [exact _|auto with respects|intros []; [|respects]].
  intros w. by apply owner_same.
Qed.
Lemma owner_push {E} : respects keeps (push_core_policy (E := E) self).
Proof. unfold push_core_policy. respects. Qed.
Lemma owner_wait {E} key : respects keeps (wait_idle (E := E) key).
Proof.
  unfold wait_idle. apply respects_bind; [exact _|auto with respects|intros w0].
  apply respects_bind; [exact _|auto with respects|intros f]. intros w. by apply owner_same.
Qed.
#[local] Hint Resolve owner_reload owner_push owner_wait : respects.
Lemma owner_attempt {A} (m : SM World ClaimError A) : respects keeps m -> respects keeps (attempt_task m).
Proof. intros H w. specialize (H w). unfold attempt_task. by destruct (m w) as [[a|e] w']. Qed.
Lemma owner_restore key m : respects keeps (attempt_task (restore fuel key m (core_grant_id key))).
Proof. by apply owner_attempt, own_restore. Qed.
#[local] Hint Resolve owner_restore : respects.
Lemma owner_hand_back r n keys : respects keeps (hand_back self fuel r n keys).
Proof. induction keys; cbn [hand_back]; respects. Qed.
Lemma owner_move_ended n ended moved : (forall k m, (k, m) ∈ ended -> k <> owner) ->
  respects keeps (move_ended fuel n ended moved).
Proof.
  revert moved. induction ended as [|[k m] ended IH]; intros moved Hne; cbn [move_ended]; [respects|].
  assert (forall moved, respects keeps (move_ended fuel n ended moved)) as IH'.
  { intros l. apply IH. intros k' m' H. apply (Hne k' m'). by right. }
  apply respects_bind; [exact _|auto with respects|intros []]; cbn [negb]; [|apply IH'].
  apply respects_bind; [exact _| |intros res; apply IH'].
  apply owner_attempt, own_transfer. apply (Hne k m). by left.
Qed.
Lemma owner_member e k m : respects keeps (statement (E := string) e (write_member k m)).
Proof.
  intros w. apply (wp_statement e _ (fun _ w' => keeps w w')); [|intros; by apply owner_same].
  intros v d H. apply owner_same; [done|]. unfold write_member in H. destruct (0 <? _); [|done]. by injection H as <-.
Qed.
#[local] Hint Resolve owner_hand_back owner_member : respects.
Lemma owner_delete ms : respects keeps (delete_members ms).
Proof.
  induction ms as [|[k m] ms IH]; cbn [delete_members]; respects.
  intros w. apply (wp_statement db_error _ (fun _ w' => keeps w w')); [|intros; by apply owner_same].
  intros v d [= <-]. by apply owner_same.
Qed.
Lemma owner_member_writes ms : respects keeps (write_members ms).
Proof. induction ms as [|[k m] ms IH]; cbn [write_members]; respects. Qed.
Lemma owner_all_due ms : respects keeps (all_due ms).
Proof. induction ms as [|[k m] ms IH]; cbn [all_due]; respects. Qed.
#[local] Hint Resolve owner_delete owner_member_writes owner_all_due : respects.
Lemma owner_transaction {A} e (m : SM World string A) : respects keeps m ->
  (forall w, moved_claims (db (m w).2) = moved_claims (db w)) -> respects keeps (transaction e m).
Proof.
  intros Hm Hd w. apply (wp_transaction e m (fun _ w' => keeps w w')). specialize (Hm w). specialize (Hd w).
  unfold wp. destruct (m w) as [[a|e'] w']; cbn [fst snd] in *.
  - split; intros v; (etransitivity; [exact Hm|]); by apply owner_same.
  - etransitivity; [exact Hm|]. by apply owner_same.
Qed.
Lemma owner_put_back r removed : respects keeps (put_back r removed).
Proof.
  induction removed as [|[k m] removed IH]; cbn [put_back]; [respects|].
  apply respects_bind; [exact _| |intros _; exact IH]. destruct (bool_decide _); [respects|].
  intros w. pose proof (owner_member db_error k m w) as H. by destruct (statement _ _ w).
Qed.
#[local] Hint Resolve owner_put_back : respects.
Lemma owner_finish removed : respects keeps (finish_sweep self removed).
Proof.
  unfold finish_sweep, undo_sweep. respects. intros w. pose proof (owner_reload db_error w) as H.
  by destruct (reload db_error w).
Qed.

(** The moves are not touched while members are rewritten. *)
Lemma members_moves removed adj w :
  moved_claims (db ((let! _ := delete_members removed in write_members adj)%wb w).2) = moved_claims (db w).
Proof.
  assert (forall (m : SM World string unit), (forall w, wp m (fun _ w' => moved_claims (db w') = moved_claims (db w)) w) ->
    forall w, moved_claims (db (m w).2) = moved_claims (db w)) as Hwp by (intros m H w0; apply H).
  assert (forall w, moved_claims (db (delete_members removed w).2) = moved_claims (db w)) as H1.
  { apply Hwp. clear. induction removed as [|[k m] removed IH]; intros w; [done|]. cbn [delete_members].
    apply wp_bind, wp_statement; [|done]. intros v d [= <-]. eapply wp_impl; [apply IH|]. by cbn. }
  assert (forall w, moved_claims (db (write_members adj w).2) = moved_claims (db w)) as H2.
  { apply Hwp. clear. induction adj as [|[k m] adj IH]; intros w; [done|]. cbn [write_members].
    apply wp_bind, wp_statement; [|done]. intros v d H. eapply wp_impl; [apply IH|]. cbn. intros _ w' ->.
    unfold write_member in H. destruct (0 <? _); [|done]. by injection H as <-. }
  unfold bind. specialize (H1 w). destruct (delete_members removed w) as [[[]|e] w1]; cbn [fst snd] in *; [|done].
  by rewrite H2.
Qed.

Lemma sweep_keeps w : rows_ok self (snapshot w) -> owner ∈ owners self -> keeps w (sweep_ended self fuel w).2.
Proof.
  intros Hrows Hown. unfold sweep_ended.
  enough (wp (sweep_locked self fuel) (fun _ w' => keeps w w') w) as H.
  { unfold wp in H. unfold bind. destruct (sweep_locked self fuel w) as [[removed|e] w1]; cbn [fst snd] in *; [|done].
    etransitivity; [exact H|apply owner_finish]. }
  unfold sweep_locked. destruct (attached self); cbn [negb]; [|intros Hw; exact Hw].
  apply wp_bind, wp_ask. intros v1. set (n := (g_clock _).1).
  apply wp_bind, wp_bind, wp_get. unfold ret at 1, wp at 1. cbn [fst snd]. apply wp_bind, wp_get.
  apply wp_bind, wp_put.
  match goal with |- wp ?m _ ?w0 => enough (respects keeps m) as H; [intros Hw; apply (H w0); by apply (owner_same w)|] end.
  assert (forall k m, (k, m) ∈ ended_members self (snapshot (with_env v1 w)) n -> k <> owner) as Hne.
  { intros k m Hin ->. apply ended_member in Hin. destruct Hrows as [_ _ _ _ Hfree _].
    apply (Hfree owner (m_issuer m)); [by apply issuers_lookup|by left]. }
  apply respects_bind; [exact _|auto with respects|intros _].
  apply respects_bind; [exact _|by apply owner_move_ended|intros moved].
  assert (forall adj, respects keeps (transaction db_error (let! _ := delete_members moved in write_members adj))%wb) as Ht.
  { intros adj. apply owner_transaction; [respects|apply members_moves]. }
  destruct moved as [|x moved]; [destruct (adjusted_members _ _ _)|].
  - respects.
  - apply respects_bind; [exact _|apply Ht|intros _; respects].
  - apply respects_bind; [exact _|apply Ht|intros _; respects].
Qed.
End Owner.
