(* ===== verification/GrantTheorems.v ===== *)
(** * Device grants: the properties

    The properties of [crates/wildbloomd/src/grants/], each with a worked node:
    one owner, a toy event library, and a core whose claims are a set. *)
From Stdlib Require Import Ascii.
From stdpp Require Import pretty.
From S2P Require Import Prelude GrantEvent GrantEventProofs GrantDb GrantWorld GrantClaims GrantClaimsProofs GrantService GrantProofs GrantSteps GrantLedger GrantInvariant GrantDeviceAuth GrantGate.

(** A node that just opened: no grant waits on the core, and the snapshot is
    what the tables hold. *)
Definition started `{EventLib, GrantOutside, CoreStore} (s : Sys) : Prop :=
  synced (sw s) /\ pend s = [] /\
  forall device row, grants (snapshot (sw s)) !! device = Some row -> row_ok device row.

Lemma started_ok `{EventLib, GrantOutside, CoreStore} s : started s -> sys_ok s.
Proof.
  intros (Hs & Hp & Hr). split; [done|]. destruct s as [w ps sg]. cbn in *. subst ps. by apply ledger_ok_init.
Qed.

Section Theorems.
Context `{Lib : EventLib, Out : GrantOutside, St : CoreStore}.
Variables (self : Config) (fuel : nat).

(** C27: As long as the tables can be read back after each commit and the clock
    is sane, every interleaving of grants, revocations, sweeps, startups,
    prunes and gated requests, whatever else fails in them, is a run of the
    abstract ledger: the snapshot stays what the tables hold, and its rows and
    markers change only by owner-signed, newer events and by putting a refused
    grant's predecessor back.  A reload that fails after a commit does break
    this, and a later revocation with it ([stale_snapshot_revokes_nothing]). *)
Theorem grants_refine_ledger s s' : Reads -> ClockSane -> synced (sw s) -> steps self fuel s s' ->
  synced (sw s') /\ rtc (lstep (signed_grant self) (signed_revoke self)) (ledger_of s) (ledger_of s').
Proof.
  intros Hr Hc Hs Hsteps. induction Hsteps as [s|s s1 s2 H1 H2 IH]; [split; [done|constructor]|].
  destruct (step_refines_ledger self fuel Hr Hc s s1 Hs H1) as [Hs1 Hl]. destruct (IH Hs1) as [Hs2 Hl2].
  split; [done|]. by eapply rtc_l.
Qed.

(** C11: A revocation lasts.  As long as the tables can be read back after each
    commit and the clock is sane, whatever else the node was and will be doing,
    grants still waiting on the core and their undoing included, after an
    accepted revocation the device has an unrevoked row only if it is the row
    of a verified grant event for that device, signed by an owner and newer
    than the revocation. *)
Theorem revocation_lasts s0 s1 s2 device headers st w' : Reads -> ClockSane -> started s0 ->
  steps self fuel s0 s1 ->
  apply_revoke self device headers (sw s1) = (Ok st, w') ->
  steps self fuel {| sw := w'; pend := pend s1; sweeping := sweeping s1 |} s2 ->
  exists header bytes e a, headers = [Some header] /\ decode_header header = Some bytes
    /\ verify bytes (owners self) (server_names self) (g_clock e).1 = Ok a /\ au_action a = Revoke device
    /\ forall row, grants (snapshot (sw s2)) !! device = Some row -> revoked_at row = None ->
         exists body e' a' terms, verify body (owners self) (server_names self) (g_clock e').1 = Ok a'
           /\ au_owner a' ∈ owners self /\ au_action a' = Grant terms /\ gt_device terms = device
           /\ au_created_at a < au_created_at a' /\ row = stored_grant (row_of a' terms).
Proof.
  intros Hr Hc H0 H1 Hrev H2. pose proof (steps_sys_ok self fuel Hr Hc s0 s1 (started_ok s0 H0) H1) as Hok.
  destruct s1 as [w ps sg]. cbn [sw pend sweeping] in *.
  destruct (revocation_starts self Hr Hc device headers w w' ps sg st Hok Hrev)
    as (header & bytes & e & a & Eh & Eb & Ev & Ea & Hstart).
  exists header, bytes, e, a. split_and!; [done|done|done|done|].
  assert (sys_ok {| sw := w'; pend := ps; sweeping := sg |}) as Hok'.
  { eapply (step_sys_ok self fuel Hr Hc); [exact Hok|]. by eapply StepRevoke. }
  pose proof (steps_ledger self fuel Hr Hc (revoked_at_c (signed_grant self) device (au_created_at a)) _ s2
    (fun l l' Hl HP => lstep_revoked _ _ device (au_created_at a) l l' Hl HP) Hok' H2 Hstart) as [_ Hrow _].
  pose proof (steps_sys_ok self fuel Hr Hc _ s2 Hok' H2) as [_ [Hrows _ _]].
  intros row Hg Hn. destruct (Hrow row Hg Hn) as (Hlt & x & (body & e' & a' & terms & Hv & Ha & ->) & ->).
  destruct (Hrows device _ Hg) as [Hd _]. destruct (verify_bounds _ _ _ _ _ Hv) as [Ho _].
  exists body, e', a', terms. split_and!; try done. cbn in Hlt. unfold int in Hlt. lia.
Qed.

(** A node that opened without grants only ever holds rows an owner
    signed: each row's device, recovery key and issuer are those of a verified
    grant event, and an unrevoked row is that event's row. *)
Theorem grants_only_from_owners s0 s : Reads -> ClockSane -> started s0 -> grants (snapshot (sw s0)) = ∅ ->
  steps self fuel s0 s ->
  forall device row, grants (snapshot (sw s)) !! device = Some row ->
  exists body e a terms, verify body (owners self) (server_names self) (g_clock e).1 = Ok a
    /\ au_action a = Grant terms /\ au_owner a ∈ owners self /\ device = gt_device terms
    /\ g_recovery row = gt_recovery terms /\ g_issuer row = au_owner a
    /\ (revoked_at row = None -> row = stored_grant (row_of a terms)).
Proof.
  intros Hr Hc H0 Hempty Hsteps device row Hg. pose proof (started_ok s0 H0) as Hok.
  pose proof (steps_sys_ok self fuel Hr Hc s0 s Hok Hsteps) as [_ [Hrows _ _]].
  assert (all_signed (signed_grant self) (ledger_of s0)) as Hall.
  { destruct H0 as (_ & Hp & _). split; cbn; [by rewrite Hempty|rewrite Hp; intros p r Hp'; by apply elem_of_nil in Hp']. }
  pose proof (steps_ledger self fuel Hr Hc (all_signed (signed_grant self)) s0 s
    (fun l l' Hl HP => lstep_signed _ _ l l' Hl HP) Hok Hsteps Hall) as [Has _].
  destruct (Has device row Hg) as (x & (body & e & a & terms & Hv & Ha & ->) & Hrow).
  destruct (verify_bounds _ _ _ _ _ Hv) as [Ho _]. destruct (Hrows device row Hg) as [Hd _].
  exists body, e, a, terms. split_and!; [done|done|done| | | |].
  all: destruct Hrow as [->|(n & c & Hn & ->)]; try done.
Qed.
End Theorems.

(** An event is accepted exactly when it is what the documentation says:
    small enough, of the grant kind, signed by a configured owner for this
    server, within its window, and with exactly the tags of a grant or of a
    revocation in some order, each canonical. *)
Theorem event_verify_meets_spec `{EventLib} bytes owners server_names now a :
  verify bytes owners server_names now = Ok a <-> valid_event bytes owners server_names now a.
Proof. apply verify_iff_valid. Qed.

(** The numbers of an event are read from exactly their canonical decimal
    digits, below ten to the nineteenth. *)
Theorem grant_numbers_are_canonical s n : decimal s = Ok n <-> 0 <= n < 10 ^ 19 /\ s = pretty (Z.to_N n).
Proof. apply decimal_canonical_iff. Qed.

(** C40: With a clock that does not go back, an issuing route accepts at most
    its limit of requests of one device in any hour, whatever other requests,
    refusals and failures there are. *)
Theorem issuing_budget_holds `{EventLib, GrantOutside, CoreStore} self limit refusals last rate accepted device t :
  1 <= limit -> calls self limit refusals last rate accepted ->
  Z.of_nat (length (within t (times device accepted))) <= limit.
Proof. intros Hl Hc. by apply (calls_bounded self limit refusals last rate accepted). Qed.

(** C35: On a node that got here by requests run one after the other, with
    every reload of the tables succeeding, a write by a device whose grant is
    revoked, expired or withdrawn is answered 403 by the gate: the core is not
    asked, and the tables, the snapshot and the store stay as they were.
    (Requests that overlap can leave a device key that is also a recovery key,
    see [undo_mixes_roles], and the gate lets such a key through after its device
    grant was revoked, see [mixed_roles_pass_the_gate].) *)
Theorem ended_device_is_refused `{EventLib, GrantOutside, CoreStore} self fuel w0 w method path header device hashes row :
  Reads -> world_ok self w0 -> rtc (serial self fuel) w0 w ->
  is_read method path = false -> signed_header header = Some (device, hashes) ->
  grants (snapshot w) !! device = Some row -> grant_active row (owners self) (g_clock (w_env w)).1 = false ->
  exists w', gate self method path (Some header) w
             = (Ok (Refused (forbidden "the delegated storage grant has ended")), w') /\ not_forwarded w w'.
Proof.
  intros Hr Hstart Hsteps Hread Hsig Hg Ha. destruct (serials_world_ok self fuel Hr w0 w Hstart Hsteps) as [_ Hok].
  apply (gate_refuses self method path header device hashes); [done|done| | |].
  - intros Hin. destruct Hok as [Hrow _ _ Hfree _ _]. apply (Hfree device row device Hg); [|by left].
    apply names_iff. left. by apply (Hrow device row).
  - by apply (knows_device self _ device row).
  - by apply (ended_inactive self _ device row).
Qed.

(** C37: Moving an ended key's claims to its owner never leaves a blob without
    a claim, wherever the walk stops or fails: every other signer keeps its
    claims, and every blob of the key is claimed by the key or the owner. *)
Theorem transfer_never_orphans `{GrantOutside, St : CoreStore, !CoreLaws St} fuel key owner grant n w r w' :
  owner <> key -> transfer fuel key owner grant n w = (r, w') ->
  (forall h, holds (store w) key h -> holds (store w') key h \/ holds (store w') owner h)
  /\ (forall k h, k <> key -> holds (store w) k h -> holds (store w') k h).
Proof.
  intros Hne E. pose proof (safe_transfer key owner Hne fuel grant n w) as Hsafe. rewrite E in Hsafe.
  destruct Hsafe. by split.
Qed.

(** A claim the owner holds in its own right, which every recorded move of
    that blob says, is still the owner's own after a sweep, whatever it moved,
    handed back or failed at. *)
Theorem sweep_keeps_owner_claims `{EventLib, GrantOutside, St : CoreStore, !CoreLaws St} self fuel owner hash w r w' :
  rows_ok self (snapshot w) -> owner ∈ owners self -> own owner hash w ->
  sweep_ended self fuel w = (r, w') -> own owner hash w'.
Proof.
  intros Hrows Hown Hw E. pose proof (sweep_keeps self fuel owner hash w Hrows Hown Hw) as Hkept. by rewrite E in Hkept.
Qed.

(** While requests run one after the other, a delegated key is a device or
    a recovery identity and never both, a recovery identity has one owner, no
    delegated key is an owner's, a friend's or a service's, and the members
    pushed to the core carry the issuer of the rows that name them. *)
Theorem key_roles_stay_apart `{EventLib, GrantOutside, CoreStore} self fuel w w' : Reads ->
  world_ok self w -> rtc (serial self fuel) w w' -> world_ok self w'.
Proof. intros Hr Hok Hsteps. by apply (serials_world_ok self fuel Hr w). Qed.

(** ** A worked node *)

Fixpoint toy_rep (n : nat) (c : Ascii.ascii) : string :=
  match n with O => EmptyString | S n => String c (toy_rep n c) end.
Definition toy_key (c : Ascii.ascii) : string := toy_rep 64 c.

Abbreviation toy_owner := (toy_key "0"%char).
Abbreviation toy_device := (toy_key "d"%char).
Abbreviation toy_recovery := (toy_key "e"%char).

Definition toy_tags (device recovery : string) : list (list string) :=
  [["t"; "grant"]; ["device"; device]; ["recovery"; recovery]; ["bytes"; "10"]; ["until"; "5000"];
   ["server"; "node.example"]; ["expiration"; "1100"]]%string.

Definition toy_raw (created : Z) (tags : list (list string)) : option RawEvent :=
  Some {| rw_pubkey := toy_owner; rw_created_at := created; rw_kind := DEVICE_GRANT_KIND; rw_tags := tags;
          rw_content := "" |}.

(** Three grants and two revocations. *)
Definition toy_event (bytes : string) : option RawEvent :=
  if bool_decide (bytes = "g1"%string) then toy_raw 900 (toy_tags toy_device toy_recovery)
  else if bool_decide (bytes = "g2"%string) then toy_raw 950 (toy_tags toy_device (toy_key "f"%char))
  else if bool_decide (bytes = "g3"%string) then toy_raw 960 (toy_tags toy_recovery (toy_key "a"%char))
  else if bool_decide (bytes = "r1"%string) then
    toy_raw 990 [["t"; "revoke"]; ["device"; toy_device]; ["server"; "node.example"]; ["expiration"; "1100"]]%string
  else if bool_decide (bytes = "r2"%string) then
    toy_raw 990 [["t"; "revoke"]; ["device"; toy_recovery]; ["server"; "node.example"]; ["expiration"; "1100"]]%string
  else None.

#[export] Instance toy_lib : EventLib := {
  raw_event := toy_event;
  nostr_event b := Some {| ne_id := b; ne_tags := [];
    ne_pubkey := if bool_decide (b = "up"%string) then toy_device
                 else if bool_decide (b = "ur"%string) then toy_recovery else toy_owner |};
  nostr_verify _ := true;
  standard b := Some b; standard_no_pad _ := None; url_safe _ := None; url_safe_no_pad _ := None }.

(** The answers of the core to the next pushes. *)
#[export] Instance toy_outside : GrantOutside := {
  genv := list bool;
  g_clock v := (1000, v); g_io v := (true, v); g_read v := (true, v); g_group v := (∅, v);
  g_group_grants v := ([], v);
  g_push _ v := match v with b :: v => (b, v) | [] => (true, []) end;
  g_flights f v := (f, v); g_verify_delete _ _ v := (None, v); g_next v := (200, v) }.

Definition toy_meta (h : string) : ClaimMetadata :=
  {| sha256 := h; c_size := 1; content_type := ""; c_class := None; uploaded := 0 |}.

Definition toy_listing (s : string) (c : gset (string * string)) : list ClaimMetadata :=
  omap (fun '(k, h) => if bool_decide (k = s) then Some (toy_meta h) else None) (elements c).

#[export] Instance toy_core : CoreStore := {
  core := gset (string * string);
  list_claims s cur n c := (match cur with
                            | Some h => if bool_decide ((s, h) ∈ c) then Ok [] else Err InvalidCursor
                            | None => Ok (toy_listing s c)
                            end, c);
  list_claims_for_grant s g cur n c := (Ok (if is_empty g then [] else toy_listing s c), c);
  begin_claimed_mirror h size spec c :=
    if existsb (fun x => bool_decide (x.2 = h)) (elements c)
    then (Ok Existing, {[(signer_pubkey spec, h)]} ∪ c) else (Err MissingBlob, c);
  delete_claim h s c := if bool_decide ((s, h) ∈ c) then (Ok tt, c ∖ {[(s, h)]}) else (Err NotClaimant, c);
  blob_exists h c := (Ok (existsb (fun x => bool_decide (x.2 = h)) (elements c)), c) }.

#[export] Instance toy_laws : CoreLaws toy_core.
Proof.
  refine {| holds c k h := (k, h) ∈ (c : gset (string * string)) |}; cbn.
  - by intros s cur n c r c' [= <- <-].
  - intros s h n c r c' [= <- <-]. by case_bool_decide.
  - by intros s g cur n c r c' [= <- <-].
  - intros s g cur n c page c' claim [= <- <-] Hin. destruct (is_empty g); [by apply elem_of_nil in Hin|].
    apply list_elem_of_omap in Hin as ([k h] & Hin & E). apply elem_of_elements in Hin.
    case_bool_decide; [|done]. injection E as <-. by subst.
  - intros h size spec c r c' E k x. destruct (existsb _ _); injection E as <- <-.
    + rewrite elem_of_union, elem_of_singleton. split; [intros [[= -> ->]|?]; auto|intros [?|(_ & -> & ->)]; auto].
    + split; [auto|intros [?|(? & _)]; done].
  - intros h s c r c' E k x. case_bool_decide; injection E as <- <-.
    + rewrite elem_of_difference, elem_of_singleton. split; intros [H1 H2]; (split; [done|]).
      * intros (_ & -> & ->). by apply H2.
      * intros [= -> ->]. by apply H2.
    + split; [intros H1; split; [done|by intros (? & _)]|by intros [? _]].
  - by intros h c r c' [= <- <-].
Defined.

Definition toy_self : Config :=
  {| owners := {[toy_owner]}; reserved := ∅; server_names := ["node.example"%string]; origin := "";
     cli_friend_grants := []; attached := true |}.

Definition toy_db : Db :=
  {| device_grants := ∅; core_members := ∅; revocation_markers := ∅; moved_claims := ∅; owner_writes := ∅;
     used_events := ∅ |}.

Definition toy_world (answers : list bool) (claims : gset (string * string)) : World :=
  {| db := toy_db; snapshot := read_rows toy_db; due := ∅; flights := ∅; store := claims; w_env := answers |}.

Abbreviation toy_w0 := (toy_world [true; true; false; true] ∅).
Definition toy_s (w : World) (ps : list PendingGrant) : Sys := {| sw := w; pend := ps; sweeping := None |}.

Definition toy_pending (r : result ApiError PendingGrant) : PendingGrant :=
  match r with
  | Ok p => p
  | Err _ => {| p_row := row_of {| au_owner := ""; au_event_id := ""; au_created_at := 0; au_expires_at := 0;
                                   au_action := Revoke "" |}
                  {| gt_device := ""; gt_recovery := ""; gt_byte_limit := 0; gt_until := 0 |};
                p_previous := None; p_members := [] |}
  end.

Lemma toy_reads : Reads.
Proof. done. Qed.
Lemma toy_clock : ClockSane.
Proof. intros e. cbn. unfold FUTURE_SKEW, I64_MAX. lia. Qed.
Lemma toy_started : started (toy_s toy_w0 []).
Proof. split; [done|]. split; [done|]. intros device row E.
  change ((∅ : gmap string GrantRow) !! device = Some row) in E. by rewrite lookup_empty in E.
Qed.

(** A commit that succeeds, as a step. *)
Lemma toy_commit body w ps : is_ok (commit_grant toy_self body w).1 = true ->
  step toy_self 3 (toy_s w ps)
    (toy_s (commit_grant toy_self body w).2 (toy_pending (commit_grant toy_self body w).1 :: ps)).
Proof.
  intros E. pose proof (StepCommit toy_self 3 body w _ ps None _ (surjective_pairing _)) as H.
  by destruct (commit_grant toy_self body w).1.
Qed.
Lemma toy_finish w ps p ps' :
  step toy_self 3 (toy_s w (ps ++ p :: ps')) (toy_s (finish_grant toy_self p w).2 (ps ++ ps')).
Proof. exact (StepFinish toy_self 3 w _ ps p ps' None _ (surjective_pairing _)). Qed.

(** The device granted and its grant accepted by the core. *)
Definition toy_c1 := commit_grant toy_self "g1" toy_w0.
Definition toy_w1 : World := (finish_grant toy_self (toy_pending toy_c1.1) toy_c1.2).2.

Lemma toy_granted : steps toy_self 3 (toy_s toy_w0 []) (toy_s toy_w1 []).
Proof.
  eapply rtc_l; [apply (toy_commit "g1" toy_w0 [])|].
  - vm_compute. reflexivity.
  - eapply rtc_l; [exact (toy_finish toy_c1.2 [] (toy_pending toy_c1.1) [])|]. constructor.
Qed.

Definition toy_value {E A} (d : A) (r : result E A) : A := match r with Ok a => a | Err _ => d end.
Lemma toy_ok {E A} (d : A) (r : result E A) : is_ok r = true -> r = Ok (toy_value d r).
Proof. by destruct r. Qed.
Lemma toy_some {A} (d : A) (o : option A) : bool_decide (is_Some o) = true -> o = Some (default d o).
Proof. intros [x ->]%bool_decide_eq_true. done. Qed.

(** The device revoked. *)
Abbreviation toy_headers := [Some "Nostr r1"%string].
Definition toy_r1 := apply_revoke toy_self toy_device toy_headers toy_w1.
Definition toy_status : GrantStatus :=
  toy_value {| st_device := ""; st_recovery := None; st_bytes := None; st_until := None; st_state := "" |} toy_r1.1.

Lemma toy_revoked : apply_revoke toy_self toy_device toy_headers toy_w1 = (Ok toy_status, toy_r1.2).
Proof.
  assert (toy_r1.1 = Ok toy_status) as E by (apply toy_ok; vm_compute; reflexivity).
  exact (eq_trans (surjective_pairing toy_r1) (f_equal (fun r => (r, toy_r1.2)) E)).
Qed.

Lemma grants_refine_ledger_witness :
  synced toy_w1 /\ rtc (lstep (signed_grant toy_self) (signed_revoke toy_self))
                     (ledger_of (toy_s toy_w0 [])) (ledger_of (toy_s toy_w1 [])).
Proof.
  apply (grants_refine_ledger toy_self 3 (toy_s toy_w0 []) (toy_s toy_w1 []) toy_reads toy_clock);
    [reflexivity|exact toy_granted].
Defined.

Lemma revocation_lasts_witness : exists a, au_action a = Revoke toy_device
  /\ forall row, grants (snapshot toy_r1.2) !! toy_device = Some row -> revoked_at row = None ->
       exists a', au_owner a' ∈ owners toy_self /\ au_created_at a < au_created_at a'.
Proof.
  destruct (revocation_lasts toy_self 3 (toy_s toy_w0 []) (toy_s toy_w1 []) (toy_s toy_r1.2 [])
    toy_device toy_headers toy_status toy_r1.2 toy_reads toy_clock toy_started toy_granted toy_revoked
    (rtc_refl _ _)) as (header & bytes & e & a & _ & _ & _ & Ha & Hrow).
  exists a. split; [exact Ha|]. intros row Hg Hn.
  destruct (Hrow row Hg Hn) as (body & e' & a' & terms & _ & Ho & _ & _ & Hlt & _).
  exists a'. split; [exact Ho|exact Hlt].
Defined.

Definition toy_row (w : World) (k : string) : GrantRow :=
  default (p_row (toy_pending (Err unavailable))) (grants (snapshot w) !! k).

Lemma toy_row1 : grants (snapshot toy_w1) !! toy_device = Some (toy_row toy_w1 toy_device).
Proof. apply toy_some. vm_compute. reflexivity. Qed.

Lemma grants_only_from_owners_witness : exists a terms, au_action a = Grant terms
  /\ au_owner a ∈ owners toy_self /\ toy_device = gt_device terms.
Proof.
  destruct (grants_only_from_owners toy_self 3 (toy_s toy_w0 []) (toy_s toy_w1 []) toy_reads toy_clock
    toy_started eq_refl toy_granted toy_device (toy_row toy_w1 toy_device) toy_row1)
    as (body & e & a & terms & _ & Ha & Ho & Hd & _).
  exists a, terms. split; [exact Ha|split; [exact Ho|exact Hd]].
Defined.

(** One accepted request of an issuing route. *)
Definition toy_refusals : Refusals := {| r_unauthorised := ""; r_spent := ""; r_replayed := "" |}.
Definition toy_auth (header : string) (n : Z) : option (string * string) := Some (toy_device, header).
Definition toy_call :=
  authorise toy_self 1 toy_refusals false [Some "n"%string] (Some 0) toy_auth (toy_w1, ∅).

Lemma toy_triple {A B C} (p : A * (B * C)) a : p.1 = a -> p = (a, (p.2.1, p.2.2)).
Proof. destruct p as [x [y z]]. by intros <-. Qed.

Lemma toy_calls : calls toy_self 1 toy_refusals 1000 toy_call.2.2 [(toy_device, 1000)].
Proof.
  assert (toy_call.1 = Ok toy_device) as E by (vm_compute; reflexivity).
  pose proof (CallsMore toy_self 1 toy_refusals 0 ∅ [] false [Some "n"%string] (Some 0) toy_auth toy_w1
    toy_call.2.1 toy_call.2.2 toy_call.1 (CallsNone _ _ _)) as H. rewrite E in H. apply H.
  - by vm_compute.
  - exact (toy_triple toy_call (Ok toy_device) E).
Qed.

Lemma issuing_budget_holds_witness :
  Z.of_nat (length (within 500 (times toy_device [(toy_device, 1000)]))) <= 1.
Proof.
  apply (issuing_budget_holds toy_self 1 toy_refusals 1000 toy_call.2.2 [(toy_device, 1000)] toy_device 500);
    [lia|exact toy_calls].
Defined.

Lemma toy_world_ok claims answers : world_ok toy_self (toy_world answers claims).
Proof.
  split; [done|]. change (roles_ok toy_self ∅ ∅). split; intros *; rewrite ?lookup_empty; done.
Qed.

Definition toy_w1s : World := (apply_grant toy_self "g1" toy_w0).2.
Definition toy_w2s : World := (apply_revoke toy_self toy_device toy_headers toy_w1s).2.

Lemma toy_serial : rtc (serial toy_self 3) toy_w0 toy_w2s.
Proof.
  eapply rtc_l; [exact (SerialGrant toy_self 3 "g1" toy_w0 toy_w1s _ (surjective_pairing _))|].
  eapply rtc_l; [exact (SerialRevoke toy_self 3 toy_device toy_headers toy_w1s toy_w2s _ (surjective_pairing _))|].
  constructor.
Qed.

Lemma ended_device_is_refused_witness : exists w',
  gate toy_self PUT "/upload" (Some "Nostr up"%string) toy_w2s
  = (Ok (Refused (forbidden "the delegated storage grant has ended")), w') /\ not_forwarded toy_w2s w'.
Proof.
  apply (ended_device_is_refused toy_self 3 toy_w0 toy_w2s PUT "/upload" "Nostr up" toy_device []
    (toy_row toy_w2s toy_device)).
  - exact toy_reads.
  - apply toy_world_ok.
  - exact toy_serial.
  - reflexivity.
  - vm_compute. reflexivity.
  - apply toy_some. vm_compute. reflexivity.
  - vm_compute. reflexivity.
Defined.

(** A core with one blob of the device. *)
Abbreviation toy_claims := ({[(toy_device, "blob"%string)]} : gset (string * string)).
Abbreviation toy_transfer := (transfer 3 toy_device toy_owner "g" 1000 (toy_world [] toy_claims)).

Lemma transfer_never_orphans_witness :
  holds (store toy_transfer.2) toy_device "blob" \/ holds (store toy_transfer.2) toy_owner "blob".
Proof.
  refine (proj1 (transfer_never_orphans 3 toy_device toy_owner "g" 1000 (toy_world [] toy_claims)
    toy_transfer.1 toy_transfer.2 _ (surjective_pairing _)) "blob"%string _).
  - intros E. vm_compute in E. discriminate E.
  - cbn. set_solver.
Defined.

Abbreviation toy_own := (toy_world [] ({[(toy_owner, "blob"%string)]} : gset (string * string))).

Lemma sweep_keeps_owner_claims_witness : own toy_owner "blob" (sweep_ended toy_self 3 toy_own).2.
Proof.
  apply (sweep_keeps_owner_claims toy_self 3 toy_owner "blob" toy_own (sweep_ended toy_self 3 toy_own).1).
  - apply (toy_world_ok _ []).
  - cbn. set_solver.
  - split; [cbn; set_solver|]. intros k r. cbn. by rewrite lookup_empty.
  - apply surjective_pairing.
Defined.

Lemma key_roles_stay_apart_witness : world_ok toy_self toy_w2s.
Proof. exact (key_roles_stay_apart toy_self 3 toy_w0 toy_w2s toy_reads (toy_world_ok _ _) toy_serial). Defined.

(** ** Roles are not kept apart across a refused push

    The device's grant is renewed with another recovery key; while that grant
    waits on the core, the first recovery key is granted as a device; the core
    then refuses the renewal, and putting the first grant back makes the key
    both. *)

Definition toy_c2 := commit_grant toy_self "g2" toy_w1.
Definition toy_c3 := commit_grant toy_self "g3" toy_c2.2.
Definition toy_w3 : World := (finish_grant toy_self (toy_pending toy_c3.1) toy_c3.2).2.
Definition toy_w4 : World := (finish_grant toy_self (toy_pending toy_c2.1) toy_w3).2.

Theorem undo_mixes_roles : exists s r1 r2, steps toy_self 3 (toy_s toy_w0 []) s /\ pend s = []
  /\ grants (snapshot (sw s)) !! toy_device = Some r1 /\ grants (snapshot (sw s)) !! toy_recovery = Some r2
  /\ g_recovery r1 = g_device r2 /\ revoked_at r1 = None /\ revoked_at r2 = None.
Proof.
  exists (toy_s toy_w4 []), (toy_row toy_w4 toy_device), (toy_row toy_w4 toy_recovery). split_and!.
  - etrans; [exact toy_granted|].
    eapply rtc_l; [apply (toy_commit "g2" toy_w1 []); vm_compute; reflexivity|].
    eapply rtc_l; [apply (toy_commit "g3" toy_c2.2 [toy_pending toy_c2.1]); vm_compute; reflexivity|].
    eapply rtc_l; [exact (toy_finish toy_c3.2 [] (toy_pending toy_c3.1) [toy_pending toy_c2.1])|].
    eapply rtc_l; [exact (toy_finish toy_w3 [] (toy_pending toy_c2.1) [])|]. constructor.
  - reflexivity.
  - apply toy_some. vm_compute. reflexivity.
  - apply toy_some. vm_compute. reflexivity.
  - vm_compute. reflexivity.
  - vm_compute. reflexivity.
  - vm_compute. reflexivity.
Qed.

(** ... and that device, revoked, still passes the gate as the recovery key. *)
Definition toy_r4 := apply_revoke toy_self toy_recovery [Some "Nostr r2"%string] toy_w4.

Lemma mixed_roles_pass_the_gate :
  is_ok toy_r4.1 = true /\
  (revoked_at <$> grants (snapshot toy_r4.2) !! toy_recovery) = Some (Some 1000) /\
  match (gate toy_self PUT "/upload" (Some "Nostr ur"%string) toy_r4.2).1 with
  | Ok (Passed status) => status = 200 | _ => False end.
Proof. vm_compute. repeat split. Qed.

(** ** A reload that fails

    The grant commits, but the tables cannot be read back: the device's row is
    in the tables and not in the snapshot.  A later, newer revocation is
    answered as done, yet it leaves a marker only, and the row, which stands,
    is in the snapshot from then on; the device's upload passes the gate. *)

(** As [toy_outside], with the answers of the next reads. *)
Definition flaky_outside : GrantOutside := {|
  genv := list bool;
  g_clock v := (1000, v); g_io v := (true, v);
  g_read v := match v with b :: v => (b, v) | [] => (true, []) end;
  g_group v := (∅, v); g_group_grants v := ([], v); g_push _ v := (true, v);
  g_flights f v := (f, v); g_verify_delete _ _ v := (None, v); g_next v := (200, v) |}.

#[local] Existing Instance flaky_outside | 0.

Definition flaky_w0 : World :=
  {| db := toy_db; snapshot := read_rows toy_db; due := ∅; flights := ∅; store := ∅; w_env := [false] |}.
Definition flaky_c1 := commit_grant toy_self "g1" flaky_w0.
Definition flaky_r1 := apply_revoke toy_self toy_device toy_headers flaky_c1.2.
Definition flaky_put := gate toy_self PUT "/upload" (Some "Nostr up"%string) flaky_r1.2.

Theorem stale_snapshot_revokes_nothing :
  is_ok flaky_c1.1 = false /\ is_ok flaky_r1.1 = true /\
  (revoked_at <$> grants (snapshot flaky_r1.2) !! toy_device) = Some None /\
  match flaky_put.1 with Ok (Passed status) => status = 200 | _ => False end.
Proof. vm_compute. repeat split. Qed.
