(* ===== verification/PoolReceipt.v ===== *)
(** * Pools: signed receipts

    Models [crates/wildbloomd/src/replicas/pool.rs]: the checks that make an
    owner-signed pool receipt acceptable and the maintenance policies it stands
    for.  The receipt's records ([Node], [Part], [Payload], [Manifest]) are those
    of [Coding.v], the policies those of [ReplicaPolicy.v]. *)
From S2P Require Import Prelude Coding ReplicaPolicy ReplicaState.

(** Decoding a receipt's content, over the libraries of the coordinator. *)
Class PoolLib := {
  pool_state_lib :: StateLib;
  manifest_from_json : string -> option Manifest
}.

Record Templates := {
  receipt_id : string; tmpl_mode : string; required_parts : nat; total_parts : nat;
  reconstructs_ciphertext : bool; storage_verified : bool;
  unsigned_policies : list UnsignedEvent }.

Definition invalid : Error :=
  EConfiguration "invalid pool receipt, placement or transport profile".

Definition RECEIPT_BYTES : Z := 128 * 1024.

(** The sets the loops over parts and nodes fill: ids, origins and hosts of the
    whole receipt, and the failure groups of earlier parts. *)
Record Placed := {
  placed_ids : gset string; placed_origins : gset string; placed_hosts : gset string;
  assigned_groups : gset string }.

Definition nothing_placed : Placed :=
  {| placed_ids := ∅; placed_origins := ∅; placed_hosts := ∅; assigned_groups := ∅ |}.

Section Receipts.
Context `{PoolLib}.
Local Open Scope wb_scope.

Definition derive_profile (m : Manifest) (permit_loopback : bool) : result Error Profile :=
  if bool_decide (manifest_profile m = "tor"%string) && negb permit_loopback then Ok TorOnly
  else if bool_decide (manifest_profile m = "direct"%string) && permit_loopback
  then Ok LoopbackDevelopment
  else if bool_decide (manifest_profile m = "direct"%string) then Ok DirectHttps
  else Err invalid.

(** The first block of checks, on the event, the payload and the request. *)
Definition header_ok (event : Event) (m : Manifest) (revision expires_at now : Z) : bool :=
  (ev_kind event =? 30078) && (ev_created_at event <=? now)
  && bool_decide (manifest_type m = "wildbloom.pool"%string) && (manifest_version m =? 1)
  && canonical_hex (payload_sha256 (payload m)) 32
  && bool_decide (payload_encryption (payload m) = "forgesworn-aes-256-gcm-chunked-v2"%string)
  && negb (payload_size (payload m) =? 0) && (payload_size (payload m) <=? 258 * 1024 * 1024)
  && negb (required m =? 0)%nat && (total m <=? 16)%nat && (length (parts m) =? total m)%nat
  && negb (revision =? 0) && (now <? expires_at) && (expires_at - now <=? 365 * 86400).

Definition is_erasure (m : Manifest) : bool := bool_decide (manifest_mode m = "erasure"%string).

(** The shape each mode allows. *)
Definition mode_ok (m : Manifest) : bool :=
  if is_erasure m
  then negb (required m <? 2)%nat && (required m <? total m)%nat && (copies m =? 1)
       && (Z.of_nat (required m) <=? payload_size (payload m))
  else bool_decide (manifest_mode m = "replicas"%string) && (required m =? 1)%nat
       && (total m =? 1)%nat && in_range 2 (copies m) 3.

Definition pool_tag (m : Manifest) : list string :=
  ["d"; String.append "wildbloom.pool.v1:" (payload_sha256 (payload m))]%string.

(** The checks on one part before its nodes are looked at. *)
Definition part_ok (m : Manifest) (index : nat) (part : Part) : bool :=
  (part_index part =? index)%nat && canonical_hex (part_sha256 part) 32
  && (part_size part =? div_ceil (payload_size (payload m)) (Z.of_nat (required m)))
  && (is_erasure m || bool_decide (part_sha256 part = payload_sha256 (payload m)))
  && negb (bool_decide (part_targets part = [])).

Definition pool_target (node : Node) : Target :=
  {| target_id := node_id node; target_origin := node_origin node; failure_group := node_group node;
     retention := Owner |}.

(** The host that must not repeat: with loopback consent the whole origin,
    since every node is then on the same host. *)
Definition node_host (permit_loopback : bool) (node : Node) (url : Url) : result Error string :=
  if permit_loopback then Ok (node_origin node) else ok_or (host_str url) invalid.

Definition node_ok (p : Profile) (node : Node) (url : Url) (host : string) (seen : Placed)
    (groups : gset string) : bool :=
  identifier (node_id node) && (slen (node_id node) <=? 40)
  && identifier (node_group node) && (slen (node_group node) <=? 40)
  && in_range 1 (node_weight node) 1000 && (slen (node_origin node) <=? 256)
  && bool_decide (as_str url = node_origin node) && accepts p url
  && bool_decide (node_id node ∉ placed_ids seen)
  && bool_decide (node_origin node ∉ placed_origins seen)
  && bool_decide (host ∉ placed_hosts seen)
  && (Z.of_nat (size ({[node_id node]} ∪ placed_ids seen)) <=? 16)
  && bool_decide (node_group node ∉ assigned_groups seen)
  && bool_decide (node_group node ∉ groups).

(** [for node in &part.targets]. *)
Fixpoint place_nodes (p : Profile) (permit_loopback : bool) (seen : Placed) (groups : gset string)
    (nodes : list Node) : result Error (Placed * gset string) :=
  match nodes with
  | [] => Ok (seen, groups)
  | node :: nodes =>
      let? url := ok_or (url_parse (node_origin node)) invalid in
      let? host := node_host permit_loopback node url in
      if negb (node_ok p node url host seen groups) then Err invalid
      else
        place_nodes p permit_loopback
          {| placed_ids := {[node_id node]} ∪ placed_ids seen;
             placed_origins := {[node_origin node]} ∪ placed_origins seen;
             placed_hosts := {[host]} ∪ placed_hosts seen;
             assigned_groups := assigned_groups seen |}
          ({[node_group node]} ∪ groups) nodes
  end.

Definition part_policy (m : Manifest) (id : string) (p : Profile) (revision expires_at : Z)
    (index : nat) (part : Part) : Policy :=
  {| policy_type := "wildbloom.replica-policy"; policy_version := 1;
     policy_id := String.append "pool-" (String.append (String.substring 0 40 id)
                    (String.append "-" (decimal (Z.of_nat index))));
     ReplicaPolicy.revision := revision; policy_expires := expires_at; profile := p;
     desired_groups := copies m; targets := map pool_target (part_targets part);
     blobs := [{| blob_sha256 := part_sha256 part; blob_size := part_size part |}] |}.

(** [for (index, part) in manifest.parts.iter().enumerate()]. *)
Fixpoint place_parts (m : Manifest) (id own : string) (p : Profile) (permit_loopback : bool)
    (revision expires_at now : Z) (seen : Placed) (index : nat) (ps : list Part)
    : result Error (list UnsignedEvent) :=
  match ps with
  | [] => Ok []
  | part :: ps =>
      if negb (part_ok m index part) then Err invalid
      else
        let? (seen, groups) := place_nodes p permit_loopback seen ∅ (part_targets part) in
        let seen := {| placed_ids := placed_ids seen; placed_origins := placed_origins seen;
                       placed_hosts := placed_hosts seen;
                       assigned_groups := groups ∪ assigned_groups seen |} in
        let? event := map_err EPolicy
                        (policy_template (part_policy m id p revision expires_at index part) own now) in
        let? policies := place_parts m id own p permit_loopback revision expires_at now seen (S index) ps in
        Ok (event :: policies)
  end.

Definition templates (bytes own : string) (revision expires_at now : Z) (permit_loopback : bool)
    : result Error Templates :=
  let? event := map_err EPolicy (signed_event bytes own RECEIPT_BYTES) in
  let? m := ok_or (manifest_from_json (ev_content event)) invalid in
  if negb (header_ok event m revision expires_at now) then Err invalid
  else if negb (mode_ok m) then Err invalid
  else if negb (bool_decide (ev_tags event = [pool_tag m])) then Err invalid
  else
    let? p := derive_profile m permit_loopback in
    let? policies := place_parts m (ev_id event) own p permit_loopback revision expires_at now
                       nothing_placed 0 (parts m) in
    Ok {| receipt_id := ev_id event; tmpl_mode := manifest_mode m; required_parts := required m;
          total_parts := total m; reconstructs_ciphertext := false; storage_verified := false;
          unsigned_policies := policies |}.

Definition receipt (bytes own expected_id : string) (now : Z) (permit_loopback : bool)
    : result Error (Manifest * Profile) :=
  let? validated := templates bytes own 1 (saturating_add now 3600) now permit_loopback in
  if negb (bool_decide (receipt_id validated = expected_id)) then Err invalid
  else
    let? event := map_err EPolicy (signed_event bytes own RECEIPT_BYTES) in
    let? m := ok_or (manifest_from_json (ev_content event)) invalid in
    let? p := derive_profile m permit_loopback in
    Ok (m, p).
End Receipts.
