(* ===== verification/PoolTransport.v ===== *)
(** * Replicas: the HTTP transport

    Models the rest of [crates/wildbloomd/src/replicas/transport.rs]: building a
    client for a profile ([HttpTransport::new]), resolving a target's origin,
    the streaming reads of [verify] and [download], [upload], the response
    checks of [mirror], and which addresses a public name may resolve to
    ([public_ip]).  A response is its status, its declared length and its body
    as the chunks the client library hands over, with [None] for a chunk that
    fails; what a server answers and which local file operations fail is
    arbitrary.

    [Transport] is what the coordinator and the pool repair see of it, and
    [TransportLaws] what they rely on. *)
From S2P Require Import Prelude Coding ReplicaPolicy ReplicaState.

Inductive DownloadError := Remote (e : NetworkFailure) | LocalStorage.

(** ** The interface *)

(** The operations of the [Transport] trait over the state of the outside: a
    download returns the contents of the file it wrote, an upload takes the
    contents of its file ([None]: no such file). *)
Record Transport (E : Type) := {
  t_verify : Target -> Blob -> E -> result NetworkFailure unit * E;
  t_mirror : Target -> Target -> Blob -> string -> E -> result NetworkFailure unit * E;
  t_download : Target -> Blob -> E -> result DownloadError (list byte) * E;
  t_upload : Target -> Blob -> option (list byte) -> string -> E -> result NetworkFailure unit * E
}.
Arguments t_verify {E}.
Arguments t_mirror {E}.
Arguments t_download {E}.
Arguments t_upload {E}.

(** A completed download is exactly the blob that was asked for. *)
Class TransportLaws {E : Type} (hex_sha256 : list byte -> string) (t : Transport E) := {
  download_is_blob : forall target b e bytes e',
    t_download t target b e = (Ok bytes, e') ->
    hex_sha256 bytes = blob_sha256 b /\ Z.of_nat (length bytes) = blob_size b
}.

(** A stop policy is carried out without any network. *)
Definition DisabledTransport {E} : Transport E :=
  {| t_verify _ _ e := (Err Refused, e); t_mirror _ _ _ _ e := (Err Refused, e);
     t_download _ _ e := (Err (Remote Refused), e); t_upload _ _ _ _ e := (Err Refused, e) |}.

(** ** The client *)

Record Response := { status : Z; content_length : option Z; chunks : list (option (list byte)) }.

(** The reply of a mirror request. *)
Record Descriptor := {
  d_url : string; d_sha256 : string; d_size : Z; d_media_type : string; d_uploaded : Z }.

Class HttpOutside (E : Type) := {
  http_get : string -> E -> option Response * E;
  (** A PUT of a JSON body, by url, authorisation and body. *)
  http_put_json : string -> string -> string -> E -> option Response * E;
  (** A PUT of a file, by url, authorisation, hash and length: the status of the
      response if one came, and the bytes the file's reads returned to the
      request body until then. *)
  http_put_file : string -> string -> string -> Z -> list byte -> E -> (option Z * list byte) * E;
  file_ok : E -> bool * E
}.

Class HttpLib := {
  hex_sha256 : list byte -> string;
  (** [Url::join], and [HeaderValue::from_str] succeeds. *)
  url_join : Url -> string -> option string;
  header_value : string -> bool;
  mirror_body : string -> string;
  descriptor_from_json : list byte -> option Descriptor;
  (** The literal in a proxy's host, without brackets, is a loopback address. *)
  loopback_literal : string -> bool;
  proxy_ok : string -> bool;
  client_ok : bool
}.

(** [HttpTransport::new]: the profile the client is bound to. *)
Section New.
Context `{HttpLib}.

Definition bare_loopback_socks (proxy : Url) : bool :=
  bool_decide (scheme proxy = "socks5h"%string)
  && match host_str proxy with Some host => loopback_literal host | None => false end
  && match port proxy with Some p => negb (p =? 0) | None => false end
  && (bool_decide (path proxy = "/"%string) || is_empty (path proxy))
  && is_empty (username proxy) && negb (bool_decide (is_Some (password proxy)))
  && negb (bool_decide (is_Some (query proxy))) && negb (bool_decide (is_Some (fragment proxy))).

Definition conflicting : string :=
  "selected transport conflicts with the supplied proxy or development consent".

Definition new_transport (p : Profile) (proxy : option Url) (permit_loopback : bool)
    : result string Profile :=
  let? _ := match p, proxy with
            | DirectHttps, None => Ok tt
            | TorOnly, None => Err "Tor-only maintenance needs an explicit loopback socks5h proxy"%string
            | TorOnly, Some proxy =>
                if negb (bare_loopback_socks proxy)
                then Err "Tor-only maintenance needs a bare loopback socks5h proxy"%string
                else if proxy_ok (as_str proxy) then Ok tt else Err "invalid Tor proxy"%string
            | LoopbackDevelopment, None => if permit_loopback then Ok tt else Err conflicting
            | _, _ => Err conflicting
            end in
  if client_ok then Ok p else Err "could not configure replica client"%string.
End New.

Section Http.
Context `{PolicyLib, L : HttpLib} {E : Type} `{Out : !HttpOutside E}.
Variable client_profile : Profile.
Local Open Scope wb_scope.

Definition origin (target : Target) : result NetworkFailure Url :=
  let? url := ok_or (url_parse (target_origin target)) Refused in
  if negb (accepts client_profile url) then Err Refused else Ok url.

Definition blob_url (target : Target) (what : string) : result NetworkFailure string :=
  let? url := origin target in ok_or (url_join url what) Refused.

Definition hask {X A} (f : E -> A * E) : SM E X A := fun e => let (a, e) := f e in (Ok a, e).

(** [while let Some(chunk) = response.chunk().await...], hashing only. *)
Fixpoint receive (size : Z) (received : Z) (hashed : list byte) (cs : list (option (list byte)))
    : result NetworkFailure (Z * list byte) :=
  match cs with
  | [] => Ok (received, hashed)
  | None :: _ => Err InvalidBytes
  | Some chunk :: cs =>
      let? received := ok_or (checked_add received (Z.of_nat (length chunk))) InvalidBytes in
      if size <? received then Err InvalidBytes else receive size received (hashed ++ chunk) cs
  end.

Definition verify_http (target : Target) (b : Blob) : SM E NetworkFailure unit :=
  let! url := lift (blob_url target (blob_sha256 b)) in
  let! response := hask (http_get url) in
  let! response := lift (ok_or response Unreachable) in
  if negb (status response =? 200) then throw Unavailable
  else if negb (bool_decide (content_length response = Some (blob_size b))) then throw InvalidBytes
  else
    let! (received, hashed) := lift (receive (blob_size b) 0 [] (chunks response)) in
    if negb (received =? blob_size b) || negb (bool_decide (hex_sha256 hashed = blob_sha256 b))
    then throw InvalidBytes else ret tt.

(** The same loop writing each chunk; the file holds what was hashed. *)
Definition local {A} (a : A) : SM E DownloadError A :=
  let! ok := hask file_ok in if ok : bool then ret a else throw LocalStorage.

Fixpoint save_chunks (size : Z) (received : Z) (written : list byte) (cs : list (option (list byte)))
    : SM E DownloadError (Z * list byte) :=
  match cs with
  | [] => ret (received, written)
  | None :: _ => throw (Remote InvalidBytes)
  | Some chunk :: cs =>
      let! received := lift (ok_or (checked_add received (Z.of_nat (length chunk)))
                               (Remote InvalidBytes)) in
      if size <? received then throw (Remote InvalidBytes)
      else let! _ := local tt in save_chunks size received (written ++ chunk) cs
  end.

Definition download_http (target : Target) (b : Blob) : SM E DownloadError (list byte) :=
  let! url := lift (map_err Remote (blob_url target (blob_sha256 b))) in
  let! response := hask (http_get url) in
  let! response := lift (ok_or response (Remote Unreachable)) in
  if negb (status response =? 200) || negb (bool_decide (content_length response = Some (blob_size b)))
  then throw (Remote InvalidBytes)
  else
    let! _ := local tt in
    let! (received, written) := save_chunks (blob_size b) 0 [] (chunks response) in
    let! _ := local tt in
    if negb (received =? blob_size b) || negb (bool_decide (hex_sha256 written = blob_sha256 b))
    then throw (Remote InvalidBytes) else ret written.

Definition ok_status (s : Z) : bool := (s =? 200) || (s =? 201).

Definition upload_http (target : Target) (b : Blob) (file : option (list byte)) (authorization : string)
    : SM E NetworkFailure unit :=
  let! url := lift (blob_url target "upload") in
  let! opened := hask file_ok in
  let! bytes := lift (ok_or (if opened : bool then file else None) Refused) in
  let! metadata := hask file_ok in
  if negb metadata then throw Refused
  else if negb (Z.of_nat (length bytes) =? blob_size b) then throw InvalidBytes
  else if negb (header_value authorization) then throw Refused
  else
    let! (response, observed) :=
      hask (http_put_file url authorization (blob_sha256 b) (blob_size b) bytes) in
    let! s := lift (ok_or response Unreachable) in
    if negb (ok_status s) then throw Refused
    else if negb (bool_decide (hex_sha256 observed = blob_sha256 b)) then throw InvalidBytes
    else ret tt.

(** The body of a mirror reply, at most 16 KiB. *)
Fixpoint reply_body (body : list byte) (cs : list (option (list byte)))
    : result NetworkFailure (list byte) :=
  match cs with
  | [] => Ok body
  | None :: _ => Err InvalidResponse
  | Some chunk :: cs =>
      if 16 * 1024 <? saturating_add (Z.of_nat (length body)) (Z.of_nat (length chunk))
      then Err InvalidResponse else reply_body (body ++ chunk) cs
  end.

Definition descriptor_ok (b : Blob) (d : Descriptor) (url : Url) : bool :=
  bool_decide (d_sha256 d = blob_sha256 b) && (d_size d =? blob_size b) && (slen (d_url d) <=? 2048)
  && (slen (d_media_type d) <=? 255) && negb (d_uploaded d =? 0)
  && (bool_decide (scheme url = "http"%string) || bool_decide (scheme url = "https"%string))
  && bool_decide (is_Some (host_str url)) && is_empty (username url)
  && negb (bool_decide (is_Some (password url))).

Definition mirror_http (target source : Target) (b : Blob) (authorization : string)
    : SM E NetworkFailure unit :=
  let! endpoint := lift (blob_url target "mirror") in
  let! source := lift (blob_url source (blob_sha256 b)) in
  if negb (header_value authorization) then throw Refused
  else
    let! response := hask (http_put_json endpoint authorization (mirror_body source)) in
    let! response := lift (ok_or response Unreachable) in
    if negb (ok_status (status response)) then throw Refused
    else
      let! body := lift (reply_body [] (chunks response)) in
      let! d := lift (ok_or (descriptor_from_json body) InvalidResponse) in
      let! url := lift (ok_or (url_parse (d_url d)) InvalidResponse) in
      if descriptor_ok b d url then ret tt else throw InvalidResponse.

(** [impl Transport for HttpTransport]. *)
Definition HttpTransport : Transport E :=
  {| t_verify := verify_http; t_mirror := mirror_http; t_download := download_http;
     t_upload := upload_http |}.
End Http.

(** ** Addresses *)

(** The four octets of an IPv4 address, the eight segments of an IPv6 one. *)
Inductive IpAddr := V4 (a b c d : Z) | V6 (segments : list Z).

Definition public_ipv4 (a b c : Z) : bool :=
  negb ((a =? 0) || (a =? 10) || (a =? 127) || (224 <=? a)
        || ((a =? 100) && in_range 64 b 127)
        || ((a =? 169) && (b =? 254))
        || ((a =? 172) && in_range 16 b 31)
        || ((a =? 192) && (b =? 0) && ((c =? 0) || (c =? 2)))
        || ((a =? 192) && (b =? 88) && (c =? 99))
        || ((a =? 192) && (b =? 168))
        || ((a =? 198) && ((b =? 18) || (b =? 19) || ((b =? 51) && (c =? 100))))
        || ((a =? 203) && (b =? 0) && (c =? 113))).

(** [Ipv6Addr::to_ipv4_mapped]: [::ffff:a.b.c.d]. *)
Definition to_ipv4_mapped (s : list Z) : option (Z * Z * Z * Z) :=
  match s with
  | [0; 0; 0; 0; 0; 0xffff; ab; cd] =>
      Some (Z.shiftr ab 8, Z.land ab 0xff, Z.shiftr cd 8, Z.land cd 0xff)
  | _ => None
  end.

Definition public_ipv6 (s : list Z) : bool :=
  match to_ipv4_mapped s with
  | Some (a, b, c, _) => public_ipv4 a b c
  | None =>
      let s0 := s !!! 0%nat in
      let s1 := s !!! 1%nat in
      (Z.land s0 0xe000 =? 0x2000)
      && negb ((s0 =? 0x2001) && ((s1 <? 0x0200) || (s1 =? 0x0db8)))
      && negb (s0 =? 0x2002)
      && negb ((s0 =? 0x3fff) && (s1 <? 0x1000))
  end.

Definition public_ip (ip : IpAddr) : bool :=
  match ip with V4 a b c _ => public_ipv4 a b c | V6 s => public_ipv6 s end.

(** [PublicResolver]: the addresses of a name that may be contacted. *)
Definition resolve (lookup : option (list IpAddr)) : option (list IpAddr) :=
  match lookup with
  | None => None
  | Some addresses =>
      match List.filter public_ip addresses with [] => None | l => Some l end
  end.
