(* ===== verification/PoolTransportProofs.v ===== *)
(** * Replicas: what the HTTP transport promises

    Streaming reads accept exactly the blob that was asked for, however the
    server cuts its response into chunks; [HttpTransport] meets
    [TransportLaws]; and the resolver hands out no reserved address, by the
    list of reserved blocks. *)
From S2P Require Import Prelude Coding ReplicaPolicy ReplicaState PoolTransport.

(** ** Streams *)

(** The bytes of a response whose chunks all arrive. *)
Fixpoint body (cs : list (option (list byte))) : option (list byte) :=
  match cs with
  | [] => Some []
  | None :: _ => None
  | Some c :: cs => match body cs with Some b => Some (c ++ b) | None => None end
  end.

(** The streaming loop accepts a body within [size], and only that. *)
Lemma receive_iff size cs : forall received hashed r h,
  0 <= received <= size -> size <= U64_MAX ->
  receive size received hashed cs = Ok (r, h) <->
  exists b, body cs = Some b /\ h = hashed ++ b /\ r = received + Z.of_nat (length b) /\ r <= size.
Proof.
  induction cs as [|[c|] cs IH]; intros received hashed r h Hr Hs; cbn [receive body].
  - split.
    + intros [= <- <-]. exists []. rewrite app_nil_r. cbn. split_and!; done || lia.
    + intros (b & [= <-] & -> & -> & _). rewrite app_nil_r. cbn. f_equal. f_equal. lia.
  - unfold checked_add. destruct (Z.leb_spec (received + Z.of_nat (length c)) U64_MAX) as [Hc|Hc]; cbn [ok_or].
    2:{ split; [done|]. intros (b & Hb & _ & -> & Hle). destruct (body cs) as [b'|]; [|done].
        injection Hb as <-. rewrite length_app in Hle. lia. }
    destruct (Z.ltb_spec size (received + Z.of_nat (length c))) as [Hlt|Hge].
    { split; [done|]. intros (b & Hb & _ & -> & Hle). destruct (body cs) as [b'|]; [|done].
      injection Hb as <-. rewrite length_app in Hle. lia. }
    rewrite IH by lia. destruct (body cs) as [b'|]; [|split; [intros (?&?&_)|intros (?&?&_)]; done].
    split.
    + intros (b & [= <-] & -> & -> & Hle). exists (c ++ b'). rewrite length_app, <- app_assoc. split_and!; done || lia.
    + intros (b & [= <-] & -> & -> & Hle). exists b'. rewrite length_app in *. rewrite <- app_assoc. split_and!; done || lia.
  - split; [done|]. by intros (b & ? & _).
Qed.

Lemma receive_ok size cs : forall received hashed r h,
  receive size received hashed cs = Ok (r, h) ->
  exists b, h = hashed ++ b /\ r = received + Z.of_nat (length b).
Proof.
  induction cs as [|[c|] cs IH]; intros received hashed r h; cbn [receive]; [| |done].
  - intros [= <- <-]. exists []. rewrite app_nil_r. cbn. split; [done|lia].
  - unfold checked_add. destruct (_ <=? U64_MAX); [|done]. cbn [ok_or]. destruct (_ <? _); [done|].
    intros (b & -> & ->)%IH. exists (c ++ b). rewrite length_app, app_assoc. split; [done|lia].
Qed.

Section Http.
Context `{PolicyLib, L : HttpLib} {E : Type} `{Out : !HttpOutside E}.
Variable client_profile : Profile.

(** The blob [b], whole: the declared length, the length and the hash. *)
Definition is_blob (b : Blob) (bytes : list byte) : Prop :=
  hex_sha256 bytes = blob_sha256 b /\ Z.of_nat (length bytes) = blob_size b.

(** A 200 response that declares the blob's length and streams the blob. *)
Definition serves (b : Blob) (response : Response) (bytes : list byte) : Prop :=
  status response = 200 /\ content_length response = Some (blob_size b) /\
  body (chunks response) = Some bytes /\ is_blob b bytes.

Lemma verify_http_iff target b e e' :
  0 <= blob_size b <= U64_MAX ->
  verify_http client_profile target b e = (Ok tt, e') <->
  exists url response bytes, blob_url client_profile target (blob_sha256 b) = Ok url /\
    http_get url e = (Some response, e') /\ serves b response bytes.
Proof.
  intros Hb. unfold verify_http, bind, lift, hask, throw, ret.
  destruct (blob_url client_profile target (blob_sha256 b)) as [url|];
    [|split; [done|by intros (? & ? & ? & ? & _)]].
  destruct (http_get url e) as [[response|] e1] eqn:Eg; cbn [ok_or].
  2:{ split; [done|]. intros (? & ? & ? & [= <-] & E' & _). congruence. }
  assert (forall (P : Prop), (P <-> exists bytes, e1 = e' /\ serves b response bytes) ->
    (P <-> exists url0 response0 bytes, Ok (E := NetworkFailure) url = Ok url0 /\
       http_get url0 e = (Some response0, e') /\ serves b response0 bytes)) as Hred.
  { intros P ->. split.
    - intros (bytes & -> & Hs). eauto 6.
    - intros (u & r & bytes & [= <-] & Er & Hs). rewrite Eg in Er. injection Er as -> ->. eauto. }
  apply Hred. clear Hred. unfold serves.
  destruct (Z.eqb_spec (status response) 200) as [Es|Es]; cbn [negb];
    [|split; [done|by intros (? & _ & ? & _)]].
  destruct (bool_decide_reflect (content_length response = Some (blob_size b))) as [El|El]; cbn [negb];
    [|split; [done|by intros (? & _ & _ & ? & _)]].
  destruct (receive (blob_size b) 0 [] (chunks response)) as [[r h]|] eqn:Er.
  - apply receive_iff in Er as (bytes & Hbody & -> & -> & Hle); [|lia|lia]. cbn [app]. rewrite Z.add_0_l.
    destruct (Z.eqb_spec (Z.of_nat (length bytes)) (blob_size b)) as [Ez|Ez]; cbn [negb orb].
    + destruct (bool_decide_reflect (hex_sha256 bytes = blob_sha256 b)) as [Eh|Eh]; cbn [negb].
      * split; [intros [= <-]; exists bytes; done|]. by intros (b' & -> & _).
      * split; [done|]. intros (b' & _ & _ & _ & Hb' & Hh & _). congruence.
    + split; [done|]. intros (b' & _ & _ & _ & Hb' & _ & Hl). congruence.
  - split; [done|]. intros (bytes & _ & _ & _ & Hbody & _ & Hl).
    assert (receive (blob_size b) 0 [] (chunks response) = Ok (Z.of_nat (length bytes), bytes)) as Hc.
    { apply receive_iff; [lia|lia|]. exists bytes. split_and!; done || lia. }
    congruence.
Qed.

(** The loop of a download writes what the loop of a read hashes. *)
Lemma save_chunks_ok size cs : forall received written r h e e',
  save_chunks size received written cs e = (Ok (r, h), e') ->
  receive size received written cs = Ok (r, h).
Proof.
  induction cs as [|[c|] cs IH]; intros received written r h e e'; cbn [save_chunks receive].
  - intros [= <- <- _]. done.
  - unfold bind at 1, lift. destruct (checked_add _ _) as [n|]; cbn [ok_or]; [|done].
    destruct (size <? n); [done|]. unfold bind at 1, local, bind at 1, hask.
    destruct (file_ok e) as [[] e1]; cbn; [|done]. apply IH.
  - done.
Qed.

Lemma local_ok {A} (a : A) e r e' : local a e = (Ok r, e') -> r = a.
Proof. unfold local, bind, hask. destruct (file_ok e) as [[] e1]; [|done]. by intros [= <- _]. Qed.

Lemma bind_ok {S X A B} (c : SM S X A) (k : A -> SM S X B) s b s' :
  bind c k s = (Ok b, s') -> exists a s1, c s = (Ok a, s1) /\ k a s1 = (Ok b, s').
Proof. unfold bind. destruct (c s) as [[a|x] s1]; [eauto|done]. Qed.

Lemma download_http_ok target b e bytes e' :
  download_http client_profile target b e = (Ok bytes, e') -> is_blob b bytes.
Proof.
  unfold download_http. intros (url & e1 & _ & H1)%bind_ok.
  apply bind_ok in H1 as (response & e2 & _ & H2). apply bind_ok in H2 as (resp & e3 & _ & H3).
  destruct (_ || _); [done|]. apply bind_ok in H3 as ([] & e4 & _ & H4).
  apply bind_ok in H4 as ([r h] & e5 & Hs & H5). apply save_chunks_ok, receive_ok in Hs as (bs & -> & ->).
  apply bind_ok in H5 as ([] & e6 & _ & H6). cbn [app] in H6. rewrite Z.add_0_l in H6.
  destruct (Z.eqb_spec (Z.of_nat (length bs)) (blob_size b)); cbn in H6; [|done].
  destruct (bool_decide_reflect (hex_sha256 bs = blob_sha256 b)); cbn in H6; [|done].
  injection H6 as <- _. done.
Qed.

Lemma download_http_serves target b e bytes e' :
  0 <= blob_size b <= U64_MAX ->
  download_http client_profile target b e = (Ok bytes, e') ->
  exists url response e1, blob_url client_profile target (blob_sha256 b) = Ok url /\
    http_get url e = (Some response, e1) /\ serves b response bytes.
Proof.
  intros Hb. unfold download_http. intros (url & e1 & Hu & H1)%bind_ok.
  apply bind_ok in H1 as (response & e2 & Hg & H2). apply bind_ok in H2 as (resp & e3 & Hr & H3).
  injection Hu as Hu <-. injection Hr as Hr ->. destruct response as [response|]; [|done]. injection Hr as ->.
  unfold hask in Hg. destruct (http_get url e) as [a e4] eqn:Eg. injection Hg as -> ->.
  exists url, resp, e3. destruct (blob_url _ _ _) as [u|]; [|done]. injection Hu as ->.
  split; [done|]. split; [done|].
  destruct (Z.eqb_spec (status resp) 200); cbn [negb orb] in H3; [|done].
  destruct (bool_decide_reflect (content_length resp = Some (blob_size b))); cbn [negb orb] in H3; [|done].
  apply bind_ok in H3 as ([] & e5 & _ & H4). apply bind_ok in H4 as ([r h] & e6 & Hs & H5).
  apply save_chunks_ok, receive_iff in Hs as (bs & Hbody & -> & -> & _); [|lia|lia].
  apply bind_ok in H5 as ([] & e7 & _ & H6). cbn [app] in H6. rewrite Z.add_0_l in H6.
  destruct (Z.eqb_spec (Z.of_nat (length bs)) (blob_size b)); cbn in H6; [|done].
  destruct (bool_decide_reflect (hex_sha256 bs = blob_sha256 b)); cbn in H6; [|done].
  injection H6 as <- _. done.
Qed.

#[export] Instance http_transport_laws : TransportLaws hex_sha256 (HttpTransport client_profile).
Proof. split. intros target b e bytes e' Hd. exact (download_http_ok _ _ _ _ _ Hd). Qed.

(** An upload that succeeds sent the blob. *)
Lemma upload_http_ok target b file authorization e e' :
  upload_http client_profile target b file authorization e = (Ok tt, e') ->
  exists bytes url s observed e1, file = Some bytes /\ Z.of_nat (length bytes) = blob_size b /\
    blob_url client_profile target "upload" = Ok url /\
    http_put_file url authorization (blob_sha256 b) (blob_size b) bytes e1 = ((Some s, observed), e') /\
    ok_status s = true /\ hex_sha256 observed = blob_sha256 b.
Proof.
  unfold upload_http. intros (url & e1 & Hu & H1)%bind_ok. injection Hu as Hu <-.
  apply bind_ok in H1 as (opened & e2 & _ & H2). apply bind_ok in H2 as (bytes & e3 & Hf & H3).
  injection Hf as Hf ->. apply bind_ok in H3 as (meta & e4 & _ & H4).
  destruct meta; cbn [negb] in H4; [|done].
  destruct (Z.eqb_spec (Z.of_nat (length bytes)) (blob_size b)) as [El|]; cbn [negb] in H4; [|done].
  destruct (header_value authorization); cbn [negb] in H4; [|done].
  apply bind_ok in H4 as ([response observed] & e5 & Hp & H5). unfold hask in Hp.
  destruct (http_put_file _ _ _ _ _ e4) as [a e6] eqn:Ep. injection Hp as -> ->.
  apply bind_ok in H5 as (s & e6 & Hs & H6). injection Hs as Hs ->.
  destruct response as [s'|]; [|done]. injection Hs as ->.
  destruct (ok_status s) eqn:Eo; cbn [negb] in H6; [|done].
  destruct (bool_decide_reflect (hex_sha256 observed = blob_sha256 b)); cbn [negb] in H6; [|done].
  injection H6 as <-. destruct opened; [|done]. destruct file as [f|]; [|done]. injection Hf as ->.
  exists bytes, url, s, observed, e4. by split_and!.
Qed.
End Http.

(** ** Addresses *)

(** The blocks of IPv4 addresses that are not global unicast: base and prefix
    length. *)
Definition reserved_v4 : list (Z * Z * Z * Z * Z) :=
  [(0, 0, 0, 0, 8); (10, 0, 0, 0, 8); (100, 64, 0, 0, 10); (127, 0, 0, 0, 8); (169, 254, 0, 0, 16);
   (172, 16, 0, 0, 12); (192, 0, 0, 0, 24); (192, 0, 2, 0, 24); (192, 88, 99, 0, 24);
   (192, 168, 0, 0, 16); (198, 18, 0, 0, 15); (198, 51, 100, 0, 24); (203, 0, 113, 0, 24);
   (224, 0, 0, 0, 4); (240, 0, 0, 0, 4)].

Definition v4_number (a b c d : Z) : Z := ((a * 256 + b) * 256 + c) * 256 + d.

Definition in_block (a b c d : Z) (block : Z * Z * Z * Z * Z) : bool :=
  let '(p, q, r, s, len) := block in
  Z.shiftr (v4_number a b c d) (32 - len) =? Z.shiftr (v4_number p q r s) (32 - len).

Definition octet (a : Z) : Prop := 0 <= a < 256.

(** [lia] with divisions by constants. *)
Ltac euclid := Z.to_euclidean_division_equations; lia.

(** A block of prefix length 8, 16 or 24 fixes whole octets. *)
Lemma v4_shift_8 a b c d : octet b -> octet c -> octet d -> Z.shiftr (v4_number a b c d) 24 = a.
Proof. unfold octet, v4_number. intros. rewrite Z.shiftr_div_pow2 by lia. change (2 ^ 24) with 16777216. euclid. Qed.

Lemma v4_shift_16 a b c d : octet c -> octet d -> Z.shiftr (v4_number a b c d) 16 = a * 256 + b.
Proof. unfold octet, v4_number. intros. rewrite Z.shiftr_div_pow2 by lia. change (2 ^ 16) with 65536. euclid. Qed.

Lemma v4_shift_24 a b c d : octet d -> Z.shiftr (v4_number a b c d) 8 = (a * 256 + b) * 256 + c.
Proof. unfold octet, v4_number. intros. rewrite Z.shiftr_div_pow2 by lia. change (2 ^ 8) with 256. euclid. Qed.

(** The others are cut from an octet by a further shift. *)
Lemma v4_shift_more a b c d k j :
  0 <= k -> 0 <= j -> Z.shiftr (v4_number a b c d) (k + j) = Z.shiftr (v4_number a b c d) k / 2 ^ j.
Proof. intros. rewrite <- Z.shiftr_shiftr by lia. by rewrite (Z.shiftr_div_pow2 _ j). Qed.

Lemma in_block_8 a b c d p : octet b -> octet c -> octet d ->
  in_block a b c d (p, 0, 0, 0, 8) = (a =? p).
Proof. intros. unfold in_block. cbn [Z.sub Z.add Z.opp Z.pos_sub]. rewrite !v4_shift_8; done. Qed.

Lemma in_block_16 a b c d p q : octet b -> octet c -> octet d -> octet q ->
  in_block a b c d (p, q, 0, 0, 16) = ((a =? p) && (b =? q)).
Proof.
  unfold octet. intros. unfold in_block. change (32 - 16) with 16. rewrite !v4_shift_16 by (unfold octet; lia).
  lia.
Qed.

Lemma in_block_24 a b c d p q r : octet b -> octet c -> octet d -> octet q -> octet r ->
  in_block a b c d (p, q, r, 0, 24) = ((a =? p) && (b =? q) && (c =? r)).
Proof.
  unfold octet. intros. unfold in_block. change (32 - 24) with 8. rewrite !v4_shift_24 by (unfold octet; lia).
  lia.
Qed.

Lemma public_ipv4_blocks a b c d : octet a -> octet b -> octet c -> octet d ->
  public_ipv4 a b c = negb (existsb (in_block a b c d) reserved_v4).
Proof.
  intros Ha Hb Hc Hd. unfold public_ipv4. f_equal. unfold reserved_v4. cbn [existsb].
  rewrite !in_block_8, !in_block_16, !in_block_24 by (done || (unfold octet; lia)).
  assert (in_block a b c d (100, 64, 0, 0, 10) = (a =? 100) && in_range 64 b 127) as ->.
  { unfold in_block, in_range. change (32 - 10) with (16 + 6). rewrite !v4_shift_more, !v4_shift_16
      by (done || lia). unfold octet in *. change (2 ^ 6) with 64. euclid. }
  assert (in_block a b c d (172, 16, 0, 0, 12) = (a =? 172) && in_range 16 b 31) as ->.
  { unfold in_block, in_range. change (32 - 12) with (16 + 4). rewrite !v4_shift_more, !v4_shift_16
      by (done || lia). unfold octet in *. change (2 ^ 4) with 16. euclid. }
  assert (in_block a b c d (198, 18, 0, 0, 15) = (a =? 198) && ((b =? 18) || (b =? 19))) as ->.
  { unfold in_block. change (32 - 15) with (16 + 1). rewrite !v4_shift_more, !v4_shift_16
      by (done || lia). unfold octet in *. change (2 ^ 1) with 2. euclid. }
  assert (in_block a b c d (224, 0, 0, 0, 4) || (in_block a b c d (240, 0, 0, 0, 4) || false) = (224 <=? a)) as ->.
  { unfold in_block. change (32 - 4) with (24 + 4). rewrite !v4_shift_more, !v4_shift_8
      by (done || lia). unfold octet in *. change (2 ^ 4) with 16. euclid. }
  destruct (Z.eqb_spec a 0) as [-> |_]; [done|]. destruct (Z.eqb_spec a 10) as [-> |_]; [done|].
  destruct (Z.eqb_spec a 127) as [-> |_]; [cbn; by destruct (in_range 64 b 127)|].
  destruct (Z.leb_spec 224 a) as [Hge|_].
  { rewrite !(proj2 (Z.eqb_neq a _)) by lia. done. }
  generalize (in_range 64 b 127) (in_range 16 b 31). intros r1 r2.
  destruct (Z.eqb_spec a 100) as [-> |_]; [cbn; by destruct r1|].
  destruct (Z.eqb_spec a 169) as [-> |_]; [cbn; by destruct (b =? 254)|].
  destruct (Z.eqb_spec a 172) as [-> |_]; [cbn; by destruct r2|].
  destruct (Z.eqb_spec a 192) as [-> |_];
    [cbn; by destruct (b =? 0), (b =? 88), (b =? 168), (c =? 0), (c =? 2), (c =? 99)|].
  destruct (Z.eqb_spec a 198) as [-> |_];
    [cbn; by destruct (b =? 18), (b =? 19), (b =? 51), (c =? 100)|].
  destruct (Z.eqb_spec a 203) as [-> |_]; [cbn; by destruct (b =? 0), (c =? 113)|]. done.
Qed.

Lemma unicast_segment s : 0 <= s < 65536 -> (Z.land s 0xe000 =? 0x2000) = true <-> 0x2000 <= s < 0x4000.
Proof.
  intros Hs. change 0xe000 with (Z.ldiff (Z.ones 16) (Z.ones 13)).
  assert (Z.land s (Z.ldiff (Z.ones 16) (Z.ones 13)) = Z.shiftl (Z.shiftr s 13) 13) as ->.
  { rewrite <- Z.ldiff_ones_r by lia. rewrite !Z.ldiff_land, Z.land_assoc.
    rewrite (Z.land_ones s 16), (Z.mod_small s) by lia. done. }
  rewrite Z.shiftl_mul_pow2, Z.shiftr_div_pow2, Z.eqb_eq by lia. change (2 ^ 13) with 8192. euclid.
Qed.
