(* ===== verification/PoolReceiptProofs.v ===== *)
(** * Pools: what an accepted receipt says

    The declarative reading of the receipt checks ([well_placed]): every node
    of an accepted receipt has its own id and its own failure group, and each
    part has nodes for the copies asked for.  From it, what the pool survives. *)
From S2P Require Import Prelude Coding ReplicaPolicy ReplicaState ReplicaPolicyProofs PoolReceipt.

Lemma size_list_to_set_le (l : list string) : (size (list_to_set l : gset string) <= length l)%nat.
Proof.
  induction l as [|x l IH]; cbn [list_to_set length]; [by rewrite size_empty|].
  rewrite size_union_alt, size_singleton.
  pose proof (subseteq_size (list_to_set l ∖ {[x]} : gset string) (list_to_set l) ltac:(set_solver)). lia.
Qed.

Definition all_nodes (m : Manifest) : list Node := concat (map part_targets (parts m)).

Record well_placed `{PolicyLib} (m : Manifest) (p : Profile) : Prop := {
  wl_parts : length (parts m) = total m;
  wl_total : (1 <= required m)%nat /\ (1 <= total m <= 16)%nat;
  wl_mode : (is_erasure m = true /\ params_ok (required m) (total m) /\ copies m = 1 /\
             Z.of_nat (required m) <= payload_size (payload m)) \/
            (is_erasure m = false /\ required m = 1%nat /\ total m = 1%nat /\ 2 <= copies m <= 3);
  wl_payload : payload_size (payload m) <> 0 /\ payload_size (payload m) <= 258 * 1024 * 1024;
  wl_index : forall i part, parts m !! i = Some part -> part_index part = i;
  wl_size : forall part, part ∈ parts m ->
    part_size part = div_ceil (payload_size (payload m)) (Z.of_nat (required m));
  wl_targets : forall part, part ∈ parts m -> part_targets part <> [];
  wl_copies : forall part, part ∈ parts m -> copies m <= Z.of_nat (length (part_targets part));
  wl_ids : NoDup (map node_id (all_nodes m));
  wl_groups : NoDup (map node_group (all_nodes m));
  wl_nodes : forall node, node ∈ all_nodes m ->
    exists url, url_parse (node_origin node) = Some url /\ as_str url = node_origin node /\
      accepts p url = true
}.

Section Placement.
Context `{PoolLib}.

Record nodes_placed (p : Profile) (seen : Placed) (gs : gset string) (ns : list Node)
    (seen' : Placed) (gs' : gset string) : Prop := {
  np_ids : NoDup (map node_id ns);
  np_ids_new : forall n, n ∈ ns -> node_id n ∉ placed_ids seen;
  np_ids_set : placed_ids seen' = list_to_set (map node_id ns) ∪ placed_ids seen;
  np_groups : NoDup (map node_group ns);
  np_groups_new : forall n, n ∈ ns -> node_group n ∉ assigned_groups seen /\ node_group n ∉ gs;
  np_groups_set : gs' = list_to_set (map node_group ns) ∪ gs;
  np_assigned : assigned_groups seen' = assigned_groups seen;
  np_origins : forall n, n ∈ ns ->
    exists url, url_parse (node_origin n) = Some url /\ as_str url = node_origin n /\ accepts p url = true
}.

(** The checks of one node that the placement rests on. *)
Lemma node_ok_inv p node url host seen gs :
  node_ok p node url host seen gs = true ->
  as_str url = node_origin node /\ accepts p url = true /\ node_id node ∉ placed_ids seen /\
  node_group node ∉ assigned_groups seen /\ node_group node ∉ gs.
Proof. unfold node_ok. rewrite !andb_true_iff, !bool_decide_eq_true. naive_solver. Qed.

Lemma place_nodes_placed p permit seen gs ns seen' gs' :
  place_nodes p permit seen gs ns = Ok (seen', gs') -> nodes_placed p seen gs ns seen' gs'.
Proof.
  revert seen gs; induction ns as [|n ns IH]; intros seen gs; cbn [place_nodes].
  { intros [= <- <-]. split; cbn; try set_solver; try constructor. }
  destruct (url_parse (node_origin n)) as [url|] eqn:Eu; [|done]. cbn [ok_or].
  destruct (node_host permit n url) as [host|]; [|done].
  destruct (node_ok p n url host seen gs) eqn:En; [|done]. cbn [negb].
  apply node_ok_inv in En as (Ho & Ha & Hi & Hg1 & Hg2).
  intros [I1 I2 I3 I4 I5 I6 I7 I8]%IH. cbn in *. split; cbn [map list_to_set].
  - constructor; [|done]. intros (n' & E & Hn')%list_elem_of_fmap. apply (I2 n' Hn'). set_solver.
  - intros n' [-> |Hn']%elem_of_cons; [done|]. specialize (I2 n' Hn'). set_solver.
  - rewrite I3. set_solver.
  - constructor; [|done]. intros (n' & E & Hn')%list_elem_of_fmap. apply (I5 n' Hn'). set_solver.
  - intros n' [-> |Hn']%elem_of_cons; [done|]. specialize (I5 n' Hn'). set_solver.
  - rewrite I6. set_solver.
  - done.
  - intros n' [-> |Hn']%elem_of_cons; [eauto|]. eauto.
Qed.

(** What the loop over parts accepts, from the sets [seen] at part [index]. *)
Record parts_placed (m : Manifest) (p : Profile) (seen : Placed) (index : nat) (ps : list Part) : Prop := {
  pp_index : forall i part, ps !! i = Some part -> part_index part = (index + i)%nat;
  pp_part : forall part, part ∈ ps ->
    part_size part = div_ceil (payload_size (payload m)) (Z.of_nat (required m)) /\
    part_targets part <> [] /\ copies m <= Z.of_nat (length (part_targets part));
  pp_ids : NoDup (map node_id (concat (map part_targets ps)));
  pp_groups : NoDup (map node_group (concat (map part_targets ps)));
  pp_new : forall n, n ∈ concat (map part_targets ps) ->
    node_id n ∉ placed_ids seen /\ node_group n ∉ assigned_groups seen;
  pp_origins : forall n, n ∈ concat (map part_targets ps) ->
    exists url, url_parse (node_origin n) = Some url /\ as_str url = node_origin n /\ accepts p url = true
}.


(** A validated policy has an owner target in as many groups as it asks for. *)
Lemma part_policy_copies m id p rev ex i part own n u :
  policy_template (part_policy m id p rev ex i part) own n = Ok u ->
  copies m <= Z.of_nat (length (part_targets part)).
Proof.
  intros (V & _)%policy_template_inv. apply vp_groups in V.
  cbn [desired_groups part_policy targets] in V. etransitivity; [exact V|].
  apply inj_le. unfold owner_groups.
  etransitivity; [apply size_list_to_set_le|]. rewrite length_map.
  etransitivity; [apply List.filter_length_le|]. by rewrite length_map.
Qed.

Lemma part_ok_inv m i part :
  part_ok m i part = true ->
  part_index part = i /\
  part_size part = div_ceil (payload_size (payload m)) (Z.of_nat (required m)) /\
  part_targets part <> [].
Proof.
  unfold part_ok. rewrite !andb_true_iff, negb_true_iff, bool_decide_eq_false, Nat.eqb_eq, Z.eqb_eq.
  naive_solver.
Qed.

Lemma place_parts_placed m id own p permit rev ex n seen i ps us :
  place_parts m id own p permit rev ex n seen i ps = Ok us -> parts_placed m p seen i ps.
Proof.
  revert seen i us; induction ps as [|part ps IH]; intros seen i us; cbn [place_parts].
  { intros _. split; cbn; try set_solver; constructor. }
  destruct (part_ok m i part) eqn:Ep; [|done]. cbn [negb].
  apply part_ok_inv in Ep as (Hi & Hs & Ht).
  destruct (place_nodes p permit seen ∅ (part_targets part)) as [[seen' gs']|] eqn:En; [|done].
  apply place_nodes_placed in En as [N1 N2 N3 N4 N5 N6 N7 N8].
  destruct (policy_template _ own n) as [u|] eqn:Eu; [|done]. cbn [map_err].
  apply part_policy_copies in Eu.
  destruct (place_parts _ _ _ _ _ _ _ _ _ _ ps) as [us'|] eqn:Er; [|done]. intros _.
  apply IH in Er as [P1 P2 P3 P4 P5 P6]. cbn in P5. cbn [map concat].
  assert (forall f x y (f_eq : f = node_id \/ f = node_group), x ∈ part_targets part ->
    y ∈ concat (map part_targets ps) -> f x <> f y) as Hne.
  { intros f x y Hf Hx Hy E. destruct (P5 y Hy) as [H1 H2].
    destruct Hf as [-> | ->]; [apply H1|apply H2]; rewrite <- E.
    - rewrite N3. apply elem_of_union_l, elem_of_list_to_set, list_elem_of_fmap. eauto.
    - rewrite N6. apply elem_of_union_l, elem_of_union_l, elem_of_list_to_set, list_elem_of_fmap. eauto. }
  split; cbn [map concat].
  - intros [|j] q; cbn; [intros [= <-]; lia|]. intros Hq. rewrite (P1 _ _ Hq). lia.
  - intros q [-> |Hq]%elem_of_cons; [done|auto].
  - rewrite map_app. apply NoDup_app. split_and!; [done| |done].
    intros x (n1 & -> & H1)%list_elem_of_fmap (n2 & E & H2)%list_elem_of_fmap. by apply (Hne node_id n1 n2); auto.
  - rewrite map_app. apply NoDup_app. split_and!; [done| |done].
    intros x (n1 & -> & H1)%list_elem_of_fmap (n2 & E & H2)%list_elem_of_fmap. by apply (Hne node_group n1 n2); auto.
  - intros x [Hx|Hx]%elem_of_app; [split; [auto|by apply N5]|].
    destruct (P5 x Hx) as [H1 H2]. rewrite N3 in H1. rewrite N7 in H2. split; set_solver.
  - intros x [Hx|Hx]%elem_of_app; eauto.
Qed.

Lemma mode_ok_inv m : mode_ok m = true -> (total m <= 16)%nat ->
  (is_erasure m = true /\ params_ok (required m) (total m) /\ copies m = 1 /\
     Z.of_nat (required m) <= payload_size (payload m)) \/
  (is_erasure m = false /\ required m = 1%nat /\ total m = 1%nat /\ 2 <= copies m <= 3).
Proof.
  unfold mode_ok, params_ok, in_range. destruct (is_erasure m); rewrite !andb_true_iff; intros Hm Ht.
  - destruct Hm as (((H1 & H2) & H3) & H4). left. apply negb_true_iff, Nat.ltb_ge in H1.
    apply Nat.ltb_lt in H2. apply Z.eqb_eq in H3. apply Z.leb_le in H4. split_and!; done || lia.
  - destruct Hm as (((_ & H1) & H2) & H3 & H4). right. apply Nat.eqb_eq in H1, H2. lia.
Qed.

Lemma header_ok_inv ev m rev ex n : header_ok ev m rev ex n = true ->
  length (parts m) = total m /\ required m <> 0%nat /\ (total m <= 16)%nat /\
  payload_size (payload m) <> 0 /\ payload_size (payload m) <= 258 * 1024 * 1024 /\
  ev_kind ev = 30078 /\ ev_created_at ev <= n.
Proof.
  unfold header_ok. rewrite !andb_true_iff, !negb_true_iff, !Nat.eqb_eq, !Nat.eqb_neq, !Nat.leb_le, !Z.eqb_eq,
    !Z.eqb_neq, !Z.leb_le. intuition.
Qed.

Lemma templates_well_placed bytes own rev ex n permit t :
  templates bytes own rev ex n permit = Ok t ->
  exists ev m p, signed_event bytes own RECEIPT_BYTES = Ok ev /\
    manifest_from_json (ev_content ev) = Some m /\ derive_profile m permit = Ok p /\
    receipt_id t = ev_id ev /\ well_placed m p.
Proof.
  unfold templates. destruct (signed_event bytes own RECEIPT_BYTES) as [ev|] eqn:Es; [|done]. cbn [map_err].
  destruct (manifest_from_json (ev_content ev)) as [m|] eqn:Em; [|done]. cbn [ok_or].
  destruct (header_ok ev m rev ex n) eqn:Eh; [|done]. destruct (mode_ok m) eqn:Emo; [|done].
  destruct (negb (bool_decide (ev_tags ev = _))); [done|]. cbn [negb].
  destruct (derive_profile m permit) as [p|] eqn:Ed; [|done].
  destruct (place_parts _ _ _ _ _ _ _ _ _ _ _) as [us|] eqn:Ep; [|done]. intros [= <-].
  apply header_ok_inv in Eh as (H1 & H2 & H3 & H4 & H5 & _).
  pose proof (mode_ok_inv m Emo H3) as Hmode. unfold params_ok in Hmode.
  apply place_parts_placed in Ep as [P1 P2 P3 P4 P5 P6].
  exists ev, m, p. split_and!; try done. split; try done; [lia|..];
    intros part Hp; by apply (P2 part Hp).
Qed.

Lemma receipt_well_placed bytes own id n permit m p :
  receipt bytes own id n permit = Ok (m, p) -> well_placed m p /\
  exists ev, signed_event bytes own RECEIPT_BYTES = Ok ev /\ ev_id ev = id /\
    manifest_from_json (ev_content ev) = Some m.
Proof.
  unfold receipt. destruct (templates _ _ _ _ _ _) as [t|] eqn:Et; [|done].
  destruct (templates_well_placed _ _ _ _ _ _ _ Et) as (ev & m' & p' & H1 & H2 & H3 & H4 & H5).
  destruct (bool_decide_reflect (receipt_id t = id)) as [E|]; [|done]. cbn [negb].
  rewrite H1. cbn [map_err]. rewrite H2. cbn [ok_or]. rewrite H3. intros [= <- <-].
  split; [done|]. exists ev. split_and!; [done|congruence|done].
Qed.
End Placement.

(** ** What a pool survives *)

(** A part survives the loss of some failure groups when one of its nodes is in
    none of them. *)
Definition survives (lost : gset string) (part : Part) : bool :=
  existsb (fun n => bool_decide (node_group n ∉ lost)) (part_targets part).

(** The indexes of the parts that survive. *)
Definition alive (lost : gset string) (m : Manifest) : list nat :=
  List.filter (fun i => match parts m !! i with Some part => survives lost part | None => false end)
    (seq 0 (length (parts m))).

(** Groups no node of a part is in do not matter to it. *)
Lemma survives_difference lost g part :
  g ∉ map node_group (part_targets part) -> survives (lost ∖ {[g]}) part = survives lost part.
Proof.
  intros Hg. unfold survives. apply eq_bool_prop_intro. rewrite !existb_True, !Exists_exists.
  split; intros (n & Hn & Hb); exists n; split; try done; rewrite bool_decide_spec in *; [|set_solver].
  assert (node_group n <> g) by (intros <-; apply Hg, list_elem_of_fmap; eauto). set_solver.
Qed.

(** Each lost group takes one part at most. *)
Lemma survivors_count ps : forall lost,
  NoDup (map node_group (concat (map part_targets ps))) ->
  (forall part, part ∈ ps -> part_targets part <> []) ->
  (length ps <= length (List.filter (survives lost) ps) + size lost)%nat.
Proof.
  induction ps as [|part ps IH]; intros lost Hn Ht; cbn [List.filter length]; [lia|].
  cbn [map concat] in Hn. rewrite map_app in Hn. apply NoDup_app in Hn as (_ & Hd & Hn).
  specialize (fun lost => IH lost Hn (fun q Hq => Ht q ltac:(by right))).
  destruct (survives lost part) eqn:Es; cbn [length]; [specialize (IH lost); lia|].
  destruct (part_targets part) as [|node ns] eqn:Ep; [by destruct (Ht part ltac:(left))|].
  assert (node_group node ∈ lost) as Hl.
  { unfold survives in Es. rewrite Ep in Es. cbn in Es. apply orb_false_iff in Es as [Es _].
    apply bool_decide_eq_false in Es. destruct (decide (node_group node ∈ lost)); [done|]. by destruct Es. }
  specialize (IH (lost ∖ {[node_group node]})).
  rewrite (filter_ext_in _ (survives lost)) in IH.
  - rewrite size_difference, size_singleton in IH by set_solver.
    assert (size lost <> 0)%nat by (intros E; apply size_empty_inv in E; set_solver). lia.
  - intros q Hq%list_elem_of_In. apply survives_difference. intros Hin.
    apply (Hd (node_group node)); [left|]. apply list_elem_of_fmap in Hin as (n & E & Hnn).
    apply list_elem_of_fmap. exists n. split; [done|].
    apply list_elem_of_In, in_concat. exists (part_targets q).
    split; [apply in_map|]; by apply list_elem_of_In.
Qed.

Lemma filter_indexes {A} (f : A -> bool) (l : list A) :
  length (List.filter (fun i => match l !! i with Some x => f x | None => false end) (seq 0 (length l)))
  = length (List.filter f l).
Proof.
  induction l as [|x l IH]; [done|]. cbn [length seq List.filter lookup list_lookup].
  rewrite <- seq_shift.
  assert (forall js, length (List.filter (fun i => match (x :: l) !! i with Some x => f x | None => false end)
    (map S js)) = length (List.filter (fun i => match l !! i with Some x => f x | None => false end) js)) as Hs.
  { induction js as [|i js IHi]; [done|]. cbn [map List.filter lookup list_lookup].
    destruct (l !! i) as [y|]; [destruct (f y)|]; cbn [length]; auto. }
  destruct (f x); cbn [length]; rewrite Hs; congruence.
Qed.

(** What the pool stores: [required] blocks of the part size, encoded by the
    generator, with the hashes and the payload the receipt names. *)
Record pool_contents (hex : list byte -> string) (m : Manifest) (g : Matrix)
    (inputs : list (list byte)) (sz : nat) : Prop := {
  pc_generator : generator (required m) (total m) = Ok g;
  pc_blocks : length inputs = required m;
  pc_sizes : forall l, l ∈ inputs -> length l = sz;
  pc_size : forall part, part ∈ parts m -> part_size part = Z.of_nat sz;
  pc_hashes : forall i part, parts m !! i = Some part ->
    part_sha256 part = hex (encode_part g inputs sz i);
  pc_payload : hex (take (Z.to_nat (payload_size (payload m))) (concat inputs))
               = payload_sha256 (payload m);
  pc_magic : take 8 (take (Z.to_nat (payload_size (payload m))) (concat inputs)) = EnvelopeFormat.MAGIC
}.

Lemma contents_receipt_for `{PolicyLib} hex m p g inputs sz :
  well_placed m p -> is_erasure m = true -> 0 <= payload_size (payload m) ->
  pool_contents hex m g inputs sz -> receipt_for hex m g inputs sz.
Proof.
  intros W He Hpos [C1 C2 C3 C4 C5 C6 C7].
  destruct (wl_mode _ _ W) as [(_ & Hp & _ & Hr)|(Hf & _)]; [|congruence].
  destruct (wl_total _ _ W) as (Hreq & Ht & _).
  pose proof (wl_parts _ _ W) as Hl.
  destruct (parts m) as [|p0 ps] eqn:Ep; [cbn in Hl; lia|].
  assert (p0 ∈ parts m) as Hin by (rewrite Ep; left).
  assert (part_size p0 = Z.of_nat sz) as Hs by (apply C4; left).
  pose proof (wl_size _ _ W p0 Hin) as Hd. rewrite Hs in Hd.
  pose proof (div_ceil_spec (payload_size (payload m)) (Z.of_nat (required m)) ltac:(lia)) as Hc.
  rewrite <- Hd in Hc.
  split; try done; rewrite ?Ep; [by cbn; rewrite Hs|done|lia].
Qed.

Lemma alive_enough `{PolicyLib} m p lost :
  well_placed m p -> (size lost + required m <= total m)%nat ->
  (required m <= length (alive lost m))%nat.
Proof.
  intros W Hs. unfold alive. rewrite filter_indexes.
  pose proof (survivors_count (parts m) lost (wl_groups _ _ W) (wl_targets _ _ W)) as Hc.
  pose proof (wl_parts _ _ W). lia.
Qed.

Lemma alive_NoDup lost m : NoDup (alive lost m).
Proof. apply NoDup_ListNoDup, List.NoDup_filter, seq_NoDup. Qed.

Lemma alive_survives lost m i : i ∈ alive lost m ->
  exists part node, parts m !! i = Some part /\ node ∈ part_targets part /\ node_group node ∉ lost.
Proof.
  intros [_ Hi]%list_elem_of_In%filter_In. destruct (parts m !! i) as [part|]; [|done].
  apply existsb_exists in Hi as (node & Hn%list_elem_of_In & Hb%bool_decide_eq_true). eauto.
Qed.
