(* ===== verification/PoolRepair.v ===== *)
(** * Pools: owner-side repair

    Models [crates/wildbloomd/src/replicas/pool_repair.rs]: the guard that ties
    every step to the authority's deadline and the unchanged receipt, the
    transfer reservation, the upload authorisation, and the whole [pass] with
    its read phase, reconstruction and upload phase, over an arbitrary clock,
    receipt file, temporary directory, signer and transport; and the checks and
    the loop of [run].  The world logs the calls a pass makes, so what a pass
    did is known wherever it stopped. *)
From S2P Require Import Prelude Coding ReplicaPolicy ReplicaState PoolReceipt PoolTransport.

(** The arguments a pass reads (the paths are the outside's). *)
Record RepairArgs := {
  args_receipt_id : string; args_owner : string; allow_reconstruction : bool; check_only : bool;
  expires_at : Z; signer_absolute : bool; permit_loopback_development : bool; once : bool;
  transfer_budget_bytes : Z; max_work_bytes : Z }.

Record NodeReport := { nr_id : string; nr_part_index : nat; nr_state : string }.

Record Report := {
  rep_receipt_id : string; rep_observed_at : Z; verified_groups : list nat; recoverable : bool;
  protected : bool; reconstructed : bool; uploads_attempted : nat; reserved_transfer_bytes : Z;
  rep_nodes : list NodeReport }.

(** A pass returns an error, or indexes out of range. *)
Inductive Stop := Returned (e : Error) | Panicked.

(** [nodes.iter_mut().find(|node| node.id == id)]: the first one. *)
Fixpoint observe (nodes : list NodeReport) (id state : string) : list NodeReport :=
  match nodes with
  | [] => []
  | n :: nodes =>
      if bool_decide (nr_id n = id)
      then {| nr_id := nr_id n; nr_part_index := nr_part_index n; nr_state := state |} :: nodes
      else n :: observe nodes id state
  end.

Definition checked_sub (a b : Z) : option Z := if b <=? a then Some (a - b) else None.
Definition checked_mul (a b : Z) : option Z := if a * b <=? U64_MAX then Some (a * b) else None.

Definition reserve (left bytes : Z) : result Error Z :=
  ok_or (checked_sub left bytes) (EConfiguration "owner pool repair transfer budget exhausted").

Definition blob (part : Part) : Blob := {| blob_sha256 := part_sha256 part; blob_size := part_size part |}.

(** ** The world *)

Class PoolOutside (E : Type) := {
  p_clock : E -> Z * E;
  read_receipt : E -> result StateError string * E;
  (** Creating the temporary directory or a file in it, and renaming one. *)
  temp_ok : E -> bool * E;
  (** The disk [regenerate] works on, and which sources can be opened. *)
  work_disk : E -> (Disk * (nat -> bool)) * E;
  p_sign : UnsignedEvent -> E -> option string * E
}.

Inductive PoolCall :=
| PVerify (t : Target) (b : Blob) (ok : bool)
| PDownload (t : Target) (b : Blob) (bytes : option (list byte))
| PSign (request : UnsignedEvent)
| PUpload (t : Target) (b : Blob) (file : option (list byte)) (authorization : string).

Record PoolWorld (E : Type) := { pw_env : E; pw_log : list PoolCall }.
Arguments pw_env {E}.
Arguments pw_log {E}.

(** What the loops of a pass keep in local variables. *)
Record Progress := {
  left : Z; groups : list (gset string); sources : list (nat * list byte); nodes : list NodeReport }.

Section Repair.
Context `{L : PoolLib, HL : HttpLib} {E : Type} `{Out : !PoolOutside E}.
Variable transport : Transport E.
Variable args : RepairArgs.
(** The receipt the process was started with. *)
Variable bytes : string.
Local Open Scope wb_scope.

Definition PM (A : Type) : Type := SM (PoolWorld E) Stop A.

Definition pask {A} (f : E -> A * E) : PM A := fun w =>
  let (a, e) := f (pw_env w) in (Ok a, {| pw_env := e; pw_log := pw_log w |}).

Definition plog (c : PoolCall) : PM unit := fun w =>
  (Ok tt, {| pw_env := pw_env w; pw_log := pw_log w ++ [c] |}).

Definition stop {A} (e : Error) : PM A := throw (Returned e).

Definition or_stop {A} (r : result Error A) : PM A := lift (map_err Returned r).

Definition now : PM Z := pask p_clock.

(** [v[i]]. *)
Definition index {A} (v : list A) (i : nat) : PM A := lift (ok_or (v !! i) Panicked).

Definition guard_check : PM unit :=
  let! t := now in
  if expires_at args <=? t then stop (EConfiguration "owner pool repair authority expired")
  else
    let! current := pask read_receipt in
    let! current := or_stop (map_err EState current) in
    if bool_decide (current = bytes) then ret tt else stop EChanged.

Definition temp : PM unit :=
  let! ok := pask temp_ok in if ok : bool then ret tt else stop (EState SIo).

(** ** Transport and signer calls *)

Definition call_verify (node : Node) (part : Part) : PM bool :=
  let! r := pask (t_verify transport (pool_target node) (blob part)) in
  let! _ := plog (PVerify (pool_target node) (blob part) (is_ok r)) in
  ret (is_ok r).

(** [None] when the node cannot serve the part; a local failure ends the
    pass. *)
Definition call_download (node : Node) (part : Part) : PM (option (list byte)) :=
  let! r := pask (t_download transport (pool_target node) (blob part)) in
  let! _ := plog (PDownload (pool_target node) (blob part)
                    (match r with Ok b => Some b | Err _ => None end)) in
  match r with
  | Ok b => ret (Some b)
  | Err (Remote _) => ret None
  | Err LocalStorage => stop (EConfiguration "could not write owner repair temporary storage")
  end.

Definition call_sign (request : UnsignedEvent) : PM (option string) :=
  let! _ := plog (PSign request) in pask (p_sign request).

Definition call_upload (node : Node) (part : Part) (file : option (list byte)) (authorization : string)
    : PM bool :=
  let! _ := plog (PUpload (pool_target node) (blob part) file authorization) in
  let! r := pask (t_upload transport (pool_target node) (blob part) file authorization) in
  ret (is_ok r).

Definition upload_template (part : Part) (node : Node) : PM UnsignedEvent :=
  let! now := now in
  let! origin := or_stop (ok_or (url_parse (node_origin node)) EInternal) in
  let! server := or_stop (ok_or (host_str origin) EInternal) in
  if negb (public_key (args_owner args)) then stop EInternal
  else
    ret {| un_pubkey := args_owner args; un_created_at := saturating_sub now 1; un_kind := 24242;
           un_tags := [["t"; "upload"]; ["x"; part_sha256 part]; ["server"; server];
                       ["expiration"; decimal (Z.min (saturating_add now 120) (expires_at args))]]%string;
           un_content :=
             String.append "Restore one assigned pool part; receipt "
               (String.append (args_receipt_id args)
                  (String.append "; destination " (node_origin node))) |}.

(** ** The read phase *)

Definition enough (m : Manifest) (g : gset string) : bool := copies m <=? Z.of_nat (size g).

(** One node of a part: what it serves, [None] when it is skipped.  The first
    copy read is kept as the part's source. *)
Definition fetch (part : Part) (node : Node) (stored : bool) : PM (option (option (list byte))) :=
  if stored then
    let! ok := call_verify node part in ret (if ok : bool then Some None else None)
  else
    let! _ := temp in
    let! r := call_download node part in
    match r with
    | None => ret None
    | Some b => let! _ := temp in ret (Some (Some b))
    end.

Definition with_reservation (p : Progress) (l : Z) (id : string) : Progress :=
  {| left := l; groups := groups p; sources := sources p;
     nodes := observe (nodes p) id "unavailable" |}.

Definition with_copy (p : Progress) (part : Part) (node : Node) (g : gset string)
    (source : option (list byte)) : Progress :=
  {| left := left p; groups := <[part_index part := {[node_group node]} ∪ g]> (groups p);
     sources := match source with
                | Some b => sources p ++ [(part_index part, b)] | None => sources p end;
     nodes := observe (nodes p) (node_id node) "verified" |}.

(** [for node in &part.targets]. *)
Fixpoint read_nodes (m : Manifest) (part : Part) (stored : bool) (p : Progress) (ns : list Node)
    : PM Progress :=
  match ns with
  | [] => ret p
  | node :: ns =>
      let! g := index (groups p) (part_index part) in
      if bool_decide (node_group node ∈ g) then read_nodes m part stored p ns
      else
        let! _ := guard_check in
        let! l := or_stop (reserve (left p) (part_size part)) in
        let p := with_reservation p l (node_id node) in
        let! r := fetch part node stored in
        match r with
        | None => read_nodes m part stored p ns
        | Some source =>
            let! _ := guard_check in
            let p := with_copy p part node g source in
            if enough m ({[node_group node]} ∪ g) then ret p
            else read_nodes m part true p ns
        end
  end.

Fixpoint read_parts (m : Manifest) (p : Progress) (ps : list Part) : PM Progress :=
  match ps with
  | [] => ret p
  | part :: ps => let! p := read_nodes m part false p (part_targets part) in read_parts m p ps
  end.

(** ** Reconstruction *)

Definition coding_stop (e : coding_error) : Stop :=
  match e with
  | Internal => Returned EInternal
  | Configuration why => Returned (EConfiguration why)
  | StateIo => Returned (EState SIo)
  | Panic => Panicked
  end.

(** [files[*i] = path.clone()]. *)
Fixpoint source_files (files : list (option (list byte))) (srcs : list (nat * list byte))
    : result Stop (list (option (list byte))) :=
  match srcs with
  | [] => Ok files
  | (i, b) :: srcs =>
      let? _ := ok_or (files !! i) Panicked in source_files (<[i := Some b]> files) srcs
  end.

(** The files to upload from, and whether they were reconstructed. *)
Definition prepare (m : Manifest) (p : Progress) : PM (list (option (list byte)) * bool) :=
  if is_erasure m && (length (sources p) <? total m)%nat then
    let! _ := guard_check in
    let! (d, opens) := pask work_disk in
    let! outs := lift (map_err coding_stop
                   (regenerate hex_sha256 d m
                      (map (fun '(i, b) => (i, if opens i then Some b else None))
                         (take (required m) (sources p))))) in
    let! _ := guard_check in
    ret (map Some outs, true)
  else
    let! files := lift (source_files (replicate (total m) None) (sources p)) in
    ret (files, false).

(** ** The upload phase *)

(** From the reservation to the read-back: whether the node now holds the
    part, and whether an upload was attempted. *)
Definition restore_node (part : Part) (node : Node) (files : list (option (list byte)))
    : PM (bool * bool) :=
  let! request := upload_template part node in
  let! returned := call_sign request in
  let! _ := guard_check in
  match returned with
  | None => ret (false, false)
  | Some signed =>
      let! t := now in
      match verify_return signed request t with
      | Err _ => ret (false, false)
      | Ok event =>
          let header := String.append "Nostr " (base64_url (event_as_json event)) in
          let! _ := guard_check in
          let! file := index files (part_index part) in
          let! ok := call_upload node part file header in
          if negb ok then ret (false, true)
          else
            let! _ := guard_check in
            let! ok := call_verify node part in
            if negb ok then ret (false, true)
            else let! _ := guard_check in ret (true, true)
      end
  end.

Fixpoint restore_nodes (m : Manifest) (part : Part) (files : list (option (list byte)))
    (p : Progress) (attempted : nat) (ns : list Node) : PM (Progress * nat) :=
  match ns with
  | [] => ret (p, attempted)
  | node :: ns =>
      let! g := index (groups p) (part_index part) in
      if enough m g then ret (p, attempted)
      else if bool_decide (node_group node ∈ g) then restore_nodes m part files p attempted ns
      else
        let! _ := guard_check in
        let! l := or_stop (reserve (left p) (wrap64 (part_size part * 2))) in
        let p := {| left := l; groups := groups p; sources := sources p; nodes := nodes p |} in
        let! (restored, tried) := restore_node part node files in
        let p := if restored : bool then with_copy p part node g None else p in
        restore_nodes m part files p (if tried : bool then S attempted else attempted) ns
  end.

Fixpoint restore_parts (m : Manifest) (files : list (option (list byte))) (p : Progress)
    (attempted : nat) (ps : list Part) : PM (Progress * nat) :=
  match ps with
  | [] => ret (p, attempted)
  | part :: ps =>
      let! (p, attempted) := restore_nodes m part files p attempted (part_targets part) in
      restore_parts m files p attempted ps
  end.

(** ** The pass *)

Definition unchecked (m : Manifest) : list NodeReport :=
  concat (map (fun part =>
    map (fun node => {| nr_id := node_id node; nr_part_index := part_index part;
                        nr_state := "not_checked" |}) (part_targets part)) (parts m)).

Definition start (m : Manifest) : Progress :=
  {| left := transfer_budget_bytes args; groups := replicate (total m) ∅; sources := [];
     nodes := unchecked m |}.

Definition needs_repair (m : Manifest) (p : Progress) : bool :=
  negb (check_only args) && (required m <=? length (sources p))%nat
  && existsb (fun g => negb (enough m g)) (groups p).

Definition report (m : Manifest) (t : Z) (p : Progress) (rebuilt : bool) (attempted : nat) : Report :=
  {| rep_receipt_id := args_receipt_id args; rep_observed_at := t;
     protected := forallb (enough m) (groups p);
     recoverable := (required m <=? length (List.filter (fun g => negb (bool_decide (g = ∅))) (groups p)))%nat;
     verified_groups := map size (groups p); reconstructed := rebuilt;
     uploads_attempted := attempted; reserved_transfer_bytes := transfer_budget_bytes args - left p;
     rep_nodes := nodes p |}.

Definition pass (m : Manifest) : PM Report :=
  let! _ := guard_check in
  let! first := index (parts m) 0 in
  let! required_disk := or_stop (ok_or (checked_mul (part_size first) (2 * Z.of_nat (total m) + 1))
                                   EInternal) in
  if max_work_bytes args <? required_disk
  then stop (EConfiguration "pool layout exceeds temporary disk budget")
  else
    let! _ := temp in
    let! p := read_parts m (start m) (parts m) in
    let! (p, rebuilt, attempted) :=
      if needs_repair m p then
        let! (files, rebuilt) := prepare m p in
        let! (p, attempted) := restore_parts m files p 0 (parts m) in
        ret (p, rebuilt, attempted)
      else ret (p, false, 0%nat) in
    let! _ := guard_check in
    let! t := now in
    ret (report m t p rebuilt attempted).
End Repair.

(** ** The process *)

(** What [run] asks of the outside besides its passes.  [interrupt] says
    whether the running pass is dropped, after how many of its calls, and by
    what: a stop, or the authority's deadline. *)
Class RunOutside (E : Type) := {
  interrupt : E -> option (nat * bool) * E;
  open_work_dir : E -> result StateError unit * E;
  list_work_dir : E -> option (list string) * E;
  write_report : Report -> E -> WriteOutcome * E;
  stopped_waiting : E -> bool * E
}.

Section Run.
Context `{L : PoolLib, HL : HttpLib} {E : Type} `{Out : !PoolOutside E, RO : !RunOutside E}.
(** The transport built for a profile. *)
Variable connect : Profile -> Transport E.
Variable args : RepairArgs.
Variable proxy : option Url.
Local Open Scope wb_scope.

Definition expired : Error := EConfiguration "owner pool repair authority expired".

Definition authority_ok (t : Z) : bool :=
  (check_only args || (allow_reconstruction args && signer_absolute args))
  && (expires_at args - t <=? 365 * 86400) && canonical_hex (args_receipt_id args) 32.

(** Everything before the first pass: the receipt, its manifest and the
    transport. *)
Definition prepare_run : PM (E := E) (string * Manifest * Profile) :=
  let! t := now in
  if expires_at args <=? t then stop expired
  else if negb (authority_ok t)
  then stop (EConfiguration "explicit bounded owner repair authority and absolute signer are required")
  else
    let! r := pask read_receipt in
    let! bytes := or_stop (map_err EState r) in
    let! (m, p) := or_stop (receipt bytes (args_owner args) (args_receipt_id args) t
                              (permit_loopback_development args)) in
    let! p := or_stop (map_err EConfiguration
                (new_transport p proxy (permit_loopback_development args))) in
    let! lock := pask open_work_dir in
    let! _ := or_stop (map_err EState lock) in
    let! names := pask list_work_dir in
    let! names := or_stop (ok_or names (EState SIo)) in
    if existsb (starts_with "pool-pass-") names
    then stop (EConfiguration
      "review and remove stale pool-pass directories before restarting owner repair")
    else ret (bytes, m, p).

(** A pass dropped after [n] of its calls. *)
Definition cut (n : nat) (before : list PoolCall) : PM (E := E) unit := fun w =>
  (Ok tt, {| pw_env := pw_env w;
             pw_log := before ++ take n (drop (length before) (pw_log w)) |}).

(** [select!] of the running pass: [None] when it was stopped. *)
Definition guarded_pass (bytes : string) (m : Manifest) (p : Profile) : PM (E := E) (option Report) :=
  let! i := pask interrupt in
  match i with
  | None => let! r := pass (connect p) args bytes m in ret (Some r)
  | Some (n, deadline) => fun w =>
      let w1 := (pass (connect p) args bytes m w).2 in
      (let! _ := cut n (pw_log w) in
       if deadline : bool then stop expired else ret None) w1
  end.

Definition save_report (r : Report) : PM (E := E) unit :=
  let! o := pask (write_report r) in
  match o with
  | WriteFailed e => stop (EState e)
  | WrittenNotSynced => stop (EState SIo)
  | Written => ret tt
  end.

(** The loop, for a number of passes: [None] when it is still running, [Some
    None] when it was stopped, [Some (Some r)] when one pass was asked for and
    it reported [r]. *)
Fixpoint run_loop (fuel : nat) (bytes : string) (m : Manifest) (p : Profile)
    : PM (E := E) (option (option Report)) :=
  match fuel with
  | O => ret None
  | S fuel =>
      let! _ := guard_check args bytes in
      let! _ := now in
      let! r := guarded_pass bytes m p in
      match r with
      | None => ret (Some None)
      | Some r =>
          let! _ := save_report r in
          if once args || check_only args then
            if protected r then ret (Some (Some r))
            else stop (EConfiguration "pool remains below requested protection")
          else
            let! ended := pask stopped_waiting in
            if ended : bool then ret (Some None) else run_loop fuel bytes m p
      end
  end.

Definition run (fuel : nat) : PM (E := E) (option (option Report)) :=
  let! (bytes, m, p) := prepare_run in run_loop fuel bytes m p.
End Run.
