(* ===== verification/PoolProofs.v ===== *)
(** * Pools: what a repair pass may do

    A program logic for the passes of [PoolRepair.v] that speaks only of the
    log ([spec]), and with it, wherever a pass stops: the transfer budget, which
    calls it makes, what its report rests on, and that it never indexes out of
    range. *)
From S2P Require Import Prelude Coding ReplicaPolicy ReplicaState ReplicaPolicyProofs PoolReceipt PoolTransport PoolReceiptProofs PoolRepair.

(** ** Reconstruction never indexes out of range *)

Definition no_panic {A} (r : result coding_error A) : Prop := r <> Err Panic.

Lemma no_panic_bind {A B} (r : result coding_error A) (k : A -> result coding_error B) :
  no_panic r -> (forall a, r = Ok a -> no_panic (k a)) ->
  no_panic (match r with Ok a => k a | Err e => Err e end).
Proof. unfold no_panic. destruct r; [auto|]. intros H _ [= ->]. by apply H. Qed.

Lemma read_exact_no_panic n f : no_panic (read_exact n f).
Proof. unfold read_exact. by destruct (_ <? _). Qed.

Lemma read_all_no_panic n fs : no_panic (read_all n fs).
Proof.
  induction fs as [|f fs IH]; cbn [read_all]; [done|]. unfold no_panic in *.
  pose proof (read_exact_no_panic n f) as Hr. unfold no_panic in Hr.
  destruct (read_exact n f) as [[? ?]|]; [|congruence]. destruct (read_all n fs) as [[? ?]|]; congruence.
Qed.

Lemma write_all_no_panic d o i t ins n outs : no_panic (write_all d o i t ins n outs).
Proof.
  revert i outs; induction t as [|row t IH]; intros i [|out outs]; cbn [write_all]; try done.
  destruct (write_ok d i o); [|done]. specialize (IH (S i) outs). unfold no_panic in *.
  destruct (write_all d o (S i) t ins n outs); congruence.
Qed.

Lemma stripe_loop_no_panic fuel d t size o readers outs :
  0 <= o -> (stripes (size - o) <= fuel)%nat -> no_panic (stripe_loop fuel d t size o readers outs).
Proof.
  revert o readers outs; induction fuel as [|fuel IH]; intros o readers outs Ho Hf; cbn [stripe_loop];
    (destruct (Z.ltb_spec o size) as [Hlt|]; [|done]).
  { pose proof (stripes_pos (Z.to_nat (size - o)) ltac:(lia)) as Hp. rewrite Z2Nat.id in Hp by lia. lia. }
  unfold no_panic. pose proof (read_all_no_panic (Z.min STRIPE (size - o)) readers) as Hr. unfold no_panic in Hr.
  destruct (read_all _ readers) as [[ins rs]|]; [|congruence].
  pose proof (write_all_no_panic d o 0 t ins (Z.min STRIPE (size - o)) outs) as Hw. unfold no_panic in Hw.
  destruct (write_all _ _ _ _ _ _ _) as [outs'|]; [|congruence].
  apply IH; [unfold STRIPE in *; lia|].
  pose proof (stripes_step (Z.to_nat (size - o)) (Z.to_nat (Z.min STRIPE (size - o))) fuel) as Hs.
  rewrite Nat2Z.inj_sub, !Z2Nat.id in Hs by (unfold STRIPE; lia).
  replace (size - (o + Z.min STRIPE (size - o))) with (size - o - Z.min STRIPE (size - o)) by lia.
  apply Hs; unfold STRIPE in *; lia.
Qed.

Lemma payload_file_no_panic fuel d i f o l rem h data :
  (stripes l <= fuel)%nat -> no_panic (payload_file fuel d i f o l rem h data).
Proof.
  revert f o l rem h data; induction fuel as [|fuel IH]; intros f o l rem h data Hf; cbn [payload_file];
    (destruct (Z.ltb_spec 0 l) as [Hlt|]; [|done]).
  { pose proof (stripes_pos (Z.to_nat l) ltac:(lia)) as Hp. rewrite Z2Nat.id in Hp by lia. lia. }
  destruct (reread_ok d i o); [|done]. unfold no_panic.
  pose proof (read_exact_no_panic (Z.min STRIPE l) f) as Hr. unfold no_panic in Hr.
  destruct (read_exact _ f) as [[b f']|]; [|congruence]. apply IH.
  pose proof (stripes_step (Z.to_nat l) (Z.to_nat (Z.min STRIPE l)) fuel) as Hs.
  rewrite Nat2Z.inj_sub, !Z2Nat.id in Hs by (unfold STRIPE; lia). apply Hs; lia.
Qed.

Lemma payload_loop_no_panic d i fs size rem h data : no_panic (payload_loop d i fs size rem h data).
Proof.
  revert i rem h data; induction fs as [|f fs IH]; intros i rem h data; cbn [payload_loop]; [done|].
  destruct (reopen_ok d i); [|done]. unfold no_panic.
  pose proof (payload_file_no_panic (stripes (Z.min size rem)) d i f 0 (Z.min size rem) rem h data
    ltac:(done)) as Hp. unfold no_panic in Hp.
  destruct (payload_file _ _ _ _ _ _ _ _ _) as [[[? ?] ?]|]; [apply IH|congruence].
Qed.

Lemma invert_no_panic a : no_panic (invert a).
Proof.
  unfold invert. assert (forall cols work, no_panic (invert_loop (length a) cols work)) as Hl.
  { induction cols as [|c cols IH]; intros work; cbn [invert_loop]; [done|].
    unfold invert_step. destruct (find_pivot work c _); cbn [ok_or]; [apply IH|done]. }
  specialize (Hl (seq 0 (length a)) (augment a)). unfold no_panic in *.
  destruct (invert_loop _ _ _); congruence.
Qed.

Lemma open_all_no_panic ss : no_panic (open_all ss).
Proof.
  induction ss as [|[f|] ss IH]; cbn [open_all]; [done| |done]. unfold no_panic in *.
  destruct (open_all ss); congruence.
Qed.

Lemma check_hashes_no_panic hex outs ps : no_panic (check_hashes hex outs ps).
Proof. revert ps; induction outs; intros [|? ?]; cbn [check_hashes]; try done. by destruct (String.eqb _ _). Qed.

(** Sources with indexes below [total] never make [regenerate] panic. *)
Lemma regenerate_no_panic hex d m srcs :
  (forall i, i ∈ map fst srcs -> (i < total m)%nat) -> parts m <> [] ->
  no_panic (regenerate hex d m srcs).
Proof.
  intros Hi Hp. unfold regenerate. destruct (negb _); [done|].
  apply no_panic_bind.
  { unfold generator. destruct (_ || _); [done|].
    pose proof (invert_no_panic (take (required m) (vandermonde (required m) (total m)))) as H.
    unfold no_panic in *. destruct (invert _); congruence. }
  intros g Hg.
  assert (length g = total m) as Hgl.
  { unfold generator in Hg. destruct (_ || _); [done|]. destruct (invert _); [|done].
    injection Hg as <-. unfold product, vandermonde. by rewrite !length_map, length_seq. }
  rewrite select_rows_spec by (intros; rewrite Hgl; auto).
  apply no_panic_bind; [apply invert_no_panic|]. intros decode _.
  apply no_panic_bind; [apply open_all_no_panic|]. intros readers _.
  destruct (negb _); [done|]. destruct (parts m) as [|p0 ps] eqn:Ep; [done|].
  cbn [head fmap option_fmap option_map ok_or].
  apply no_panic_bind; [apply stripe_loop_no_panic; [lia|by rewrite Z.sub_0_r]|]. intros outs _.
  apply no_panic_bind; [apply check_hashes_no_panic|]. intros _ _.
  pose proof (payload_loop_no_panic d 0 (take (required m) outs) (part_size p0)
    (payload_size (payload m)) [] []) as Hl. unfold no_panic in *.
  destruct (payload_loop _ _ _ _ _ _ _) as [[[rem h] data]|]; [|congruence]. by destruct (_ || _).
Qed.

(** ** The logic *)

(** What holds of every element of a list after the ones before it. *)
Definition each {A} (P : list A -> A -> Prop) (l : list A) : Prop :=
  forall before c after, l = before ++ c :: after -> P before c.

Lemma each_nil {A} (P : list A -> A -> Prop) : each P [].
Proof. intros before c after E. by destruct before. Qed.

Lemma each_snoc {A} (P : list A -> A -> Prop) l c : each P l -> P l c -> each P (l ++ [c]).
Proof.
  intros Hl Hc before x after E. destruct after as [|y after _] using rev_ind.
  - apply app_inj_tail in E as [-> ->]. done.
  - rewrite app_comm_cons, app_assoc in E. apply app_inj_tail in E as [-> _]. by apply (Hl before x after).
Qed.

Definition call_bytes (c : PoolCall) : Z :=
  match c with
  | PVerify _ b _ | PDownload _ b _ | PUpload _ b _ _ => blob_size b
  | PSign _ => 0
  end.

Definition transferred (l : list PoolCall) : Z := foldr (fun c n => call_bytes c + n) 0 l.

Lemma transferred_snoc l c : transferred (l ++ [c]) = transferred l + call_bytes c.
Proof. unfold transferred. induction l as [|x l IH]; cbn; lia. Qed.

(** The node was read in full, and the bytes were those of the part. *)
Definition read_in (l : list PoolCall) (node : Node) (part : Part) : Prop :=
  PVerify (pool_target node) (blob part) true ∈ l \/
  exists b, PDownload (pool_target node) (blob part) (Some b) ∈ l.

Lemma read_in_app l l' node part : read_in l node part -> read_in (l ++ l') node part.
Proof. intros [H|[b H]]; [left|right; exists b]; apply elem_of_app; by left. Qed.

Definition placed (m : Manifest) (part : Part) (node : Node) : Prop :=
  part ∈ parts m /\ node ∈ part_targets part.

Definition is_part (hex : list byte -> string) (part : Part) (b : list byte) : Prop :=
  hex b = part_sha256 part /\ Z.of_nat (length b) = part_size part.

(** A list of [n] distinct indexes below [n] has them all. *)
Lemma all_indexes (l : list nat) n i :
  NoDup l -> (forall j, j ∈ l -> (j < n)%nat) -> (n <= length l)%nat -> (i < n)%nat -> i ∈ l.
Proof.
  intros Hn Hl Hle Hi. apply list_elem_of_In.
  refine (NoDup_length_incl (l' := seq 0 n) _ _ _ i _).
  - by apply NoDup_ListNoDup.
  - by rewrite length_seq.
  - intros j Hj%list_elem_of_In. apply in_seq. pose proof (Hl j Hj). lia.
  - apply in_seq. lia.
Qed.

(** Sources with distinct indexes are put in their places. *)
Lemma source_files_ok srcs : forall files,
  NoDup (map fst srcs) -> (forall i b, (i, b) ∈ srcs -> (i < length files)%nat) ->
  exists files', source_files files srcs = Ok files' /\ length files' = length files /\
    (forall i b, (i, b) ∈ srcs -> files' !! i = Some (Some b)) /\
    forall i, i ∉ map fst srcs -> files' !! i = files !! i.
Proof.
  induction srcs as [|[i b] srcs IH]; intros files Hn Hi; cbn [source_files].
  { exists files. split_and!; try done. intros i b H. by apply elem_of_nil in H. }
  cbn [map fst] in Hn. apply NoDup_cons in Hn as [Hni Hn].
  assert (i < length files)%nat as Hlt by (eapply Hi; left).
  destruct (lookup_lt_is_Some_2 files i Hlt) as [x Hx]. rewrite Hx. cbn [ok_or].
  destruct (IH (<[i := Some b]> files) Hn) as (files' & E' & H1 & H2 & H3).
  { intros j c Hj. rewrite length_insert. eapply Hi. by right. }
  exists files'. rewrite length_insert in H1. split_and!; try done.
  - intros j c [Ej|Hj]%elem_of_cons; [|by apply H2]. injection Ej as -> ->.
    rewrite H3 by done. by rewrite list_lookup_insert_eq.
  - intros j Hj. cbn [map fst] in Hj. apply not_elem_of_cons in Hj as [Hne Hj].
    rewrite H3 by done. by rewrite list_lookup_insert_ne.
Qed.

Section Pass.
Context `{L : PoolLib, HL : HttpLib} {E : Type} `{Out : !PoolOutside E}.
Variable transport : Transport E.
Variable args : RepairArgs.
Variable receipt_bytes : string.
Variable m : Manifest.

(** The one thing a signature is asked for: an upload of one part to one of
    its nodes, until two minutes from now or the end of the authority. *)
Definition request_for (part : Part) (node : Node) (request : UnsignedEvent) : Prop :=
  exists t url server, url_parse (node_origin node) = Some url /\ host_str url = Some server /\
    un_pubkey request = args_owner args /\ un_kind request = 24242 /\
    un_tags request =
      [["t"; "upload"]; ["x"; part_sha256 part]; ["server"; server];
       ["expiration"; decimal (Z.min (saturating_add t 120) (expires_at args))]]%string.

(** A call goes to a node of the receipt, for its part; a signature is asked
    for only to upload; an upload sends the bytes of the part, right after the
    owner signed for that node and part. *)
Definition call_ok (before : list PoolCall) (c : PoolCall) : Prop :=
  match c with
  | PVerify t b _ => exists part node, placed m part node /\ t = pool_target node /\ b = blob part
  | PDownload t b got =>
      exists part node, placed m part node /\ t = pool_target node /\ b = blob part
  | PSign request => check_only args = false /\ exists part node, placed m part node /\ request_for part node request
  | PUpload t b file authorization =>
      check_only args = false /\
      exists part node bytes request ev,
        placed m part node /\ t = pool_target node /\ b = blob part /\
        file = Some bytes /\ is_part hex_sha256 part bytes /\
        last before = Some (PSign request) /\ request_for part node request /\
        ev_id ev = compute_id request /\
        authorization = String.append "Nostr " (base64_url (event_as_json ev))
  end.

Record log_ok (l : list PoolCall) : Prop := {
  lk_budget : transferred l <= transfer_budget_bytes args;
  lk_calls : each call_ok l
}.

(** Where the calls made before a pass end. *)
Variable l0 : list PoolCall.

Definition post {A} (P : A -> list PoolCall -> Prop) (r : result Stop A) (l : list PoolCall) : Prop :=
  match r with Ok a => P a l | Err e => e <> Panicked /\ log_ok l end.

(** From any world whose log continues [l0] by [l], the computation returns a
    value and a log related by [P], or stops with an error and a good log. *)
Definition spec {A} (c : PM (E := E) A) (P : A -> list PoolCall -> Prop) (l : list PoolCall) : Prop :=
  forall w, pw_log w = l0 ++ l ->
    exists l', pw_log (c w).2 = l0 ++ l' /\ post P (c w).1 l'.

Lemma spec_bind {A B} (c : PM (E := E) A) (k : A -> PM (E := E) B) P Q l :
  spec c Q l -> (forall a l', Q a l' -> spec (k a) P l') -> spec (bind c k) P l.
Proof.
  intros Hc Hk w Hw. destruct (Hc w Hw) as (l1 & H1 & H2). unfold bind.
  destruct (c w) as [[a|e] w1]; cbn in *; [exact (Hk a l1 H2 w1 H1)|eauto].
Qed.

Lemma spec_ret {A} (a : A) (P : A -> list PoolCall -> Prop) l : P a l -> spec (ret a) P l.
Proof. intros H w Hw. exists l. done. Qed.

Lemma spec_stop {A} e (P : A -> list PoolCall -> Prop) l : log_ok l -> spec (stop e) P l.
Proof. intros H w Hw. exists l. done. Qed.

Lemma spec_pask {A} (f : E -> A * E) P l :
  (forall e a e', f e = (a, e') -> P a l) -> spec (pask f) P l.
Proof.
  intros H w Hw. unfold pask. destruct (f (pw_env w)) as [a e'] eqn:Ef. exists l.
  split; [done|]. by eapply H.
Qed.

Lemma spec_plog c (P : unit -> list PoolCall -> Prop) l : P tt (l ++ [c]) -> spec (plog c) P l.
Proof. intros H w Hw. exists (l ++ [c]). cbn. by rewrite Hw, app_assoc. Qed.

Lemma spec_or_stop {A} (r : result Error A) (P : A -> list PoolCall -> Prop) l :
  log_ok l -> (forall a, r = Ok a -> P a l) -> spec (or_stop r) P l.
Proof. intros Hl H w Hw. exists l. split; [done|]. destruct r; cbn; auto. Qed.

Lemma spec_index {A} (v : list A) i a (P : A -> list PoolCall -> Prop) l :
  v !! i = Some a -> P a l -> spec (index v i) P l.
Proof. intros Hv H w Hw. exists l. unfold index, lift. rewrite Hv. done. Qed.

Lemma spec_impl {A} (c : PM (E := E) A) (P Q : A -> list PoolCall -> Prop) l :
  spec c P l -> (forall a l', P a l' -> Q a l') -> spec c Q l.
Proof.
  intros Hc H w Hw. destruct (Hc w Hw) as (l' & H1 & H2). exists l'. split; [done|].
  destruct (c w) as [[a|e] w']; cbn in *; auto.
Qed.

(** The guard and the temporary directory make no call. *)
Lemma spec_guard l : log_ok l -> spec (guard_check args receipt_bytes) (fun _ l' => l' = l) l.
Proof.
  intros Hl. unfold guard_check. eapply spec_bind; [apply spec_pask with (P := fun _ l' => l' = l); done|].
  intros t ? ->. destruct (_ <=? t); [by apply spec_stop|].
  eapply spec_bind; [apply spec_pask with (P := fun _ l' => l' = l); done|]. intros r ? ->.
  eapply spec_bind; [apply spec_or_stop with (P := fun _ l' => l' = l); done|]. intros current ? ->.
  destruct (bool_decide _); [by apply spec_ret|by apply spec_stop].
Qed.

Lemma spec_temp l : log_ok l -> spec temp (fun _ l' => l' = l) l.
Proof.
  intros Hl. unfold temp. eapply spec_bind; [apply spec_pask with (P := fun _ l' => l' = l); done|].
  intros b ? ->. destruct b; [by apply spec_ret|by apply spec_stop].
Qed.

(** A guard or a question to the outside, then the rest. *)
Lemma spec_guarded {B} (k : unit -> PM (E := E) B) P l :
  log_ok l -> spec (k tt) P l -> spec (bind (guard_check args receipt_bytes) k) P l.
Proof. intros Hl Hk. eapply spec_bind; [by apply spec_guard|]. by intros [] ? ->. Qed.

Lemma spec_temp_then {B} (k : unit -> PM (E := E) B) P l :
  log_ok l -> spec (k tt) P l -> spec (bind temp k) P l.
Proof. intros Hl Hk. eapply spec_bind; [by apply spec_temp|]. by intros [] ? ->. Qed.

Lemma spec_asked {A B} (f : E -> A * E) (k : A -> PM (E := E) B) P l :
  (forall e a e', f e = (a, e') -> spec (k a) P l) -> spec (bind (pask f) k) P l.
Proof.
  intros H. eapply spec_bind; [apply spec_pask with (P := fun a l' => l' = l /\ exists e e', f e = (a, e')); eauto|].
  intros a ? (-> & e & e' & Ef). eauto.
Qed.

Lemma spec_logged {B} c (k : unit -> PM (E := E) B) P l :
  spec (k tt) P (l ++ [c]) -> spec (bind (plog c) k) P l.
Proof. intros H. eapply spec_bind; [by apply spec_plog with (P := fun _ l' => l' = l ++ [c])|]. by intros [] ? ->. Qed.

Lemma spec_or_stop_then {A B} (r : result Error A) (k : A -> PM (E := E) B) P l :
  log_ok l -> (forall a, r = Ok a -> spec (k a) P l) -> spec (bind (or_stop r) k) P l.
Proof.
  intros Hl H. eapply spec_bind; [apply spec_or_stop with (P := fun a l' => l' = l /\ r = Ok a); eauto|].
  intros a ? (-> & Er). eauto.
Qed.

Lemma spec_indexed {A B} (v : list A) i a (k : A -> PM (E := E) B) P l :
  v !! i = Some a -> spec (k a) P l -> spec (bind (index v i) k) P l.
Proof. intros Hv H. eapply spec_bind; [by apply (spec_index v i a (fun x l' => x = a /\ l' = l))|]. by intros ? ? [-> ->]. Qed.

Lemma log_ok_snoc l c :
  log_ok l -> transferred l + call_bytes c <= transfer_budget_bytes args -> call_ok l c -> log_ok (l ++ [c]).
Proof. intros [H1 H2] Hc Hk. split; [by rewrite transferred_snoc|by apply each_snoc]. Qed.

(** ** The invariant of a pass *)

(** With [k] bytes reserved for calls that are still to come. *)
Record inv (k : Z) (l : list PoolCall) (p : Progress) : Prop := {
  iv_calls : each call_ok l;
  iv_budget : transferred l + left p + k <= transfer_budget_bytes args;
  iv_left : 0 <= left p /\ 0 <= k;
  iv_groups : length (groups p) = total m;
  iv_evidence : forall part gs g, part ∈ parts m -> groups p !! part_index part = Some gs -> g ∈ gs ->
    exists node, node ∈ part_targets part /\ node_group node = g /\ read_in l node part;
  iv_sources : forall i b, (i, b) ∈ sources p ->
    exists part, part ∈ parts m /\ part_index part = i /\ is_part hex_sha256 part b;
  iv_nodup : NoDup (map fst (sources p));
  iv_nodes : forall r, r ∈ nodes p -> nr_state r = "verified"%string ->
    exists part node, placed m part node /\ node_id node = nr_id r /\ read_in l node part
}.

Lemma inv_log_ok k l p : inv k l p -> log_ok l.
Proof. intros I. split; [destruct (iv_left _ _ _ I); pose proof (iv_budget _ _ _ I); lia|apply I]. Qed.
Hint Resolve inv_log_ok : core.

(** A call whose bytes were reserved. *)
Lemma inv_call k c l p : inv (call_bytes c + k) l p -> 0 <= k -> call_ok l c -> inv k (l ++ [c]) p.
Proof.
  intros [I1 I2 I3 I4 I5 I6 I7 I8] Hk Hc. split; try done.
  - by apply each_snoc.
  - rewrite transferred_snoc. lia.
  - lia.
  - intros part gs g Hp Hg Hin. destruct (I5 part gs g Hp Hg Hin) as (n & H1 & H2 & H3).
    eauto using read_in_app.
  - intros r Hr Hs. destruct (I8 r Hr Hs) as (part & n & H1 & H2 & H3). eauto 6 using read_in_app.
Qed.

Lemma observe_in ns id st r : r ∈ observe ns id st -> r ∈ ns \/ (nr_id r = id /\ nr_state r = st).
Proof.
  induction ns as [|n ns IH]; cbn [observe]; [by left|].
  destruct (bool_decide_reflect (nr_id n = id)) as [<- |].
  - intros [-> |H]%elem_of_cons; [by right|]. left. by right.
  - intros [-> |H]%elem_of_cons; [left; left|]. destruct (IH H); [left; by right|by right].
Qed.

Lemma reserve_inv a b x : reserve a b = Ok x -> b <= a /\ x = a - b.
Proof. unfold reserve, checked_sub. destruct (Z.leb_spec b a); [|done]. intros [= <-]. done. Qed.

Lemma inv_reservation l p n x id :
  inv 0 l p -> 0 <= n -> reserve (left p) n = Ok x -> inv n l (with_reservation p x id).
Proof.
  intros [I1 I2 I3 I4 I5 I6 I7 I8] Hn (Hle & ->)%reserve_inv. split; cbn [with_reservation left groups sources nodes];
    try done; try lia.
  intros r [Hr|[_ ->]]%observe_in Hs; [eauto|done].
Qed.

Lemma inv_weaken k k' l p : inv k l p -> 0 <= k' <= k -> inv k' l p.
Proof. intros [I1 I2 I3 I4 I5 I6 I7 I8] Hk. split; try done; lia. Qed.

Lemma inv_copy k l p part node g source :
  inv k l p -> placed m part node -> groups p !! part_index part = Some g -> read_in l node part ->
  (forall part', part' ∈ parts m -> part_index part' = part_index part -> part' = part) ->
  (forall b, source = Some b -> is_part hex_sha256 part b /\ part_index part ∉ map fst (sources p)) ->
  inv k l (with_copy p part node g source).
Proof.
  intros [I1 I2 I3 I4 I5 I6 I7 I8] [Hp Hn] Hg Hr Huniq Hs.
  split; cbn [with_copy left groups sources nodes]; try done.
  - by rewrite length_insert.
  - intros part' gs g' Hp' Hgs Hin. destruct (decide (part_index part' = part_index part)) as [Ei|Ei].
    + rewrite (Huniq part' Hp' Ei) in *. rewrite list_lookup_insert in Hgs. rewrite decide_True in Hgs
        by (split; [done|by eapply lookup_lt_Some]). injection Hgs as <-.
      apply elem_of_union in Hin as [->%elem_of_singleton|Hin]; [eauto|by eapply I5].
    + rewrite list_lookup_insert_ne in Hgs by done. by eapply I5.
  - destruct source as [b|]; [|done]. intros i b' [H|H]%elem_of_app; [eauto|].
    apply list_elem_of_singleton in H as [= -> ->]. destruct (Hs b eq_refl). eauto.
  - destruct source as [b|]; [|done]. destruct (Hs b eq_refl) as [_ Hni]. rewrite map_app. cbn.
    apply NoDup_app. split_and!; [done| |apply NoDup_singleton].
    intros x Hx ->%list_elem_of_singleton. done.
  - intros r [Hr'|[Hid Hst]]%observe_in Hsv; [eauto|]. exists part, node. done.
Qed.

(** ** Calls *)

Lemma spec_verify k l p part node :
  inv (part_size part + k) l p -> 0 <= k -> placed m part node ->
  spec (call_verify transport node part)
    (fun ok l' => inv k l' p /\ (ok = true -> read_in l' node part)) l.
Proof.
  intros I Hk Hpl. unfold call_verify. apply spec_asked. intros e r e' _. apply spec_logged.
  apply spec_ret. split.
  - apply inv_call; [exact I|done|]. by exists part, node.
  - intros Hok. left. rewrite Hok. apply elem_of_app. right. apply list_elem_of_singleton. done.
Qed.

Context `{TL : !TransportLaws hex_sha256 transport}.

Lemma spec_download l p part node :
  inv (part_size part) l p -> placed m part node ->
  spec (call_download transport node part)
    (fun r l' => inv 0 l' p /\ forall b, r = Some b -> is_part hex_sha256 part b /\ read_in l' node part) l.
Proof.
  intros I Hpl. unfold call_download. apply spec_asked. intros e r e' Er. apply spec_logged.
  set (c := PDownload _ _ _).
  assert (inv 0 (l ++ [c]) p) as I'.
  { apply inv_call; [cbn; by rewrite Z.add_0_r|done|]. by exists part, node. }
  destruct r as [b|[f|]]; [..|by apply spec_stop; eauto]; apply spec_ret; (split; [done|]); [|done].
  intros b' [= <-]. split; [exact (download_is_blob _ _ _ _ _ Er)|]. right. exists b.
  apply elem_of_app. right. apply list_elem_of_singleton. done.
Qed.

Lemma spec_fetch l p part node stored :
  inv (part_size part) l p -> placed m part node ->
  spec (fetch transport part node stored)
    (fun r l' => inv 0 l' p /\ forall s, r = Some s -> read_in l' node part /\
                 forall b, s = Some b -> is_part hex_sha256 part b /\ stored = false) l.
Proof.
  intros I Hpl. unfold fetch. destruct stored.
  - eapply spec_bind; [apply (spec_verify 0 l p part node); [by rewrite Z.add_0_r|done|done]|].
    intros ok l' [I' Hok]. apply spec_ret. split; [done|]. destruct ok; [|done]. intros s [= <-]. split; [auto|done].
  - apply spec_temp_then; [eauto|]. eapply spec_bind; [by apply (spec_download l p)|].
    intros [b|] l' [I' Hb]; [|by apply spec_ret]. destruct (Hb b eq_refl) as [H1 H2].
    apply spec_temp_then; [eauto|]. apply spec_ret. split; [done|]. intros s [= <-].
    split; [done|]. by intros b' [= <-].
Qed.

(** ** The loops *)

Hypothesis Hlen : length (parts m) = total m.
Hypothesis Hindex : forall i part, parts m !! i = Some part -> part_index part = i.
Hypothesis Hsize : forall part, part ∈ parts m -> 0 <= part_size part < 2 ^ 63.

Lemma index_unique part part' :
  part ∈ parts m -> part' ∈ parts m -> part_index part' = part_index part -> part' = part.
Proof.
  intros [i Hi]%list_elem_of_lookup [j Hj]%list_elem_of_lookup.
  rewrite (Hindex _ _ Hi), (Hindex _ _ Hj). intros ->. congruence.
Qed.

Lemma index_lookup part : part ∈ parts m -> parts m !! part_index part = Some part.
Proof. intros [i Hi]%list_elem_of_lookup. by rewrite (Hindex _ _ Hi). Qed.

Lemma index_in_range part {A} (v : list A) :
  part ∈ parts m -> length v = total m -> exists x, v !! part_index part = Some x.
Proof.
  intros Hp%index_lookup%lookup_lt_Some Hv. destruct (lookup_lt_is_Some_2 v (part_index part)); [lia|eauto].
Qed.

Lemma spec_read_nodes part ns : forall stored l p,
  part ∈ parts m -> (forall n, n ∈ ns -> n ∈ part_targets part) -> inv 0 l p ->
  (stored = false -> part_index part ∉ map fst (sources p)) ->
  spec (read_nodes transport args receipt_bytes m part stored p ns)
    (fun p' l' => inv 0 l' p' /\
       forall i, i ∈ map fst (sources p') -> i = part_index part \/ i ∈ map fst (sources p)) l.
Proof.
  induction ns as [|node ns IH]; intros stored l p Hp Hns I Hst; cbn [read_nodes].
  { apply spec_ret. auto. }
  assert (forall n, n ∈ ns -> n ∈ part_targets part) as Hns' by (intros n Hn; apply Hns; by right).
  assert (placed m part node) as Hpl by (split; [done|apply Hns; left]).
  destruct (index_in_range part (groups p) Hp (iv_groups _ _ _ I)) as [g Hg].
  apply (spec_indexed _ _ g); [done|]. destruct (bool_decide _); [by apply IH|].
  apply spec_guarded; [eauto|]. apply spec_or_stop_then; [eauto|]. intros x Hx.
  assert (inv (part_size part) l (with_reservation p x (node_id node))) as I1
    by (apply inv_reservation; [done|apply Hsize, Hp|done]).
  eapply spec_bind; [by apply (spec_fetch _ _ part node stored I1)|].
  intros [source|] l1 [I2 Hs]; [|exact (IH stored l1 _ Hp Hns' I2 Hst)].
  destruct (Hs source eq_refl) as [Hr Hb]. apply spec_guarded; [eauto|].
  set (p1 := with_copy _ part node g source).
  assert (inv 0 l1 p1) as I3.
  { apply inv_copy; try done; [intros; by apply index_unique|].
    intros b ->. destruct (Hb b eq_refl) as [H1 ->]. split; [done|]. by apply Hst. }
  assert (forall i, i ∈ map fst (sources p1) -> i = part_index part \/ i ∈ map fst (sources p)) as Hsrc.
  { cbn. destruct source as [b|]; [|by right]. rewrite map_app. intros i [H|H]%elem_of_app; [by right|].
    apply list_elem_of_singleton in H. by left. }
  destruct (enough m _); [by apply spec_ret|].
  eapply spec_impl; [by apply (IH true l1 p1)|]. intros p2 l2 [I4 H]. split; [done|]. intros i Hi.
  destruct (H i Hi); auto.
Qed.

Lemma spec_read_parts ps : forall l p,
  (forall part, part ∈ ps -> part ∈ parts m) -> NoDup (map part_index ps) -> inv 0 l p ->
  (forall part, part ∈ ps -> part_index part ∉ map fst (sources p)) ->
  spec (read_parts transport args receipt_bytes m p ps) (fun p' l' => inv 0 l' p') l.
Proof.
  induction ps as [|part ps IH]; intros l p Hps Hn I Hf; cbn [read_parts]; [by apply spec_ret|].
  cbn [map] in Hn. apply NoDup_cons in Hn as [Hni Hn].
  eapply spec_bind.
  { apply spec_read_nodes; [apply Hps; left|done|done|intros _; apply Hf; left]. }
  intros p1 l1 [I1 H1]. apply IH; try done; [intros q Hq; apply Hps; by right|].
  intros q Hq Hin. destruct (H1 _ Hin) as [Eq|Hin']; [|by apply (Hf q ltac:(by right))].
  apply Hni. rewrite <- Eq. apply list_elem_of_fmap. eauto.
Qed.

(** ** Files to upload *)

Definition files_ok (files : list (option (list byte))) : Prop :=
  length files = total m /\ forall part, part ∈ parts m ->
    exists b, files !! part_index part = Some (Some b) /\ is_part hex_sha256 part b.


Hypothesis Hsame : forall part part', part ∈ parts m -> part' ∈ parts m -> part_size part = part_size part'.
Hypothesis Hmode : is_erasure m = false -> total m = required m.
Hypothesis Hpayload : 0 <= payload_size (payload m).
Hypothesis Htotal : (0 < total m)%nat.

Lemma spec_coding {A} (r : result coding_error A) (P : A -> list PoolCall -> Prop) l :
  log_ok l -> no_panic r -> (forall a, r = Ok a -> P a l) -> spec (lift (map_err coding_stop r)) P l.
Proof.
  intros Hl Hn H w Hw. exists l. split; [done|]. destruct r as [a|[]]; cbn; auto.
Qed.

Lemma first_part : exists p0, head (parts m) = Some p0 /\ parts m !! 0%nat = Some p0 /\ p0 ∈ parts m.
Proof.
  destruct (lookup_lt_is_Some_2 (parts m) 0 ltac:(lia)) as [p0 Hp0]. exists p0.
  split; [by rewrite head_lookup|]. split; [done|]. apply list_elem_of_lookup. eauto.
Qed.

Lemma regenerated_files_ok d srcs outs :
  regenerate hex_sha256 d m srcs = Ok outs -> files_ok (map Some outs).
Proof.
  intros Hr. destruct first_part as (p0 & Eh & _ & Hin).
  destruct (regenerate_checked hex_sha256 d m srcs outs p0) as (H1 & H2 & H3 & _);
    [done|exact (proj1 (Hsize p0 Hin))|done|done|].
  split; [by rewrite length_map|]. intros part Hp.
  destruct (index_in_range part outs Hp H1) as [b Hb]. exists b. split; [by rewrite list_lookup_fmap, Hb|].
  split; [exact (H3 _ _ _ Hb (index_lookup part Hp))|].
  rewrite (H2 b) by (apply list_elem_of_lookup; eauto). by apply Hsame.
Qed.

Lemma sources_in_range k l p i : inv k l p -> i ∈ map fst (sources p) -> (i < total m)%nat.
Proof.
  intros I ([j b] & -> & Hb)%list_elem_of_fmap. destruct (iv_sources _ _ _ I j b Hb) as (part & Hp & <- & _).
  apply index_lookup, lookup_lt_Some in Hp. cbn. lia.
Qed.

Lemma spec_prepare l p :
  inv 0 l p -> (required m <= length (sources p))%nat ->
  spec (prepare args receipt_bytes m p) (fun r l' => l' = l /\ files_ok r.1) l.
Proof.
  intros I Hreq. unfold prepare.
  destruct (is_erasure m && (length (sources p) <? total m)%nat) eqn:Ee.
  - apply spec_guarded; [eauto|]. apply spec_asked. intros e [d opens] e' _.
    eapply spec_bind.
    { apply spec_coding with (P := fun outs l' => l' = l /\ files_ok (map Some outs)); [eauto|..].
      - apply regenerate_no_panic; [|intros Ep; rewrite Ep in Hlen; cbn in Hlen; lia].
        rewrite map_map. intros i ([j b] & -> & Hb)%list_elem_of_fmap.
        apply elem_of_take_in in Hb. apply (sources_in_range 0 l p); [done|].
        apply list_elem_of_fmap. exists (j, b). done.
      - intros outs Ho. split; [done|]. by eapply regenerated_files_ok. }
    intros outs ? [-> Hf]. apply spec_guarded; [eauto|]. by apply spec_ret.
  - assert (total m <= length (sources p))%nat as Hall.
    { destruct (is_erasure m) eqn:Em; cbn in Ee; [by apply Nat.ltb_ge in Ee|]. specialize (Hmode eq_refl). lia. }
    destruct (source_files_ok (sources p) (replicate (total m) None) (iv_nodup _ _ _ I))
      as (files & Ef & H1 & H2 & _).
    { intros i b Hb. rewrite length_replicate. apply (sources_in_range 0 l p); [done|].
      apply list_elem_of_fmap. exists (i, b). done. }
    rewrite length_replicate in H1. rewrite Ef. eapply spec_bind with (Q := fun f l' => f = files /\ l' = l).
    { intros w Hw. by exists l. }
    intros ? ? [-> ->]. apply spec_ret. split; [done|]. split; [done|]. cbn [fst]. intros part Hp.
    assert (part_index part ∈ map fst (sources p)) as Hin.
    { apply (all_indexes _ (total m)); [apply (iv_nodup _ _ _ I)|..].
      - intros j Hj. by eapply sources_in_range.
      - by rewrite length_map.
      - apply index_lookup, lookup_lt_Some in Hp. lia. }
    apply list_elem_of_fmap in Hin as ([j b] & Ej & Hb). cbn in Ej. exists b. rewrite Ej.
    split; [by apply H2|]. destruct (iv_sources _ _ _ I j b Hb) as (part' & Hp' & Ej' & Hpart).
    rewrite (index_unique part part') in Hpart; [done|done|done|congruence].
Qed.

(** ** Uploads *)

Lemma verify_return_id signed request t ev :
  verify_return signed request t = Ok ev -> ev_id ev = compute_id request.
Proof.
  unfold verify_return. destruct (signed_event _ _ _) as [ev'|]; [|done].
  destruct (bool_decide_reflect (ev_id ev' = compute_id request)); [|done]. cbn [negb].
  destruct (tag_value "server" _); [|done]. cbn [ok_or]. destruct (tag_value "x" _); [|done]. cbn [ok_or].
  destruct (verify_upload _ _ _ _ _); [|done]. intros [= <-]. done.
Qed.

Lemma spec_template l part node :
  log_ok l -> spec (upload_template args part node) (fun r l' => l' = l /\ request_for part node r) l.
Proof.
  intros Hl. unfold upload_template. apply spec_asked. intros e t e' _.
  apply spec_or_stop_then; [done|]. intros url Hu. apply spec_or_stop_then; [done|]. intros server Hs.
  destruct (url_parse (node_origin node)) as [u|] eqn:Eu; [|done]. injection Hu as ->.
  destruct (host_str url) as [h|] eqn:Eh; [|done]. injection Hs as ->.
  destruct (public_key (args_owner args)); [|by apply spec_stop]. apply spec_ret. split; [done|].
  exists t, url, server. done.
Qed.

Lemma spec_restore_node l p part node files :
  check_only args = false -> placed m part node -> files_ok files -> inv (part_size part * 2) l p ->
  spec (restore_node transport args receipt_bytes part node files)
    (fun r l' => inv 0 l' p /\ (r.1 = true -> read_in l' node part)) l.
Proof.
  intros Hco Hpl [Hfl Hf] I. destruct Hpl as [Hp Hn]. pose proof (conj Hp Hn) as Hpl.
  pose proof (Hsize part Hp) as Hsz. unfold restore_node.
  eapply spec_bind; [apply spec_template; eauto|]. intros request ? [-> Hreq].
  unfold call_sign. apply spec_bind with (Q := fun _ l' => l' = l ++ [PSign request]);
    [apply spec_logged, spec_pask; done|]. intros returned ? ->.
  assert (inv (part_size part * 2) (l ++ [PSign request]) p) as I1.
  { apply inv_call; [exact I|lia|]. split; [done|]. by exists part, node. }
  assert (forall k, 0 <= k <= part_size part * 2 -> inv k (l ++ [PSign request]) p) as Iw
    by (intros k Hk; by eapply inv_weaken).
  apply spec_guarded; [eauto|].
  destruct returned as [signed|]; [|apply spec_ret; split; [apply Iw; lia|done]].
  apply spec_asked. intros e t e' _.
  destruct (verify_return signed request t) as [ev|] eqn:Ev; [|apply spec_ret; split; [apply Iw; lia|done]].
  apply verify_return_id in Ev. apply spec_guarded; [eauto|].
  destruct (Hf part Hp) as (b & Hb & Hpart). apply (spec_indexed _ _ (Some b)); [done|].
  set (c := PUpload (pool_target node) (blob part) (Some b)
    (String.append "Nostr " (base64_url (event_as_json ev)))).
  assert (inv (part_size part) ((l ++ [PSign request]) ++ [c]) p) as I2.
  { apply inv_call; [cbn; replace (part_size part + part_size part) with (part_size part * 2) by lia; done|lia|].
    split; [done|]. exists part, node, b, request, ev. rewrite last_snoc. by split_and!. }
  unfold call_upload. apply spec_bind with (Q := fun _ l' => l' = (l ++ [PSign request]) ++ [c]).
  { apply spec_logged, spec_asked. intros ???? . by apply spec_ret. }
  intros ok ? ->. destruct ok; cbn [negb].
  2:{ apply spec_ret. split; [eapply inv_weaken; [exact I2|lia]|done]. }
  apply spec_guarded; [eauto|].
  eapply spec_bind; [apply (spec_verify 0 _ p part node); [by rewrite Z.add_0_r|done|done]|].
  intros ok l2 [I3 Hread]. destruct ok; cbn [negb]; [|by apply spec_ret].
  apply spec_guarded; [eauto|]. apply spec_ret. auto.
Qed.

Lemma spec_restore_nodes part files ns : forall p attempted l,
  check_only args = false -> part ∈ parts m -> (forall n, n ∈ ns -> n ∈ part_targets part) ->
  files_ok files -> inv 0 l p ->
  spec (restore_nodes transport args receipt_bytes m part files p attempted ns)
    (fun r l' => inv 0 l' r.1) l.
Proof.
  induction ns as [|node ns IH]; intros p attempted l Hco Hp Hns Hf I; cbn [restore_nodes];
    [by apply spec_ret|].
  assert (forall n, n ∈ ns -> n ∈ part_targets part) as Hns' by (intros n Hn; apply Hns; by right).
  assert (placed m part node) as Hpl by (split; [done|apply Hns; left]).
  destruct (index_in_range part (groups p) Hp (iv_groups _ _ _ I)) as [g Hg].
  apply (spec_indexed _ _ g); [done|]. destruct (enough m g); [by apply spec_ret|].
  destruct (bool_decide _); [by apply IH|]. apply spec_guarded; [eauto|].
  apply spec_or_stop_then; [eauto|]. intros x Hx.
  pose proof (Hsize part Hp). unfold wrap64 in Hx. rewrite Z.mod_small in Hx by lia.
  set (p1 := {| left := x; groups := groups p; sources := sources p; nodes := nodes p |}).
  assert (inv (part_size part * 2) l p1) as I1.
  { apply reserve_inv in Hx as [Hx ->]. destruct I as [I1 I2 I3 I4 I5 I6 I7 I8]. split; cbn; try done; lia. }
  eapply spec_bind; [by apply (spec_restore_node l p1 part node files)|].
  intros [restored tried] l1 [I2 Hr]. cbn [fst] in Hr. apply IH; try done.
  destruct restored; [|done]. apply inv_copy; try done; [auto|intros; by apply index_unique].
Qed.

Lemma spec_restore_parts files ps : forall p attempted l,
  check_only args = false -> (forall part, part ∈ ps -> part ∈ parts m) -> files_ok files -> inv 0 l p ->
  spec (restore_parts transport args receipt_bytes m files p attempted ps) (fun r l' => inv 0 l' r.1) l.
Proof.
  induction ps as [|part ps IH]; intros p attempted l Hco Hps Hf I; cbn [restore_parts]; [by apply spec_ret|].
  eapply spec_bind; [apply spec_restore_nodes; try done; apply Hps; left|].
  intros [p1 n1] l1 I1. apply IH; try done. intros q Hq. apply Hps. by right.
Qed.

(** ** The pass *)

(** What a report claims, and the reads it rests on. *)
Record report_ok (rep : Report) (l : list PoolCall) : Prop := {
  ro_reserved : transferred l <= reserved_transfer_bytes rep <= transfer_budget_bytes args;
  ro_groups : exists gss : list (gset string),
    length gss = total m /\ verified_groups rep = map size gss /\
    protected rep = forallb (enough m) gss /\
    recoverable rep = (required m <=? length (List.filter (fun g => negb (bool_decide (g = ∅))) gss))%nat /\
    forall part gs g, part ∈ parts m -> gss !! part_index part = Some gs -> g ∈ gs ->
      exists node, node ∈ part_targets part /\ node_group node = g /\ read_in l node part;
  ro_nodes : forall r, r ∈ rep_nodes rep -> nr_state r = "verified"%string ->
    exists part node, placed m part node /\ node_id node = nr_id r /\ read_in l node part
}.

Lemma inv_start : 0 <= transfer_budget_bytes args -> inv 0 [] (start args m).
Proof.
  intros Hb. split; cbn; try done; [apply each_nil|lia|by rewrite length_replicate|..].
  - intros part gs g _ Hg Hin. apply lookup_replicate in Hg as [-> _]. set_solver.
  - intros i b H. by apply elem_of_nil in H.
  - apply NoDup_nil_2.
  - intros r Hr. unfold unchecked in Hr. apply list_elem_of_In, in_concat in Hr as (rs & H1 & H2).
    apply in_map_iff in H1 as (part & <- & _). apply in_map_iff in H2 as (node & <- & _). done.
Qed.

Lemma inv_report l p t rebuilt attempted : inv 0 l p -> report_ok (report args m t p rebuilt attempted) l.
Proof.
  intros [I1 I2 I3 I4 I5 I6 I7 I8]. split; cbn.
  - lia.
  - exists (groups p). by split_and!.
  - done.
Qed.

Lemma spec_pass :
  0 <= transfer_budget_bytes args ->
  spec (pass transport args receipt_bytes m) (fun rep l => log_ok l /\ report_ok rep l) [].
Proof.
  intros Hb. assert (log_ok []) as Hl by (split; [done|apply each_nil]).
  unfold pass. apply spec_guarded; [done|]. destruct first_part as (p0 & _ & Ep & Hp0).
  apply (spec_indexed _ _ p0); [done|]. apply spec_or_stop_then; [done|]. intros disk _.
  destruct (_ <? disk); [by apply spec_stop|]. apply spec_temp_then; [done|].
  eapply spec_bind.
  { apply spec_read_parts; [done| |by apply inv_start|].
    - apply NoDup_alt. intros i j x Hi Hj. rewrite list_lookup_fmap in Hi, Hj.
      destruct (parts m !! i) as [pi|] eqn:Ei; [|done]. destruct (parts m !! j) as [pj|] eqn:Ej; [|done].
      cbn in Hi, Hj. rewrite (Hindex _ _ Ei) in Hi. rewrite (Hindex _ _ Ej) in Hj. congruence.
    - intros part _. by apply not_elem_of_nil. }
  intros p l I. eapply spec_bind with (Q := fun r l' => inv 0 l' r.1.1).
  - destruct (needs_repair args m p) eqn:En; [|by apply spec_ret].
    unfold needs_repair in En. apply andb_true_iff in En as [En _]. apply andb_true_iff in En as [Hco Hreq].
    apply negb_true_iff in Hco. apply Nat.leb_le in Hreq.
    eapply spec_bind; [by apply spec_prepare|]. intros [files rebuilt] ? [-> Hf].
    eapply spec_bind; [by apply spec_restore_parts|]. intros [p1 n1] l1 I1. by apply spec_ret.
  - intros [[p1 rebuilt] n1] l1 I1. cbn [fst] in I1. apply spec_guarded; [eauto|].
    apply spec_asked. intros e t e' _. apply spec_ret. split; [eauto|by apply inv_report].
Qed.
End Pass.
