(* ===== verification/PoolRestores.v ===== *)
(** * Pools: a pass restores protection

    Total correctness of [pass] in a cooperative world: the clock stands before
    the deadline, the receipt is unchanged, local storage works, the owner
    signs, and nodes serve what they hold and accept uploads.  Whatever nodes
    have lost their parts, if enough parts are left the pass returns a report
    that says protected. *)
From S2P Require Import Prelude Coding ReplicaPolicy ReplicaState PoolReceipt PoolTransport PoolReceiptProofs PoolRepair PoolProofs.

(** ** Computations that succeed *)

Definition succeeds {S X A} (c : SM S X A) (Q : A -> S -> Prop) (s : S) : Prop :=
  exists a s', c s = (Ok a, s') /\ Q a s'.

Lemma succeeds_bind {S X A B} (c : SM S X A) (k : A -> SM S X B) P Q s :
  succeeds c P s -> (forall a s', P a s' -> succeeds (k a) Q s') -> succeeds (bind c k) Q s.
Proof.
  intros (a & s' & E & H) Hk. destruct (Hk a s' H) as (b & s'' & E' & H'). exists b, s''.
  unfold bind. by rewrite E.
Qed.

Lemma succeeds_ret {S X A} (a : A) (Q : A -> S -> Prop) s : Q a s -> succeeds (X := X) (ret a) Q s.
Proof. intros H. by exists a, s. Qed.

Lemma succeeds_impl {S X A} (c : SM S X A) (P Q : A -> S -> Prop) s :
  succeeds c P s -> (forall a s', P a s' -> Q a s') -> succeeds c Q s.
Proof. intros (a & s' & E & H) HQ. exists a, s'. auto. Qed.

(** Distinct keys stay distinct when elements are dropped. *)
Lemma NoDup_map_filter {A B} (f : A -> B) (keep : A -> bool) l :
  NoDup (map f l) -> NoDup (map f (List.filter keep l)).
Proof.
  induction l as [|x l IH]; [done|]. cbn [map List.filter]. intros [Hni Hn]%NoDup_cons.
  destruct (keep x); [|auto]. cbn [map]. constructor; [|auto].
  intros (y & Ey & Hy)%list_elem_of_fmap. apply Hni. rewrite Ey. apply list_elem_of_fmap. exists y.
  split; [done|]. apply list_elem_of_In, filter_In in Hy as [Hy _]. by apply list_elem_of_In.
Qed.

Section Cooperative.
Context `{L : PoolLib, HL : HttpLib} {E : Type} `{Out : !PoolOutside E}.
Variable transport : Transport E.
Variable args : RepairArgs.
Variable receipt_bytes : string.
Variable m : Manifest.

(** The ids of the nodes that hold their part, the time, and the bytes of each
    part. *)
Variable hold : E -> gset string.
Variable T : Z.
Variable content : nat -> list byte.

Record cooperative : Prop := {
  co_time : T < expires_at args;
  co_clock : forall e, exists e', p_clock e = (T, e') /\ hold e' = hold e;
  co_receipt : forall e, exists e', read_receipt e = (Ok receipt_bytes, e') /\ hold e' = hold e;
  co_temp : forall e, exists e', temp_ok e = (true, e') /\ hold e' = hold e;
  co_disk : forall e, exists d opens e', work_disk e = ((d, opens), e') /\ disk_ok d /\
    (forall i, opens i = true) /\ hold e' = hold e;
  co_sign : forall part node request e, placed m part node -> request_for args part node request ->
    exists s ev e', p_sign request e = (Some s, e') /\ verify_return s request T = Ok ev /\
      hold e' = hold e;
  co_verify : forall part node e, placed m part node ->
    exists r e', t_verify transport (pool_target node) (blob part) e = (r, e') /\ hold e' = hold e /\
      (node_id node ∈ hold e -> r = Ok tt);
  co_download : forall part node e, placed m part node ->
    exists r e', t_download transport (pool_target node) (blob part) e = (r, e') /\ hold e' = hold e /\
      if bool_decide (node_id node ∈ hold e) then r = Ok (content (part_index part))
      else exists f, r = Err (Remote f);
  co_upload : forall part node e authorization, placed m part node ->
    exists e', t_upload transport (pool_target node) (blob part) (Some (content (part_index part)))
                 authorization e = (Ok tt, e') /\ hold e' = {[node_id node]} ∪ hold e
}.

Hypothesis Co : cooperative.

Definition held (w : PoolWorld E) : gset string := hold (pw_env w).

(** A step that leaves what the nodes hold. *)
Lemma succeeds_ask {A} (f : E -> A * E) a w :
  (exists e', f (pw_env w) = (a, e') /\ hold e' = hold (pw_env w)) ->
  succeeds (pask f) (fun x w' => x = a /\ held w' = held w) w.
Proof. intros (e' & Ef & H). unfold pask. eexists _, _. rewrite Ef. split; [done|]. done. Qed.

Lemma succeeds_asked {A B} (f : E -> A * E) a (k : A -> PM (E := E) B) Q w :
  (exists e', f (pw_env w) = (a, e') /\ hold e' = hold (pw_env w)) ->
  (forall w', held w' = held w -> succeeds (k a) Q w') -> succeeds (bind (pask f) k) Q w.
Proof.
  intros H Hk. eapply succeeds_bind; [by apply (succeeds_ask f a)|]. intros x w' [-> Hh]. auto.
Qed.

Lemma succeeds_guarded {B} (k : unit -> PM (E := E) B) Q w :
  (forall w', held w' = held w -> succeeds (k tt) Q w') ->
  succeeds (bind (guard_check args receipt_bytes) k) Q w.
Proof.
  intros Hk. eapply succeeds_bind with (P := fun _ w' => held w' = held w); [|intros [] w'; auto].
  unfold guard_check. apply (succeeds_asked p_clock T); [apply (co_clock Co)|]. intros w1 H1.
  pose proof (co_time Co). destruct (Z.leb_spec (expires_at args) T); [lia|].
  apply (succeeds_asked read_receipt (Ok receipt_bytes)); [apply (co_receipt Co)|]. intros w2 H2.
  eapply succeeds_bind with (P := fun a w' => a = receipt_bytes /\ w' = w2); [by eexists _, _|].
  intros ? ? [-> ->]. rewrite bool_decide_eq_true_2 by done. apply succeeds_ret. congruence.
Qed.

Lemma succeeds_temp {B} (k : unit -> PM (E := E) B) Q w :
  (forall w', held w' = held w -> succeeds (k tt) Q w') -> succeeds (bind temp k) Q w.
Proof.
  intros Hk. eapply succeeds_bind with (P := fun _ w' => held w' = held w); [|intros [] w'; auto].
  unfold temp. apply (succeeds_asked temp_ok true); [apply (co_temp Co)|]. intros w1 H1.
  by apply succeeds_ret.
Qed.

Lemma succeeds_index {A B} (v : list A) i a (k : A -> PM (E := E) B) Q w :
  v !! i = Some a -> succeeds (k a) Q w -> succeeds (bind (index v i) k) Q w.
Proof.
  intros Hv Hk. eapply succeeds_bind with (P := fun x w' => x = a /\ w' = w); [|by intros ? ? [-> ->]].
  eexists _, _. unfold index, lift. by rewrite Hv.
Qed.

Lemma succeeds_reserve {B} n x (k : Z -> PM (E := E) B) Q w :
  n <= x -> succeeds (k (x - n)) Q w -> succeeds (bind (or_stop (reserve x n)) k) Q w.
Proof.
  intros Hn Hk. eapply succeeds_bind with (P := fun y w' => y = x - n /\ w' = w); [|by intros ? ? [-> ->]].
  unfold reserve, checked_sub. rewrite (proj2 (Z.leb_le n x)) by done. by eexists _, _.
Qed.

(** ** Calls *)

Lemma succeeds_verify part node w :
  placed m part node ->
  succeeds (call_verify transport node part)
    (fun ok w' => held w' = held w /\ (node_id node ∈ held w -> ok = true)) w.
Proof.
  intros Hpl. destruct (co_verify Co part node (pw_env w) Hpl) as (r & e' & Er & Hh & Hr).
  unfold call_verify. apply (succeeds_asked _ r); [eauto|]. intros w1 H1. unfold plog, bind, ret.
  eexists _, _. split; [done|]. split; [done|]. intros Hin. by rewrite (Hr Hin).
Qed.

Lemma succeeds_download part node w :
  placed m part node ->
  succeeds (call_download transport node part)
    (fun r w' => held w' = held w /\
       r = if bool_decide (node_id node ∈ held w) then Some (content (part_index part)) else None) w.
Proof.
  intros Hpl. destruct (co_download Co part node (pw_env w) Hpl) as (r & e' & Er & Hh & Hr).
  unfold call_download. apply (succeeds_asked _ r); [eauto|]. intros w1 H1. unfold held.
  destruct (bool_decide _); [subst r|destruct Hr as [f ->]]; by eexists _, _.
Qed.

(** A fetch returns the bytes of the part exactly when the node holds it and
    no copy was kept before. *)
Lemma succeeds_fetch part node stored w :
  placed m part node ->
  succeeds (fetch transport part node stored)
    (fun r w' => held w' = held w /\
       if stored then r = Some None \/ r = None
       else r = if bool_decide (node_id node ∈ held w)
                then Some (Some (content (part_index part))) else None) w.
Proof.
  intros Hpl. unfold fetch. destruct stored.
  - eapply succeeds_bind; [by apply succeeds_verify|]. intros ok w1 [H1 _]. apply succeeds_ret.
    split; [done|]. destruct ok; auto.
  - apply succeeds_temp. intros w1 H1. eapply succeeds_bind; [by apply succeeds_download|].
    intros r w2 [H2 ->]. rewrite H1 in *. destruct (bool_decide _).
    + apply succeeds_temp. intros w3 H3. apply succeeds_ret. split; [congruence|done].
    + apply succeeds_ret. done.
Qed.

(** ** The read phase *)

(** What a loop over the nodes of the part at [i] may change, at the cost of
    [n] bytes. *)
Record moved (i : nat) (n : Z) (p p' : Progress) : Prop := {
  mv_left : left p - n <= left p';
  mv_length : length (groups p') = length (groups p);
  mv_others : forall j, j <> i -> groups p' !! j = groups p !! j
}.

Lemma moved_refl i n p : 0 <= n -> moved i n p p.
Proof. split; [lia|done|done]. Qed.

Lemma moved_trans i a b p q r : moved i a p q -> moved i b q r -> moved i (a + b) p r.
Proof.
  intros [A1 A2 A3] [B1 B2 B3]. split; [lia|congruence|]. intros j Hj. rewrite B3, A3; done.
Qed.

Lemma moved_weaken i a b p q : moved i a p q -> a <= b -> moved i b p q.
Proof. intros [A1 A2 A3] Hb. split; [lia|done|done]. Qed.

Lemma moved_copy p part node g s : moved (part_index part) 0 p (with_copy p part node g s).
Proof.
  split; cbn; [lia|by rewrite length_insert|]. intros j Hj. by rewrite list_lookup_insert_ne.
Qed.

Lemma moved_reservation i p n id : moved i n p (with_reservation p (left p - n) id).
Proof. split; cbn; [lia|done|done]. Qed.

Hypothesis Hsize : forall part, part ∈ parts m -> 0 <= part_size part < 2 ^ 63.

Definition holder (h : gset string) (node : Node) : bool := bool_decide (node_id node ∈ h).

Definition kept (part : Part) (found : bool) : list (nat * list byte) :=
  if found then [(part_index part, content (part_index part))] else [].

Lemma succeeds_read_nodes part ns : forall stored p g w,
  part ∈ parts m -> (forall n, n ∈ ns -> n ∈ part_targets part) ->
  groups p !! part_index part = Some g -> (stored = false -> g = ∅) ->
  part_size part * Z.of_nat (length ns) <= left p ->
  succeeds (read_nodes transport args receipt_bytes m part stored p ns)
    (fun p' w' => held w' = held w /\
       moved (part_index part) (part_size part * Z.of_nat (length ns)) p p' /\
       sources p' = sources p ++ kept part (negb stored && existsb (holder (held w)) ns)) w.
Proof.
  induction ns as [|node ns IH]; intros stored p g w Hp Hns Hg Hst Hl; cbn [read_nodes].
  { apply succeeds_ret. split; [done|]. split; [apply moved_refl; cbn; lia|].
    rewrite andb_false_r. cbn. by rewrite app_nil_r. }
  assert (forall n, n ∈ ns -> n ∈ part_targets part) as Hns' by (intros n Hn; apply Hns; by right).
  assert (placed m part node) as Hpl by (split; [done|apply Hns; left]).
  pose proof (proj1 (Hsize part Hp)) as Hsz. cbn [length existsb] in *.
  rewrite Nat2Z.inj_succ, Z.mul_succ_r in *.
  apply (succeeds_index _ _ g); [done|].
  destruct (bool_decide_reflect (node_group node ∈ g)) as [Hin|_].
  { assert (stored = true) as -> by (destruct stored; [done|rewrite Hst in Hin by done; set_solver]).
    eapply succeeds_impl; [apply (IH true p g w); try done; lia|]. intros p' w' (H1 & H2 & H3).
    split; [done|]. split; [eapply moved_weaken; [exact H2|lia]|done]. }
  apply succeeds_guarded. intros w1 H1. apply succeeds_reserve; [nia|].
  set (p1 := with_reservation _ _ _).
  assert (moved (part_index part) (part_size part) p p1) as M1 by apply moved_reservation.
  eapply succeeds_bind; [by apply succeeds_fetch|]. intros r w2 [H2 Hr].
  destruct r as [source|].
  - apply succeeds_guarded. intros w3 H3.
    set (p2 := with_copy _ part node g source).
    assert (moved (part_index part) (part_size part) p p2) as M2.
    { replace (part_size part) with (part_size part + 0) by lia. eapply moved_trans; [exact M1|apply moved_copy]. }
    assert (sources p2 = sources p ++ kept part (negb stored && (holder (held w) node || existsb (holder (held w)) ns))) as Hs2.
    { cbn. unfold holder at 1. rewrite H1 in Hr. destruct stored; cbn [negb andb].
      - destruct Hr as [ [= ->]|Hr]; [|done]. by rewrite app_nil_r.
      - destruct (bool_decide _); [|done]. by injection Hr as ->. }
    destruct (enough m _).
    + apply succeeds_ret. split; [congruence|]. split; [|done]. eapply moved_weaken; [exact M2|nia].
    + eapply succeeds_impl; [apply (IH true p2 ({[node_group node]} ∪ g) w3); try done|].
      { cbn. apply list_lookup_insert_eq. by eapply lookup_lt_Some. }
      { destruct M2. nia. }
      intros p' w' (J1 & J2 & J3). split; [congruence|]. split.
      * rewrite Z.add_comm. by eapply moved_trans.
      * cbn in J3. rewrite app_nil_r in J3. by rewrite J3.
  - rewrite H1 in Hr.
    eapply succeeds_impl; [apply (IH stored p1 g w2); try done; destruct M1; cbn in *; nia|].
    intros p' w' (J1 & J2 & J3). split; [congruence|]. split.
    + rewrite Z.add_comm. by eapply moved_trans.
    + rewrite J3, H2, H1. f_equal. f_equal. unfold holder at 2. destruct stored; [done|]. cbn.
      destruct (bool_decide _); [done|]. done.
Qed.

(** Every part has the same size. *)
Variable sz : Z.
Hypothesis Hsz : forall part, part ∈ parts m -> part_size part = sz.
Hypothesis Hindex : forall i part, parts m !! i = Some part -> part_index part = i.
Hypothesis Hlen : length (parts m) = total m.

Definition node_count (ps : list Part) : Z := Z.of_nat (length (concat (map part_targets ps))).

Lemma node_count_cons part ps :
  node_count (part :: ps) = Z.of_nat (length (part_targets part)) + node_count ps.
Proof. unfold node_count. cbn. rewrite length_app. lia. Qed.

Definition has_holder (h : gset string) (part : Part) : bool := existsb (holder h) (part_targets part).

Lemma succeeds_read_parts ps : forall p w,
  (forall part, part ∈ ps -> part ∈ parts m) -> NoDup (map part_index ps) ->
  (forall part, part ∈ ps -> groups p !! part_index part = Some ∅) -> sz * node_count ps <= left p ->
  succeeds (read_parts transport args receipt_bytes m p ps)
    (fun p' w' => held w' = held w /\ left p - sz * node_count ps <= left p' /\
       length (groups p') = length (groups p) /\
       sources p' = sources p ++ concat (map (fun part => kept part (has_holder (held w) part)) ps)) w.
Proof.
  induction ps as [|part ps IH]; intros p w Hps Hn Hg Hl; cbn [read_parts map concat].
  { apply succeeds_ret. rewrite app_nil_r. unfold node_count. cbn. split_and!; [done|lia|done|done]. }
  rewrite node_count_cons, Z.mul_add_distr_l in *.
  assert (part ∈ parts m) as Hp by (apply Hps; left). pose proof (Hsz part Hp) as Es.
  pose proof (proj1 (Hsize part Hp)) as H0. rewrite Es in H0.
  assert (0 <= sz * node_count ps) by (unfold node_count; nia).
  cbn [map] in Hn. apply NoDup_cons in Hn as [Hni Hn].
  eapply succeeds_bind.
  { apply (succeeds_read_nodes part (part_targets part) false p ∅ w); try done; [apply Hg; left|].
    rewrite Es. lia. }
  intros p1 w1 (H1 & M & H3). rewrite Es in M.
  eapply succeeds_impl; [apply (IH p1 w1)|].
  - intros q Hq. apply Hps. by right.
  - done.
  - intros q Hq. rewrite (mv_others _ _ _ _ M); [apply Hg; by right|].
    intros Eq. apply Hni. rewrite <- Eq. apply list_elem_of_fmap. eauto.
  - destruct M. lia.
  - intros p2 w2 (J1 & J2 & J3 & J4). destruct M. split_and!; [congruence|lia|congruence|].
    rewrite J4, H3, H1. cbn [negb andb]. by rewrite app_assoc.
Qed.

(** ** The upload phase *)

Hypothesis Hurl : forall part node, placed m part node ->
  exists url server, url_parse (node_origin node) = Some url /\ host_str url = Some server.
Hypothesis Hkey : public_key (args_owner args) = true.
Hypothesis Hgroups : forall part, part ∈ parts m -> NoDup (map node_group (part_targets part)).
Hypothesis Hcopies : forall part, part ∈ parts m -> copies m <= Z.of_nat (length (part_targets part)).

Lemma succeeds_template part node w :
  placed m part node ->
  succeeds (upload_template args part node)
    (fun r w' => held w' = held w /\ request_for args part node r) w.
Proof.
  intros Hpl. destruct (Hurl part node Hpl) as (url & server & Eu & Es).
  unfold upload_template. apply (succeeds_asked p_clock T); [apply (co_clock Co)|]. intros w1 H1.
  rewrite Eu. cbn [ok_or]. unfold or_stop, lift, map_err, bind. rewrite Es. cbn [ok_or]. rewrite Hkey.
  cbn [negb]. eexists _, _. split; [done|]. split; [done|]. exists T, url, server. done.
Qed.

Lemma succeeds_restore_node part node files w :
  placed m part node -> files !! part_index part = Some (Some (content (part_index part))) ->
  succeeds (restore_node transport args receipt_bytes part node files) (fun r _ => r = (true, true)) w.
Proof.
  intros Hpl Hf. unfold restore_node.
  eapply succeeds_bind; [by apply succeeds_template|]. intros request w1 [H1 Hreq].
  destruct (co_sign Co part node request (pw_env w1) Hpl Hreq) as (s & ev & e' & Es & Ev & Hh).
  eapply succeeds_bind with (P := fun r _ => r = Some s).
  { unfold succeeds, call_sign, plog, bind, pask. cbn. rewrite Es. by eexists _, _. }
  intros ? w2 ->. apply succeeds_guarded. intros w3 _.
  apply (succeeds_asked p_clock T); [apply (co_clock Co)|]. intros w4 _. rewrite Ev.
  apply succeeds_guarded. intros w5 _. apply (succeeds_index _ _ _ _ _ _ Hf).
  destruct (co_upload Co part node (pw_env w5) (String.append "Nostr " (base64_url (event_as_json ev))) Hpl)
    as (e5 & E5 & H5).
  eapply succeeds_bind with (P := fun ok w' => ok = true /\ node_id node ∈ held w').
  { unfold succeeds, call_upload, plog, bind, pask. cbn [pw_env pw_log]. rewrite E5.
    eexists _, _. split; [done|]. split; [done|]. unfold held. cbn. rewrite H5. set_solver. }
  intros ? w6 [-> H6]. cbn [negb]. apply succeeds_guarded. intros w7 H7.
  eapply succeeds_bind; [by apply succeeds_verify|]. intros ok w8 [_ Hok].
  rewrite Hok by (by rewrite H7). cbn [negb]. apply succeeds_guarded. intros w9 _. by apply succeeds_ret.
Qed.

Lemma all_groups_enough part g :
  part ∈ parts m -> (forall n, n ∈ part_targets part -> node_group n ∈ g) -> enough m g = true.
Proof.
  intros Hp Hg. apply Z.leb_le. etransitivity; [apply (Hcopies part Hp)|]. apply inj_le.
  rewrite <- (length_map node_group), <- (size_list_to_set (C := gset string)) by (by apply Hgroups).
  apply subseteq_size. intros x Hx%elem_of_list_to_set%list_elem_of_fmap.
  destruct Hx as (n & -> & Hn). auto.
Qed.

Lemma succeeds_restore_nodes part files ns : forall p attempted g w,
  part ∈ parts m -> (forall n, n ∈ ns -> n ∈ part_targets part) ->
  files !! part_index part = Some (Some (content (part_index part))) ->
  groups p !! part_index part = Some g ->
  (forall n, n ∈ part_targets part -> n ∈ ns \/ node_group n ∈ g) ->
  2 * sz * Z.of_nat (length ns) <= left p ->
  succeeds (restore_nodes transport args receipt_bytes m part files p attempted ns)
    (fun r _ => moved (part_index part) (2 * sz * Z.of_nat (length ns)) p r.1 /\
       exists g', groups r.1 !! part_index part = Some g' /\ enough m g' = true) w.
Proof.
  induction ns as [|node ns IH]; intros p attempted g w Hp Hns Hf Hg Hall Hl; cbn [restore_nodes].
  { apply succeeds_ret. split; [apply moved_refl; cbn; lia|]. exists g. split; [done|].
    apply (all_groups_enough part); [done|]. intros n Hn.
    destruct (Hall n Hn) as [H|H]; [by apply elem_of_nil in H|done]. }
  assert (forall n, n ∈ ns -> n ∈ part_targets part) as Hns' by (intros n Hn; apply Hns; by right).
  assert (placed m part node) as Hpl by (split; [done|apply Hns; left]).
  pose proof (Hsize part Hp) as Hs. rewrite (Hsz part Hp) in Hs. cbn [length] in *.
  rewrite Nat2Z.inj_succ, Z.mul_succ_r in *.
  apply (succeeds_index _ _ g); [done|]. destruct (enough m g) eqn:Ee.
  { apply succeeds_ret. split; [apply moved_refl; lia|]. eauto. }
  destruct (bool_decide_reflect (node_group node ∈ g)) as [Hin|_].
  { eapply succeeds_impl; [apply (IH p attempted g w); try done; [|lia]|].
    - intros n Hn. destruct (Hall n Hn) as [[-> |H]%elem_of_cons|H]; auto.
    - intros [p' a'] w' [H1 H2]. split; [|done]. eapply moved_weaken; [exact H1|lia]. }
  apply succeeds_guarded. intros w1 _. unfold wrap64. rewrite (Hsz part Hp), Z.mod_small by lia.
  apply succeeds_reserve; [nia|].
  set (p1 := {| left := left p - sz * 2; groups := groups p; sources := sources p; nodes := nodes p |}).
  eapply succeeds_bind; [by apply succeeds_restore_node|]. intros ? w2 ->.
  set (p2 := with_copy p1 part node g None).
  assert (moved (part_index part) (2 * sz) p p2) as M.
  { replace (2 * sz) with (2 * sz + 0) by lia. eapply moved_trans; [|apply moved_copy].
    split; cbn; [lia|done|done]. }
  eapply succeeds_impl; [apply (IH p2 (S attempted) ({[node_group node]} ∪ g) w2); try done|].
  - cbn. apply list_lookup_insert_eq. by eapply lookup_lt_Some.
  - intros n Hn. destruct (Hall n Hn) as [[-> |H]%elem_of_cons|H]; [right; set_solver|auto|right; set_solver].
  - destruct M. nia.
  - intros [p' a'] w' [H1 H2]. split; [|done]. rewrite Z.add_comm. by eapply moved_trans.
Qed.

Definition served (files : list (option (list byte))) : Prop :=
  forall part, part ∈ parts m -> files !! part_index part = Some (Some (content (part_index part))).

Definition covered (p : Progress) (i : nat) : Prop :=
  exists g, groups p !! i = Some g /\ enough m g = true.

Lemma succeeds_restore_parts files ps : forall p attempted w,
  (forall part, part ∈ ps -> part ∈ parts m) -> NoDup (map part_index ps) -> served files ->
  length (groups p) = total m -> 2 * sz * node_count ps <= left p ->
  succeeds (restore_parts transport args receipt_bytes m files p attempted ps)
    (fun r _ => length (groups r.1) = total m /\
       (forall i, i ∉ map part_index ps -> groups r.1 !! i = groups p !! i) /\
       forall part, part ∈ ps -> covered r.1 (part_index part)) w.
Proof.
  induction ps as [|part ps IH]; intros p attempted w Hps Hn Hf Hlg Hl; cbn [restore_parts map].
  { apply succeeds_ret. split_and!; [done|done|]. intros part H. by apply elem_of_nil in H. }
  rewrite node_count_cons, Z.mul_add_distr_l in Hl.
  assert (part ∈ parts m) as Hp by (apply Hps; left).
  pose proof (proj1 (Hsize part Hp)) as H0. rewrite (Hsz part Hp) in H0.
  assert (0 <= 2 * sz * node_count ps) by (unfold node_count; nia).
  cbn [map] in Hn. apply NoDup_cons in Hn as [Hni Hn].
  destruct (lookup_lt_is_Some_2 (groups p) (part_index part)) as [g Hg].
  { apply list_elem_of_lookup in Hp as [i Hi]. rewrite (Hindex _ _ Hi). apply lookup_lt_Some in Hi. lia. }
  eapply succeeds_bind.
  { apply (succeeds_restore_nodes part files (part_targets part) p attempted g w); try done;
      [by apply Hf|by left|lia]. }
  intros [p1 a1] w1 [M (g' & Hg' & He)]. cbn [fst] in *.
  eapply succeeds_impl; [apply (IH p1 a1 w1); try done|].
  - intros q Hq. apply Hps. by right.
  - destruct M. congruence.
  - destruct M. lia.
  - intros [p2 a2] w2 (J1 & J2 & J3). cbn [fst] in *. split_and!; [done|..].
    + intros i [Hi Hi']%not_elem_of_cons. rewrite J2 by done. by apply (mv_others _ _ _ _ M).
    + intros q [-> |Hq]%elem_of_cons; [|by apply J3]. exists g'. by rewrite J2.
Qed.

(** ** Reconstruction *)

Hypothesis Hregen : forall d idx, is_erasure m = true -> disk_ok d -> NoDup idx ->
  length idx = required m -> (forall i, i ∈ idx -> (i < total m)%nat) ->
  regenerate hex_sha256 d m (map (fun i => (i, Some (content i))) idx) = Ok (map content (seq 0 (total m))).
Hypothesis Hmode : is_erasure m = false -> total m = required m.

Lemma all_served files :
  (forall i, (i < total m)%nat -> files !! i = Some (Some (content i))) -> served files.
Proof.
  intros H part [i Hi]%list_elem_of_lookup. rewrite (Hindex _ _ Hi). apply H.
  apply lookup_lt_Some in Hi. lia.
Qed.

Lemma succeeds_prepare p js w :
  sources p = map (fun i => (i, content i)) js -> NoDup js -> (forall i, i ∈ js -> (i < total m)%nat) ->
  (required m <= length js)%nat ->
  succeeds (prepare args receipt_bytes m p) (fun r _ => served r.1) w.
Proof.
  intros Hs Hn Hlt Hreq. unfold prepare. rewrite Hs, length_map.
  destruct (is_erasure m && (length js <? total m)%nat) eqn:Ee.
  - apply andb_true_iff in Ee as [Ee _]. apply succeeds_guarded. intros w1 _.
    destruct (co_disk Co (pw_env w1)) as (d & opens & e' & Ed & Hd & Ho & Hh).
    apply (succeeds_asked _ (d, opens)); [eauto|]. intros w2 _.
    assert (map (fun '(i, b) => (i, if opens i then Some b else None))
              (take (required m) (map (fun i => (i, content i)) js))
            = map (fun i => (i, Some (content i))) (take (required m) js)) as ->.
    { rewrite firstn_map, map_map. apply map_ext. intros i. by rewrite Ho. }
    rewrite Hregen; try done.
    + eapply succeeds_bind with (P := fun a w' => a = map content (seq 0 (total m))); [by eexists _, _|].
      intros ? w3 ->. apply succeeds_guarded. intros w4 _. apply succeeds_ret. apply all_served.
      intros i Hi. cbn [fst]. rewrite !list_lookup_fmap, lookup_seq_lt by done. done.
    + rewrite <- (take_drop (required m) js) in Hn. by apply NoDup_app in Hn as (Hn & _).
    + rewrite length_take. lia.
    + intros i Hi%elem_of_take_in. auto.
  - assert (total m <= length js)%nat as Hall.
    { destruct (is_erasure m) eqn:Em; cbn in Ee; [by apply Nat.ltb_ge in Ee|]. specialize (Hmode eq_refl). lia. }
    destruct (source_files_ok (map (fun i => (i, content i)) js) (replicate (total m) None))
      as (files & Ef & _ & H2 & _).
    { rewrite map_map. cbn [fst]. by rewrite map_id. }
    { intros i b Hb. rewrite length_replicate. apply list_elem_of_fmap in Hb as (j & Ej & Hj).
      injection Ej as -> ->. auto. }
    rewrite Ef. eapply succeeds_bind with (P := fun a _ => a = files); [by eexists _, _|].
    intros ? w1 ->. apply succeeds_ret, all_served. intros i Hi. cbn [fst]. apply H2.
    apply list_elem_of_fmap. exists i. split; [done|]. by apply (all_indexes _ (total m)).
Qed.

(** ** The pass *)

Lemma kept_sources h ps :
  concat (map (fun part => kept part (has_holder h part)) ps)
  = map (fun i => (i, content i)) (map part_index (List.filter (has_holder h) ps)).
Proof.
  induction ps as [|part ps IH]; [done|]. cbn [map concat List.filter]. rewrite IH.
  by destruct (has_holder h part).
Qed.

Lemma indexes_NoDup : NoDup (map part_index (parts m)).
Proof.
  apply NoDup_alt. intros i j x Hi Hj. rewrite list_lookup_fmap in Hi, Hj.
  destruct (parts m !! i) as [pi|] eqn:Ei; [|done]. destruct (parts m !! j) as [pj|] eqn:Ej; [|done].
  cbn in Hi, Hj. rewrite (Hindex _ _ Ei) in Hi. rewrite (Hindex _ _ Ej) in Hj. congruence.
Qed.

Lemma index_lt part : part ∈ parts m -> (part_index part < total m)%nat.
Proof. intros [i Hi]%list_elem_of_lookup. rewrite (Hindex _ _ Hi). apply lookup_lt_Some in Hi. lia. Qed.

Lemma covered_protected p :
  length (groups p) = total m -> (forall part, part ∈ parts m -> covered p (part_index part)) ->
  forallb (enough m) (groups p) = true.
Proof.
  intros Hl Hc. apply forallb_forall. intros g [i Hi]%list_elem_of_In%list_elem_of_lookup.
  pose proof (lookup_lt_Some _ _ _ Hi) as Hlt.
  destruct (lookup_lt_is_Some_2 (parts m) i) as [part Hp]; [lia|].
  destruct (Hc part) as (g' & Hg' & He); [apply list_elem_of_lookup; eauto|].
  rewrite (Hindex _ _ Hp) in Hg'. congruence.
Qed.

Lemma succeeds_pass w :
  check_only args = false -> (0 < total m)%nat ->
  sz * (2 * Z.of_nat (total m) + 1) <= Z.min U64_MAX (max_work_bytes args) ->
  3 * sz * node_count (parts m) <= transfer_budget_bytes args ->
  (required m <= length (List.filter (has_holder (held w)) (parts m)))%nat ->
  succeeds (pass transport args receipt_bytes m) (fun rep _ => protected rep = true) w.
Proof.
  intros Hco Ht Hdisk Hb Hreq. unfold pass. apply succeeds_guarded. intros w1 H1.
  destruct (lookup_lt_is_Some_2 (parts m) 0 ltac:(lia)) as [p0 Hp0].
  apply (succeeds_index _ _ p0); [done|].
  assert (p0 ∈ parts m) as Hin by (apply list_elem_of_lookup; eauto).
  pose proof (proj1 (Hsize p0 Hin)) as H0. rewrite (Hsz p0 Hin) in *.
  assert (0 <= sz * node_count (parts m)) by (unfold node_count; nia).
  unfold checked_mul. rewrite (proj2 (Z.leb_le _ _)) by lia. cbn [ok_or].
  eapply succeeds_bind with (P := fun a w' => a = sz * (2 * Z.of_nat (total m) + 1) /\ held w' = held w);
    [by eexists _, _|]. intros ? w2 [-> H2].
  rewrite (proj2 (Z.ltb_ge _ _)) by lia. apply succeeds_temp. intros w3 H3.
  eapply succeeds_bind.
  { apply (succeeds_read_parts (parts m) (start args m) w3); [done|apply indexes_NoDup| |cbn; lia].
    intros part Hp. cbn. rewrite lookup_replicate_2; [done|by apply index_lt]. }
  intros p w4 (H4 & Hleft & Hlg & Hs). cbn in Hleft, Hlg, Hs. rewrite length_replicate in Hlg.
  rewrite kept_sources in Hs. rewrite H3, H2 in Hs.
  set (js := map part_index _) in Hs.
  eapply succeeds_bind with (P := fun r _ => forallb (enough m) (groups r.1.1) = true).
  - unfold needs_repair. rewrite Hco, Hs, length_map. unfold js at 1. rewrite length_map.
    rewrite (proj2 (Nat.leb_le _ _) Hreq). cbn [negb andb].
    destruct (existsb _ (groups p)) eqn:Ex.
    + eapply succeeds_bind; [apply (succeeds_prepare p js)|].
      * done.
      * apply NoDup_map_filter, indexes_NoDup.
      * unfold js. intros i (part & -> & Hp)%list_elem_of_fmap. apply list_elem_of_In, filter_In in Hp as [Hp _].
        by apply index_lt, list_elem_of_In.
      * unfold js. by rewrite length_map.
      * intros [files rebuilt] w5 Hf. cbn [fst] in Hf.
        eapply succeeds_bind; [apply (succeeds_restore_parts files (parts m) p 0 w5); try done|].
        -- apply indexes_NoDup.
        -- lia.
        -- intros [p1 a1] w6 (J1 & J2 & J3). apply succeeds_ret. cbn [fst] in *. by apply covered_protected.
    + apply succeeds_ret. cbn [fst]. apply forallb_forall. intros g Hg.
      destruct (enough m g) eqn:Eg; [done|]. exfalso. apply not_true_iff_false in Ex. apply Ex.
      apply existsb_exists. exists g. by rewrite Eg.
  - intros [[p1 rebuilt] a1] w5 Hpr. cbn [fst] in Hpr. apply succeeds_guarded. intros w6 _.
    apply (succeeds_asked p_clock T); [apply (co_clock Co)|]. intros w7 _. by apply succeeds_ret.
Qed.
End Cooperative.
