(* ===== verification/PoolTheorems.v ===== *)
(** * Pools: the properties

    What an accepted receipt guarantees, what a repair pass and the repair
    process may do wherever they stop, what their reports rest on, that a pass
    restores protection, and what the HTTP transport reads; with a worked pool
    of three parts of which any two are enough. *)
From S2P Require Import Prelude Coding ReplicaPolicy ReplicaState PoolReceipt PoolTransport PoolTransportProofs PoolReceiptProofs PoolRepair PoolProofs PoolRestores.

(** The integer fields of a decoded receipt are unsigned. *)
Class PoolLibLaws `{PoolLib} := {
  payload_unsigned : forall s m, manifest_from_json s = Some m -> 0 <= payload_size (payload m)
}.

Section Accepted.
Context `{L : PoolLib, HL : HttpLib}.

(** ** What acceptance gives a pass *)

Lemma well_placed_sizes m p part :
  well_placed m p -> 0 <= payload_size (payload m) -> part ∈ parts m -> 0 <= part_size part < 2 ^ 63.
Proof.
  intros W Hp Hin. rewrite (wl_size _ _ W part Hin). destruct (wl_payload _ _ W) as [_ Hmax].
  destruct (wl_total _ _ W) as [Hr _].
  pose proof (div_ceil_spec (payload_size (payload m)) (Z.of_nat (required m)) ltac:(lia)). nia.
Qed.

Lemma well_placed_same m p part part' :
  well_placed m p -> part ∈ parts m -> part' ∈ parts m -> part_size part = part_size part'.
Proof. intros W H1 H2. by rewrite (wl_size _ _ W part H1), (wl_size _ _ W part' H2). Qed.

Lemma well_placed_mode m p : well_placed m p -> is_erasure m = false -> total m = required m.
Proof. intros W He. destruct (wl_mode _ _ W) as [(? & _)|(_ & -> & -> & _)]; [congruence|done]. Qed.

Lemma accepted_pass {E : Type} `{!PoolOutside E} (t : Transport E) `{!TransportLaws hex_sha256 t}
    args bytes m p l0 :
  well_placed m p -> 0 <= payload_size (payload m) -> 0 <= transfer_budget_bytes args ->
  spec args m l0 (pass t args bytes m) (fun rep l => log_ok args m l /\ report_ok args m rep l) [].
Proof.
  intros W Hp Hb. apply spec_pass; try done.
  - apply (wl_parts _ _ W).
  - apply (wl_index _ _ W).
  - intros part. by apply (well_placed_sizes m p).
  - intros part part'. by apply (well_placed_same m p).
  - by apply (well_placed_mode m p).
  - destruct (wl_total _ _ W). lia.
Qed.

Lemma well_placed_nodes m p part node :
  well_placed m p -> placed m part node -> node ∈ all_nodes m.
Proof.
  intros W [Hp Hn]. apply list_elem_of_In, in_concat. exists (part_targets part).
  split; [apply in_map|]; by apply list_elem_of_In.
Qed.

Lemma accepts_host p url : accepts p url = true -> exists host, host_str url = Some host.
Proof. unfold accepts. destruct (_ || _); [done|]. destruct (host_str url); [eauto|done]. Qed.

Lemma part_groups_NoDup m p part :
  well_placed m p -> part ∈ parts m -> NoDup (map node_group (part_targets part)).
Proof.
  intros W Hp. pose proof (wl_groups _ _ W) as Hn. unfold all_nodes in Hn. clear W.
  induction (parts m) as [|q ps IH]; [by apply elem_of_nil in Hp|]. cbn [map concat] in Hn.
  rewrite map_app in Hn. apply NoDup_app in Hn as (H1 & _ & H2).
  apply elem_of_cons in Hp as [-> |Hp]; auto.
Qed.

Lemma place_parts_key m id own p permit rev ex n seen i ps us :
  place_parts m id own p permit rev ex n seen i ps = Ok us -> ps <> [] -> public_key own = true.
Proof.
  destruct ps as [|part ps]; [done|]. cbn [place_parts]. destruct (negb _); [done|].
  destruct (place_nodes _ _ _ _ _) as [[s g]|]; [|done]. unfold policy_template.
  destruct (validate _) as [[]|]; [|done]. destruct (_ <=? n); [done|].
  destruct (canonical_hex own 32); [|done]. by destruct (public_key own).
Qed.

Lemma receipt_key bytes own id n permit m p :
  receipt bytes own id n permit = Ok (m, p) -> public_key own = true.
Proof.
  intros Hr. destruct (receipt_well_placed _ _ _ _ _ _ _ Hr) as [W (ev & E1 & _ & E3)].
  unfold receipt in Hr. destruct (templates _ _ _ _ _ _) as [t|] eqn:Et; [|done]. clear Hr.
  unfold templates in Et. rewrite E1 in Et. cbn [map_err] in Et. rewrite E3 in Et. cbn [ok_or] in Et.
  destruct (negb (header_ok _ _ _ _ _)); [done|]. destruct (negb (mode_ok m)); [done|].
  destruct (negb _); [done|]. destruct (derive_profile m permit) as [q|]; [|done].
  destruct (place_parts _ _ _ _ _ _ _ _ _ _ _) as [us|] eqn:Ep; [|done].
  apply (place_parts_key _ _ _ _ _ _ _ _ _ _ _ _ Ep).
  destruct (wl_total _ _ W). pose proof (wl_parts _ _ W) as Hl. intros En. rewrite En in Hl. cbn in Hl. lia.
Qed.

(** C2: in an accepted receipt of an erasure-coded pool every node is in a
    failure group of its own, so losing any [total - required] groups leaves
    [required] parts, each with a node outside the lost groups, and from any
    [required] of those [regenerate] rebuilds every part. *)
Theorem pool_survives_group_loss (bytes own id : string) (n : Z) (permit : bool) (m : Manifest)
    (p : Profile) (lost : gset string) (hex : list byte -> string) (d : Disk) (g : Matrix)
    (inputs : list (list byte)) (sz : nat)
    (Hr : receipt bytes own id n permit = Ok (m, p)) (He : manifest_mode m = "erasure"%string)
    (Hpos : 0 <= payload_size (payload m)) (Hlost : (size lost + required m <= total m)%nat)
    (Hc : pool_contents hex m g inputs sz) (Hd : disk_ok d) :
  (required m <= length (alive lost m))%nat /\
  (forall i, i ∈ alive lost m -> exists part node,
     parts m !! i = Some part /\ node ∈ part_targets part /\ node_group node ∉ lost) /\
  forall idx, NoDup idx -> (forall i, i ∈ idx -> i ∈ alive lost m) -> length idx = required m ->
    regenerate hex d m (map (fun i => (i, Some (encode_part g inputs sz i))) idx)
    = Ok (map (encode_part g inputs sz) (seq 0 (total m))).
Proof.
  destruct (receipt_well_placed _ _ _ _ _ _ _ Hr) as [W _].
  assert (is_erasure m = true) as Hm by (unfold is_erasure; by rewrite bool_decide_eq_true_2).
  split; [by apply (alive_enough m p)|]. split; [apply alive_survives|]. intros idx Hn Hi Hk.
  apply regenerate_from_any; try done; [by apply (contents_receipt_for hex m p)|].
  intros i (part & node & Hp & _)%Hi%alive_survives. apply lookup_lt_Some in Hp.
  by rewrite (wl_parts _ _ W) in Hp.
Qed.

(** C19: whatever the outside does and wherever a repair pass stops, its
    transfers stay within the budget, every call goes to a node of the receipt
    for its own part, signatures are asked for only to upload, an upload sends
    the bytes of the part right after the owner signed for that node and part,
    a check-only pass signs and uploads nothing, and no index is out of range. *)
Theorem pool_pass_contained {E : Type} `{!PoolOutside E} (t : Transport E)
    `{!TransportLaws hex_sha256 t} (args : RepairArgs) (bytes own id : string) (n : Z) (permit : bool)
    (m : Manifest) (p : Profile) (w w' : PoolWorld E) (r : result Stop Report)
    (Hr : receipt bytes own id n permit = Ok (m, p)) (Hpos : 0 <= payload_size (payload m))
    (Hb : 0 <= transfer_budget_bytes args) (Hrun : pass t args bytes m w = (r, w')) :
  r <> Err Panicked /\
  exists l, pw_log w' = pw_log w ++ l /\ transferred l <= transfer_budget_bytes args /\
    each (call_ok args m) l /\
    (check_only args = true -> forall c, c ∈ l -> match c with PSign _ | PUpload _ _ _ _ => False | _ => True end).
Proof.
  destruct (receipt_well_placed _ _ _ _ _ _ _ Hr) as [W _].
  destruct (accepted_pass t args bytes m p (pw_log w) W Hpos Hb w) as (l & H1 & H2);
    [by rewrite app_nil_r|]. rewrite Hrun in H1, H2. cbn [fst snd] in H1, H2.
  assert (log_ok args m l /\ r <> Err Panicked) as [[Hl1 Hl2] Hp].
  { destruct r as [rep|e]; cbn in H2; [by destruct H2|]. destruct H2. split; [done|congruence]. }
  split; [done|]. exists l. split_and!; try done. intros Hco c Hc.
  apply list_elem_of_split in Hc as (l1 & l2 & ->). specialize (Hl2 l1 c l2 eq_refl).
  destruct c; cbn in Hl2; try done; destruct Hl2; congruence.
Qed.

(** C24: when a pass reports, each failure group it counts for a part is the
    group of a node of that part that was read in full in the same pass; it
    says protected exactly when every part has as many such groups as copies
    were asked for, and recoverable exactly when enough parts have one; and a
    node it calls verified was read in the same pass. *)
Theorem pool_report_rests_on_reads {E : Type} `{!PoolOutside E} (t : Transport E)
    `{!TransportLaws hex_sha256 t} (args : RepairArgs) (bytes own id : string) (n : Z) (permit : bool)
    (m : Manifest) (p : Profile) (w w' : PoolWorld E) (rep : Report)
    (Hr : receipt bytes own id n permit = Ok (m, p)) (Hpos : 0 <= payload_size (payload m))
    (Hb : 0 <= transfer_budget_bytes args) (Hrun : pass t args bytes m w = (Ok rep, w')) :
  exists l, pw_log w' = pw_log w ++ l /\ report_ok args m rep l.
Proof.
  destruct (receipt_well_placed _ _ _ _ _ _ _ Hr) as [W _].
  destruct (accepted_pass t args bytes m p (pw_log w) W Hpos Hb w) as (l & H1 & H2);
    [by rewrite app_nil_r|]. rewrite Hrun in H1, H2. cbn [fst snd post] in H1, H2.
  exists l. split; [done|apply H2].
Qed.

(** What the nodes of a pool hold: the parts of the code, or in a mirrored pool
    any bytes. *)
Definition stored_as (m : Manifest) (content : nat -> list byte) : Prop :=
  is_erasure m = true -> exists g inputs sz,
    pool_contents hex_sha256 m g inputs sz /\ forall i, content i = encode_part g inputs sz i.

(** C6: in a cooperative world a pass restores what was lost.  If the nodes
    that still hold their parts cover [required] of them, and the budgets fit,
    the pass returns, and its report says protected: every part is back on as
    many failure groups as copies were asked for. *)
Theorem pool_pass_restores {E : Type} `{!PoolOutside E} (t : Transport E) (args : RepairArgs)
    (bytes id : string) (n : Z) (permit : bool) (m : Manifest) (p : Profile) (sz : Z)
    (hold : E -> gset string) (T : Z) (content : nat -> list byte) (w : PoolWorld E)
    (Hr : receipt bytes (args_owner args) id n permit = Ok (m, p))
    (Hpos : 0 <= payload_size (payload m)) (Hs : stored_as m content)
    (Hco : cooperative t args bytes m hold T content) (Hcheck : check_only args = false)
    (Hsz : div_ceil (payload_size (payload m)) (Z.of_nat (required m)) = sz)
    (Hwork : sz * (2 * Z.of_nat (total m) + 1) <= Z.min U64_MAX (max_work_bytes args))
    (Hbudget : 3 * sz * node_count (parts m) <= transfer_budget_bytes args)
    (Hheld : (required m <= length (List.filter (has_holder (hold (pw_env w))) (parts m)))%nat) :
  exists rep w', pass t args bytes m w = (Ok rep, w') /\ protected rep = true.
Proof.
  destruct (receipt_well_placed _ _ _ _ _ _ _ Hr) as [W _].
  apply (succeeds_pass t args bytes m hold T content Hco) with (sz := sz); try done.
  - intros part. by apply (well_placed_sizes m p).
  - intros part Hp. by rewrite (wl_size _ _ W part Hp).
  - apply (wl_index _ _ W).
  - apply (wl_parts _ _ W).
  - intros part node Hpl. destruct (wl_nodes _ _ W node) as (url & Hu & _ & Ha);
      [by apply (well_placed_nodes m p part)|]. destruct (accepts_host p url Ha) as [host Hh]. eauto.
  - by apply (receipt_key bytes _ id n permit m p).
  - intros part. by apply (part_groups_NoDup m p).
  - apply (wl_copies _ _ W).
  - intros d idx He Hd Hn Hk Hi. destruct (Hs He) as (g & inputs & k & Hc & Hcont).
    rewrite (map_ext content (encode_part g inputs k)) by done.
    rewrite (map_ext _ (fun i => (i, Some (encode_part g inputs k i)))) by (intros i; by rewrite Hcont).
    apply regenerate_from_any; try done. by apply (contents_receipt_for hex_sha256 m p).
  - by apply (well_placed_mode m p).
  - destruct (wl_total _ _ W). lia.
Qed.

(** ** The process *)

Lemma transferred_app a b : transferred (a ++ b) = transferred a + transferred b.
Proof. unfold transferred. induction a; cbn; lia. Qed.

Lemma each_prefix {A} (P : list A -> A -> Prop) a b : each P (a ++ b) -> each P a.
Proof. intros H before c after ->. apply (H before c (after ++ b)). by rewrite <- app_assoc. Qed.

(** Every prefix of a good log is good: a pass may be dropped at any call. *)
Lemma log_ok_prefix args m a b :
  (forall part, part ∈ parts m -> 0 <= part_size part) -> log_ok args m (a ++ b) -> log_ok args m a.
Proof.
  intros Hs [H1 H2]. split; [|by eapply each_prefix].
  rewrite transferred_app in H1. enough (0 <= transferred b) by lia. clear H1.
  assert (forall c, c ∈ b -> 0 <= call_bytes c) as Hc.
  { intros c Hc. apply list_elem_of_split in Hc as (b1 & b2 & ->).
    specialize (H2 (a ++ b1) c b2 ltac:(by rewrite <- app_assoc)).
    destruct c; cbn in *; try done.
    - destruct H2 as (part & node & [Hp _] & _ & ->). by apply Hs.
    - destruct H2 as (part & node & [Hp _] & _ & ->). by apply Hs.
    - destruct H2 as (_ & part & node & _ & _ & _ & [Hp _] & _ & -> & _). by apply Hs. }
  clear H2. unfold transferred. induction b as [|c b IH]; [done|]. cbn.
  pose proof (Hc c ltac:(left)). specialize (IH ltac:(intros x Hx; apply Hc; by right)). lia.
Qed.

(** The passes a run made, and what it returned. *)
Record run_ok (args : RepairArgs) (m : Manifest) (fuel : nat) (passes : list (list PoolCall))
    (r : result Stop (option (option Report))) : Prop := {
  rk_count : (length passes <= fuel)%nat;
  rk_logs : Forall (log_ok args m) passes;
  rk_panic : r <> Err Panicked;
  rk_report : forall rep, r = Ok (Some (Some rep)) ->
    protected rep = true /\ exists l, last passes = Some l /\ report_ok args m rep l
}.

(** Computations that make no call and do not panic. *)
Definition silent {E A} (c : PM (E := E) A) : Prop :=
  forall w, pw_log (c w).2 = pw_log w /\ (c w).1 <> Err Panicked.

Lemma silent_bind {E A B} (c : PM (E := E) A) (k : A -> PM (E := E) B) :
  silent c -> (forall a, silent (k a)) -> silent (bind c k).
Proof.
  intros Hc Hk w. destruct (Hc w) as [H1 H2]. unfold bind. destruct (c w) as [[a|e] w']; cbn in *.
  - destruct (Hk a w') as [H3 H4]. split; congruence.
  - split; congruence.
Qed.

Lemma silent_ret {E A} (a : A) : silent (E := E) (ret a).
Proof. by intros w. Qed.

Lemma silent_stop {E A} e : silent (E := E) (A := A) (stop e).
Proof. by intros w. Qed.

Lemma silent_pask {E A} (f : E -> A * E) : silent (pask f).
Proof. intros w. unfold pask. by destruct (f (pw_env w)). Qed.

Lemma silent_or_stop {E A} (r : result Error A) : silent (E := E) (or_stop r).
Proof. intros w. by destruct r. Qed.

Ltac silent :=
  repeat (cbn beta iota; lazymatch goal with
  | |- silent (bind _ _) => apply silent_bind; [|intros ?]
  | |- silent (ret _) => apply silent_ret
  | |- silent (stop _) => apply silent_stop
  | |- silent (pask _) => apply silent_pask
  | |- silent (or_stop _) => apply silent_or_stop
  | |- silent (match ?x with _ => _ end) => destruct x
  | |- silent ?c => let h := eval unfold guard_check, now, save_report, prepare_run in c in
                    progress change (silent h)
  end).

Lemma bind_eq {S X A B} (c : SM S X A) (k : A -> SM S X B) s r s' :
  c s = (r, s') -> bind c k s = match r with Ok a => k a s' | Err e => (Err e, s') end.
Proof. unfold bind. by intros ->. Qed.

(** A silent step before the rest of a run. *)
Lemma silent_then {E A B} (c : PM (E := E) A) (k : A -> PM (E := E) B) (P : result Stop B -> list PoolCall -> Prop) w :
  silent c ->
  (forall e, e <> Panicked -> P (Err e) (pw_log w)) ->
  (forall a w', c w = (Ok a, w') -> pw_log w' = pw_log w -> P (k a w').1 (pw_log (k a w').2)) ->
  P (bind c k w).1 (pw_log (bind c k w).2).
Proof.
  intros Hc He Hk. destruct (Hc w) as [H1 H2]. unfold bind. destruct (c w) as [[a|e] w']; cbn in *.
  - auto.
  - rewrite H1. apply He. congruence.
Qed.

Section Loop.
Context {E : Type} `{!PoolOutside E, !RunOutside E} (connect : Profile -> Transport E).
Context `{!forall p, TransportLaws hex_sha256 (connect p)}.
Variables (args : RepairArgs) (bytes : string) (m : Manifest) (p : Profile).
Hypothesis W : well_placed m p.
Hypothesis Hpos : 0 <= payload_size (payload m).
Hypothesis Hb : 0 <= transfer_budget_bytes args.

(** A pass of the loop, dropped or not: a good log, and a report that rests on
    it. *)
Lemma guarded_pass_ok w :
  let r := guarded_pass connect args bytes m p w in
  exists l, pw_log r.2 = pw_log w ++ l /\ log_ok args m l /\ r.1 <> Err Panicked /\
    forall rep, r.1 = Ok (Some rep) -> report_ok args m rep l.
Proof.
  cbn zeta. destruct (interrupt (pw_env w)) as [i e] eqn:Ei.
  set (w1 := {| pw_env := e; pw_log := pw_log w |}).
  assert (guarded_pass connect args bytes m p w =
    match i with
    | None => (let! r := pass (connect p) args bytes m in ret (Some r)) w1
    | Some (k, deadline) =>
        (let! _ := cut k (pw_log w1) in if deadline : bool then stop expired else ret None)
          (pass (connect p) args bytes m w1).2
    end) as -> by (unfold guarded_pass, bind at 1, pask; rewrite Ei; by destruct i as [[? ?]|]).
  destruct (accepted_pass (connect p) args bytes m p (pw_log w) W Hpos Hb w1) as (l & H1 & H2);
    [by rewrite app_nil_r|].
  destruct i as [[k deadline]|].
  - assert (log_ok args m l) as Hl
      by (destruct (pass _ _ _ _ w1).1 as [rep|e']; cbn in H2; by destruct H2).
    exists (take k l).
    assert (log_ok args m (take k l)) as Hk.
    { apply (log_ok_prefix args m _ (drop k l)); [|by rewrite take_drop].
      intros part Hp. by apply (well_placed_sizes m p). }
    unfold bind, cut. rewrite H1. change (pw_log w1) with (pw_log w). rewrite drop_app_length.
    destruct deadline; cbn; split_and!; done || congruence.
  - unfold bind. destruct (pass _ _ _ _ w1) as [[rep|e'] w2]; cbn [fst snd post] in *; exists l.
    + destruct H2. split_and!; [done|done|done|]. by intros ? [= <-].
    + destruct H2. split_and!; [done|done|congruence|done].
Qed.

Definition loop_ok (fuel : nat) (before : list PoolCall) (r : result Stop (option (option Report)))
    (after : list PoolCall) : Prop :=
  exists passes, after = before ++ concat passes /\ run_ok args m fuel passes r.

Lemma loop_ok_stop fuel before e : e <> Panicked -> loop_ok fuel before (Err e) before.
Proof. intros He. exists []. rewrite app_nil_r. split; [done|]. split; [cbn; lia|done|congruence|done]. Qed.

(** One pass more in front. *)
Lemma loop_ok_cons fuel before l r after :
  log_ok args m l -> loop_ok fuel (before ++ l) r after -> loop_ok (S fuel) before r after.
Proof.
  intros Hl (passes & -> & [H1 H2 H3 H4]). exists (l :: passes).
  split; [by rewrite <- app_assoc|]. split; [cbn; lia|by constructor|done|]. intros rep Hr.
  destruct (H4 rep Hr) as (H5 & l' & Hl' & H6). split; [done|]. exists l'. by rewrite last_cons, Hl'.
Qed.

(** A pass at the end. *)
Lemma loop_ok_one fuel before l r :
  log_ok args m l -> r <> Err Panicked ->
  (forall rep, r = Ok (Some (Some rep)) -> protected rep = true /\ report_ok args m rep l) ->
  loop_ok (S fuel) before r (before ++ l).
Proof.
  intros Hl Hp Hr. exists [l]. split; [cbn; by rewrite app_nil_r|]. split; [cbn; lia|by apply Forall_singleton|done|].
  intros rep E'. destruct (Hr rep E'). eauto.
Qed.

Lemma run_loop_ok fuel : forall w,
  loop_ok fuel (pw_log w) (run_loop connect args fuel bytes m p w).1
    (pw_log (run_loop connect args fuel bytes m p w).2).
Proof.
  induction fuel as [|fuel IH]; intros w; cbn [run_loop].
  { exists []. cbn. rewrite app_nil_r. split; [done|]. by split. }
  apply (silent_then _ _ (loop_ok (S fuel) (pw_log w))); [silent|apply loop_ok_stop|]. intros [] w1 _ H1.
  rewrite <- H1. clear H1.
  apply (silent_then _ _ (loop_ok (S fuel) (pw_log w1))); [silent|apply loop_ok_stop|]. intros t w2 _ H2.
  rewrite <- H2. clear H2.
  destruct (guarded_pass_ok w2) as (l & H3 & H4 & H5 & H6).
  destruct (guarded_pass connect args bytes m p w2) as [r w3] eqn:Eg. rewrite !(bind_eq _ _ _ _ _ Eg).
  clear Eg. destruct r as [[rep|]|e]; cbn [fst snd] in *.
  - apply (silent_then _ _ (loop_ok (S fuel) (pw_log w2))); [silent|..].
    { intros e He. rewrite H3. by apply loop_ok_one; [done|congruence|]. }
    intros [] w4 _ H7. rewrite H3 in H7.
    destruct (once args || check_only args).
    + destruct (protected rep) eqn:Epr; cbn; rewrite H7; apply loop_ok_one; try done.
      intros rep' [= <-]. auto.
    + apply (silent_then _ _ (loop_ok (S fuel) (pw_log w2))); [silent|..].
      { intros e He. rewrite H7. apply loop_ok_one; [done|congruence|done]. }
      intros ended w5 _ H8. rewrite H7 in H8. destruct ended.
      * cbn. rewrite H8. by apply loop_ok_one.
      * apply (loop_ok_cons _ _ l); [done|]. rewrite <- H8. apply IH.
  - cbn. rewrite H3. by apply loop_ok_one.
  - rewrite H3. apply loop_ok_one; [done| |done]. intros [= ->]. by apply H5.
Qed.
End Loop.

(** The repair process over HTTP, however many passes it makes and however
    it ends (an error, a stop, the deadline in the middle of a pass).  It makes
    no call unless the receipt it was pointed at is one the owner signed, with
    the id it was told to expect; its calls are those of passes that each keep
    to the budget and to the receipt; and when it ends with a report, that
    report says protected and rests on the reads of the last pass. *)
Theorem pool_run_contained {E : Type} `{!PoolOutside E, !RunOutside E, !HttpOutside E, !PoolLibLaws}
    (args : RepairArgs) (proxy : option Url) (fuel : nat) (w w' : PoolWorld E)
    (r : result Stop (option (option Report))) (Hb : 0 <= transfer_budget_bytes args)
    (Hrun : run HttpTransport args proxy fuel w = (r, w')) :
  (pw_log w' = pw_log w /\ forall rep, r <> Ok (Some (Some rep))) \/
  exists bytes t m p ev, receipt bytes (args_owner args) (args_receipt_id args) t
                           (permit_loopback_development args) = Ok (m, p) /\
    t < expires_at args /\ signed_event bytes (args_owner args) RECEIPT_BYTES = Ok ev /\
    ev_id ev = args_receipt_id args /\
    exists passes, pw_log w' = pw_log w ++ concat passes /\ run_ok args m fuel passes r.
Proof.
  unfold run in Hrun.
  assert (silent (prepare_run (E := E) args proxy)) as Hs by (unfold prepare_run; silent).
  destruct (Hs w) as [Hl Hp].
  destruct (prepare_run args proxy w) as [r1 w1] eqn:Eq. rewrite (bind_eq _ _ _ _ _ Eq) in Hrun.
  destruct r1 as [[[bytes m] p]|e]; [|injection Hrun as <- <-; by left]. right. cbn [fst snd] in Hl, Hp.
  assert (exists t q, receipt bytes (args_owner args) (args_receipt_id args) t
    (permit_loopback_development args) = Ok (m, q) /\ t < expires_at args /\ p = q) as (t & q & Hr & Ht & ->).
  { unfold prepare_run in Eq. apply bind_ok in Eq as (t & e1 & _ & Eq).
    destruct (Z.leb_spec (expires_at args) t); [done|]. destruct (negb _); [done|].
    apply bind_ok in Eq as (rb & e2 & _ & Eq). apply bind_ok in Eq as (b & e3 & _ & Eq).
    apply bind_ok in Eq as ([m' q] & e4 & Hr & Eq). apply bind_ok in Eq as (q' & e5 & Hn & Eq).
    apply bind_ok in Eq as (lock & e6 & _ & Eq). apply bind_ok in Eq as (u & e7 & _ & Eq).
    apply bind_ok in Eq as (names & e8 & _ & Eq). apply bind_ok in Eq as (ns & e9 & _ & Eq).
    destruct (existsb _ ns); [done|]. injection Eq as -> -> -> _.
    exists t, q. unfold or_stop, lift in Hr, Hn. destruct (receipt _ _ _ _ _) as [[m2 q2]|]; [|done].
    injection Hr as -> ->. split_and!; [done|done|].
    destruct (new_transport q proxy _) as [q3|] eqn:En; [|done]. injection Hn as ->. clear -En.
    unfold new_transport in En. repeat case_match; simplify_eq; done. }
  destruct (receipt_well_placed _ _ _ _ _ _ _ Hr) as [W (ev & E1 & E2 & E3)].
  exists bytes, t, m, q, ev. split_and!; try done. rewrite <- Hl.
  pose proof (run_loop_ok HttpTransport args bytes m q W (payload_unsigned _ _ E3) Hb fuel w1) as Hloop.
  rewrite Hrun in Hloop. exact Hloop.
Qed.
End Accepted.

(** A read over HTTP succeeds exactly when the target's origin is one the
    profile accepts and the server answers 200, declares the blob's length and
    streams the blob, in whatever chunks; and the file a download leaves is
    that stream. *)
Theorem http_reads_exactly_the_blob `{PolicyLib, HttpLib} {E : Type} `{!HttpOutside E} (p : Profile)
    (target : Target) (b : Blob) (e : E) (Hsize : 0 <= blob_size b <= U64_MAX) :
  (forall e', verify_http p target b e = (Ok tt, e') <->
     exists url response bytes, blob_url p target (blob_sha256 b) = Ok url /\
       http_get url e = (Some response, e') /\ serves b response bytes) /\
  (forall bytes e', download_http p target b e = (Ok bytes, e') ->
     exists url response e1, blob_url p target (blob_sha256 b) = Ok url /\
       http_get url e = (Some response, e1) /\ serves b response bytes) /\
  (forall url, blob_url p target (blob_sha256 b) = Ok url ->
     exists u, url_parse (target_origin target) = Some u /\ accepts p u = true).
Proof.
  split_and!.
  - intros e'. by apply verify_http_iff.
  - intros bytes e'. by apply download_http_serves.
  - intros url. unfold blob_url, origin. destruct (url_parse _) as [u|]; [|done]. cbn [ok_or].
    destruct (accepts p u) eqn:Ea; [|done]. eauto.
Qed.

(** Segments of an IPv6 address. *)
Definition v6_ok (s : list Z) : Prop := forall x, x ∈ s -> 0 <= x < 65536.

Lemma mapped_octets s a b c d :
  v6_ok s -> to_ipv4_mapped s = Some (a, b, c, d) -> octet a /\ octet b /\ octet c /\ octet d.
Proof.
  intros Hok Hm. assert (exists x y, x ∈ s /\ y ∈ s /\ a = Z.shiftr x 8 /\ b = Z.land x 0xff /\
    c = Z.shiftr y 8 /\ d = Z.land y 0xff) as (x & y & Hx & Hy & -> & -> & -> & ->).
  { unfold to_ipv4_mapped in Hm. repeat (case_match; try done). simplify_eq.
    eexists _, _. split_and!; try done; set_solver. }
  apply Hok in Hx, Hy. unfold octet. change 0xff with (Z.ones 8). rewrite !Z.land_ones by lia.
  rewrite !Z.shiftr_div_pow2 by lia. change (2 ^ 8) with 256. euclid.
Qed.

(** The resolver of the direct profile returns some of the addresses a name
    has, and none of them lies in a reserved block: not an IPv4 one, not one
    mapped into IPv6, and of the others only from [2000::/3]. *)
Theorem resolver_only_public (lookup : option (list IpAddr)) (l : list IpAddr) (ip : IpAddr)
    (Hr : resolve lookup = Some l) (Hin : ip ∈ l) :
  (exists all, lookup = Some all /\ ip ∈ all) /\
  match ip with
  | V4 a b c d => octet a -> octet b -> octet c -> octet d ->
      forall block, block ∈ reserved_v4 -> in_block a b c d block = false
  | V6 s => length s = 8%nat -> v6_ok s ->
      match to_ipv4_mapped s with
      | Some (a, b, c, d) => forall block, block ∈ reserved_v4 -> in_block a b c d block = false
      | None => 0x2000 <= s !!! 0%nat < 0x4000
      end
  end.
Proof.
  unfold resolve in Hr. destruct lookup as [all|]; [|done].
  assert (l = List.filter public_ip all) as -> by (destruct (List.filter public_ip all); congruence).
  apply list_elem_of_In, filter_In in Hin as [Hin Hpub].
  split; [exists all; split; [done|by apply list_elem_of_In]|].
  assert (forall a b c d, octet a -> octet b -> octet c -> octet d -> public_ipv4 a b c = true ->
    forall block, block ∈ reserved_v4 -> in_block a b c d block = false) as Hv4.
  { intros a b c d Ha Hb Hc Hd Hp block Hbl. rewrite (public_ipv4_blocks a b c d) in Hp by done.
    apply negb_true_iff in Hp. destruct (in_block a b c d block) eqn:Eb; [|done].
    rewrite <- Hp. symmetry. apply existsb_exists. exists block. split; [by apply list_elem_of_In|done]. }
  destruct ip as [a b c d|s]; cbn [public_ip] in Hpub; [by intros; apply Hv4|]. intros Hl Hok.
  unfold public_ipv6 in Hpub. destruct (to_ipv4_mapped s) as [[[[a b] c] d]|] eqn:Em.
  - destruct (mapped_octets s a b c d Hok Em) as (H1 & H2 & H3 & H4). by apply Hv4.
  - rewrite !andb_true_iff in Hpub. destruct Hpub as [[[H1 _] _] _].
    apply unicast_segment; [|done]. apply Hok, list_elem_of_lookup_total_2. lia.
Qed.

(** ** A worked pool

    Three parts of five bytes, any two of which are enough, on three loopback
    nodes; the state of the outside is the set of nodes that hold their part.
    At the start node [n1] has lost its part. *)

Definition hex_digit (n : Z) : Ascii.ascii := Ascii.ascii_of_N (Z.to_N (if n <? 10 then 48 + n else 87 + n)).

Fixpoint hex_digits (l : list byte) : string :=
  match l with
  | [] => EmptyString
  | b :: l => String (hex_digit (b2z b / 16)) (String (hex_digit (b2z b mod 16)) (hex_digits l))
  end.

(** Thirty-two bytes in hexadecimal, standing for a hash. *)
Definition pool_hex (l : list byte) : string := hex_digits (take 32 (l ++ replicate 32 Init.Byte.x00)).

Definition ptoy_node (i : nat) : Node :=
  let n := nth i ["0"; "1"; "2"]%string "3"%string in
  {| node_id := String.append "n" n; node_origin := String.append "http://127.0.0.1:800" (String.append n "/");
     node_group := String.append "g" n; node_weight := 1 |}.

Definition ptoy_content (i : nat) : list byte := encode_part toy_generator toy_inputs 5 i.

Definition ptoy_part (i : nat) : Part :=
  {| part_index := i; part_sha256 := pool_hex (ptoy_content i); part_size := 5;
     part_targets := [ptoy_node i] |}.

Definition ptoy_manifest : Manifest :=
  {| manifest_type := "wildbloom.pool"; manifest_version := 1; manifest_mode := "erasure";
     manifest_profile := "direct";
     payload := {| payload_sha256 := pool_hex (take 9 (concat toy_inputs)); payload_size := 9;
                   payload_encryption := "forgesworn-aes-256-gcm-chunked-v2" |};
     required := 2; total := 3; copies := 1; parts := map ptoy_part (seq 0 3) |}.

Definition ptoy_id (b : byte) : string := pool_hex (replicate 32 b).
Definition ptoy_owner : string := ptoy_id Init.Byte.xaa.
Definition ptoy_receipt_id : string := ptoy_id Init.Byte.x01.

Definition ptoy_event (s : string) : Event :=
  if bool_decide (s = "receipt"%string)
  then {| ev_id := ptoy_receipt_id; ev_pubkey := ptoy_owner; ev_created_at := 900; ev_kind := 30078;
          ev_tags := [pool_tag ptoy_manifest]; ev_content := s |}
  else {| ev_id := ptoy_id Init.Byte.x03; ev_pubkey := ptoy_owner; ev_created_at := 999; ev_kind := 24242;
          ev_tags := []; ev_content := s |}.

Definition ptoy_url (s : string) : Url :=
  {| scheme := "http"; username := ""; password := None; host_str := Some "127.0.0.1"%string;
     host_is_ip := true; host_is_loopback_v4 := true; port := Some 8000; path := "/"; query := None;
     fragment := None; as_str := s |}.

Definition ptoy_policy_lib : PolicyLib :=
  {| url_parse s := Some (ptoy_url s);
     strict_event s :=
       let e := ptoy_event s in
       Some {| raw_id := ev_id e; raw_pubkey := ptoy_owner; raw_created_at := ev_created_at e;
               raw_kind := ev_kind e; raw_tags := ev_tags e; raw_content := s;
               raw_sig := String.append ptoy_owner ptoy_owner |};
     event_from_json s := Some (ptoy_event s); event_verify _ := true; public_key _ := true;
     policy_from_json _ := None; policy_to_json _ := Some "policy"%string;
     compute_id _ := ptoy_id Init.Byte.x03; sha3_256 l := l; decimal _ := "1"%string; base64_url s := s;
     verify_upload _ _ _ _ _ := true |}.

Definition ptoy_state_lib : StateLib :=
  {| policy_lib := ptoy_policy_lib; snapshot_json_len _ := Some 500; request_json _ := Some "{}"%string;
     event_as_json _ := "{}"%string |}.

Definition ptoy_pool_lib : PoolLib :=
  {| pool_state_lib := ptoy_state_lib;
     manifest_from_json s := if bool_decide (s = "receipt"%string) then Some ptoy_manifest else None |}.

Definition ptoy_http_lib : HttpLib :=
  {| hex_sha256 := pool_hex; url_join u s := Some (String.append (as_str u) s); header_value _ := true;
     mirror_body s := s; descriptor_from_json _ := None; loopback_literal _ := false;
     proxy_ok _ := false; client_ok := true |}.

Abbreviation ptoy_env := (gset string).

Definition ptoy_outside : PoolOutside ptoy_env :=
  {| p_clock e := (1000, e); read_receipt e := (Ok "receipt"%string, e); temp_ok e := (true, e);
     work_disk e := ((toy_disk, fun _ => true), e); p_sign _ e := (Some "signed"%string, e) |}.

(** Which node a url is about. *)
Definition ptoy_at (what : nat -> string) (url : string) : option nat :=
  List.find (fun i => bool_decide (url = String.append (node_origin (ptoy_node i)) (what i))) (seq 0 3).

Definition ptoy_http : HttpOutside ptoy_env :=
  {| http_get url e :=
       (match ptoy_at (fun i => part_sha256 (ptoy_part i)) url with
        | Some i =>
            if bool_decide (node_id (ptoy_node i) ∈ e)
            then Some {| status := 200; content_length := Some 5;
                         chunks := [Some (take 2 (ptoy_content i)); Some (drop 2 (ptoy_content i))] |}
            else None
        | None => None
        end, e);
     http_put_json _ _ _ e := (None, e);
     http_put_file url _ _ _ file e :=
       match ptoy_at (fun _ => "upload"%string) url with
       | Some i => ((Some 201, file), {[node_id (ptoy_node i)]} ∪ e)
       | None => ((None, []), e)
       end;
     file_ok e := (true, e) |}.

Definition ptoy_run_outside : RunOutside ptoy_env :=
  {| interrupt e := (None, e); open_work_dir e := (Ok tt, e); list_work_dir e := (Some [], e);
     write_report _ e := (Written, e); stopped_waiting e := (false, e) |}.

#[local] Existing Instances ptoy_pool_lib ptoy_http_lib ptoy_outside ptoy_http ptoy_run_outside.

Definition ptoy_args : RepairArgs :=
  {| args_receipt_id := ptoy_receipt_id; args_owner := ptoy_owner; allow_reconstruction := true;
     check_only := false; expires_at := 5000; signer_absolute := true;
     permit_loopback_development := true; once := true; transfer_budget_bytes := 45;
     max_work_bytes := 35 |}.

Definition ptoy_w0 : PoolWorld ptoy_env := {| pw_env := {["n0"%string; "n2"%string]}; pw_log := [] |}.

Lemma ptoy_receipt : receipt "receipt" ptoy_owner ptoy_receipt_id 1000 true
                     = Ok (ptoy_manifest, LoopbackDevelopment).
Proof. vm_compute. reflexivity. Qed.

Example ptoy_run_protects :
  match run HttpTransport ptoy_args None 1 ptoy_w0 with
  | (Ok (Some (Some rep)), w) => protected rep && (uploads_attempted rep =? 1)%nat && reconstructed rep
                                 && (length (pw_log w) =? 6)%nat
  | _ => false
  end = true.
Proof. vm_compute. reflexivity. Qed.

Lemma ptoy_contents : pool_contents pool_hex ptoy_manifest toy_generator toy_inputs 5.
Proof.
  split.
  - vm_compute. reflexivity.
  - reflexivity.
  - intros l Hl. unfold toy_inputs in Hl. rewrite !elem_of_cons, elem_of_nil in Hl.
    destruct Hl as [-> |[-> |[]]]; reflexivity.
  - intros part (i & -> & _)%list_elem_of_fmap. reflexivity.
  - intros i part Hp. cbn [parts ptoy_manifest] in Hp. rewrite list_lookup_fmap in Hp.
    destruct (seq 0 3 !! i) as [j|] eqn:Ej; [|done]. apply lookup_seq in Ej as [-> _].
    injection Hp as <-. reflexivity.
  - vm_compute. reflexivity.
  - vm_compute. reflexivity.
Defined.

Lemma pool_survives_group_loss_witness :
  (2 <= length (alive {["g1"%string]} ptoy_manifest))%nat /\
  regenerate pool_hex toy_disk ptoy_manifest
    (map (fun i => (i, Some (encode_part toy_generator toy_inputs 5 i))) [2; 0]%nat)
  = Ok (map (encode_part toy_generator toy_inputs 5) (seq 0 3)).
Proof.
  destruct (pool_survives_group_loss "receipt" ptoy_owner ptoy_receipt_id 1000 true ptoy_manifest
    LoopbackDevelopment {["g1"%string]} pool_hex toy_disk toy_generator toy_inputs 5 ptoy_receipt eq_refl)
    as (H1 & _ & H2).
  - cbn. lia.
  - rewrite size_singleton. cbn. lia.
  - exact ptoy_contents.
  - repeat split.
  - split; [exact H1|]. apply (H2 [2; 0]%nat); [repeat constructor; set_solver| |reflexivity].
    apply Forall_forall. vm_compute. repeat constructor.
Defined.

Definition ptoy_pass : result Stop Report * PoolWorld ptoy_env :=
  pass (HttpTransport LoopbackDevelopment) ptoy_args "receipt" ptoy_manifest ptoy_w0.

Lemma pool_pass_contained_witness :
  exists l, pw_log ptoy_pass.2 = pw_log ptoy_w0 ++ l /\ transferred l <= 45 /\
    each (call_ok ptoy_args ptoy_manifest) l.
Proof.
  destruct (pool_pass_contained (HttpTransport LoopbackDevelopment) ptoy_args "receipt" ptoy_owner
    ptoy_receipt_id 1000 true ptoy_manifest LoopbackDevelopment ptoy_w0 ptoy_pass.2 ptoy_pass.1 ptoy_receipt)
    as (_ & l & H1 & H2 & H3 & _).
  - cbn. lia.
  - cbn. lia.
  - unfold ptoy_pass. apply surjective_pairing.
  - exists l. split; [exact H1|]. split; [exact H2|exact H3].
Defined.

Lemma ptoy_pass_reports : is_ok ptoy_pass.1 = true.
Proof. vm_compute. reflexivity. Qed.

Definition no_report : Report :=
  {| rep_receipt_id := ""; rep_observed_at := 0; verified_groups := []; recoverable := false;
     protected := false; reconstructed := false; uploads_attempted := 0; reserved_transfer_bytes := 0;
     rep_nodes := [] |}.

Definition ptoy_report : Report := match ptoy_pass.1 with Ok rep => rep | Err _ => no_report end.

Lemma ptoy_pass_ok : ptoy_pass = (Ok ptoy_report, ptoy_pass.2).
Proof.
  pose proof ptoy_pass_reports as H. unfold ptoy_report. destruct ptoy_pass as [[rep|e] w]; [reflexivity|].
  discriminate H.
Defined.

Lemma pool_report_rests_on_reads_witness :
  exists l, pw_log ptoy_pass.2 = pw_log ptoy_w0 ++ l /\ report_ok ptoy_args ptoy_manifest ptoy_report l.
Proof.
  apply (pool_report_rests_on_reads (HttpTransport LoopbackDevelopment) ptoy_args "receipt" ptoy_owner
    ptoy_receipt_id 1000 true ptoy_manifest LoopbackDevelopment ptoy_w0 ptoy_pass.2 ptoy_report ptoy_receipt).
  - cbn. lia.
  - cbn. lia.
  - exact ptoy_pass_ok.
Defined.

#[local] Instance ptoy_laws : PoolLibLaws.
Proof. split. intros s m. cbn. destruct (bool_decide _); [|done]. intros [= <-]. cbn. lia. Defined.

Definition ptoy_process : result Stop (option (option Report)) * PoolWorld ptoy_env :=
  run HttpTransport ptoy_args None 1 ptoy_w0.

Lemma pool_run_contained_witness :
  exists m passes, pw_log ptoy_process.2 = concat passes /\ run_ok ptoy_args m 1 passes ptoy_process.1.
Proof.
  destruct (pool_run_contained ptoy_args None 1 ptoy_w0 ptoy_process.2 ptoy_process.1)
    as [[_ H]|(bytes & t & m & p & ev & _ & _ & _ & _ & passes & H1 & H2)].
  - cbn. lia.
  - apply surjective_pairing.
  - exfalso. pose proof ptoy_run_protects as Hp. fold ptoy_process in Hp.
    destruct ptoy_process as [[[[rep|]|]|e] w]; [exact (H rep eq_refl)|discriminate Hp..].
  - exists m, passes. split; [exact H1|exact H2].
Defined.

Lemma resolver_only_public_witness : in_block 93 184 216 34 (10, 0, 0, 0, 8) = false.
Proof.
  apply (resolver_only_public (Some [V4 10 0 0 1; V4 93 184 216 34]) [V4 93 184 216 34] (V4 93 184 216 34));
    [reflexivity|left|unfold octet; lia..|right; left].
Defined.

(** The toy nodes cooperate. *)

Lemma ptoy_placed part node : placed ptoy_manifest part node ->
  exists i, (i = 0 \/ i = 1 \/ i = 2)%nat /\ part = ptoy_part i /\ node = ptoy_node i.
Proof.
  intros [Hp Hn]. apply list_elem_of_fmap in Hp as (i & -> & Hi). apply list_elem_of_In, in_seq in Hi.
  cbn in Hn. apply list_elem_of_singleton in Hn as ->. exists i. split; [lia|done].
Qed.

Definition ptoy_response (i : nat) : Response :=
  {| status := 200; content_length := Some 5;
     chunks := [Some (take 2 (ptoy_content i)); Some (drop 2 (ptoy_content i))] |}.

Lemma ptoy_get i (e : ptoy_env) : (i = 0 \/ i = 1 \/ i = 2)%nat ->
  blob_url LoopbackDevelopment (pool_target (ptoy_node i)) (blob_sha256 (blob (ptoy_part i)))
  = Ok (String.append (node_origin (ptoy_node i)) (part_sha256 (ptoy_part i))) /\
  http_get (String.append (node_origin (ptoy_node i)) (part_sha256 (ptoy_part i))) e
  = (if bool_decide (node_id (ptoy_node i) ∈ e) then Some (ptoy_response i) else None, e).
Proof.
  intros Hi. split; [destruct Hi as [-> |[-> | ->]]; vm_compute; reflexivity|].
  cbn [http_get ptoy_http].
  assert (ptoy_at (fun i => part_sha256 (ptoy_part i))
    (String.append (node_origin (ptoy_node i)) (part_sha256 (ptoy_part i))) = Some i) as ->
    by (destruct Hi as [-> |[-> | ->]]; vm_compute; reflexivity).
  done.
Qed.

Lemma ptoy_serves i : (i = 0 \/ i = 1 \/ i = 2)%nat ->
  receive 5 0 [] (chunks (ptoy_response i)) = Ok (5, ptoy_content i) /\
  pool_hex (ptoy_content i) = part_sha256 (ptoy_part i).
Proof. intros [-> |[-> | ->]]; vm_compute; done. Qed.

Lemma http_reads_exactly_the_blob_witness :
  verify_http LoopbackDevelopment (pool_target (ptoy_node 0)) (blob (ptoy_part 0)) (pw_env ptoy_w0)
  = (Ok tt, pw_env ptoy_w0).
Proof.
  apply (http_reads_exactly_the_blob LoopbackDevelopment (pool_target (ptoy_node 0)) (blob (ptoy_part 0))
    (pw_env ptoy_w0)); [vm_compute; split; discriminate|].
  destruct (ptoy_get 0 (pw_env ptoy_w0) ltac:(lia)) as [H1 H2].
  exists (String.append (node_origin (ptoy_node 0)) (part_sha256 (ptoy_part 0))), (ptoy_response 0), (ptoy_content 0).
  split; [exact H1|]. split; [|vm_compute; repeat split].
  rewrite H2. rewrite bool_decide_eq_true_2; [reflexivity|]. cbn. set_solver.
Defined.

Lemma ptoy_verify i (e : ptoy_env) : (i = 0 \/ i = 1 \/ i = 2)%nat ->
  verify_http LoopbackDevelopment (pool_target (ptoy_node i)) (blob (ptoy_part i)) e
  = (if bool_decide (node_id (ptoy_node i) ∈ e) then Ok tt else Err Unreachable, e).
Proof.
  intros Hi. destruct (ptoy_get i e Hi) as [H1 H2]. destruct (ptoy_serves i Hi) as [H3 H4].
  unfold verify_http. rewrite H1. unfold bind, lift, hask, throw, ret. rewrite H2.
  destruct (bool_decide _); [|done]. cbn [ok_or status content_length ptoy_response negb Z.eqb Pos.eqb].
  cbn [blob blob_size part_size ptoy_part]. rewrite bool_decide_eq_true_2 by done. cbn [negb].
  change (chunks _) with (chunks (ptoy_response i)). rewrite H3. cbn [Z.eqb Pos.eqb negb orb].
  cbn [hex_sha256 ptoy_http_lib blob_sha256]. by rewrite bool_decide_eq_true_2.
Qed.

Lemma ptoy_save i (e : ptoy_env) : (i = 0 \/ i = 1 \/ i = 2)%nat ->
  save_chunks 5 0 [] (chunks (ptoy_response i)) e = (Ok (5, ptoy_content i), e).
Proof. intros [-> |[-> | ->]]; reflexivity. Qed.

Lemma ptoy_download i (e : ptoy_env) : (i = 0 \/ i = 1 \/ i = 2)%nat ->
  download_http LoopbackDevelopment (pool_target (ptoy_node i)) (blob (ptoy_part i)) e
  = (if bool_decide (node_id (ptoy_node i) ∈ e) then Ok (ptoy_content i) else Err (Remote Unreachable), e).
Proof.
  intros Hi. destruct (ptoy_get i e Hi) as [H1 H2]. destruct (ptoy_serves i Hi) as [_ H4].
  unfold download_http. rewrite H1. unfold bind at 1, lift at 1, map_err. unfold bind at 1, hask at 1. rewrite H2.
  destruct (bool_decide _); [|done]. cbn [ok_or]. unfold bind at 1, lift.
  cbn [status content_length ptoy_response blob blob_size part_size ptoy_part Z.eqb Pos.eqb negb orb].
  rewrite bool_decide_eq_true_2 by done. cbn [negb]. unfold bind at 1, local at 1, bind at 1, hask.
  cbn [file_ok ptoy_http]. unfold ret at 1, bind at 1. change (chunks _) with (chunks (ptoy_response i)).
  rewrite (ptoy_save i e Hi). unfold bind, local, bind, hask. cbn [file_ok ptoy_http]. unfold ret.
  cbn [Z.eqb Pos.eqb negb orb hex_sha256 ptoy_http_lib blob_sha256]. by rewrite bool_decide_eq_true_2.
Qed.

Lemma ptoy_upload i (e : ptoy_env) authorization : (i = 0 \/ i = 1 \/ i = 2)%nat ->
  upload_http LoopbackDevelopment (pool_target (ptoy_node i)) (blob (ptoy_part i)) (Some (ptoy_content i))
    authorization e = (Ok tt, {[node_id (ptoy_node i)]} ∪ e).
Proof.
  intros Hi. destruct (ptoy_serves i Hi) as [_ H4].
  assert (ptoy_at (fun _ => "upload"%string) (String.append (node_origin (ptoy_node i)) "upload") = Some i) as Ha
    by (destruct Hi as [-> |[-> | ->]]; vm_compute; reflexivity).
  assert (blob_url LoopbackDevelopment (pool_target (ptoy_node i)) "upload"
    = Ok (String.append (node_origin (ptoy_node i)) "upload")) as Hu
    by (destruct Hi as [-> |[-> | ->]]; vm_compute; reflexivity).
  assert (Z.of_nat (length (ptoy_content i)) = 5) as Hl
    by (destruct Hi as [-> |[-> | ->]]; vm_compute; reflexivity).
  unfold upload_http. rewrite Hu. unfold bind, lift, hask, throw, ret.
  cbn [file_ok ptoy_http ok_or negb blob blob_size part_size ptoy_part]. rewrite Hl.
  cbn [Z.eqb Pos.eqb negb header_value ptoy_http_lib http_put_file ptoy_http]. rewrite Ha.
  cbn [ok_or ok_status Z.eqb Pos.eqb orb negb hex_sha256 blob_sha256].
  by rewrite bool_decide_eq_true_2.
Qed.

Lemma ptoy_cooperative :
  cooperative (HttpTransport LoopbackDevelopment) ptoy_args "receipt" ptoy_manifest (fun e => e) 1000 ptoy_content.
Proof.
  split.
  - cbn. lia.
  - intros e. by exists e.
  - intros e. by exists e.
  - intros e. by exists e.
  - intros e. exists toy_disk, (fun _ => true), e. repeat split.
  - intros part node request e _ (t & url & server & _ & _ & Hk & _ & Ht).
    exists "signed"%string, (ptoy_event "signed"), e. split; [done|]. split; [|done].
    unfold verify_return. rewrite Hk, Ht. vm_compute. reflexivity.
  - intros part node e (i & Hi & -> & ->)%ptoy_placed. eexists _, _.
    split; [apply (ptoy_verify i e Hi)|]. split; [done|]. intros Hin. by rewrite bool_decide_eq_true_2.
  - intros part node e (i & Hi & -> & ->)%ptoy_placed. eexists _, _.
    split; [apply (ptoy_download i e Hi)|]. split; [done|]. destruct (bool_decide _); [done|]. eauto.
  - intros part node e authorization (i & Hi & -> & ->)%ptoy_placed. eexists.
    split; [apply (ptoy_upload i e authorization Hi)|done].
Qed.

Lemma pool_pass_restores_witness :
  exists rep w', pass (HttpTransport LoopbackDevelopment) ptoy_args "receipt" ptoy_manifest ptoy_w0 = (Ok rep, w') /\
    protected rep = true.
Proof.
  apply (pool_pass_restores (HttpTransport LoopbackDevelopment) ptoy_args "receipt" ptoy_receipt_id 1000 true
    ptoy_manifest LoopbackDevelopment 5 (fun e => e) 1000 ptoy_content ptoy_w0 ptoy_receipt).
  - cbn. lia.
  - intros _. exists toy_generator, toy_inputs, 5%nat. split; [exact ptoy_contents|reflexivity].
  - exact ptoy_cooperative.
  - reflexivity.
  - reflexivity.
  - vm_compute. discriminate.
  - vm_compute. discriminate.
  - apply Nat.leb_le. vm_compute. reflexivity.
Defined.
