(* ===== verification/DirectText.v ===== *)
(** * Strings as direct send reads them

    What [desktop/src-tauri/src/drop/direct] uses of Rust's strings: UTF-8
    ([str::as_bytes], [str::from_utf8]), UTF-16 ([str::encode_utf16]), prefixes
    and suffixes, and [u64::to_string].  A string is its list of scalar values,
    a byte of it a [Z] below 256.  [utf8_iff]: a byte string is UTF-8 exactly
    when it is the encoding of the one string it is read as. *)
From S2P Require Import Prelude EnvelopeFormat EnvelopeName Envelope.

(** Division by constants, and interval tests, as linear arithmetic. *)
Ltac arith := unfold between in *; Z.to_euclidean_division_equations; lia.

(** ** UTF-8 *)

(** A Unicode scalar value: a code point that is not a surrogate. *)
Definition scalar (c : rchar) : bool := between 0 c 0xD7FF || between 0xE000 c 0x10FFFF.

(** [char::encode_utf8]. *)
Definition utf8_char (c : rchar) : list Z :=
  if c <? 0x80 then [c]
  else if c <? 0x800 then [0xC0 + c / 64; 0x80 + c mod 64]
  else if c <? 0x10000 then [0xE0 + c / 4096; 0x80 + c / 64 mod 64; 0x80 + c mod 64]
  else [0xF0 + c / 262144; 0x80 + c / 4096 mod 64; 0x80 + c / 64 mod 64; 0x80 + c mod 64].

(** [str::as_bytes], [str::len] and [String::into_bytes]. *)
Fixpoint utf8 (s : text) : list Z :=
  match s with [] => [] | c :: t => utf8_char c ++ utf8 t end.

Definition str_len (s : text) : Z := Z.of_nat (length (utf8 s)).

Definition text_bytes (s : text) : list byte := map z2b (utf8 s).

(** The first character of a byte string, and what follows it. *)
Definition utf8_next (l : list Z) : option (rchar * list Z) :=
  let cont b := between 0x80 b 0xBF in
  match l with
  | [] => None
  | a :: l1 =>
      if between 0 a 0x7F then Some (a, l1)
      else
        match l1 with
        | [] => None
        | b :: l2 =>
            if between 0xC2 a 0xDF && cont b then Some ((a - 0xC0) * 64 + (b - 0x80), l2)
            else
              match l2 with
              | [] => None
              | c :: l3 =>
                  if ((a =? 0xE0) && between 0xA0 b 0xBF
                      || between 0xE1 a 0xEC && cont b
                      || (a =? 0xED) && between 0x80 b 0x9F
                      || between 0xEE a 0xEF && cont b) && cont c
                  then Some ((a - 0xE0) * 4096 + (b - 0x80) * 64 + (c - 0x80), l3)
                  else
                    match l3 with
                    | [] => None
                    | d :: l4 =>
                        if ((a =? 0xF0) && between 0x90 b 0xBF
                            || between 0xF1 a 0xF3 && cont b
                            || (a =? 0xF4) && between 0x80 b 0x8F) && cont c && cont d
                        then Some ((a - 0xF0) * 262144 + (b - 0x80) * 4096 + (c - 0x80) * 64
                                   + (d - 0x80), l4)
                        else None
                    end
              end
        end
  end.

Fixpoint utf8_text (n : nat) (l : list Z) : option text :=
  match n, l with
  | _, [] => Some []
  | O, _ :: _ => None
  | S n, _ :: _ =>
      '(c, rest) ← utf8_next l;
      s ← utf8_text n rest;
      Some (c :: s)
  end.

(** [str::from_utf8]: the string whose bytes these are, if they are UTF-8. *)
Definition text_of_bytes (l : list byte) : option text := utf8_text (length l) (map b2z l).

Lemma utf8_next_char c rest : scalar c = true -> utf8_next (utf8_char c ++ rest) = Some (c, rest).
Proof.
  unfold scalar, utf8_char. intros Hc.
  destruct (Z.ltb_spec c 0x80); [|destruct (Z.ltb_spec c 0x800); [|destruct (Z.ltb_spec c 0x10000)]];
    cbn [app utf8_next].
  - replace (between 0 c 0x7F) with true by arith. done.
  - replace (between 0 (0xC0 + c / 64) 0x7F) with false by arith.
    replace (between 0xC2 (0xC0 + c / 64) 0xDF) with true by arith.
    replace (between 0x80 (0x80 + c mod 64) 0xBF) with true by arith.
    cbn [andb]. do 2 f_equal. arith.
  - replace (between 0 (0xE0 + c / 4096) 0x7F) with false by arith.
    replace (between 0xC2 (0xE0 + c / 4096) 0xDF) with false by arith.
    replace (between 0x80 (0x80 + c mod 64) 0xBF) with true by arith.
    replace (between 0x80 (0x80 + c / 64 mod 64) 0xBF) with true by arith.
    cbn [andb]. rewrite !andb_true_r.
    replace ((_ || _ || _ || _) : bool) with true; [do 2 f_equal; arith|].
    symmetry. unfold between in *. rewrite !orb_true_iff, !andb_true_iff, !Z.eqb_eq, !Z.leb_le.
    Z.to_euclidean_division_equations; lia.
  - replace (between 0 (0xF0 + c / 262144) 0x7F) with false by arith.
    replace (between 0xC2 (0xF0 + c / 262144) 0xDF) with false by arith.
    replace (between 0x80 (0x80 + c mod 64) 0xBF) with true by arith.
    replace (between 0x80 (0x80 + c / 64 mod 64) 0xBF) with true by arith.
    replace (between 0x80 (0x80 + c / 4096 mod 64) 0xBF) with true by arith.
    replace (0xF0 + c / 262144 =? 0xE0) with false by arith.
    replace (0xF0 + c / 262144 =? 0xED) with false by arith.
    replace (between 0xE1 (0xF0 + c / 262144) 0xEC) with false by arith.
    replace (between 0xEE (0xF0 + c / 262144) 0xEF) with false by arith.
    cbn [andb orb]. rewrite !andb_true_r.
    replace ((_ || _ || _) : bool) with true; [do 2 f_equal; arith|].
    symmetry. unfold between in *. rewrite !orb_true_iff, !andb_true_iff, !Z.eqb_eq, !Z.leb_le.
    Z.to_euclidean_division_equations; lia.
Qed.

Lemma utf8_next_inv l c rest :
  utf8_next l = Some (c, rest) -> scalar c = true /\ l = utf8_char c ++ rest.
Proof.
  unfold utf8_next, utf8_char. intros H.
  destruct l as [|a l1]; [done|].
  destruct (between 0 a 0x7F) eqn:Ea.
  { injection H as <- <-. replace (a <? 0x80) with true by arith. split; [unfold scalar; arith|done]. }
  destruct l1 as [|b l2]; [done|].
  destruct (between 0xC2 a 0xDF && between 0x80 b 0xBF) eqn:E2.
  { injection H as <- <-. set (c := _ + _).
    replace (c <? 0x80) with false by (subst c; arith). replace (c <? 0x800) with true by (subst c; arith).
    split; [unfold scalar; subst c; arith|]. cbn [app]. repeat f_equal; subst c; arith. }
  destruct l2 as [|x l3]; [done|].
  destruct ((_ || _ || _ || _) && _) eqn:E3.
  { injection H as <- <-. clear Ea E2.
    assert (0xE0 <= a <= 0xEF /\ 0x80 <= b <= 0xBF /\ 0x80 <= x <= 0xBF /\
            (a = 0xE0 -> 0xA0 <= b) /\ (a = 0xED -> b <= 0x9F)) as (H1 & H2 & H3 & H4 & H5).
    { unfold between in E3. rewrite !andb_true_iff, !orb_true_iff, !andb_true_iff, !Z.eqb_eq, !Z.leb_le in E3. lia. }
    clear E3. set (c := _ + _).
    replace (c <? 0x80) with false by (subst c; arith). replace (c <? 0x800) with false by (subst c; arith).
    replace (c <? 0x10000) with true by (subst c; arith).
    split.
    - unfold scalar, between. rewrite orb_true_iff, !andb_true_iff, !Z.leb_le. subst c. lia.
    - cbn [app]. repeat f_equal; subst c; arith. }
  destruct l3 as [|y l4]; [done|].
  destruct (_ && _) eqn:E4 in H; [|done].
  injection H as <- <-. clear Ea E2 E3.
  assert (0xF0 <= a <= 0xF4 /\ 0x80 <= b <= 0xBF /\ 0x80 <= x <= 0xBF /\ 0x80 <= y <= 0xBF /\
          (a = 0xF0 -> 0x90 <= b) /\ (a = 0xF4 -> b <= 0x8F)) as (H1 & H2 & H3 & H4 & H5 & H6).
  { unfold between in E4. rewrite !andb_true_iff, !orb_true_iff, !andb_true_iff, !Z.eqb_eq, !Z.leb_le in E4. lia. }
  clear E4. set (c := _ + _).
  replace (c <? 0x80) with false by (subst c; arith). replace (c <? 0x800) with false by (subst c; arith).
  replace (c <? 0x10000) with false by (subst c; arith).
  split.
  - unfold scalar, between. rewrite orb_true_iff, !andb_true_iff, !Z.leb_le. subst c. lia.
  - cbn [app]. repeat f_equal; subst c; arith.
Qed.

Lemma utf8_char_bytes c : scalar c = true -> Forall (fun b => 0 <= b < 256) (utf8_char c).
Proof.
  unfold scalar, utf8_char. intros Hc.
  destruct (Z.ltb_spec c 0x80); [|destruct (Z.ltb_spec c 0x800); [|destruct (Z.ltb_spec c 0x10000)]];
    repeat constructor; arith.
Qed.

Lemma utf8_char_nonempty c : (1 <= length (utf8_char c) <= 4)%nat.
Proof. unfold utf8_char. repeat destruct (_ <? _); cbn; lia. Qed.

(** What every [String] holds. *)
Definition is_text (s : text) : Prop := Forall (fun c => scalar c = true) s.

Lemma utf8_bytes s : is_text s -> Forall (fun b => 0 <= b < 256) (utf8 s).
Proof. induction 1; [done|]. apply Forall_app. split; [by apply utf8_char_bytes|done]. Qed.

Lemma map_b2z_z2b l : Forall (fun b => 0 <= b < 256) l -> map b2z (map z2b l) = l.
Proof.
  induction 1 as [|b l Hb _ IH]; [done|]. cbn. rewrite IH, b2z_z2b. f_equal. by apply Z.mod_small.
Qed.

Lemma map_z2b_b2z l : map z2b (map b2z l) = l.
Proof. induction l as [|b l IH]; [done|]. cbn. by rewrite IH, z2b_b2z. Qed.

Lemma utf8_text_utf8 s n : is_text s -> (length (utf8 s) <= n)%nat -> utf8_text n (utf8 s) = Some s.
Proof.
  intros Hs. revert n. induction Hs as [|c s Hc _ IH]; intros n Hn; [by destruct n|].
  cbn [utf8] in *. rewrite length_app in Hn. pose proof (utf8_char_nonempty c).
  destruct (utf8_char c ++ utf8 s) as [|x l] eqn:E.
  { apply (f_equal length) in E. rewrite length_app in E. cbn in E. lia. }
  destruct n as [|n]; [lia|]. cbn [utf8_text]. rewrite <- E, utf8_next_char by done. cbn.
  rewrite IH by lia. done.
Qed.

Lemma utf8_text_inv n l s : utf8_text n l = Some s -> is_text s /\ l = utf8 s.
Proof.
  revert l s. induction n as [|n IH]; intros [|x l] s H; cbn [utf8_text] in H; simplify_eq; [by split; [constructor|]..|].
  destruct (utf8_next (x :: l)) as [[c rest]|] eqn:E; [|done]. cbn in H.
  destruct (utf8_text n rest) as [s'|] eqn:E'; [|done]. cbn in H. injection H as <-.
  apply utf8_next_inv in E as [Hc ->]. apply IH in E' as [Hs ->]. by split; [constructor|].
Qed.

(** A byte string is read as [s] exactly when it is the encoding of [s]. *)
Lemma utf8_iff (b : list byte) (s : text) :
  text_of_bytes b = Some s <-> is_text s /\ b = text_bytes s.
Proof.
  unfold text_of_bytes, text_bytes. split.
  - intros [Hs Hb]%utf8_text_inv. split; [done|]. by rewrite <- Hb, map_z2b_b2z.
  - intros [Hs ->]. rewrite map_b2z_z2b by (by apply utf8_bytes). rewrite length_map.
    by apply utf8_text_utf8.
Qed.

(** The check the envelope's metadata gets is this reading. *)
Lemma utf8_valid_text n l : (length l <= n)%nat ->
  utf8_valid n l = true <-> is_Some (utf8_text n l).
Proof.
  revert l. induction n as [|n IH]; intros [|a l1] Hn; cbn [utf8_valid utf8_text];
    [by rewrite is_Some_alt|cbn in Hn; lia|by rewrite is_Some_alt|].
  cbn [length] in Hn. unfold utf8_next.
  assert (forall c rest, (length rest <= n)%nat ->
    utf8_valid n rest = true <->
    is_Some ('(c, rest) ← Some (c, rest); s ← utf8_text n rest; Some (c :: s))) as Hstep.
  { intros c rest Hr. rewrite IH by done. cbn. destruct (utf8_text n rest); cbn; by rewrite !is_Some_alt. }
  destruct (between 0 a 0x7F); [by apply Hstep; lia|].
  destruct l1 as [|b l2]; [by rewrite is_Some_alt|]. cbn [length] in Hn.
  destruct (between 0xC2 a 0xDF && _); [by apply Hstep; lia|].
  destruct l2 as [|x l3]; [by rewrite is_Some_alt|]. cbn [length] in Hn.
  destruct ((_ || _ || _ || _) && _); [by apply Hstep; lia|].
  destruct l3 as [|y l4]; [by rewrite is_Some_alt|]. cbn [length] in Hn.
  destruct ((_ || _ || _) && _ && _); [by apply Hstep; lia|by rewrite is_Some_alt].
Qed.

Lemma from_utf8_text b : from_utf8 b = true <-> is_Some (text_of_bytes b).
Proof. apply utf8_valid_text. by rewrite length_map. Qed.

Lemma utf8_ascii s : Forall (fun c => 0 <= c < 128) s -> utf8 s = s.
Proof.
  induction 1 as [|c s Hc _ IH]; [done|]. cbn [utf8]. rewrite IH. unfold utf8_char.
  by rewrite (proj2 (Z.ltb_lt c 0x80)) by lia.
Qed.

Lemma ascii_is_text s : Forall (fun c => 0 <= c < 128) s -> is_text s.
Proof. intros H. eapply Forall_impl; [exact H|]. intros c Hc. unfold scalar. arith. Qed.

(** ** Patterns *)

(** [str::strip_prefix], [starts_with], [strip_suffix] and [ends_with]: on
    strings or on their bytes. *)
Definition cut_prefix (p s : list Z) : option (list Z) :=
  if bool_decide (take (length p) s = p) then Some (drop (length p) s) else None.

Definition has_prefix (p s : list Z) : bool := bool_decide (take (length p) s = p).

Definition cut_suffix (p s : list Z) : option (list Z) :=
  reverse <$> cut_prefix (reverse p) (reverse s).

Definition has_suffix (p s : list Z) : bool := has_prefix (reverse p) (reverse s).

(** [str::split] at a line end (CR LF). *)
Fixpoint split_crlf (s : list Z) : list (list Z) :=
  match s with
  | [] => [[]]
  | c :: t =>
      match t with
      | d :: u =>
          if (c =? 13) && (d =? 10) then [] :: split_crlf u
          else match split_crlf t with l :: ls => (c :: l) :: ls | [] => [[c]] end
      | [] => [[c]]
      end
  end.

(** ** Numbers *)

(** [u64::to_string]: twenty digits hold every [u64]. *)
Fixpoint digits (n : nat) (z : Z) : text :=
  match n with
  | O => []
  | S n => if z <? 10 then [48 + z] else digits n (z / 10) ++ [48 + z mod 10]
  end.

Definition u64_to_string (z : Z) : text := digits 20 z.

Definition digits_value (s : text) : Z := foldl (fun a d => a * 10 + (d - 48)) 0 s.

Definition is_digit (c : rchar) : bool := between 48 c 57.

Lemma digits_ok n z : 0 <= z < 10 ^ Z.of_nat n ->
  digits_value (digits n z) = z /\ Forall (fun c => is_digit c = true) (digits n z) /\
  (n <> O -> digits n z <> []).
Proof.
  revert z. induction n as [|n IH]; intros z Hz.
  { change (10 ^ Z.of_nat 0) with 1 in Hz. cbn. split_and!; [lia|constructor|done]. }
  cbn [digits]. destruct (Z.ltb_spec z 10).
  - split_and!; [cbn; lia|repeat constructor; unfold is_digit; arith|done].
  - rewrite Nat2Z.inj_succ, Z.pow_succ_r in Hz by lia.
    destruct (IH (z / 10)) as (H1 & H2 & _); [Z.to_euclidean_division_equations; lia|].
    split_and!.
    + unfold digits_value in *. rewrite foldl_app, H1. cbn. arith.
    + apply Forall_app. split; [done|]. repeat constructor. unfold is_digit. arith.
    + intros _ E. by apply app_eq_nil in E as [_ E].
Qed.

Lemma u64_to_string_ok n : is_u64 n = true -> exists c t,
  u64_to_string n = c :: t /\ Forall (fun c => is_digit c = true) (c :: t) /\
  digits_value (c :: t) = n.
Proof.
  unfold is_u64, U64_MAX. intros Hn.
  destruct (digits_ok 20 n) as (Hv & Hd & Hne); [lia|]. unfold u64_to_string.
  destruct (digits 20 n) as [|c t]; [by destruct Hne|]. by exists c, t.
Qed.

#[global] Arguments u64_to_string : simpl never.

(** ** UTF-16 order *)

(** [str::encode_utf16]. *)
Definition utf16_char (c : rchar) : list Z :=
  if c <? 0x10000 then [c]
  else [0xD800 + (c - 0x10000) / 1024; 0xDC00 + (c - 0x10000) mod 1024].

Fixpoint utf16 (s : text) : list Z :=
  match s with [] => [] | c :: t => utf16_char c ++ utf16 t end.

(** Lexicographic order of code units or of characters. *)
Fixpoint lex_le (a b : list Z) : bool :=
  match a, b with
  | [], _ => true
  | _ :: _, [] => false
  | x :: a, y :: b => (x <? y) || (x =? y) && lex_le a b
  end.

Lemma lex_le_total a b : lex_le a b = true \/ lex_le b a = true.
Proof.
  revert b. induction a as [|x a IH]; intros [|y b]; cbn; auto.
  destruct (Z.lt_trichotomy x y) as [H|[-> |H]].
  - left. by rewrite (proj2 (Z.ltb_lt x y) H).
  - rewrite Z.ltb_irrefl, Z.eqb_refl. cbn. apply IH.
  - right. by rewrite (proj2 (Z.ltb_lt y x) H).
Qed.

Lemma lex_le_antisym a b : lex_le a b = true -> lex_le b a = true -> a = b.
Proof.
  revert b. induction a as [|x a IH]; intros [|y b]; cbn; try done.
  rewrite !orb_true_iff, !andb_true_iff, !Z.ltb_lt, !Z.eqb_eq.
  intros [?|[-> ?]] [?|[? ?]]; try lia. f_equal. by apply IH.
Qed.

Lemma lex_le_trans a b c : lex_le a b = true -> lex_le b c = true -> lex_le a c = true.
Proof.
  revert b c. induction a as [|x a IH]; intros [|y b] [|z c]; cbn; try done.
  rewrite !orb_true_iff, !andb_true_iff, !Z.ltb_lt, !Z.eqb_eq.
  intros [?|[-> ?]] [?|[-> ?]]; [left; lia|left; lia|left; lia|right; split; [done|by eapply IH]].
Qed.
