(* ===== verification/DirectFrames.v ===== *)
(** * Frames on the data channel

    Models [desktop/src-tauri/src/drop/direct/frames.rs]: the binary messages
    a direct send carries, who may send which, and the receiver's ACK rule.
    [decode_iff]: a byte string is read as a frame exactly when it is the
    frame's encoding, or a STOP with an unknown reason. *)
From S2P Require Import Prelude EnvelopeFormat Envelope EnvelopeProofs EnvelopeCanon.

Definition FRAME_BYTES : Z := 65536.
Definition ACK_EVERY_BYTES : Z := 1048576.
Definition UNACKNOWLEDGED_BYTES : Z := 8388608.
Definition DATA_HEADER_BYTES : Z := 9.
Definition END_FRAME_BYTES : Z := 41.
Definition MAX_HIGH : Z := 0x1fffff.

Inductive Role := Sender | Receiver.

Inductive StopCode := StopCancelled | StopFailed | StopStorage.

(** [code as u8]. *)
Definition stop_byte (code : StopCode) : Z :=
  match code with StopCancelled => 1 | StopFailed => 2 | StopStorage => 3 end.

Inductive Frame :=
| Data (offset : Z) (bytes : list byte)
| Ack (next : Z)
| End (sha256 : list byte) (size : Z)
| Kept
| Stop (code : StopCode).

#[export] Instance StopCode_eq_dec : EqDecision StopCode.
Proof. solve_decision. Defined.
#[export] Instance Frame_eq_dec : EqDecision Frame.
Proof. solve_decision. Defined.

Inductive FrameError := FrameErr (what : string).

(** Eight bytes; the caller slices them. *)
Definition read_u64 (bytes : list byte) : result FrameError Z :=
  let high := be_value (slice bytes 0 4) in
  if MAX_HIGH <? high then Err (FrameErr "an offset or size beyond 2^53 - 1")
  else
    let low := be_value (slice bytes 4 8) in
    Ok (Z.lor (Z.shiftl high 32) low).

(** The arms of the match in order: an arm with a guard that does not hold
    falls through to the last two. *)
Definition decode (from : Role) (frame : list byte) : result FrameError Frame :=
  match frame with
  | [] => Err (FrameErr "an empty message")
  | first :: _ =>
      let kind := b2z first in
      let is_sender := match from with Sender => true | Receiver => false end in
      if (kind =? 1) && is_sender then
        if (blen frame <=? DATA_HEADER_BYTES) || (FRAME_BYTES <? blen frame)
        then Err (FrameErr "a DATA frame of the wrong length")
        else
          let? offset := read_u64 (slice frame 1 9) in
          Ok (Data offset (slice frame DATA_HEADER_BYTES (blen frame)))
      else if (kind =? 2) && negb is_sender && (blen frame =? 9) then
        let? next := read_u64 (slice frame 1 9) in
        Ok (Ack next)
      else if (kind =? 3) && is_sender && (blen frame =? END_FRAME_BYTES) then
        let? size := read_u64 (slice frame 33 41) in
        Ok (End (slice frame 1 33) size)
      else if (kind =? 4) && negb is_sender && (blen frame =? 1) then Ok Kept
      else if (kind =? 5) && (blen frame =? 2) then
        let reason := be_value (slice frame 1 2) in
        Ok (Stop (if reason =? 1 then StopCancelled
                  else if reason =? 3 then StopStorage
                  else StopFailed))
      else if (1 <=? kind) && (kind <=? 5)
      then Err (FrameErr "a frame of the wrong length or direction")
      else Err (FrameErr "an unknown frame type")
  end.

Definition encode (frame : Frame) : option (list byte) :=
  match frame with
  | Data offset bytes =>
      if (blen bytes =? 0) || (FRAME_BYTES <? DATA_HEADER_BYTES + blen bytes) then None
      else Some (z2b 1 :: be_bytes 8 offset ++ bytes)
  | Ack next => Some (z2b 2 :: be_bytes 8 next)
  | End sha256 size => Some (z2b 3 :: sha256 ++ be_bytes 8 size)
  | Kept => Some [z2b 4]
  | Stop code => Some [z2b 5; z2b (stop_byte code)]
  end.

Definition ack_due (written acked total : Z) : option Z :=
  if (acked <? written) && ((ACK_EVERY_BYTES <=? written - acked) || (written =? total))
  then Some written else None.

(** ** What is well formed *)

(** The role that sends a frame: STOP comes from either. *)
Definition sent_by (from : Role) (frame : Frame) : bool :=
  match frame, from with
  | (Data _ _ | End _ _), Sender | (Ack _ | Kept), Receiver | Stop _, _ => true
  | _, _ => false
  end.

(** The field types of the source, with offsets and sizes a page can hold. *)
Definition frame_ok (frame : Frame) : Prop :=
  match frame with
  | Data offset _ => 0 <= offset < 2 ^ 53
  | Ack next => 0 <= next < 2 ^ 53
  | End sha256 size => blen sha256 = 32 /\ 0 <= size < 2 ^ 53
  | _ => True
  end.

(** A STOP whose reason byte is none of the three. *)
Definition unknown_stop (b : list byte) : Prop :=
  exists r, b = [z2b 5; r] /\ ~ b2z r ∈ [1; 2; 3].

(** ** Proofs *)

Lemma be_value_concat a b : be_value (a ++ b) = be_value a * 256 ^ blen b + be_value b.
Proof.
  induction b as [|x b IH] using rev_ind; [rewrite app_nil_r; change (256 ^ blen []) with 1; change (be_value []) with 0; lia|].
  rewrite app_assoc, !be_value_app, IH, blen_app. change (blen [x]) with 1.
  rewrite Z.pow_add_r, Z.pow_1_r by (unfold blen; lia). lia.
Qed.

(** A shifted number and one below the shift share no bit. *)
Lemma lor_shift a b n : 0 <= n -> 0 <= b < 2 ^ n -> Z.lor (Z.shiftl a n) b = a * 2 ^ n + b.
Proof.
  intros Hn Hb. assert (Z.land (Z.shiftl a n) b = 0) as H0.
  { apply Z.bits_inj'. intros i Hi. rewrite Z.land_spec, Z.bits_0.
    destruct (Z.lt_ge_cases i n).
    - by rewrite Z.shiftl_spec_low by lia.
    - rewrite <- (Z.mod_small b (2 ^ n)) by lia. by rewrite Z.mod_pow2_bits_high, andb_false_r by lia. }
  by rewrite <- Z.lxor_lor, <- Z.add_nocarry_lxor, Z.shiftl_mul_pow2 by done.
Qed.

Lemma read_u64_value l : blen l = 8 ->
  read_u64 l = if 2 ^ 53 <=? be_value l then Err (FrameErr "an offset or size beyond 2^53 - 1")
               else Ok (be_value l).
Proof.
  intros Hl. unfold read_u64.
  assert (blen (slice l 0 4) = 4 /\ blen (slice l 4 8) = 4) as [H1 H2].
  { split; rewrite blen_slice; lia. }
  assert (be_value l = be_value (slice l 0 4) * 2 ^ 32 + be_value (slice l 4 8)) as E.
  { rewrite <- (slice_all l 8) at 1 by lia. rewrite (slice_concat l 0 4 8), be_value_concat, H2 by lia. done. }
  pose proof (be_value_bound (slice l 4 8)) as Hlow. pose proof (be_value_bound (slice l 0 4)) as Hhi.
  unfold blen in H1, H2. rewrite H2 in Hlow. rewrite H1 in Hhi.
  change (256 ^ 4) with (2 ^ 32) in *.
  replace (2 ^ 53 <=? be_value l) with (MAX_HIGH <? be_value (slice l 0 4)) by (rewrite E; unfold MAX_HIGH; lia).
  destruct (MAX_HIGH <? _); [done|]. f_equal. rewrite E. by apply lor_shift.
Qed.

Lemma read_u64_bytes z : 0 <= z < 2 ^ 53 -> read_u64 (be_bytes 8 z) = Ok z.
Proof.
  intros Hz. rewrite read_u64_value by apply blen_be_bytes.
  rewrite be_value_bytes_small by (cbn; lia). by rewrite (proj2 (Z.leb_gt _ _)) by lia.
Qed.

Lemma read_u64_inv l z : blen l = 8 -> read_u64 l = Ok z -> 0 <= z < 2 ^ 53 /\ l = be_bytes 8 z.
Proof.
  intros Hl. rewrite read_u64_value by done. destruct (Z.leb_spec (2 ^ 53) (be_value l)); [done|].
  intros [= <-]. pose proof (be_value_bound l). split; [lia|].
  rewrite <- (be_bytes_value l) at 1. f_equal. unfold blen in Hl. lia.
Qed.

Lemma blen_cons x l : blen (x :: l) = 1 + blen l.
Proof. unfold blen. cbn. lia. Qed.

Lemma slice_cons x l a b : 1 <= a <= b -> slice (x :: l) a b = slice l (a - 1) (b - 1).
Proof.
  intros H. unfold slice. replace (Z.to_nat a) with (S (Z.to_nat (a - 1))) by lia. cbn.
  do 2 f_equal. lia.
Qed.

#[local] Opaque be_bytes.

(** Reading what a role sent inverts writing it. *)
Lemma decode_encode from frame b :
  frame_ok frame -> encode frame = Some b -> sent_by from frame = true -> decode from b = Ok frame.
Proof.
  intros Hok He Hs. destruct frame as [offset bytes|next|sha size| |code], from; try discriminate Hs;
    cbn [encode] in He; cbn [frame_ok] in Hok.
  - destruct ((blen bytes =? 0) || _) eqn:E; [done|]. injection He as <-.
    unfold decode. rewrite b2z_z2b. change ((1 mod 256 =? 1) && true) with true. cbn match.
    pose proof (blen_nonneg bytes). rewrite !blen_cons, !blen_app, !blen_be_bytes.
    change (Z.of_nat 8) with 8. unfold DATA_HEADER_BYTES in *.
    destruct (_ || _) eqn:E' in |- *; [exfalso; unfold FRAME_BYTES in *; lia|]. rewrite !slice_cons by lia.
    rewrite slice_head by (by rewrite blen_be_bytes). rewrite read_u64_bytes by done.
    rewrite slice_skip by (rewrite ?blen_be_bytes; lia). rewrite slice_all; [done|lia].
  - injection He as <-. unfold decode. rewrite b2z_z2b, !blen_cons, !blen_be_bytes.
    change (2 mod 256) with 2. cbn -[read_u64 slice]. rewrite !slice_cons by lia.
    rewrite slice_all by (by rewrite blen_be_bytes). by rewrite read_u64_bytes.
  - destruct Hok as [Hsha Hsize].
    injection He as <-. unfold decode. rewrite b2z_z2b, !blen_cons, !blen_app, Hsha, !blen_be_bytes.
    change (3 mod 256) with 3. cbn -[read_u64 slice]. rewrite !slice_cons by lia.
    change (1 - 1) with 0. change (33 - 1) with 32. change (41 - 1) with 40.
    rewrite (slice_head sha) by done. rewrite (slice_skip sha) by (done || lia).
    rewrite slice_all by (by rewrite blen_be_bytes). by rewrite read_u64_bytes.
  - by injection He as <-.
  - injection He as <-. by destruct code.
  - injection He as <-. by destruct code.
Qed.

Lemma whole_frame x l : slice (x :: l) 1 (blen (x :: l)) = l.
Proof.
  pose proof (blen_nonneg l). rewrite slice_cons by (rewrite blen_cons; lia).
  apply slice_all. rewrite blen_cons. lia.
Qed.

Lemma kind_byte b k : b2z b = k -> b = z2b k.
Proof. intros <-. by rewrite z2b_b2z. Qed.

(** What is read was sent by its role and is the frame's encoding, an
    unknown STOP reason apart. *)
Lemma decode_inv from b frame : decode from b = Ok frame ->
  frame_ok frame /\ sent_by from frame = true /\
  (encode frame = Some b \/ frame = Stop StopFailed /\ unknown_stop b).
Proof.
  unfold decode. destruct b as [|kind l]; [done|]. set (b := kind :: l). cbn zeta.
  pose proof (whole_frame kind l) as Hl. fold b in Hl. unfold DATA_HEADER_BYTES, END_FRAME_BYTES.
  destruct (_ && _) eqn:E1.
  { apply andb_prop in E1 as [E%Z.eqb_eq%kind_byte Hs]. destruct ((_ <=? _) || _) eqn:EL; [done|].
    destruct (read_u64 _) as [offset|] eqn:Er; [|done]. intros [= <-].
    apply read_u64_inv in Er as [Ho Er]; [|rewrite blen_slice; lia].
    split_and!; [done|by destruct from|]. left. cbn [encode]. rewrite blen_slice by lia.
    destruct (_ || _) eqn:E' in |- *; [exfalso; unfold DATA_HEADER_BYTES, FRAME_BYTES in *; lia|].
    rewrite <- E, <- Er, <- slice_concat, Hl by lia. done. }
  clear E1. destruct (_ && _ && _) eqn:E2.
  { apply andb_prop in E2 as [[E%Z.eqb_eq%kind_byte Hs]%andb_prop HL%Z.eqb_eq].
    destruct (read_u64 _) as [next|] eqn:Er; [|done]. intros [= <-].
    apply read_u64_inv in Er as [Ho Er]; [|rewrite blen_slice; lia].
    split_and!; [done|by destruct from|]. left. cbn [encode]. rewrite <- E, <- Er.
    rewrite <- HL, Hl. done. }
  clear E2. destruct (_ && _ && _) eqn:E3.
  { apply andb_prop in E3 as [[E%Z.eqb_eq%kind_byte Hs]%andb_prop HL%Z.eqb_eq].
    destruct (read_u64 _) as [size|] eqn:Er; [|done]. intros [= <-].
    apply read_u64_inv in Er as [Ho Er]; [|rewrite blen_slice; lia].
    split_and!; [split; [rewrite blen_slice; lia|done]|by destruct from|]. left. cbn [encode].
    rewrite <- E, <- Er, <- slice_concat, <- HL, Hl by lia. done. }
  clear E3. destruct (_ && _ && _) eqn:E4.
  { apply andb_prop in E4 as [[E%Z.eqb_eq%kind_byte Hs]%andb_prop HL%Z.eqb_eq]. intros [= <-].
    split_and!; [done|by destruct from|]. left. cbn [encode]. rewrite <- E. unfold b in *.
    rewrite blen_cons in HL.
    destruct l; [done|rewrite blen_cons in HL; pose proof (blen_nonneg l); lia]. }
  clear E4. destruct ((_ =? 5) && _) eqn:E5; [|intros H; by destruct ((1 <=? _) && _)].
  apply andb_prop in E5 as [E%Z.eqb_eq%kind_byte HL%Z.eqb_eq]. unfold b in HL.
  destruct l as [|r [|? l]]; [done| |rewrite !blen_cons in HL; pose proof (blen_nonneg l); lia].
  change (be_value (slice b 1 2)) with (b2z r). intros [= <-]. subst b. rewrite E.
  split_and!; [done|by destruct from|].
  destruct (Z.eqb_spec (b2z r) 1) as [Er%kind_byte|]; [left; by subst r|].
  destruct (Z.eqb_spec (b2z r) 3) as [Er%kind_byte|]; [left; by subst r|].
  destruct (decide (b2z r = 2)) as [Er%kind_byte|]; [left; by subst r|].
  right. split; [done|]. exists r. split; [done|set_solver].
Qed.

(** C0: a received byte string is read as a frame of its sender exactly
    when the frame is one the sender's role may send, with an offset or size
    below [2^53], and the byte string is that frame's encoding; the one other
    case is a STOP with an unknown reason, which reads as "failed". *)
Theorem frames_read_iff_written from b frame :
  decode from b = Ok frame <->
  frame_ok frame /\ sent_by from frame = true /\
  (encode frame = Some b \/ frame = Stop StopFailed /\ unknown_stop b).
Proof.
  split; [apply decode_inv|]. intros (Hok & Hs & [He|[-> (r & -> & Hr)]]); [by eapply decode_encode|].
  assert (decode from [z2b 5; r] = Ok (Stop (if b2z r =? 1 then StopCancelled
    else if b2z r =? 3 then StopStorage else StopFailed))) as ->.
  { unfold decode. rewrite b2z_z2b. change (5 mod 256) with 5.
    change (be_value (slice [z2b 5; r] 1 2)) with (b2z r). change (blen [z2b 5; r]) with 2.
    destruct from; reflexivity. }
  rewrite !elem_of_cons in Hr. by rewrite (proj2 (Z.eqb_neq (b2z r) 1)), (proj2 (Z.eqb_neq (b2z r) 3)) by tauto.
Qed.

(** ** The ACK rule *)

(** After the rule has been applied the receiver owes less than an ACK
    interval, and nothing once every byte is written. *)
Lemma ack_due_bound written acked total :
  acked <= written -> 
  let acked' := default acked (ack_due written acked total) in
  acked' <= written /\ written - acked' < ACK_EVERY_BYTES /\ (written = total -> acked' = total).
Proof.
  intros H. unfold ack_due, ACK_EVERY_BYTES. destruct ((_ <? _) && _) eqn:E; cbn; lia.
Qed.
