(* ===== verification/DirectJson.v ===== *)
(** * Canonical JSON

    Models the JSON part of [desktop/src-tauri/src/drop/direct/messages.rs]:
    [serde_json::Value], the canonical writer, and what is asked of an
    object's members.  Parsing is library code: [from_str] of [JsonReader],
    with what [serde_json] documents of it in [JsonReaderLaws].

    A [serde_json::Map] is a [BTreeMap]: its members are listed in ascending
    order of their names, and no name occurs twice ([wf_value]). *)
From stdpp Require Import sorting.
From S2P Require Import Prelude EnvelopeFormat EnvelopeName Envelope DirectText.
#[local] Open Scope Z_scope.

Definition MAX_SAFE_INTEGER : Z := 2 ^ 53 - 1.

(** ** Values *)

(** [serde_json::Number]: a float is its 64 bits. *)
Inductive Num := PosInt (n : Z) | NegInt (n : Z) | Float (bits : Z).

Inductive Value :=
| Null
| Bool (b : bool)
| Number (n : Num)
| Str (s : text)
| Array (items : list Value)
| Object (members : list (text * Value)).

Abbreviation Map := (list (text * Value)) (only parsing).

(** Induction with the hypothesis for every item and member. *)
Definition Value_induction (P : Value -> Prop)
    (HNull : P Null) (HBool : forall b, P (Bool b)) (HNumber : forall n, P (Number n))
    (HStr : forall s, P (Str s)) (HArray : forall items, Forall P items -> P (Array items))
    (HObject : forall members, Forall (fun kv => P kv.2) members -> P (Object members))
    : forall v, P v :=
  fix go (v : Value) : P v :=
    match v with
    | Null => HNull
    | Bool b => HBool b
    | Number n => HNumber n
    | Str s => HStr s
    | Array items =>
        HArray items ((fix all l : Forall P l :=
          match l with [] => Forall_nil_2 P | x :: l => Forall_cons_2 P x l (go x) (all l) end) items)
    | Object members =>
        HObject members ((fix all l : Forall (fun kv => P kv.2) l :=
          match l with
          | [] => Forall_nil_2 _
          | kv :: l => Forall_cons_2 _ kv l (go kv.2) (all l)
          end) members)
    end.

(** [as_u64], [as_str], [as_bool], [as_array] and [as_object]. *)
Definition num_u64 (n : Num) : option Z := match n with PosInt n => Some n | _ => None end.
Definition as_u64 (v : Value) : option Z := match v with Number n => num_u64 n | _ => None end.
Definition as_str (v : Value) : option text := match v with Str s => Some s | _ => None end.
Definition as_bool (v : Value) : option bool := match v with Bool b => Some b | _ => None end.
Definition as_array (v : Value) : option (list Value) :=
  match v with Array l => Some l | _ => None end.
Definition as_object (v : Value) : option Map := match v with Object m => Some m | _ => None end.

(** [Map::get]; [index] is [map[name]], which the code uses only on a name
    [has_exactly] has found. *)
Fixpoint get (m : Map) (k : text) : option Value :=
  match m with [] => None | (k', v) :: m => if bool_decide (k' = k) then Some v else get m k end.

Definition index (m : Map) (k : text) : Value := default Null (get m k).

Definition has_exactly (m : Map) (names : list text) : bool :=
  (Z.of_nat (length m) =? Z.of_nat (length names)) &&
  forallb (fun k => match get m k with Some _ => true | None => false end) names.

(** [Map::insert]. *)
Fixpoint insert_member (k : text) (v : Value) (m : Map) : Map :=
  match m with
  | [] => [(k, v)]
  | (k', v') :: m' =>
      if bool_decide (k = k') then (k, v) :: m'
      else if lex_le k k' then (k, v) :: m
      else (k', v') :: insert_member k v m'
  end.

(** ** The writer *)

Definition hex_digit (d : Z) : rchar := if d <? 10 then 48 + d else 87 + d.

(** One character between the quotes: [\u00xx] is what [\u{:04x}] prints of a
    control. *)
Definition escape (c : rchar) : text :=
  if c =? 34 then [92; 34]
  else if c =? 92 then [92; 92]
  else if c =? 8 then [92; 98]
  else if c =? 12 then [92; 102]
  else if c =? 10 then [92; 110]
  else if c =? 13 then [92; 114]
  else if c =? 9 then [92; 116]
  else if between 0 c 0x1f then [92; 117; 48; 48; hex_digit (c / 16); hex_digit (c mod 16)]
  else [c].

Fixpoint write_chars (s : text) : text :=
  match s with [] => [34] | c :: t => escape c ++ write_chars t end.

Definition write_string (s : text) : text := 34 :: write_chars s.

(** [keys.sort_by(|a, b| a.encode_utf16().cmp(b.encode_utf16()))]. *)
Definition by_utf16 {A} (a b : text * A) : Prop := lex_le (utf16 a.1) (utf16 b.1) = true.

#[export] Instance by_utf16_dec {A} : RelDecision (@by_utf16 A).
Proof. intros a b. unfold by_utf16. exact _. Defined.

Fixpoint separated (l : list text) : text :=
  match l with [] => [] | [x] => x | x :: l => x ++ 44 :: separated l end.

(** The items, if every one of them was written. *)
Fixpoint all_some {A} (l : list (option A)) : option (list A) :=
  match l with [] => Some [] | x :: l => a ← x; l ← all_some l; Some (a :: l) end.

Definition write_member (kw : text * text) : text := write_string kw.1 ++ 58 :: kw.2.

Fixpoint write_value (v : Value) : option text :=
  match v with
  | Null => None
  | Bool b => Some (lit (if b then "true" else "false"))
  | Number n =>
      n ← num_u64 n;
      if n <=? MAX_SAFE_INTEGER then Some (u64_to_string n) else None
  | Str s => Some (write_string s)
  | Array items =>
      written ← all_some (map write_value items);
      Some (91 :: separated written ++ [93])
  | Object members =>
      written ← all_some (map (fun kv => w ← write_value kv.2; Some (kv.1, w)) members);
      Some (123 :: separated (map write_member (merge_sort by_utf16 written)) ++ [125])
  end.

Definition canonical (v : Value) : option text := write_value v.

(** ** The reader *)

(** Names in strictly ascending order of their bytes, which is the order of
    their characters. *)
Fixpoint ascending (l : list text) : bool :=
  match l with
  | a :: (b :: _) as l' => negb (lex_le b a) && ascending l'
  | _ => true
  end.

(** What every [Value] satisfies: strings are text, [PosInt] holds a [u64],
    the members of an object are those of a [BTreeMap]. *)
Fixpoint wf_value (v : Value) : bool :=
  match v with
  | Number (PosInt n) => is_u64 n
  | Str s => forallb scalar s
  | Array items => forallb wf_value items
  | Object members =>
      ascending (map fst members) &&
      forallb (fun kv => forallb scalar kv.1 && wf_value kv.2) members
  | _ => true
  end.

(** How deep arrays and objects are nested. *)
Fixpoint depth (v : Value) : nat :=
  match v with
  | Array items => S (foldr Nat.max O (map depth items))
  | Object members => S (foldr Nat.max O (map (fun kv => depth kv.2) members))
  | _ => O
  end.

(** [serde_json::from_str] at [Value]. *)
Class JsonReader := { from_str : text -> option Value }.

(** It returns values of its type, and reads a canonical text as the value
    it is the text of, up to its documented limit of 127 nested levels. *)
Class JsonReaderLaws (R : JsonReader) := {
  from_str_wf : forall t v, is_text t -> from_str t = Some v -> wf_value v = true;
  from_str_canonical : forall v t, wf_value v = true -> (depth v < 128)%nat ->
    canonical v = Some t -> from_str t = Some v
}.
