(* ===== verification/DirectJsonReader.v ===== *)
(** * A reader of canonical JSON

    A small recursive-descent reader, proved to satisfy [JsonReaderLaws]: the
    laws can hold, and the canonical writer never writes two values the code
    handles alike. *)
From stdpp Require Import sorting.
From S2P Require Import Prelude EnvelopeFormat EnvelopeName Envelope DirectText DirectJson.
#[local] Open Scope Z_scope.

(** ** The reader *)

Definition hex_value (c : rchar) : Z := if c <? 58 then c - 48 else c - 87.

Definition short_escape (e : rchar) : option rchar :=
  if (e =? 34) || (e =? 92) then Some e
  else if e =? 98 then Some 8
  else if e =? 102 then Some 12
  else if e =? 110 then Some 10
  else if e =? 114 then Some 13
  else if e =? 116 then Some 9
  else None.

(** One character of a string, escaped or not. *)
Definition read_char (s : text) : option (rchar * text) :=
  match s with
  | [] => None
  | c :: s =>
      if c =? 92 then
        match s with
        | [] => None
        | e :: s =>
            match short_escape e, s with
            | Some c, _ => Some (c, s)
            | None, _ :: _ :: h :: l :: s => Some (hex_value h * 16 + hex_value l, s)
            | None, _ => None
            end
        end
      else Some (c, s)
  end.

(** Up to the closing quote. *)
Fixpoint read_chars (n : nat) (s : text) : option (text * text) :=
  match n with
  | O => None
  | S n =>
      if has_prefix [34] s then Some ([], drop 1 s)
      else '(c, s) ← read_char s; '(t, s) ← read_chars n s; Some (c :: t, s)
  end.

Fixpoint span_digits (s : text) : text * text :=
  match s with
  | c :: t => if is_digit c then let '(a, b) := span_digits t in (c :: a, b) else ([], s)
  | [] => ([], [])
  end.

(** Items separated by commas, up to the closing bracket [close]. *)
Fixpoint read_items {A} (close : rchar) (item : text -> option (A * text)) (n : nat) (s : text)
    : option (list A * text) :=
  match n with
  | O => None
  | S n =>
      '(a, s) ← item s;
      match s with
      | c :: s =>
          if c =? 44 then '(l, s) ← read_items close item n s; Some (a :: l, s)
          else if c =? close then Some ([a], s)
          else None
      | [] => None
      end
  end.

Definition read_member (value : text -> option (Value * text)) (s : text)
    : option ((text * Value) * text) :=
  match s with
  | c :: s =>
      if c =? 34 then
        '(k, s) ← read_chars (length s) s;
        match s with
        | c :: s => if c =? 58 then '(v, s) ← value s; Some ((k, v), s) else None
        | [] => None
        end
      else None
  | [] => None
  end.

(** [BTreeMap] order. *)
Definition by_name {A} (a b : text * A) : Prop := lex_le a.1 b.1 = true.

#[export] Instance by_name_dec {A} : RelDecision (@by_name A).
Proof. intros a b. unfold by_name. exact _. Defined.

Fixpoint read_value (d : nat) (s : text) : option (Value * text) :=
  match d, s with
  | S d, c :: t =>
      if c =? 34 then '(w, s) ← read_chars (length t) t; Some (Str w, s)
      else if c =? 91 then
        if has_prefix [93] t then Some (Array [], drop 1 t)
        else '(l, s) ← read_items 93 (read_value d) (length t) t; Some (Array l, s)
      else if c =? 123 then
        if has_prefix [125] t then Some (Object [], drop 1 t)
        else
          '(l, s) ← read_items 125 (read_member (read_value d)) (length t) t;
          Some (Object (merge_sort by_name l), s)
      else if is_digit c then
        let '(ds, s) := span_digits (c :: t) in Some (Number (PosInt (digits_value ds)), s)
      else
        match cut_prefix (lit "true") s, cut_prefix (lit "false") s with
        | Some s, _ => Some (Bool true, s)
        | _, Some s => Some (Bool false, s)
        | _, _ => None
        end
  | _, _ => None
  end.

Definition canonical_reader : JsonReader :=
  {| from_str t :=
       '(v, s) ← read_value 128 t;
       if bool_decide (s = []) && wf_value v then Some v else None |}.

(** ** It inverts the writer *)

Lemma has_prefix_1 x c (s : text) : has_prefix [x] (c :: s) = (c =? x).
Proof.
  unfold has_prefix. cbn. destruct (Z.eqb_spec c x) as [-> |H]; [by rewrite bool_decide_eq_true_2|].
  rewrite bool_decide_eq_false_2; [done|congruence].
Qed.

Lemma hex_value_digit d : 0 <= d < 16 -> hex_value (hex_digit d) = d.
Proof.
  intros Hd. unfold hex_digit, hex_value. destruct (Z.ltb_spec d 10).
  - rewrite (proj2 (Z.ltb_lt _ _)); lia.
  - rewrite (proj2 (Z.ltb_ge _ _)); lia.
Qed.

Lemma read_char_escape c rest : read_char (escape c ++ rest) = Some (c, rest).
Proof.
  unfold escape.
  destruct (Z.eqb_spec c 34) as [-> |]; [done|]. destruct (Z.eqb_spec c 92) as [-> |]; [done|].
  destruct (Z.eqb_spec c 8) as [-> |]; [done|]. destruct (Z.eqb_spec c 12) as [-> |]; [done|].
  destruct (Z.eqb_spec c 10) as [-> |]; [done|]. destruct (Z.eqb_spec c 13) as [-> |]; [done|].
  destruct (Z.eqb_spec c 9) as [-> |]; [done|].
  destruct (between 0 c 0x1f) eqn:E.
  - apply andb_prop in E as [?%Z.leb_le ?%Z.leb_le]. cbn.
    rewrite !hex_value_digit by (Z.to_euclidean_division_equations; lia).
    do 2 f_equal. Z.to_euclidean_division_equations; lia.
  - cbn. by rewrite (proj2 (Z.eqb_neq c 92)).
Qed.

Lemma escape_cons c : exists x t, escape c = x :: t /\ x <> 34.
Proof.
  unfold escape. destruct (Z.eqb_spec c 34); [by exists 92, [34]|].
  do 6 (destruct (c =? _); [by eexists 92, _|]). destruct (between 0 c 31); [by eexists 92, _|].
  by exists c, [].
Qed.

Lemma escape_head c rest : has_prefix [34] (escape c ++ rest) = false.
Proof.
  destruct (escape_cons c) as (x & t & -> & Hx). cbn [app]. rewrite has_prefix_1. by apply Z.eqb_neq.
Qed.

Lemma escape_length c : (1 <= length (escape c))%nat.
Proof. destruct (escape_cons c) as (x & t & -> & _). cbn. lia. Qed.

Lemma write_chars_length s : (length s < length (write_chars s))%nat.
Proof.
  induction s as [|c s IH]; [cbn; lia|]. cbn [write_chars]. rewrite length_app.
  pose proof (escape_length c). cbn [length]. lia.
Qed.

Lemma read_chars_write s rest n : (length s < n)%nat ->
  read_chars n (write_chars s ++ rest) = Some (s, rest).
Proof.
  revert n. induction s as [|c s IH]; intros [|n] Hn; [lia|done|cbn in Hn; lia|].
  cbn [write_chars read_chars]. rewrite <- app_assoc, escape_head, read_char_escape. cbn.
  rewrite IH by (cbn in Hn; lia). done.
Qed.

Lemma span_digits_app ds rest :
  Forall (fun c => is_digit c = true) ds ->
  (forall c, head rest = Some c -> is_digit c = false) ->
  span_digits (ds ++ rest) = (ds, rest).
Proof.
  intros H Hr. induction H as [|c ds Hc _ IH]; cbn.
  - destruct rest as [|c rest]; [done|]. cbn. by rewrite (Hr c).
  - by rewrite Hc, IH.
Qed.

(** What may follow a number. *)
Definition delimited (s : text) : Prop := forall c, head s = Some c -> is_digit c = false.

Lemma delimited_cons c s : is_digit c = false -> delimited (c :: s).
Proof. by intros H d [= <-]. Qed.

Lemma separated_length (ws : list text) : (length ws <= S (length (separated ws)))%nat.
Proof.
  induction ws as [|w [|w' ws] IH]; cbn; [lia..|]. rewrite length_app. cbn [length separated] in *. lia.
Qed.

Lemma read_items_write {A} (close : rchar) (item : text -> option (A * text)) xs ws n rest :
  close <> 44 -> is_digit close = false ->
  Forall2 (fun a w => forall r, delimited r -> item (w ++ r) = Some (a, r)) xs ws ->
  xs <> [] -> (length xs <= n)%nat ->
  read_items close item n (separated ws ++ close :: rest) = Some (xs, rest).
Proof.
  intros Hc Hd H. revert n. induction H as [|a w xs ws Hi Hrest IH]; intros n Hne Hn; [done|].
  destruct n as [|n]; [cbn in Hn; lia|]. destruct ws as [|w' ws].
  - apply Forall2_nil_inv_r in Hrest as ->. cbn. rewrite Hi by (by apply delimited_cons). cbn.
    by rewrite (proj2 (Z.eqb_neq close 44)), Z.eqb_refl.
  - change (separated (w :: w' :: ws)) with (w ++ 44 :: separated (w' :: ws)).
    rewrite <- app_assoc. cbn [read_items app]. rewrite Hi by (by apply delimited_cons). cbn [mbind option_bind].
    rewrite Z.eqb_refl. rewrite IH; [done| |cbn in Hn; lia]. by intros ->; inversion Hrest.
Qed.

Lemma all_some_Forall2 {A B} (f : A -> option B) l bs :
  all_some (map f l) = Some bs -> Forall2 (fun a b => f a = Some b) l bs.
Proof.
  revert bs. induction l as [|a l IH]; cbn; intros bs; [intros [= <-]; constructor|].
  destruct (f a) as [b|] eqn:E; [|done]. cbn. destruct (all_some _) as [bs'|]; [|done].
  intros [= <-]. constructor; [done|by apply IH].
Qed.

(** Ascending names are sorted, and they differ. *)
Lemma lex_lt_trans a b c : lex_le b a = false -> lex_le c b = false -> lex_le c a = false.
Proof.
  intros H1 H2. apply not_true_iff_false. intros H3.
  destruct (lex_le_total a b) as [Hab|Hba]; [|congruence].
  rewrite (lex_le_trans c a b H3 Hab) in H2. done.
Qed.

Lemma ascending_sorted l : ascending l = true -> StronglySorted (fun a b => lex_le b a = false) l.
Proof.
  induction l as [|a l IH]; intros H; [constructor|]. constructor.
  - apply IH. destruct l; [done|]. cbn in H. by apply andb_prop in H as [_ H].
  - revert a H. induction l as [|b l IHl]; intros a H; [constructor|].
    cbn in H. apply andb_prop in H as [Hab%negb_true_iff Hl].
    constructor; [done|]. assert (StronglySorted (fun a b => lex_le b a = false) (b :: l)) as Hs by by apply IH.
    apply StronglySorted_inv in Hs as [_ Hs]. eapply Forall_impl; [exact Hs|].
    intros x Hx. by eapply lex_lt_trans.
Qed.

Lemma by_name_sorted {A} (m : list (text * A)) :
  ascending (map fst m) = true -> StronglySorted by_name m /\ NoDup (map fst m).
Proof.
  intros H%ascending_sorted. induction m as [|[k v] m IH]; [split; constructor|].
  cbn in H. apply StronglySorted_inv in H as [Hs Hk]. destruct (IH Hs) as [H1 H2].
  split; constructor; try done.
  - apply Forall_forall. intros [k' v'] Hin. rewrite Forall_forall in Hk.
    specialize (Hk k' ltac:(by apply (list_elem_of_fmap_2 fst _ (k', v')))).
    unfold by_name. cbn. by destruct (lex_le_total k k') as [|]; [|congruence].
  - intros Hin. rewrite Forall_forall in Hk. specialize (Hk k Hin).
    destruct (lex_le_total k k); congruence.
Qed.

#[local] Instance by_name_total {A} : Total (@by_name A).
Proof. intros a b. apply lex_le_total. Qed.
#[local] Instance by_name_trans {A} : Transitive (@by_name A).
Proof. intros a b c. apply lex_le_trans. Qed.

(** A map is the sorted form of its members in any order. *)
Lemma sort_members {A} (m m' : list (text * A)) :
  ascending (map fst m) = true -> m' ≡ₚ m -> merge_sort by_name m' = m.
Proof.
  intros [Hs Hn]%by_name_sorted Hp.
  apply (StronglySorted_unique_strong by_name).
  - intros x y Hx Hy H1 H2. rewrite merge_sort_Permutation, Hp in Hx.
    eapply (NoDup_map_inj fst); [exact Hn|done..|]. by apply lex_le_antisym.
  - apply (StronglySorted_merge_sort _ _).
  - done.
  - by rewrite merge_sort_Permutation.
Qed.

(** No value starts with a closing bracket, a comma or a colon. *)
Lemma write_value_head v w : wf_value v = true -> write_value v = Some w ->
  exists c t, w = c :: t /\ c <> 93 /\ c <> 125.
Proof.
  destruct v as [|[]|[n| |]|s|items|members]; cbn; intros Hwf H; try done;
    try (injection H as <-; eexists _, _; split; [reflexivity|done]).
  - destruct (Z.leb_spec n MAX_SAFE_INTEGER); [|done]. injection H as <-.
    destruct (u64_to_string_ok n Hwf) as (c & t & -> & Hd & _). eexists _, _. split; [done|].
    apply Forall_inv in Hd. unfold is_digit, between in Hd. lia.
  - destruct (all_some _); [|done]. injection H as <-. eexists _, _; split; [reflexivity|done].
  - destruct (all_some _); [|done]. injection H as <-. eexists _, _; split; [reflexivity|done].
Qed.

Lemma depth_max {A} (f : A -> nat) l v : v ∈ l -> (f v <= foldr Nat.max O (map f l))%nat.
Proof. induction 1; cbn; lia. Qed.

Lemma forallb_elem {A} (f : A -> bool) l x : forallb f l = true -> x ∈ l -> f x = true.
Proof. rewrite forallb_forall, list_elem_of_In. auto. Qed.

Lemma separated_start (w : text) (ws : list text) c t rest y : w = c :: t -> c <> y ->
  has_prefix [y] (separated (w :: ws) ++ rest) = false.
Proof.
  intros -> Hy. destruct ws; cbn [separated app]; rewrite has_prefix_1; by apply Z.eqb_neq.
Qed.

(** What the writer's output is read as, after any delimiter. *)
Definition reads (d : nat) (v : Value) : Prop := forall w rest,
  wf_value v = true -> (depth v < d)%nat -> write_value v = Some w -> delimited rest ->
  read_value d (w ++ rest) = Some (v, rest).

Lemma read_array d items : Forall (reads d) items -> reads (S d) (Array items).
Proof.
  intros IH w rest Hwf Hd Hw Hrest.
  assert (forall x, x ∈ items -> (depth x < d)%nat) as Hdepth.
  { intros x Hx. pose proof (depth_max depth items x Hx). cbn in Hd. lia. }
  cbn in Hw. destruct (all_some _) as [ws|] eqn:Hws; [|done]. injection Hw as <-.
  apply all_some_Forall2 in Hws. destruct items as [|v items].
  { apply Forall2_nil_inv_l in Hws as ->. done. }
  cbn [app read_value]. rewrite <- app_assoc. cbn [app].
  replace (91 =? 34) with false by done. rewrite Z.eqb_refl.
  apply Forall2_cons_inv_l in Hws as (w0 & ws' & Hw0 & Hws' & ->).
  cbn in Hwf. apply andb_prop in Hwf as [Hwv Hwfs].
  destruct (write_value_head _ _ Hwv Hw0) as (c & t & Hc & Hc1 & _).
  rewrite (separated_start _ _ _ _ _ _ Hc) by done.
  rewrite (read_items_write 93 (read_value d) (v :: items) (w0 :: ws')); try done.
  + apply Forall2_same_length_lookup. split; [cbn; by rewrite (Forall2_length _ _ _ Hws')|].
    intros i x y Hx Hy r Hr. rewrite Forall_lookup in IH. apply (IH i x Hx); try done.
    * apply (forallb_elem wf_value (v :: items)); [cbn; by rewrite Hwv|]. by eapply list_elem_of_lookup_2.
    * apply Hdepth. by eapply list_elem_of_lookup_2.
    * destruct i as [|i]; cbn in Hx, Hy; [by simplify_eq|].
      eapply (Forall2_lookup_lr _ _ _ _ _ _ Hws'); done.
  + rewrite length_app. cbn [length]. pose proof (separated_length (w0 :: ws')). cbn [length] in *.
    rewrite (Forall2_length _ _ _ Hws'). lia.
Qed.

Lemma read_object d members : Forall (fun kv => reads d kv.2) members -> reads (S d) (Object members).
Proof.
  intros IH w rest Hwf Hd Hw Hrest.
  assert (forall kv, kv ∈ members -> (depth kv.2 < d)%nat) as Hdepth.
  { intros x Hx. pose proof (depth_max (fun kv => depth kv.2) members x Hx). cbn in Hd. lia. }
  cbn in Hw, Hwf. apply andb_prop in Hwf as [Hasc Hwf].
  destruct (all_some _) as [ws|] eqn:Hws; [|done]. injection Hw as <-.
  apply all_some_Forall2 in Hws.
  destruct (Permutation_Forall2 (symmetry (merge_sort_Permutation by_utf16 ws))
    ((proj2 (Forall2_flip _ _ _)) Hws)) as (members' & Hp & Hm).
  destruct (merge_sort by_utf16 ws) as [|kw kws] eqn:Es.
  { apply Forall2_nil_inv_l in Hm as ->. apply Permutation_nil_r in Hp as ->. done. }
  cbn [app read_value map]. rewrite <- app_assoc. cbn [app].
  replace (123 =? 34) with false by done. replace (123 =? 91) with false by done. rewrite Z.eqb_refl.
  rewrite (separated_start (write_member kw) (map write_member kws) 34 _ _ 125 eq_refl) by done.
  change (write_member kw :: map write_member kws) with (map write_member (kw :: kws)).
  rewrite (read_items_write 125 (read_member (read_value d)) members'); try done.
  + cbn. by rewrite (sort_members members members').
  + apply Forall2_same_length_lookup. split; [by rewrite length_map, (Forall2_length _ _ _ Hm)|].
    intros i [k v] y Hx Hy r Hr. apply list_lookup_fmap_Some in Hy as (kw' & -> & Hy).
    pose proof (Forall2_lookup_lr _ _ _ _ _ _ Hm Hy Hx) as Hwk. cbn in Hwk.
    destruct (write_value v) as [w'|] eqn:Ew; [|done]. cbn in Hwk. injection Hwk as <-.
    assert ((k, v) ∈ members) as Hin by (rewrite Hp; by eapply list_elem_of_lookup_2).
    unfold write_member, read_member, write_string. cbn [app fst snd]. rewrite Z.eqb_refl.
    rewrite <- app_assoc, read_chars_write.
    2:{ rewrite length_app. pose proof (write_chars_length k). lia. }
    cbn. rewrite Forall_forall in IH. rewrite (IH _ Hin w' r); try done; [|by apply (Hdepth _ Hin)].
    apply (forallb_elem _ _ _ Hwf) in Hin. by apply andb_prop in Hin as [_ Hin].
  + intros ->. by inversion Hm.
  + rewrite length_app. cbn [length]. pose proof (separated_length (map write_member (kw :: kws))).
    rewrite length_map in *. rewrite <- (Forall2_length _ _ _ Hm). lia.
Qed.

Lemma read_number d n : reads (S d) (Number n).
Proof.
  intros w rest Hwf Hd Hw Hrest.
  destruct n as [n| |]; try done. cbn in Hw, Hwf. destruct (Z.leb_spec n MAX_SAFE_INTEGER); [|done].
  injection Hw as <-.
  destruct (u64_to_string_ok n Hwf) as (c & t & -> & Hf & Hv). cbn [app read_value].
  assert (is_digit c = true) as Hc by (by apply Forall_inv in Hf).
  assert (48 <= c <= 57) by (unfold is_digit, between in Hc; lia).
  rewrite (proj2 (Z.eqb_neq c 34)), (proj2 (Z.eqb_neq c 91)), (proj2 (Z.eqb_neq c 123)), Hc by lia.
  change (c :: t ++ rest) with ((c :: t) ++ rest). rewrite span_digits_app by done. by rewrite Hv.
Qed.

Lemma read_write v d : reads d v.
Proof.
  revert d. induction v as [|b|n|s|items IH|members IH] using Value_induction; intros [|d];
    try (intros w rest Hwf Hd; lia).
  - by intros w rest Hwf Hd.
  - intros w rest Hwf Hd Hw Hrest. destruct b; by injection Hw as <-.
  - apply read_number.
  - intros w rest Hwf Hd Hw Hrest. injection Hw as <-. cbn -[read_chars].
    rewrite read_chars_write; [done|]. rewrite length_app. pose proof (write_chars_length s). lia.
  - apply read_array. eapply Forall_impl; [exact IH|]. auto.
  - apply read_object. eapply Forall_impl; [exact IH|]. cbn. auto.
Qed.

#[global] Arguments read_value : simpl never.

Lemma canonical_reader_laws : JsonReaderLaws canonical_reader.
Proof.
  split; cbn.
  - intros t v _. destruct (read_value 128 t) as [[v' s]|]; [|done]. cbn. intros H.
    destruct (bool_decide _ && _) eqn:E; [|done]. injection H as <-. by apply andb_prop in E as [_ E].
  - intros v t Hwf Hd Hc. rewrite <- (app_nil_r t), (read_write v 128 t []) by done. cbn.
    by rewrite Hwf.
Qed.

(** ** The writer is injective *)

Lemma canonical_injective v v' t : wf_value v = true -> wf_value v' = true ->
  canonical v = Some t -> canonical v' = Some t -> v = v'.
Proof.
  intros Hv Hv' H H'. set (d := S (Nat.max (depth v) (depth v'))).
  assert (delimited []) as Hnil by done.
  pose proof (read_write v d t [] Hv ltac:(lia) H Hnil) as E.
  rewrite (read_write v' d t [] Hv' ltac:(lia) H' Hnil) in E. congruence.
Qed.
