(* ===== verification/DirectMessages.v ===== *)
(** * The messages of a direct send

    Models [desktop/src-tauri/src/drop/direct/messages.rs]: the
    [wildbloom-direct/1] messages two ends exchange to set a transfer up, the
    rules each member must meet, the sender's [encode] and the reader's
    [decode].  Unicode, base64 and the JSON reader are library code
    ([Unicode], [Base64], [JsonReader]).  [is_js_whitespace], [is_control] and
    [utf16_count] of the envelope are character for character the functions
    this source file has for itself. *)
From S2P Require Import Prelude EnvelopeFormat EnvelopeName EnvelopeKey Envelope DirectText DirectJson.

Definition MESSAGE_BYTES : Z := 16379.
Definition MESSAGES_PER_SIDE : Z := 8.
Definition RESTARTS : Z := 5.
Definition SDP_BYTES : Z := 8000.
Definition ICE_SERVERS : Z := 4.
Definition URLS_PER_SERVER : Z := 4.
Definition URL_BYTES : Z := 256.
Definition CREDENTIAL_BYTES : Z := 256.
Definition MAX_FILE_BYTES : Z := 250000000.
Definition TOO_BIG : string := "size is above max".

Inductive Side := SideDrop | SidePage.

Inductive StopReason := Cancelled | Unsupported | Failed.

#[export] Instance StopReason_eq_dec : EqDecision StopReason.
Proof. solve_decision. Defined.

Definition stop_text (r : StopReason) : text :=
  lit match r with
      | Cancelled => "cancelled"
      | Unsupported => "unsupported"
      | Failed => "failed"
      end.

Definition stop_parse (t : text) : option StopReason :=
  if bool_decide (t = lit "cancelled") then Some Cancelled
  else if bool_decide (t = lit "unsupported") then Some Unsupported
  else if bool_decide (t = lit "failed") then Some Failed
  else None.

(** ** ICE servers *)

Record IceServer := { credential : text; urls : list text; username : text }.

Definition is_empty_text (s : text) : bool := match s with [] => true | _ => false end.

Definition valid_ice_url (url : text) : bool :=
  let rest :=
    match cut_prefix (lit "stun:") url with
    | Some rest => Some rest
    | None =>
        match cut_prefix (lit "turn:") url with
        | Some rest => Some rest
        | None => cut_prefix (lit "turns:") url
        end
    end in
  match rest with
  | Some rest => negb (is_empty_text rest) && negb (existsb is_js_whitespace rest)
  | None => false
  end && (str_len url <=? URL_BYTES).

Definition is_turn_url (url : text) : bool :=
  has_prefix (lit "turn:") url || has_prefix (lit "turns:") url.

Definition default_stun : IceServer :=
  {| credential := []; urls := [lit "stun:stun.cloudflare.com:3478"]; username := [] |}.

Definition has_turn (s : IceServer) : bool := existsb is_turn_url (urls s).

(** [(1..=hi).contains(&n)]. *)
Definition from_one_to (hi : Z) {A} (l : list A) : bool := between 1 (Z.of_nat (length l)) hi.

Definition well_formed (s : IceServer) : bool :=
  let secrets := [username s; credential s] in
  from_one_to URLS_PER_SERVER (urls s) && forallb valid_ice_url (urls s) &&
  if has_turn s
  then forallb (fun secret => negb (is_empty_text secret) && (str_len secret <=? CREDENTIAL_BYTES)
                              && negb (existsb is_control secret)) secrets
  else forallb is_empty_text secrets.

Definition to_value (s : IceServer) : Value :=
  Object (insert_member (lit "username") (Str (username s))
         (insert_member (lit "urls") (Array (map Str (urls s)))
         (insert_member (lit "credential") (Str (credential s)) []))).

(** ** Messages *)

Record Manifest := { m_name : text; m_size : Z; m_media_type : text }.

Inductive Message :=
| Invite (hide : bool) (ice : list IceServer) (id : text) (max : Z)
| MManifest (m : Manifest)
| Accept (sdp : text)
| Decline
| Answer (key : InputKey) (sdp : text)
| Restart (sdp : text)
| RestartAnswer (sdp : text)
| MStop (reason : StopReason).

Definition event (m : Message) : text :=
  lit match m with
      | Invite _ _ _ _ => "invite"
      | MManifest _ => "manifest"
      | Accept _ => "accept"
      | Decline => "decline"
      | Answer _ _ => "answer"
      | Restart _ => "restart"
      | RestartAnswer _ => "restart-answer"
      | MStop _ => "stop"
      end.

(** ** Rules of the members *)

(** ASCII letters, digits, [-] and [_]. *)
Definition base64url (c : Z) : bool :=
  between 48 c 57 || between 65 c 90 || between 97 c 122 || (c =? 45) || (c =? 95).

Definition canonical_id (t : text) : bool :=
  let bytes := utf8 t in
  (str_len t =? 22) && forallb base64url bytes &&
  match nth_error bytes 21 with
  | Some b => (b =? 65) || (b =? 81) || (b =? 103) || (b =? 119)
  | None => false
  end.

(** A bare line feed or carriage return; [prev] is the byte before. *)
Fixpoint bare_ends (prev : option Z) (l : list Z) : bool :=
  match l with
  | [] => false
  | b :: t =>
      let bare_lf := (b =? 10) && negb (bool_decide (prev = Some 13)) in
      let bare_cr := (b =? 13) && negb (bool_decide (head t = Some 10)) in
      bare_lf || bare_cr || bare_ends (Some b) t
  end.

Definition data_channel (line : list Z) : bool :=
  match (rest ← cut_prefix (lit "m=application ") line;
         cut_suffix (lit " UDP/DTLS/SCTP webrtc-datachannel") rest) with
  | Some port => negb (is_empty_text port) && forallb is_digit port
  | None => false
  end.

Definition CRLF : list Z := [13; 10].

Definition check_sdp (sdp : text) : result string unit :=
  let bytes := utf8 sdp in
  let len := str_len sdp in
  if (len =? 0) || (SDP_BYTES <? len) then Err "the description is empty or over 8,000 bytes"%string
  else if negb (forallb (fun b => (b =? 13) || (b =? 10) || between 0x20 b 0x7e) bytes)
  then Err "the description is not printable ASCII"%string
  else if negb (has_prefix (lit "v=0" ++ CRLF) bytes) || negb (has_suffix CRLF bytes)
  then Err "the description does not start with v=0 or end in CRLF"%string
  else if bare_ends None bytes
  then Err "the description has a bare line feed or carriage return"%string
  else
    let lines := split_crlf (take (length bytes - 2) bytes) in
    let media := List.filter (has_prefix (lit "m=")) lines in
    if negb match media with [line] => data_channel line | _ => false end
    then Err "the description must have exactly one data-channel media section"%string
    else if negb (existsb (has_prefix (lit "a=fingerprint:sha-256 ")) lines)
    then Err "the description has no SHA-256 fingerprint"%string
    else Ok tt.

Definition is_disguising (c : rchar) : bool :=
  (c =? 0x061C) || (c =? 0x180E) || between 0x200B c 0x200F || between 0x202A c 0x202E
  || between 0x2060 c 0x2064 || between 0x2066 c 0x206F || (c =? 0xFEFF)
  || between 0xE0000 c 0xE007F.

(** ** Who may send what when *)

Definition allowed_events (from : Side) (index : Z) : list text :=
  if MESSAGES_PER_SIDE <=? index then []
  else
    match from with
    | SideDrop =>
        if index =? 0 then [lit "invite"]
        else if index =? 1 then [lit "accept"; lit "decline"; lit "stop"]
        else if index <=? 1 + RESTARTS then [lit "restart"; lit "stop"]
        else [lit "stop"]
    | SidePage =>
        if index =? 0 then [lit "manifest"; lit "stop"]
        else if index =? 1 then [lit "answer"; lit "stop"]
        else if index <=? 1 + RESTARTS then [lit "restart-answer"; lit "stop"]
        else [lit "stop"]
    end.

Inductive EncodeError := Invalid | TooLarge.

Record Refusal := { r_stop : StopReason; r_detail : string }.

Definition failed (detail : string) : Refusal := {| r_stop := Failed; r_detail := detail |}.
Definition unsupported (detail : string) : Refusal := {| r_stop := Unsupported; r_detail := detail |}.

Record ReadContext := {
  cx_from : Side;
  cx_index : Z;
  ice_allowlist : list text;
  cx_max : option Z
}.

Section Messages.
Context `{U : Unicode, B : Base64, R : JsonReader}.

Definition valid_name (name : text) : bool := bool_decide (sanitise_name name = name).

Definition valid_media_type (media_type : text) : bool :=
  between 1 (utf16_count media_type) 255 && negb (existsb is_control media_type) &&
  bool_decide (to_lowercase media_type = media_type).

(** [key.to_wbk1()] as a string: it is ASCII. *)
Definition wbk1_text (key : InputKey) : text := map b2z (to_wbk1 key).

(** ** Writing *)

Definition members (message : Message) : result EncodeError Map :=
  let map := insert_member (lit "v") (Number (PosInt 1))
               (insert_member (lit "event") (Str (event message)) []) in
  let sdp_member sdp map :=
    match check_sdp sdp with
    | Ok _ => Ok (insert_member (lit "sdp") (Str sdp) map)
    | Err _ => Err Invalid
    end in
  match message with
  | Invite hide ice id max =>
      let ice_ok := from_one_to ICE_SERVERS ice && forallb well_formed ice &&
                    (negb hide || existsb has_turn ice) in
      if negb ice_ok || negb (canonical_id id) || negb (between 1 max MAX_FILE_BYTES)
      then Err Invalid
      else
        let map := insert_member (lit "dir") (Str (lit "to-drop")) map in
        let map := insert_member (lit "hide") (Bool hide) map in
        let map := insert_member (lit "ice") (Array (List.map to_value ice)) map in
        let map := insert_member (lit "id") (Str id) map in
        Ok (insert_member (lit "max") (Number (PosInt max)) map)
  | MManifest m =>
      if negb (valid_name (m_name m)) || negb (valid_media_type (m_media_type m))
         || (MAX_SAFE_INTEGER <? m_size m)
      then Err Invalid
      else
        let map := insert_member (lit "name") (Str (m_name m)) map in
        let map := insert_member (lit "size") (Number (PosInt (m_size m))) map in
        Ok (insert_member (lit "type") (Str (m_media_type m)) map)
  | Accept sdp | Restart sdp | RestartAnswer sdp => sdp_member sdp map
  | Answer key sdp =>
      match check_sdp sdp with
      | Ok _ =>
          let map := insert_member (lit "key") (Str (wbk1_text key)) map in
          Ok (insert_member (lit "sdp") (Str sdp) map)
      | Err _ => Err Invalid
      end
  | Decline => Ok map
  | MStop reason => Ok (insert_member (lit "reason") (Str (stop_text reason)) map)
  end.

Definition encode (message : Message) : result EncodeError (list byte) :=
  let? map := members message in
  let? text := ok_or (canonical (Object map)) Invalid in
  if MESSAGE_BYTES <? str_len text then Err TooLarge else Ok (text_bytes text).

(** ** Reading *)

Fixpoint read_urls (values : list Value) : result Refusal (list text) :=
  match values with
  | [] => Ok []
  | v :: values =>
      match as_str v with
      | Some url =>
          if valid_ice_url url then let? list := read_urls values in Ok (url :: list)
          else Err (failed "an ice URL is malformed")
      | None => Err (failed "an ice URL is malformed")
      end
  end.

Definition read_server (entry : Value) : result Refusal IceServer :=
  match as_object entry with
  | None => Err (failed "an ice server has the wrong members")
  | Some map =>
      if negb (has_exactly map [lit "credential"; lit "urls"; lit "username"])
      then Err (failed "an ice server has the wrong members")
      else
        match as_array (index map (lit "urls")) with
        | None => Err (failed "urls must hold 1 to 4 URLs")
        | Some values =>
            if negb (from_one_to URLS_PER_SERVER values)
            then Err (failed "urls must hold 1 to 4 URLs")
            else
              let? list := read_urls values in
              match as_str (index map (lit "username")), as_str (index map (lit "credential")) with
              | Some username, Some credential =>
                  let server := {| credential := credential; urls := list; username := username |} in
                  if negb (well_formed server)
                  then Err (failed "a username or credential is malformed")
                  else Ok server
              | _, _ => Err (failed "a username or credential is malformed")
              end
        end
  end.

Fixpoint read_servers (entries : list Value) : result Refusal (list IceServer) :=
  match entries with
  | [] => Ok []
  | entry :: entries =>
      let? server := read_server entry in
      let? servers := read_servers entries in
      Ok (server :: servers)
  end.

Definition in_list (l : list text) (t : text) : bool := bool_decide (t ∈ l).

Definition read_ice (value : Value) (allowlist : list text) : result Refusal (list IceServer) :=
  match as_array value with
  | None => Err (failed "ice must hold 1 to 4 servers")
  | Some entries =>
      if negb (from_one_to ICE_SERVERS entries) then Err (failed "ice must hold 1 to 4 servers")
      else
        let? servers := read_servers entries in
        if existsb (fun url => negb (in_list allowlist url)) (concat (map urls servers))
        then Err (unsupported "an ice URL is not on the build-time allowlist")
        else Ok servers
  end.

Definition read_invite (body : Map) (cx : ReadContext) : result Refusal Message :=
  if negb (has_exactly body [lit "dir"; lit "event"; lit "hide"; lit "ice"; lit "id"; lit "max"; lit "v"])
  then Err (failed "invite members")
  else
    let? dir :=
      ok_or (dir ← as_str (index body (lit "dir"));
             if in_list [lit "to-drop"; lit "from-drop"] dir then Some dir else None)
            (failed "unknown direction") in
    let? hide := ok_or (as_bool (index body (lit "hide"))) (failed "hide must be a boolean") in
    let? id :=
      ok_or (id ← as_str (index body (lit "id")); if canonical_id id then Some id else None)
            (failed "id is not 16 canonical base64url bytes") in
    let? max :=
      ok_or (max ← as_u64 (index body (lit "max")); if 1 <=? max then Some max else None)
            (failed "max must be at least 1") in
    let? ice := read_ice (index body (lit "ice")) (ice_allowlist cx) in
    if bool_decide (dir = lit "from-drop")
    then Err (unsupported "this page sends; it does not receive")
    else if MAX_FILE_BYTES <? max then Err (unsupported "max is above the 250,000,000 byte cap")
    else Ok (Invite hide ice id max).

Definition read_manifest (body : Map) (cx : ReadContext) : result Refusal Message :=
  if negb (has_exactly body [lit "event"; lit "name"; lit "size"; lit "type"; lit "v"])
  then Err (failed "manifest members")
  else
    let? name :=
      ok_or (name ← as_str (index body (lit "name")); if valid_name name then Some name else None)
            (failed "name is not a fixed point of the name rule") in
    if existsb is_disguising name then Err (failed "name holds a character that disguises it")
    else
      let? media_type :=
        ok_or (t ← as_str (index body (lit "type")); if valid_media_type t then Some t else None)
              (failed "type is not a lower-case media type") in
      let? size := ok_or (as_u64 (index body (lit "size"))) (failed "size must be an integer") in
      if match cx_max cx with Some max => max <? size | None => false end
      then Err (unsupported TOO_BIG)
      else Ok (MManifest {| m_name := name; m_size := size; m_media_type := media_type |}).

Definition read_sdp (body : Map) (members : list text) : result Refusal text :=
  if negb (has_exactly body members) then Err (failed "sdp message members")
  else
    let? sdp := ok_or (as_str (index body (lit "sdp"))) (failed "sdp must be a string") in
    let? _ := map_err failed (check_sdp sdp) in
    Ok sdp.

Definition read_answer (body : Map) : result Refusal Message :=
  let names := [lit "event"; lit "key"; lit "sdp"; lit "v"] in
  if negb (has_exactly body names) then Err (failed "answer members")
  else
    let? key :=
      ok_or (key ← as_str (index body (lit "key"));
             match parse_wbk1 (text_bytes key) with Ok key => Some key | Err _ => None end)
            (failed "key is not a canonical wbk1_ key") in
    let? sdp := read_sdp body names in
    Ok (Answer key sdp).

Definition read_stop (body : Map) : result Refusal Message :=
  if negb (has_exactly body [lit "event"; lit "reason"; lit "v"]) then Err (failed "stop members")
  else
    let? reason :=
      ok_or (as_str (index body (lit "reason")) ≫= stop_parse) (failed "unknown stop reason") in
    Ok (MStop reason).

(** The match on [event]. *)
Definition read_event (event : text) (body : Map) (cx : ReadContext) : result Refusal Message :=
  let sdp_names := [lit "event"; lit "sdp"; lit "v"] in
  if bool_decide (event = lit "invite") then read_invite body cx
  else if bool_decide (event = lit "manifest") then read_manifest body cx
  else if bool_decide (event = lit "accept")
  then let? sdp := read_sdp body sdp_names in Ok (Accept sdp)
  else if bool_decide (event = lit "restart")
  then let? sdp := read_sdp body sdp_names in Ok (Restart sdp)
  else if bool_decide (event = lit "restart-answer")
  then let? sdp := read_sdp body sdp_names in Ok (RestartAnswer sdp)
  else if bool_decide (event = lit "decline")
  then if has_exactly body [lit "event"; lit "v"] then Ok Decline else Err (failed "decline members")
  else if bool_decide (event = lit "answer") then read_answer body
  else if bool_decide (event = lit "stop") then read_stop body
  else Err (failed "unknown event").

Definition decode (bytes : list byte) (cx : ReadContext) : result Refusal Message :=
  if MESSAGE_BYTES <? blen bytes then Err (failed "message over 16,379 bytes")
  else
    let? text := ok_or (text_of_bytes bytes) (failed "not UTF-8") in
    let? parsed := ok_or (from_str text) (failed "not JSON") in
    match parsed with
    | Object body =>
        let? again := ok_or (canonical parsed) (failed "not canonical (value)") in
        if negb (bool_decide (again = text)) then Err (failed "not canonical (bytes)")
        else
          let? _ :=
            match get body (lit "v") with
            | Some (Number version) =>
                if bool_decide (num_u64 version = Some 1) then Ok tt else Err (unsupported "version")
            | _ => Err (failed "missing or malformed version")
            end in
          let? event :=
            ok_or (event ← get body (lit "event") ≫= as_str;
                   if in_list (allowed_events (cx_from cx) (cx_index cx)) event
                   then Some event else None)
                  (failed "event not allowed here") in
          read_event event body cx
    | _ => Err (failed "not an object")
    end.
End Messages.
