(* ===== verification/DirectMessagesProofs.v ===== *)
(** * What the direct-send messages guarantee

    [messages_read_iff_written]: a byte string is read as a message exactly
    when it is the one encoding of that message and the message is one the
    reader takes at this point. *)
From stdpp Require Import sorting.
From S2P Require Import Prelude EnvelopeFormat EnvelopeName EnvelopeKey Envelope EnvelopeProofs DirectText DirectJson DirectJsonReader DirectMessages.
#[local] Open Scope Z_scope.

(** ** Objects with exact members *)

Lemma get_elem (m : Map) k v : get m k = Some v -> (k, v) ∈ m.
Proof.
  induction m as [|[k' v'] m IH]; cbn; [done|]. case_bool_decide; [intros [= ->]; subst; left|].
  intros H'%IH. by right.
Qed.

Lemma map_index (m : Map) : NoDup (map fst m) -> map (fun k => (k, index m k)) (map fst m) = m.
Proof.
  induction m as [|[k v] m IH]; [done|]. cbn. intros [Hk Hn]%NoDup_cons. f_equal.
  - unfold index. cbn. by rewrite bool_decide_eq_true_2.
  - etrans; [|exact (IH Hn)]. apply map_ext_in. intros k' Hk'. f_equal. unfold index. cbn.
    rewrite bool_decide_eq_false_2; [done|]. intros ->. apply Hk. by apply list_elem_of_In.
Qed.

Lemma strict_unique (l l' : list text) :
  ascending l = true -> ascending l' = true -> l ≡ₚ l' -> l = l'.
Proof.
  intros H H' Hp. apply (StronglySorted_unique_strong (fun a b => lex_le b a = false)).
  - intros x y _ _ H1 H2. destruct (lex_le_total x y); congruence.
  - by apply ascending_sorted.
  - by apply ascending_sorted.
  - done.
Qed.

Lemma ascending_NoDup (l : list text) : ascending l = true -> NoDup l.
Proof.
  intros H%ascending_sorted. induction H as [|a l Hl IH Ha]; constructor; [|done].
  intros Hin. rewrite Forall_forall in Ha. specialize (Ha a Hin). destruct (lex_le_total a a); congruence.
Qed.

(** A map with exactly these names is the list of them with their values. *)
Lemma exact_members (m : Map) names :
  ascending (map fst m) = true -> ascending names = true -> has_exactly m names = true ->
  m = map (fun k => (k, index m k)) names.
Proof.
  intros Hm Hn [Hlen%Z.eqb_eq Hall]%andb_prop.
  assert (names = map fst m) as ->; [|by rewrite map_index by (by apply ascending_NoDup)].
  apply strict_unique; [done..|]. apply submseteq_length_Permutation; [|rewrite length_map; lia].
  apply NoDup_submseteq; [by apply ascending_NoDup|]. intros k Hk.
  apply (forallb_elem _ _ _ Hall) in Hk. destruct (get m k) as [v|] eqn:E; [|done].
  apply get_elem in E. by apply (list_elem_of_fmap_2 fst _ (k, v)).
Qed.

Lemma as_str_Some v s : as_str v = Some s <-> v = Str s.
Proof. destruct v; cbn; naive_solver. Qed.
Lemma as_bool_Some v b : as_bool v = Some b <-> v = Bool b.
Proof. destruct v; cbn; naive_solver. Qed.
Lemma as_array_Some v l : as_array v = Some l <-> v = Array l.
Proof. destruct v; cbn; naive_solver. Qed.
Lemma as_object_Some v m : as_object v = Some m <-> v = Object m.
Proof. destruct v; cbn; naive_solver. Qed.
Lemma as_u64_Some v n : as_u64 v = Some n <-> v = Number (PosInt n).
Proof. destruct v as [| |[]| | |]; cbn; naive_solver. Qed.

Lemma is_text_forallb s : forallb scalar s = true <-> is_text s.
Proof.
  unfold is_text. rewrite forallb_forall, Forall_forall. by setoid_rewrite list_elem_of_In.
Qed.

(** The value of a member of a well-formed map. *)
Lemma wf_index (m : Map) k : wf_value (Object m) = true -> wf_value (index m k) = true.
Proof.
  cbn. intros [_ H]%andb_prop. unfold index. destruct (get m k) as [v|] eqn:E; [|done].
  apply get_elem in E. apply (forallb_elem _ _ _ H) in E. by apply andb_prop in E as [_ E].
Qed.

Lemma wf_members (m : Map) : wf_value (Object m) = true -> ascending (map fst m) = true.
Proof. cbn. by intros [H _]%andb_prop. Qed.

Lemma wf_object (m : Map) :
  ascending (map fst m) = true -> forallb (fun kv => forallb scalar kv.1) m = true ->
  Forall (fun kv => wf_value kv.2 = true) m -> wf_value (Object m) = true.
Proof.
  intros H1 H2 H3. cbn. rewrite H1. cbn. clear H1. induction H3 as [|kv m Hkv _ IH]; [done|].
  cbn in *. apply andb_prop in H2 as [-> H2]. rewrite Hkv. by apply IH.
Qed.

Lemma wf_str (s : text) : wf_value (Str s) = true <-> is_text s.
Proof. apply is_text_forallb. Qed.

(** Takes the next check of a reader apart. *)
Ltac step_in H :=
  match type of H with
  | (if negb ?b then Err _ else _) = Ok _ => let E := fresh "E" in destruct b eqn:E; cbn [negb] in H; [|done]
  | (if ?b then Err _ else _) = Ok _ => let E := fresh "E" in destruct b eqn:E; [done|]
  | (let? _ := ok_or ?o _ in _) = Ok _ =>
      let x := fresh "x" in let E := fresh "E" in destruct o as [x|] eqn:E; cbn [ok_or] in H; [|done]
  end.

(** ** ICE servers *)

(** The strings of a server are strings. *)
Definition server_typed (s : IceServer) : Prop :=
  is_text (credential s) /\ is_text (username s) /\ Forall is_text (urls s).

Lemma read_urls_iff values l :
  read_urls values = Ok l <-> values = map Str l /\ forallb valid_ice_url l = true.
Proof.
  revert l. induction values as [|v values IH]; intros l; cbn.
  - split; [by intros [= <-]|]. intros [H _]. by destruct l.
  - split.
    + destruct (as_str v) as [url|] eqn:E; [|done]. apply as_str_Some in E as ->.
      destruct (valid_ice_url url) eqn:Eu; [|done]. destruct (read_urls values) as [l'|]; [|done].
      intros [= <-]. destruct (proj1 (IH l') eq_refl) as [-> Hl]. cbn. by rewrite Eu.
    + destruct l as [|url l]; cbn; [by intros [? _]|]. intros [[= -> ->] [Hu Hl]%andb_prop]. cbn.
      rewrite Hu. by rewrite (proj2 (IH l)).
Qed.

Lemma read_server_inv entry s : wf_value entry = true -> read_server entry = Ok s ->
  entry = to_value s /\ well_formed s = true /\ server_typed s.
Proof.
  unfold read_server. intros Hwf H. destruct (as_object entry) as [m|] eqn:E; [|done].
  apply as_object_Some in E as ->. step_in H.
  pose proof (wf_index m (lit "credential") Hwf) as W1. pose proof (wf_index m (lit "urls") Hwf) as W2.
  pose proof (wf_index m (lit "username") Hwf) as W3.
  apply exact_members in E; [|by apply wf_members|done].
  destruct (as_array _) as [values|] eqn:Eu; [|done]. apply as_array_Some in Eu. step_in H.
  destruct (read_urls values) as [l|] eqn:El; [|done]. apply read_urls_iff in El as [-> Hl].
  destruct (as_str (index m (lit "username"))) as [u|] eqn:Euser; [|done].
  destruct (as_str (index m (lit "credential"))) as [c|] eqn:Ec; [|done].
  apply as_str_Some in Euser, Ec. step_in H. injection H as <-.
  rewrite Eu in W2. rewrite Ec in W1. rewrite Euser in W3.
  split; [|split; [done|]].
  - f_equal. rewrite E. cbn [map]. by rewrite Eu, Ec, Euser.
  - split_and!; [by apply wf_str..|]. cbn in W2. apply Forall_forall. intros url Hu.
    apply wf_str. apply (forallb_elem _ _ _ W2). by apply list_elem_of_fmap_2.
Qed.

Lemma read_server_value s : well_formed s = true -> server_typed s ->
  read_server (to_value s) = Ok s /\ wf_value (to_value s) = true.
Proof.
  intros Hwf (Hc & Hu & Hl). split.
  - unfold read_server. change (as_object (to_value s)) with
      (Some [(lit "credential", Str (credential s)); (lit "urls", Array (map Str (urls s)));
             (lit "username", Str (username s))]). cbn match.
    set (m := [_; _; _]). change (has_exactly m _) with true. cbn [negb].
    change (index m (lit "urls")) with (Array (map Str (urls s))). cbn [as_array].
    change (index m (lit "username")) with (Str (username s)).
    change (index m (lit "credential")) with (Str (credential s)). cbn [as_str].
    pose proof Hwf as [[Hn Hv]%andb_prop _]%andb_prop.
    assert (from_one_to URLS_PER_SERVER (map Str (urls s)) = true) as -> by (unfold from_one_to in *; by rewrite length_map).
    cbn [negb]. rewrite (proj2 (read_urls_iff _ (urls s))) by done.
    destruct s. cbn in *. by rewrite Hwf.
  - apply wf_object; [done..|]. repeat constructor; try (by apply wf_str).
    apply forallb_forall. intros v (url & <- & Hin)%in_map_iff. apply wf_str.
    rewrite Forall_forall in Hl. by apply Hl, list_elem_of_In.
Qed.

Lemma read_servers_inv entries l : forallb wf_value entries = true -> read_servers entries = Ok l ->
  entries = map to_value l /\ forallb well_formed l = true /\ Forall server_typed l.
Proof.
  revert l. induction entries as [|e entries IH]; cbn; intros l; [by intros _ [= <-]|].
  intros [He Hes]%andb_prop. destruct (read_server e) as [s|] eqn:Es; [|done].
  destruct (read_servers entries) as [l'|] eqn:El; [|done]. intros [= <-].
  apply read_server_inv in Es as (-> & H1 & H2); [|done].
  destruct (IH l' Hes eq_refl) as (-> & H3 & H4). cbn. rewrite H1. split_and!; [done..|by constructor].
Qed.

Lemma read_servers_values l : forallb well_formed l = true -> Forall server_typed l ->
  read_servers (map to_value l) = Ok l /\ forallb wf_value (map to_value l) = true.
Proof.
  intros Hw Ht. induction Ht as [|s l Hs _ IH]; [done|]. cbn in Hw. apply andb_prop in Hw as [H1 H2].
  destruct (read_server_value s H1 Hs) as [E1 E2]. destruct (IH H2) as [E3 E4].
  cbn [map read_servers forallb]. by rewrite E1, E2, E3, E4.
Qed.

(** ** Messages *)

(** The field types of the source: strings are text, sizes unsigned. *)
Definition typed (m : Message) : Prop :=
  match m with
  | Invite _ ice _ _ => Forall server_typed ice
  | MManifest m => is_text (m_name m) /\ is_text (m_media_type m) /\ 0 <= m_size m
  | _ => True
  end.

(** The sender's own rule: a hidden address needs a TURN server. *)
Definition sendable (m : Message) : bool :=
  match m with Invite hide ice _ _ => negb hide || existsb has_turn ice | _ => true end.

(** What this reader takes now: the event is due, the servers are on its
    list, the name is what it looks like and the file is not too large. *)
Definition admits (cx : ReadContext) (m : Message) : bool :=
  in_list (allowed_events (cx_from cx) (cx_index cx)) (event m) &&
  match m with
  | Invite _ ice _ _ => forallb (in_list (ice_allowlist cx)) (concat (map urls ice))
  | MManifest m =>
      negb (existsb is_disguising (m_name m)) &&
      match cx_max cx with Some max => m_size m <=? max | None => true end
  | _ => true
  end.

(** Base64url text is ASCII. *)
Class Base64Ascii (B : Base64) :=
  b64_ascii : forall l, Forall (fun b => b2z b < 128) (b64_encode l).

Lemma utf8_ascii_inv s : Forall (fun b => 0 <= b < 128) (utf8 s) -> Forall (fun c => 0 <= c < 128) s.
Proof.
  induction s as [|c s IH]; [constructor|]. cbn. intros [Hc Hs]%Forall_app. constructor; [|by apply IH].
  unfold utf8_char in Hc. destruct (Z.ltb_spec c 0x80); [by apply Forall_inv in Hc|].
  destruct (Z.ltb_spec c 0x800); [|destruct (Z.ltb_spec c 0x10000)]; apply Forall_inv in Hc;
    Z.to_euclidean_division_equations; lia.
Qed.

Lemma id_is_text id : canonical_id id = true -> is_text id.
Proof.
  intros [[_ H]%andb_prop _]%andb_prop. apply ascii_is_text, utf8_ascii_inv, Forall_forall.
  intros b Hb. apply (forallb_elem _ _ _ H) in Hb. unfold base64url, between in Hb. lia.
Qed.

Lemma sdp_is_text sdp : check_sdp sdp = Ok tt -> is_text sdp.
Proof.
  unfold check_sdp. intros H. step_in H. step_in H. clear H.
  apply ascii_is_text, utf8_ascii_inv, Forall_forall.
  intros b Hb. apply (forallb_elem _ _ _ E0) in Hb. unfold between in Hb. lia.
Qed.

Lemma get_index (m : Map) k v : get m k = Some v -> index m k = v.
Proof. unfold index. by intros ->. Qed.

(** Every member of a written object is written. *)
Lemma canonical_member (m : Map) k v : canonical (Object m) <> None ->
  index m k = v -> v <> Null -> write_value v <> None.
Proof.
  intros Hc Hi Hn Hw. unfold index in Hi. destruct (get m k) as [v'|] eqn:E; cbn in Hi; [|done]. subst v'.
  apply get_elem in E. apply Hc. cbn.
  destruct (all_some _) as [ws|] eqn:Ea; [|done]. apply all_some_Forall2 in Ea.
  apply list_elem_of_lookup in E as [i Hi]. destruct (Forall2_lookup_l _ _ _ _ _ Ea Hi) as (w & _ & Hw').
  cbn in Hw'. by rewrite Hw in Hw'.
Qed.

(** ** What is written is text *)

Lemma is_text_app a b : is_text (a ++ b) <-> is_text a /\ is_text b.
Proof. apply Forall_app. Qed.

Lemma escape_is_text c : scalar c = true -> is_text (escape c).
Proof.
  intros Hc. unfold escape. do 7 (destruct (c =? _); [repeat constructor|]).
  destruct (between 0 c 0x1f) eqn:E; [|by repeat constructor].
  apply andb_prop in E as [?%Z.leb_le ?%Z.leb_le].
  assert (forall d, 0 <= d < 16 -> scalar (hex_digit d) = true) as Hh.
  { intros d Hd. unfold hex_digit. destruct (Z.ltb_spec d 10); unfold scalar; arith. }
  repeat constructor; apply Hh; Z.to_euclidean_division_equations; lia.
Qed.

Lemma write_string_is_text s : is_text s -> is_text (write_string s).
Proof.
  intros Hs. constructor; [done|]. induction Hs as [|c s Hc _ IH]; [by repeat constructor|].
  apply is_text_app. split; [by apply escape_is_text|done].
Qed.

Lemma separated_is_text (ws : list text) : Forall is_text ws -> is_text (separated ws).
Proof.
  induction 1 as [|w ws Hw Hws IH]; [constructor|]. destruct ws as [|w' ws]; [done|].
  change (separated (w :: w' :: ws)) with (w ++ 44 :: separated (w' :: ws)).
  apply is_text_app. split; [done|]. by constructor.
Qed.

Lemma digits_are_text s : Forall (fun c => is_digit c = true) s -> is_text s.
Proof. intros H. eapply Forall_impl; [exact H|]. intros c Hc. unfold is_digit, scalar in *. arith. Qed.

Lemma canonical_is_text v : forall t, wf_value v = true -> write_value v = Some t -> is_text t.
Proof.
  induction v as [|b|n|s|items IH|ms IH] using Value_induction; intros t Hwf Hw; cbn in Hw; try done.
  - injection Hw as <-. apply is_text_forallb. by destruct b.
  - destruct n as [n| |]; try done. cbn in Hw, Hwf. destruct (_ <=? _); [|done]. injection Hw as <-.
    destruct (u64_to_string_ok n Hwf) as (c & t & -> & Hd & _). by apply digits_are_text.
  - injection Hw as <-. by apply write_string_is_text, wf_str.
  - destruct (all_some _) as [ws|] eqn:Hws; [|done]. injection Hw as <-. apply all_some_Forall2 in Hws.
    constructor; [done|]. apply is_text_app. split; [|by repeat constructor].
    apply separated_is_text, Forall_lookup. intros i w Hi.
    destruct (Forall2_lookup_r _ _ _ _ _ Hws Hi) as (v & Hv & Ev). rewrite Forall_lookup in IH.
    apply (IH i v Hv); [|done]. apply (forallb_elem _ _ _ Hwf). by eapply list_elem_of_lookup_2.
  - destruct (all_some _) as [ws|] eqn:Hws; [|done]. injection Hw as <-. apply all_some_Forall2 in Hws.
    cbn in Hwf. apply andb_prop in Hwf as [_ Hwf].
    constructor; [done|]. apply is_text_app. split; [|by repeat constructor].
    apply separated_is_text, Forall_forall. intros w (kw & -> & Hkw)%list_elem_of_fmap.
    rewrite merge_sort_Permutation in Hkw. apply list_elem_of_lookup in Hkw as [i Hi].
    destruct (Forall2_lookup_r _ _ _ _ _ Hws Hi) as ([k v] & Hv & Ev). cbn in Ev.
    destruct (write_value v) as [w'|] eqn:Ew; [|done]. cbn in Ev. injection Ev as <-.
    assert ((k, v) ∈ ms) as Hin by (by eapply list_elem_of_lookup_2).
    pose proof (forallb_elem _ _ _ Hwf Hin) as [Hk Hv']%andb_prop. cbn in Hk, Hv'.
    apply is_text_app. split; [by apply write_string_is_text, is_text_forallb|].
    constructor; [done|]. rewrite Forall_forall in IH. by apply (IH (k, v) Hin).
Qed.

#[local] Arguments lit : simpl never.

Section Read.
Context `{U : Unicode, B : Base64, R : JsonReader} {BL : Base64Laws B} {BA : Base64Ascii B}.

Lemma wbk1_ascii key : Forall (fun c => 0 <= c < 128) (wbk1_text key).
Proof.
  unfold wbk1_text, to_wbk1. rewrite map_app. apply Forall_app. split; [repeat constructor; done|].
  apply Forall_forall. intros c (b & -> & Hb)%list_elem_of_fmap. pose proof (b2z_range b).
  pose proof (b64_ascii (expose key)) as Ha. rewrite Forall_forall in Ha. specialize (Ha b Hb). lia.
Qed.

Lemma wbk1_bytes key : text_bytes (wbk1_text key) = to_wbk1 key.
Proof. unfold text_bytes. rewrite utf8_ascii by apply wbk1_ascii. apply map_z2b_b2z. Qed.

(** The text that parses to a key is the key's text. *)
Lemma wbk1_text_inv t key : is_text t -> parse_wbk1 (text_bytes t) = Ok key -> t = wbk1_text key.
Proof.
  intros Ht Hp. apply (wbk1_round_trip key) in Hp.
  assert (text_of_bytes (text_bytes t) = Some t) as H1 by (by apply utf8_iff).
  assert (text_of_bytes (text_bytes (wbk1_text key)) = Some (wbk1_text key)) as H2.
  { apply utf8_iff. split; [apply ascii_is_text, wbk1_ascii|done]. }
  rewrite wbk1_bytes, <- Hp, H1 in H2. congruence.
Qed.

Lemma read_ice_iff value allowlist ice : wf_value value = true ->
  read_ice value allowlist = Ok ice ->
  value = Array (map to_value ice) /\ from_one_to ICE_SERVERS ice = true /\
  forallb well_formed ice = true /\ Forall server_typed ice /\
  forallb (in_list allowlist) (concat (map urls ice)) = true.
Proof.
  unfold read_ice. intros Hwf H. destruct (as_array value) as [entries|] eqn:E; [|done].
  apply as_array_Some in E as ->. step_in H. destruct (read_servers entries) as [l|] eqn:El; [|done].
  step_in H. injection H as <-. apply read_servers_inv in El as (-> & H1 & H2); [|done].
  split_and!; try done.
  - unfold from_one_to in *. by rewrite length_map in E.
  - apply forallb_forall. intros url Hin. apply not_false_iff_true. intros Hu.
    apply not_true_iff_false in E0. apply E0, existsb_exists. exists url. by rewrite Hu.
Qed.

(** The reader of an event found the members the sender would write. *)
Definition reads_back (e : text) (body : Map) (cx : ReadContext) (m : Message) : Prop :=
  event m = e /\ typed m /\ (sendable m = true -> members m = Ok body) /\
  (in_list (allowed_events (cx_from cx) (cx_index cx)) e = true -> admits cx m = true).

Section Body.
Context (body : Map) (cx : ReadContext) (e : text).
Hypothesis Hwf : wf_value (Object body) = true.
Hypothesis Hv : index body (lit "v") = Number (PosInt 1).
Hypothesis He : index body (lit "event") = Str e.

Lemma body_is names : has_exactly body names = true -> ascending names = true ->
  map (fun k => (k, index body k)) names = body.
Proof. intros. symmetry. apply exact_members; [by apply wf_members|done..]. Qed.

Lemma str_is_text k s : index body k = Str s -> is_text s.
Proof. intros H. apply wf_str. rewrite <- H. by apply wf_index. Qed.

Lemma read_invite_back m : e = lit "invite" -> read_invite body cx = Ok m -> reads_back e body cx m.
Proof.
  intros Ee H. unfold read_invite in H. step_in H. step_in H. step_in H. step_in H. step_in H.
  destruct (read_ice _ _) as [ice|] eqn:Ei; [|done]. step_in H. step_in H. injection H as <-.
  apply read_ice_iff in Ei as (Vi & H1 & H2 & H3 & H4); [|by apply wf_index].
  destruct (as_str (index body (lit "dir"))) as [dir|] eqn:V1; [|done]. apply as_str_Some in V1.
  cbn [mbind option_bind] in E0. destruct (in_list _ dir) eqn:Ed; [|done]. injection E0 as <-.
  assert (dir = lit "to-drop") as ->.
  { apply bool_decide_eq_true in Ed. rewrite !elem_of_cons in Ed. apply bool_decide_eq_false in E4. 
    destruct Ed as [|[|Ed]]; [done|done|by apply elem_of_nil in Ed]. }
  apply as_bool_Some in E1.
  destruct (as_str (index body (lit "id"))) as [id|] eqn:V3; [|done]. apply as_str_Some in V3.
  cbn [mbind option_bind] in E2. destruct (canonical_id id) eqn:Eid; [|done]. injection E2 as <-.
  destruct (as_u64 (index body (lit "max"))) as [max|] eqn:V4; [|done]. apply as_u64_Some in V4.
  cbn [mbind option_bind] in E3. destruct (1 <=? max) eqn:Em; [|done]. injection E3 as <-.
  split_and!; [done|done| |].
  - intros Hs. cbn in Hs. unfold members. rewrite H1, H2, Hs, Eid.
    replace (between 1 max MAX_FILE_BYTES) with true by (unfold between; lia). cbn [negb andb orb].
    f_equal. etrans; [|apply (body_is _ E); reflexivity]. cbn [map].
    by rewrite V1, He, Ee, E1, Vi, V3, V4, Hv.
  - intros Ha. rewrite Ee in Ha. unfold admits.
    change (event (Invite x0 ice id max)) with (lit "invite"). by rewrite Ha, H4.
Qed.

Lemma read_manifest_back m : canonical (Object body) <> None -> e = lit "manifest" ->
  read_manifest body cx = Ok m -> reads_back e body cx m.
Proof.
  intros Hc Ee H. unfold read_manifest in H. step_in H. step_in H.
  destruct (existsb is_disguising _) eqn:Edis; [done|]. step_in H. step_in H.
  destruct (match cx_max cx with Some _ => _ | None => _ end) eqn:Emax; [done|]. injection H as <-.
  destruct (as_str (index body (lit "name"))) as [name|] eqn:V1; [|done]. apply as_str_Some in V1.
  cbn [mbind option_bind] in E0. destruct (valid_name name) eqn:En; [|done]. injection E0 as <-.
  destruct (as_str (index body (lit "type"))) as [mt|] eqn:V2; [|done]. apply as_str_Some in V2.
  cbn [mbind option_bind] in E1. destruct (valid_media_type mt) eqn:Et; [|done]. injection E1 as <-.
  apply as_u64_Some in E2.
  assert (is_u64 x1 = true) as Hu.
  { change (wf_value (Number (PosInt x1)) = true). rewrite <- E2. by apply wf_index. }
  split_and!; [done| | |].
  - cbn. split_and!; [by eapply str_is_text..|unfold is_u64 in Hu; lia].
  - intros _. unfold members. cbn [m_name m_size m_media_type]. rewrite En, Et.
    destruct (Z.ltb_spec MAX_SAFE_INTEGER x1) as [Hbig|].
    { exfalso. apply (canonical_member body (lit "size") _ Hc E2); [done|]. cbn.
      by rewrite (proj2 (Z.leb_gt x1 MAX_SAFE_INTEGER)). }
    cbn [negb orb]. f_equal. etrans; [|apply (body_is _ E); reflexivity]. cbn [map].
    by rewrite V1, He, Ee, V2, E2, Hv.
  - intros Ha. rewrite Ee in Ha. unfold admits. change (event (MManifest _)) with (lit "manifest").
    rewrite Ha. cbn [m_name m_size]. rewrite Edis. cbn.
    destruct (cx_max cx); [lia|done].
Qed.

Lemma read_sdp_back names sdp : read_sdp body names = Ok sdp ->
  has_exactly body names = true /\ index body (lit "sdp") = Str sdp /\ check_sdp sdp = Ok tt.
Proof.
  unfold read_sdp. intros H. step_in H. step_in H. apply as_str_Some in E0.
  destruct (check_sdp x) as [[]|] eqn:Ec; [|done]. cbn in H. by injection H as <-.
Qed.

Lemma read_event_back m : canonical (Object body) <> None ->
  read_event e body cx = Ok m -> reads_back e body cx m.
Proof.
  unfold read_event. intros Hc H.
  assert (forall m, admits cx m = in_list (allowed_events (cx_from cx) (cx_index cx)) (event m) ->
    event m = e -> typed m -> members m = Ok body -> reads_back e body cx m) as Hsimple.
  { intros m' Ha He' Ht Hm. split_and!; try done. intros Hin. by rewrite Ha, He'. }
  case_bool_decide as E1; [by apply read_invite_back|].
  case_bool_decide as E2; [by apply read_manifest_back|].
  do 3 (case_bool_decide as Es;
    [destruct (read_sdp _ _) as [sdp|] eqn:Er; [|done]; injection H as <-;
     apply read_sdp_back in Er as (Hex & Vs & Hsdp); apply Hsimple; [apply andb_true_r|done|done|];
     unfold members; rewrite Hsdp; f_equal; etrans; [|apply (body_is _ Hex); reflexivity]; cbn [map];
     by rewrite He, Es, Vs, Hv|]; clear Es).
  case_bool_decide as E3.
  { destruct (has_exactly _ _) eqn:Hex; [|done]. injection H as <-.
    apply Hsimple; [apply andb_true_r|done|done|]. unfold members. f_equal.
    etrans; [|apply (body_is _ Hex); reflexivity]. cbn [map]. by rewrite He, E3, Hv. }
  case_bool_decide as E4.
  { unfold read_answer in H. step_in H. step_in H.
    destruct (as_str (index body (lit "key"))) as [k|] eqn:Vk; [|done]. apply as_str_Some in Vk.
    cbn [mbind option_bind] in E0. destruct (parse_wbk1 _) as [key|] eqn:Ep; [|done]. injection E0 as <-.
    destruct (read_sdp _ _) as [sdp|] eqn:Er; [|done]. injection H as <-.
    apply read_sdp_back in Er as (_ & Vs & Hsdp).
    apply wbk1_text_inv in Ep; [|by eapply str_is_text].
    apply Hsimple; [apply andb_true_r|done|done|]. unfold members. rewrite Hsdp. f_equal.
    etrans; [|apply (body_is _ E); reflexivity]. cbn [map]. by rewrite He, E4, Vk, Ep, Vs, Hv. }
  case_bool_decide as E5; [|done].
  unfold read_stop in H. step_in H. step_in H. injection H as <-.
  destruct (as_str (index body (lit "reason"))) as [t|] eqn:Vr; [|done]. apply as_str_Some in Vr.
  cbn [mbind option_bind] in E0.
  assert (t = stop_text x) as Et.
  { unfold stop_parse in E0. repeat (case_bool_decide; [by simplify_eq|]). done. }
  apply Hsimple; [apply andb_true_r|done|done|]. unfold members. f_equal.
  etrans; [|apply (body_is _ E); reflexivity]. cbn [map]. by rewrite He, E5, Vr, Et, Hv.
Qed.
End Body.

(** What [members] builds, name by name. *)
Definition member_list (m : Message) : Map :=
  let ev := (lit "event", Str (event m)) in
  let v := (lit "v", Number (PosInt 1)) in
  match m with
  | Invite hide ice id max =>
      [(lit "dir", Str (lit "to-drop")); ev; (lit "hide", Bool hide);
       (lit "ice", Array (map to_value ice)); (lit "id", Str id); (lit "max", Number (PosInt max)); v]
  | MManifest m =>
      [ev; (lit "name", Str (m_name m)); (lit "size", Number (PosInt (m_size m)));
       (lit "type", Str (m_media_type m)); v]
  | Accept sdp | Restart sdp | RestartAnswer sdp => [ev; (lit "sdp", Str sdp); v]
  | Answer key sdp => [ev; (lit "key", Str (wbk1_text key)); (lit "sdp", Str sdp); v]
  | Decline => [ev; v]
  | MStop reason => [ev; (lit "reason", Str (stop_text reason)); v]
  end.

(** The rules the sender checks. *)
Definition sender_rules (m : Message) : Prop :=
  match m with
  | Invite hide ice id max =>
      from_one_to ICE_SERVERS ice = true /\ forallb well_formed ice = true /\
      negb hide || existsb has_turn ice = true /\ canonical_id id = true /\
      1 <= max <= MAX_FILE_BYTES
  | MManifest m =>
      valid_name (m_name m) = true /\ valid_media_type (m_media_type m) = true /\
      m_size m <= MAX_SAFE_INTEGER
  | Accept sdp | Restart sdp | RestartAnswer sdp | Answer _ sdp => check_sdp sdp = Ok tt
  | Decline | MStop _ => True
  end.

Lemma members_inv m body : members m = Ok body -> sender_rules m /\ body = member_list m.
Proof.
  intros H. destruct m; cbn [members sender_rules] in *; unfold members in H.
  - destruct (_ || _) eqn:E in H; [done|].
    apply orb_false_elim in E as [[Ei Eid]%orb_false_elim Em].
    apply negb_false_iff in Ei, Eid, Em. apply andb_prop in Ei as [[H1 H2]%andb_prop H3].
    injection H as <-. split; [|done]. split_and!; try done; unfold between in Em; lia.
  - destruct (_ || _) eqn:E in H; [done|].
    apply orb_false_elim in E as [[E1 E2]%orb_false_elim E3].
    apply negb_false_iff in E1, E2. injection H as <-. split; [|done]. split_and!; try done; lia.
  - destruct (check_sdp sdp) as [[]|]; [|done]. by injection H as <-.
  - by injection H as <-.
  - destruct (check_sdp sdp) as [[]|]; [|done]. by injection H as <-.
  - destruct (check_sdp sdp) as [[]|]; [|done]. by injection H as <-.
  - destruct (check_sdp sdp) as [[]|]; [|done]. by injection H as <-.
  - by injection H as <-.
Qed.

Lemma event_is_text m : is_text (event m).
Proof. apply is_text_forallb. by destruct m. Qed.

Lemma member_list_wf m : sender_rules m -> typed m -> wf_value (Object (member_list m)) = true.
Proof.
  intros Hr Ht. pose proof (event_is_text m) as He.
  assert (is_u64 1 = true) as H1 by done.
  destruct m; (apply wf_object; [done..|]); cbn [sender_rules typed member_list] in *;
    repeat (constructor; cbn [fst snd]); try (by apply wf_str); try done.
  - cbn. apply (read_servers_values ice); [apply Hr|done].
  - apply wf_str, id_is_text, Hr.
  - cbn. unfold is_u64, U64_MAX, MAX_FILE_BYTES in *. lia.
  - apply wf_str, Ht.
  - cbn. unfold is_u64, U64_MAX, MAX_SAFE_INTEGER in *. lia.
  - apply wf_str, Ht.
  - by apply wf_str, sdp_is_text.
  - by apply wf_str, ascii_is_text, wbk1_ascii.
  - by apply wf_str, sdp_is_text.
  - by apply wf_str, sdp_is_text.
  - by apply wf_str, sdp_is_text.
  - apply wf_str, is_text_forallb. by destruct reason.
Qed.

Lemma depth_bound {A} (f : A -> nat) l n : Forall (fun a => (f a <= n)%nat) l ->
  (foldr Nat.max O (map f l) <= n)%nat.
Proof. induction 1; cbn; lia. Qed.

Lemma member_list_depth m : (depth (Object (member_list m)) < 128)%nat.
Proof.
  assert (forall ice, depth (Array (map to_value ice)) <= 4)%nat as Hice.
  { intros ice. cbn [depth]. apply le_n_S, depth_bound, Forall_forall.
    intros v (s & -> & _)%list_elem_of_fmap. cbn [depth to_value].
    apply le_n_S. change (insert_member _ _ _) with
      [(lit "credential", Str (credential s)); (lit "urls", Array (map Str (urls s)));
       (lit "username", Str (username s))].
    apply depth_bound. repeat (apply Forall_cons_2; [cbn [snd]; try (cbn; lia)|]); [|constructor]. cbn [depth].
    apply le_n_S, depth_bound, Forall_forall. intros v (u & -> & _)%list_elem_of_fmap. cbn. lia. }
  cbn [depth]. apply (Nat.le_lt_trans _ 5); [|lia]. apply le_n_S, depth_bound.
  destruct m; repeat (apply Forall_cons_2; [cbn [snd]; try (cbn; lia)|]); try apply Forall_nil_2. apply Hice.
Qed.

Lemma read_servers_array ice allowlist :
  from_one_to ICE_SERVERS ice = true -> forallb well_formed ice = true -> Forall server_typed ice ->
  forallb (in_list allowlist) (concat (map urls ice)) = true ->
  read_ice (Array (map to_value ice)) allowlist = Ok ice.
Proof.
  intros H1 H2 H3 H4. unfold read_ice. cbn [as_array].
  assert (from_one_to ICE_SERVERS (map to_value ice) = true) as -> by (unfold from_one_to in *; by rewrite length_map).
  cbn [negb]. rewrite (proj1 (read_servers_values ice H2 H3)).
  destruct (existsb _ _) eqn:E; [|done]. exfalso. apply existsb_exists in E as (url & Hin & Hu).
  rewrite forallb_forall in H4. by rewrite (H4 url Hin) in Hu.
Qed.

Lemma read_sdp_members names body sdp : has_exactly body names = true ->
  index body (lit "sdp") = Str sdp -> check_sdp sdp = Ok tt -> read_sdp body names = Ok sdp.
Proof. intros H1 H2 H3. unfold read_sdp. rewrite H1, H2. cbn. by rewrite H3. Qed.

Lemma read_invite_members hide ice id max cx :
  sender_rules (Invite hide ice id max) -> Forall server_typed ice ->
  forallb (in_list (ice_allowlist cx)) (concat (map urls ice)) = true ->
  read_invite (member_list (Invite hide ice id max)) cx = Ok (Invite hide ice id max).
Proof.
  intros Hr Ht Ha.
  destruct Hr as (H1 & H2 & H3 & H4 & H5).
  unfold read_invite. set (body := member_list _). change (has_exactly body _) with true. cbn [negb].
  change (index body (lit "dir")) with (Str (lit "to-drop")).
  change (index body (lit "hide")) with (Bool hide). change (index body (lit "id")) with (Str id).
  change (index body (lit "max")) with (Number (PosInt max)).
  change (index body (lit "ice")) with (Array (map to_value ice)).
  cbn [as_str as_bool as_u64 num_u64 mbind option_bind ok_or]. rewrite H4. cbn [ok_or].
  rewrite (proj2 (Z.leb_le 1 max)) by lia. cbn [ok_or]. rewrite read_servers_array by done.
  change (in_list _ (lit "to-drop")) with true. cbn [ok_or].
  change (bool_decide (lit "to-drop" = _)) with false.
  by rewrite (proj2 (Z.ltb_ge MAX_FILE_BYTES max)) by lia.
Qed.

Lemma read_manifest_members m cx :
  sender_rules (MManifest m) -> negb (existsb is_disguising (m_name m)) = true ->
  match cx_max cx with Some max => m_size m <=? max | None => true end = true ->
  read_manifest (member_list (MManifest m)) cx = Ok (MManifest m).
Proof.
  intros Hr Hd Hm.
  destruct Hr as (H1 & H2 & H3). destruct m as [name size mt]. cbn [m_name m_size m_media_type] in *.
  unfold read_manifest. set (body := member_list _). change (has_exactly body _) with true. cbn [negb].
  change (index body (lit "name")) with (Str name). change (index body (lit "type")) with (Str mt).
  change (index body (lit "size")) with (Number (PosInt size)).
  cbn [as_str as_u64 num_u64 mbind option_bind]. rewrite H1, H2. cbn [ok_or].
  apply negb_true_iff in Hd. rewrite Hd. destruct (cx_max cx); [|done].
  by rewrite (proj2 (Z.ltb_ge _ _)) by lia.
Qed.

Lemma read_event_members m cx : sender_rules m -> typed m -> admits cx m = true ->
  read_event (event m) (member_list m) cx = Ok m.
Proof.
  intros Hr Ht [_ Ha]%andb_prop. destruct m; cbn [sender_rules typed] in *.
  - by apply read_invite_members.
  - apply andb_prop in Ha as [Hd Hm]. by apply read_manifest_members.
  - change (read_event _ _ _) with
      (let? sdp' := read_sdp (member_list (Accept sdp)) [lit "event"; lit "sdp"; lit "v"] in
       Ok (Accept sdp') : result Refusal Message).
    by rewrite (read_sdp_members _ _ sdp).
  - done.
  - change (read_event _ _ _) with (read_answer (member_list (Answer key sdp))).
    unfold read_answer. set (body := member_list _). change (has_exactly body _) with true. cbn [negb].
    change (index body (lit "key")) with (Str (wbk1_text key)). cbn [as_str mbind option_bind].
    rewrite wbk1_bytes, (proj1 (wbk1_round_trip key [])). cbn [ok_or].
    by rewrite (read_sdp_members _ _ sdp).
  - change (read_event _ _ _) with
      (let? sdp' := read_sdp (member_list (Restart sdp)) [lit "event"; lit "sdp"; lit "v"] in
       Ok (Restart sdp') : result Refusal Message).
    by rewrite (read_sdp_members _ _ sdp).
  - change (read_event _ _ _) with
      (let? sdp' := read_sdp (member_list (RestartAnswer sdp)) [lit "event"; lit "sdp"; lit "v"] in
       Ok (RestartAnswer sdp') : result Refusal Message).
    by rewrite (read_sdp_members _ _ sdp).
  - by destruct reason.
Qed.

(** ** Encoding and decoding *)

Context {RL : JsonReaderLaws R}.

Lemma blen_text_bytes t : blen (text_bytes t) = str_len t.
Proof. unfold blen, str_len, text_bytes. by rewrite length_map. Qed.

Lemma member_list_get m :
  get (member_list m) (lit "v") = Some (Number (PosInt 1)) /\
  get (member_list m) (lit "event") = Some (Str (event m)).
Proof. by destruct m. Qed.

(** A reader reads what a sender wrote. *)
Lemma decode_encode_message m b cx : typed m -> encode m = Ok b -> admits cx m = true ->
  decode b cx = Ok m.
Proof.
  unfold encode. intros Ht He Ha. destruct (members m) as [body|] eqn:Em; [|done].
  apply members_inv in Em as [Hr ->].
  destruct (canonical _) as [t|] eqn:Ec; [|done]. cbn [ok_or] in He.
  destruct (Z.ltb_spec MESSAGE_BYTES (str_len t)); [done|]. injection He as <-.
  pose proof (member_list_wf m Hr Ht) as Hwf.
  unfold decode. rewrite blen_text_bytes, (proj2 (Z.ltb_ge MESSAGE_BYTES (str_len t))) by done.
  rewrite (proj2 (utf8_iff _ t)) by (split; [by eapply canonical_is_text|done]). cbn [ok_or].
  rewrite (from_str_canonical _ t Hwf (member_list_depth m) Ec). cbn [ok_or]. rewrite Ec. cbn [ok_or].
  rewrite bool_decide_eq_true_2 by done. cbn [negb].
  destruct (member_list_get m) as [-> ->]. cbn [num_u64].
  rewrite bool_decide_eq_true_2 by done. cbn [mbind option_bind as_str].
  pose proof Ha as [-> _]%andb_prop. cbn [ok_or]. by apply read_event_members.
Qed.

(** What a reader accepts is what a sender writes. *)
Lemma encode_decode_message m b cx : sendable m = true -> decode b cx = Ok m ->
  typed m /\ encode m = Ok b /\ admits cx m = true.
Proof.
  intros Hs H. unfold decode in H. step_in H. step_in H. step_in H.
  destruct x0 as [| | | | |body]; try done.
  apply utf8_iff in E0 as [Ht ->]. rewrite blen_text_bytes in E. pose proof (from_str_wf _ _ Ht E1) as Hwf.
  step_in H. step_in H. apply bool_decide_eq_true in E2. subst x0.
  destruct (get body (lit "v")) as [[| |version| | |]|] eqn:Ev; try done.
  case_bool_decide as E3; [|done]. destruct version; try done. injection E3 as ->. step_in H.
  destruct (get body (lit "event")) as [v|] eqn:Ee; [|done]. cbn [mbind option_bind] in E2.
  destruct (as_str v) as [e|] eqn:Es; [|done]. apply as_str_Some in Es as ->.
  cbn [mbind option_bind] in E2. destruct (in_list _ e) eqn:Ea; [|done]. injection E2 as <-.
  assert (canonical (Object body) = Some x) as Hc by done.
  apply read_event_back in H as (H1 & H2 & H3 & H4); [|done|by apply get_index|by apply get_index|by rewrite Hc].
  split_and!; [done| |by apply H4]. unfold encode. rewrite H3 by done. rewrite Hc. cbn [ok_or].
  by rewrite E.
Qed.
End Read.
