(* ===== verification/DirectPath.v ===== *)
(** * Names every system can write

    Models [desktop/src-tauri/src/drop/path.rs]: the grammar of relative
    paths, the clash key, and the names legacy files and conflict losers take,
    with the calendar date of [drop/status.rs].  [computer_origin]'s loop
    depends on how normalisation lengthens text and is not modelled. *)
From S2P Require Import Prelude EnvelopeFormat EnvelopeName Envelope DirectText.

Definition MAX_COMPONENTS : Z := 17.
Definition MAX_PATH_UTF16 : Z := 220.
Definition MAX_COMPONENT_UTF16 : Z := 180.
Definition UNKNOWN_COMPUTER : text := lit "another computer".

(** [truncate_utf16]; [units] counts what has been passed. *)
Fixpoint truncate_from (units : Z) (s : text) (max : Z) : text :=
  match s with
  | [] => []
  | c :: t =>
      let units := units + len_utf16 c in
      if max <? units then [] else c :: truncate_from units t max
  end.

Definition truncate_path (s : text) (max : Z) : text := truncate_from 0 s max.

(** [str::split(c)]. *)
Fixpoint split_on (sep : rchar) (s : text) : list text :=
  match s with
  | [] => [[]]
  | c :: t =>
      if c =? sep then [] :: split_on sep t
      else match split_on sep t with p :: ps => (c :: p) :: ps | [] => [[c]] end
  end.

(** [parts.join(sep)]. *)
Fixpoint join_with (sep : rchar) (l : list text) : text :=
  match l with [] => [] | [x] => x | x :: l => x ++ sep :: join_with sep l end.

Definition ends_in (c : rchar) (s : text) : bool := bool_decide (last s = Some c).

Definition ascii_upper (c : rchar) : rchar := if between 97 c 122 then c - 32 else c.

Definition reserved_device_name (component : text) : bool :=
  let base := default [] (head (split_on 46 component)) in
  let upper := map ascii_upper base in
  bool_decide (upper ∈ [lit "CON"; lit "PRN"; lit "AUX"; lit "NUL"]) ||
  existsb (fun prefix =>
    match cut_prefix prefix upper with
    | Some [c] => between 48 c 57 || (c =? 0xB9) || (c =? 0xB2) || (c =? 0xB3)
    | _ => false
    end) [lit "COM"; lit "LPT"].

(** [rfind('.')] at a position above 0: the stem and the extension. *)
Definition stem_ext (s : text) : text * text :=
  let parts := split_on 46 s in
  match reverse parts with
  | x :: (_ :: _) as front =>
      let stem := join_with 46 (reverse front) in
      if bool_decide (stem = []) then (s, []) else (stem, 46 :: x)
  | _ => (s, [])
  end.

Section Path.
Context `{U : Unicode}.

Definition valid_component (component : text) : bool :=
  negb (bool_decide (component = [])) &&
  bool_decide (sanitise_name component = component) &&
  negb (bool_decide (component = lit ".")) && negb (bool_decide (component = lit "..")) &&
  negb (ends_in 46 component) && negb (ends_in 32 component) &&
  negb (reserved_device_name component).

Definition valid_path (path : text) : bool :=
  let count := Z.of_nat (length (split_on 47 path)) in
  between 1 count MAX_COMPONENTS && (utf16_count path <=? MAX_PATH_UTF16) &&
  forallb valid_component (split_on 47 path).

Definition fold (path : text) : text :=
  join_with 47 (map (fun c => to_lowercase (nfc c)) (split_on 47 path)).

(** [out.insert(at, '_')] before the first dot, or at the end. *)
Fixpoint insert_before_dot (s : text) : text :=
  match s with
  | [] => [95]
  | c :: t => if c =? 46 then 95 :: s else c :: insert_before_dot t
  end.

Definition safe_component (component : text) : text :=
  if valid_component component then component
  else
    let out := sanitise_name (truncate_path component (MAX_COMPONENT_UTF16 - 2)) in
    let out := if reserved_device_name out then insert_before_dot out else out in
    let out := if ends_in 46 out || ends_in 32 out then out ++ [95] else out in
    if valid_component out then out else lit "_".

(** [status::ymd]: the civil date of a Unix time, for times an [i64] of days
    holds. *)
Definition ymd (unix : Z) : Z * Z * Z :=
  let days := unix / 86400 in
  let z := days + 719468 in
  let era := z / 146097 in
  let doe := z mod 146097 in
  let yoe := (doe - doe / 1460 + doe / 36524 - doe / 146096) / 365 in
  let doy := doe - (365 * yoe + yoe / 4 - yoe / 100) in
  let mp := (5 * doy + 2) / 153 in
  let day := doy - (153 * mp + 2) / 5 + 1 in
  let month := if mp <? 10 then mp + 3 else mp - 9 in
  let year := yoe + era * 400 + (if month <=? 2 then 1 else 0) in
  (year, month, day).

(** [{:0width$}] of a number that is not negative. *)
Definition padded (width : nat) (n : Z) : text :=
  let s := u64_to_string n in replicate (width - length s) 48 ++ s.

Definition utc_date (unix : Z) : text :=
  let '(year, month, day) := ymd unix in
  padded 4 year ++ 45 :: padded 2 month ++ 45 :: padded 2 day.

(** [char::is_control]: the general category Cc. *)
Definition is_control_char (c : rchar) : bool := between 0 c 0x1f || between 0x7f c 0x9f.

Definition computer_label (from : text) : text :=
  match from with
  | [] => UNKNOWN_COMPUTER
  | _ => map (fun c => if is_control_char c || is_separator c || is_reserved c then 95 else c) from
  end.

Definition conflict_name (component from : text) (added n : Z) : text :=
  let number := if 2 <=? n then 32 :: u64_to_string n else [] in
  let suffix := lit " (conflict from " ++ computer_label from ++ 32 :: utc_date added ++ number ++ [41] in
  let '(stem, ext) := stem_ext component in
  let '(stem, ext) :=
    if MAX_COMPONENT_UTF16 <=? utf16_count suffix + utf16_count ext then (component, []) else (stem, ext) in
  let room := saturating_sub MAX_COMPONENT_UTF16 (utf16_count suffix + utf16_count ext) in
  safe_component (truncate_path stem room ++ suffix ++ ext).
End Path.

Example path_examples :
  stem_ext (lit "a.tar.gz") = (lit "a.tar", lit ".gz") /\ stem_ext (lit ".gz") = (lit ".gz", []) /\
  @safe_component ascii_unicode (lit "con.txt") = lit "con_.txt" /\
  @safe_component ascii_unicode (lit "file.") = lit "file._" /\
  utc_date 1785542400 = lit "2026-08-01" /\ ymd 951782400 = (2000, 2, 29) /\
  @conflict_name ascii_unicode (lit "notes.md") (lit "Ann's laptop") 0 2 =
    lit "notes (conflict from Ann's laptop 1970-01-01 2).md".
Proof. vm_compute. done. Qed.

(** ** Proofs *)

Section PathProofs.
Context `{U : Unicode} {UL : UnicodeLaws U}.

Lemma underscore_valid : valid_component (lit "_") = true.
Proof.
  assert (sanitise_name (lit "_") = lit "_") as H.
  { apply canonical_name_fixed. split; try done; try (by intros c [= <-]).
    - apply nfc_ascii. repeat constructor; done.
    - repeat constructor. }
  unfold valid_component. by rewrite bool_decide_eq_true_2 with (P := sanitise_name _ = _).
Qed.

(** Whatever it is given, the result can be written on every system. *)
Lemma safe_component_valid c : valid_component (safe_component c) = true.
Proof.
  unfold safe_component. destruct (valid_component c) eqn:E; [done|]. cbn zeta.
  match goal with |- context [if valid_component ?o then _ else _] => destruct (valid_component o) eqn:E' end;
    [done|apply underscore_valid].
Qed.

Lemma safe_component_fixed c : valid_component c = true -> safe_component c = c.
Proof. unfold safe_component. by intros ->. Qed.

(** What a valid component is: a canonical name that names a file of its
    directory and nothing else. *)
Lemma valid_component_spec c : valid_component c = true ->
  canonical_name c /\ c <> lit "." /\ c <> lit ".." /\ last c <> Some 46 /\ last c <> Some 32 /\
  reserved_device_name c = false /\ Forall (fun x => is_separator x = false) c.
Proof.
  unfold valid_component, ends_in. rewrite !andb_true_iff, !negb_true_iff, !bool_decide_eq_false, bool_decide_eq_true.
  intros ((((((H1 & H2) & H3) & H4) & H5) & H6) & H7).
  assert (canonical_name c) as Hc by (rewrite <- H2; apply sanitise_name_is_canonical).
  split_and!; try done. eapply Forall_impl; [apply (cn_plain _ Hc)|].
  intros x. rewrite !orb_false_iff. tauto.
Qed.
End PathProofs.
