(* ===== verification/DirectReceived.v ===== *)
(** * The Received folder

    Models [desktop/src-tauri/src/drop/direct/received.rs] and
    [move_no_clobber] of [drop/folder.rs]: the names tried for a received
    file, and how a verified plaintext is moved into the folder.

    The disk is the folder's entries and the private temp file.  Every system
    call may fail, and before each of them other programs may change the
    folder ([World]); [clobbered] lists the names a rename replaced. *)
From S2P Require Import Prelude EnvelopeFormat EnvelopeName Envelope DirectText DirectPath.

Definition MAX_NAME_BYTES : Z := 255.
Definition MAX_TRIES : nat := 999.

(** The prefix loop of [truncate]: [units] and [at] count UTF-16 units and
    bytes passed. *)
Fixpoint truncate_both (units at_ : Z) (s : text) (max_units max_bytes : Z) : text :=
  match s with
  | [] => []
  | c :: t =>
      let units := units + len_utf16 c in
      let end_ := at_ + Z.of_nat (length (utf8_char c)) in
      if (max_units <? units) || (max_bytes <? end_) then []
      else c :: truncate_both units end_ t max_units max_bytes
  end.

Definition truncate (s : text) (units bytes : Z) : text := truncate_both 0 0 s units bytes.

Definition candidate `{U : Unicode} (name : text) (n : Z) : text :=
  let name := sanitise_name name in
  let suffix := if n <=? 1 then [] else lit " (" ++ u64_to_string n ++ lit ")" in
  let '(stem, ext) := stem_ext name in
  let '(stem, ext) :=
    if MAX_NAME_UTF16 / 2 <=? utf16_count suffix + utf16_count ext then (name, []) else (stem, ext) in
  let stem := truncate stem (saturating_sub MAX_NAME_UTF16 (utf16_count suffix + utf16_count ext))
                (saturating_sub MAX_NAME_BYTES (str_len suffix + str_len ext)) in
  safe_component (stem ++ suffix ++ ext).

(** ** The disk *)

Inductive IoError := AlreadyExists | NotFound | StorageFull | QuotaExceeded | FileTooLarge | OtherError.

#[export] Instance IoError_eq_dec : EqDecision IoError.
Proof. solve_decision. Defined.

Abbreviation Dir := (gmap text (list byte)) (only parsing).

Inductive Loc := Temp | Entry (name : text).

Record Disk := {
  received : Dir;
  temp : option (list byte);
  clobbered : list text;
  calls : nat
}.

(** The system calls made. *)
Inductive Call :=
| CreateDir | ReadDir | Metadata_ | HardLink | Remove | Rename | Create | Copy | Sync | Xattr.

Record World := {
  others : nat -> Dir -> Dir;
  fault : nat -> Call -> option IoError;
  staging_name : text
}.

Definition look (d : Disk) (l : Loc) : option (list byte) :=
  match l with Temp => temp d | Entry n => received d !! n end.

Definition put (d : Disk) (l : Loc) (o : option (list byte)) : Disk :=
  match l with
  | Temp => {| received := received d; temp := o; clobbered := clobbered d; calls := calls d |}
  | Entry n =>
      {| received := match o with Some c => <[n := c]> (received d) | None => delete n (received d) end;
         temp := temp d; clobbered := clobbered d; calls := calls d |}
  end.

Section Received.
Context `{U : Unicode} (w : World).

(** One call: the others act, then it fails or takes effect. *)
Definition sys {A} (c : Call) (op : SM Disk IoError A) : SM Disk IoError A :=
  fun d =>
    let d' := {| received := others w (calls d) (received d); temp := temp d;
                 clobbered := clobbered d; calls := S (calls d) |} in
    match fault w (calls d) c with
    | Some e => (Err e, d')
    | None => op d'
    end.

(** The outcome as a value; and a call whose outcome is dropped. *)
Definition attempt {A} (m : SM Disk IoError A) : SM Disk IoError (result IoError A) :=
  fun d => let '(r, d) := m d in (Ok r, d).

Definition symlink_metadata (l : Loc) : SM Disk IoError unit :=
  sys Metadata_ (fun d => (match look d l with Some _ => Ok tt | None => Err NotFound end, d)).

Definition hard_link (from to : Loc) : SM Disk IoError unit :=
  sys HardLink (fun d =>
    match look d from, look d to with
    | Some c, None => (Ok tt, put d to (Some c))
    | Some _, Some _ => (Err AlreadyExists, d)
    | None, _ => (Err NotFound, d)
    end).

Definition remove_file (l : Loc) : SM Disk IoError unit :=
  sys Remove (fun d => match look d l with Some _ => (Ok tt, put d l None) | None => (Err NotFound, d) end).

(** [std::fs::rename] replaces what is at the target. *)
Definition rename (from : Loc) (to : text) : SM Disk IoError unit :=
  sys Rename (fun d =>
    match look d from with
    | Some c =>
        let lost := match received d !! to with Some _ => [to] | None => [] end in
        let d := put (put d from None) (Entry to) (Some c) in
        (Ok tt, {| received := received d; temp := temp d; clobbered := lost ++ clobbered d;
                   calls := calls d |})
    | None => (Err NotFound, d)
    end).

Definition move_no_clobber (from : Loc) (to : text) : SM Disk IoError unit :=
  let! linked := attempt (hard_link from (Entry to)) in
  match linked with
  | Ok _ =>
      let! removed := attempt (remove_file from) in
      match removed with
      | Ok _ => ret tt
      | Err e => let! _ := attempt (remove_file (Entry to)) in throw e
      end
  | Err AlreadyExists => throw AlreadyExists
  | Err _ =>
      let! there := attempt (symlink_metadata (Entry to)) in
      match there with
      | Ok _ => throw AlreadyExists
      | Err _ => rename from to
      end
  end.

(** The loop over candidate names that [place] and [place_copy] share;
    [failed e] is what they do when a move fails for another reason. *)
Fixpoint try_names (tries : nat) (n : Z) (from : Loc) (name : text)
    (failed : IoError -> SM Disk IoError text) : SM Disk IoError text :=
  match tries with
  | O => throw AlreadyExists
  | S tries =>
      let target := candidate name n in
      let! there := attempt (symlink_metadata (Entry target)) in
      match there with
      | Ok _ => try_names tries (n + 1) from name failed
      | Err _ =>
          let! moved := attempt (move_no_clobber from target) in
          match moved with
          | Ok _ => ret target
          | Err AlreadyExists => try_names tries (n + 1) from name failed
          | Err e => failed e
          end
      end
  end.

(** [tempfile_in]: a new file. *)
Definition create_staging : SM Disk IoError unit :=
  sys Create (fun d =>
    match received d !! staging_name w with
    | Some _ => (Err AlreadyExists, d)
    | None => (Ok tt, put d (Entry (staging_name w)) (Some []))
    end).

Definition copy_into_staging (source : Loc) : SM Disk IoError unit :=
  sys Copy (fun d =>
    match look d source with
    | Some c => (Ok tt, put d (Entry (staging_name w)) (Some c))
    | None => (Err NotFound, d)
    end).

(** Dropping a temp path deletes the file at it, errors ignored. *)
Definition with_cleanup {A} (l : Loc) (m : SM Disk IoError A) : SM Disk IoError A :=
  let! r := attempt m in
  match r with
  | Ok a => ret a
  | Err e => let! _ := attempt (remove_file l) in throw e
  end.

Definition place_copy (source : Loc) (name : text) : SM Disk IoError text :=
  let! _ := create_staging in
  with_cleanup (Entry (staging_name w))
    (let! _ := copy_into_staging source in
     let! _ := sys Sync (fun d => (Ok tt, d)) in
     let! _ := sys Xattr (fun d => (Ok tt, d)) in
     let! target := try_names MAX_TRIES 1 (Entry (staging_name w)) name throw in
     let! _ := attempt (remove_file source) in
     ret target).

Definition place (source : Loc) (name : text) : SM Disk IoError text :=
  let! _ := sys CreateDir (fun d => (Ok tt, d)) in
  try_names MAX_TRIES 1 source name (fun _ => place_copy source name).

(** [keep]: on any error the temp file is deleted. *)
Definition keep (name : text) : SM Disk IoError text :=
  with_cleanup Temp
    (let! _ := sys Xattr (fun d => (Ok tt, d)) in
     place Temp name).

(** The names a killed process leaves. *)
Definition stale (name : text) : bool :=
  has_prefix (lit ".wildbloom-") name && has_suffix (lit ".part") name.

(** The loop of [sweep] over what [read_dir] listed; entries are regular
    files. *)
Fixpoint sweep_entries (names : list text) (removed : Z) : SM Disk IoError Z :=
  match names with
  | [] => ret removed
  | name :: names =>
      if negb (stale name) then sweep_entries names removed
      else
        let! meta := attempt (symlink_metadata (Entry name)) in
        match meta with
        | Err _ => sweep_entries names removed
        | Ok _ =>
            let! r := attempt (remove_file (Entry name)) in
            sweep_entries names (if is_ok r then removed + 1 else removed)
        end
  end.

Definition sweep : SM Disk IoError Z :=
  let! listed := attempt (sys ReadDir (fun d => (Ok (map fst (map_to_list (received d))), d))) in
  match listed with
  | Err _ => ret 0
  | Ok names => sweep_entries names 0
  end.
End Received.
