(* ===== verification/DirectReceivedProofs.v ===== *)
(** * Keeping a file replaces nothing

    [keep_ok]: in a folder nobody else writes to, whatever fails except the
    look at a name after a failed hard link to it ([steady]), every file that
    was there stays as it was, and what is new is the received file under a
    candidate name (or the hidden staging copy).  [keep_clobbers_nothing]:
    where hard links work this holds of concurrent writers too. *)
From S2P Require Import Prelude EnvelopeFormat EnvelopeName Envelope DirectText DirectPath DirectReceived.

Section Proofs.
Context `{U : Unicode} {UL : UnicodeLaws U} (w : World).

(** ** Names *)

Lemma candidate_valid name n : valid_component (candidate name n) = true.
Proof. unfold candidate. repeat destruct (_ : text * text). apply safe_component_valid. Qed.

(** The staging name is hidden, as [.wildbloom-*.part] is. *)
Definition hidden (t : text) : Prop := head t = Some 46.

Lemma candidate_visible name n t : hidden t -> candidate name n <> t.
Proof.
  intros Ht E. destruct (valid_component_spec _ (candidate_valid name n)) as (Hc & _).
  rewrite E in Hc. by apply (cn_head _ Hc) in Ht.
Qed.

(** ** A folder nobody else writes to *)

(** No other program writes to the folder, and when a hard link cannot be made
    for a reason of its own, the look at its target that follows works. *)
Record steady : Prop := {
  st_others : forall n d, others w n d = d;
  st_look : forall n e, fault w n HardLink = Some e -> e <> AlreadyExists -> fault w (S n) Metadata_ = None
}.

(** Time has passed. *)
Definition tick (d : Disk) : Disk :=
  {| received := received d; temp := temp d; clobbered := clobbered d; calls := S (calls d) |}.

(** Since [d0], nothing was replaced, removed or changed; what is new is a
    copy of [c] or the staging file. *)
Record grown (c : list byte) (d0 d : Disk) : Prop := {
  g_kept : received d0 ⊆ received d;
  g_new : forall k v, received d !! k = Some v -> received d0 !! k = None ->
          v = c \/ k = staging_name w;
  g_clobbered : clobbered d = clobbered d0
}.

Lemma grown_refl c d : grown c d d.
Proof. split; [done|congruence|done]. Qed.

Lemma same_grown c d0 d d' : grown c d0 d ->
  received d' = received d -> clobbered d' = clobbered d -> grown c d0 d'.
Proof. intros [G1 G2 G3] S1 S3. split; [by rewrite S1|by rewrite S1|by rewrite S3]. Qed.

Lemma grown_put c d0 d k v : grown c d0 d -> received d0 !! k = None ->
  v = c \/ k = staging_name w -> grown c d0 (put d (Entry k) (Some v)).
Proof.
  intros [G1 G2 G3] Hk Hv. split; cbn; [|intros k' v'|done].
  - by apply insert_subseteq_r.
  - destruct (decide (k' = k)) as [-> |]; [rewrite lookup_insert_eq|rewrite lookup_insert_ne by done];
      [by intros [= <-]|eauto].
Qed.

Lemma grown_remove c d0 d k : grown c d0 d -> received d0 !! k = None ->
  grown c d0 (put d (Entry k) None).
Proof.
  intros [G1 G2 G3] Hk. split; cbn; [|intros k' v'|done].
  - apply map_subseteq_spec. intros k' v' Hk'. rewrite lookup_delete_ne by congruence.
    by eapply lookup_weaken.
  - intros [_ Hk']%lookup_delete_Some. eauto.
Qed.

Lemma wp_attempt {A} (m : SM Disk IoError A) Q d :
  wp m (fun r d' => Q (Ok r) d') d -> wp (attempt m) Q d.
Proof. unfold wp, attempt. by destruct (m d) as [r d']. Qed.

Lemma wp_sys {A} c (op : SM Disk IoError A) Q d : steady ->
  (forall e, fault w (calls d) c = Some e -> Q (Err e) (tick d)) -> wp op Q (tick d) ->
  wp (sys w c op) Q d.
Proof.
  intros St He Hop. unfold wp, sys in *. rewrite (st_others St). fold (tick d).
  destruct (fault w (calls d) c) as [e|]; [by apply He|done].
Qed.

Lemma wp_ret {A} (a : A) (Q : result IoError A -> Disk -> Prop) d : Q (Ok a) d -> wp (ret a) Q d.
Proof. done. Qed.

Lemma wp_throw {A} e (Q : result IoError A -> Disk -> Prop) d : Q (Err e) d -> wp (throw e) Q d.
Proof. done. Qed.

Lemma grown_tick c d0 d : grown c d0 d -> grown c d0 (tick d).
Proof. intros H. by apply (same_grown _ _ d). Qed.

Lemma grown_temp c d0 d o : grown c d0 d -> grown c d0 (put d Temp o).
Proof. intros H. by apply (same_grown _ _ d). Qed.

(** The sources a file is moved from: the private temp file, or the staging
    copy. *)
Definition source_loc (l : Loc) : Prop := l = Temp \/ l = Entry (staging_name w).

Section Move.
Context (St : steady) (c : list byte) (d0 : Disk).
Hypothesis Hstaging : received d0 !! staging_name w = None.

Lemma absent_before to d : grown c d0 d -> received d !! to = None -> received d0 !! to = None.
Proof. intros [G1 _ _] Hn. by eapply lookup_weaken_None. Qed.

Lemma look_put_other from to d o : source_loc from -> to <> staging_name w ->
  look (put d (Entry to) o) from = look d from.
Proof.
  intros [-> | ->] Hto; [done|]. cbn. destruct o; [by rewrite lookup_insert_ne|by rewrite lookup_delete_ne].
Qed.

Lemma grown_take from d : source_loc from -> grown c d0 d -> grown c d0 (put d from None).
Proof. intros [-> | ->] G; [by apply grown_temp|by apply grown_remove]. Qed.

Lemma received_take from to d : source_loc from -> to <> staging_name w ->
  received (put d from None) !! to = received d !! to.
Proof. intros [-> | ->] Hto; [done|]. cbn. by rewrite lookup_delete_ne. Qed.

(** What a move does: it ends with the file under the new name, or with the
    source where it was. *)
Definition moved (from : Loc) (to : text) (r : result IoError unit) (d' : Disk) : Prop :=
  grown c d0 d' /\
  match r with
  | Ok _ => received d0 !! to = None /\ received d' !! to = Some c
  | Err _ => look d' from = Some c
  end.

Lemma rename_ok from to d :
  source_loc from -> to <> staging_name w -> grown c d0 d -> look d from = Some c ->
  received d !! to = None -> wp (rename w from to) (moved from to) d.
Proof.
  intros Hf Hto G Hc Hn. pose proof (absent_before _ _ G Hn) as Hn0.
  apply wp_sys; [done|intros e _; split; [by apply grown_tick|done]|].
  unfold wp. change (look (tick d) from) with (look d from). rewrite Hc.
  change (received (tick d) !! to) with (received d !! to). rewrite Hn. cbn [fst snd app].
  split; [|split; [done|cbn; by rewrite lookup_insert_eq]].
  apply (same_grown _ _ (put (put (tick d) from None) (Entry to) (Some c))); [|done..].
  apply grown_put; [apply grown_take, grown_tick; done|done|by left].
Qed.

Lemma move_ok from to d :
  source_loc from -> to <> staging_name w -> grown c d0 d -> look d from = Some c ->
  wp (move_no_clobber w from to) (moved from to) d.
Proof.
  intros Hf Hto G Hc. unfold move_no_clobber.
  assert (forall d', grown c d0 d' -> look d' from = Some c -> forall e, moved from to (Err e) d') as Herr
    by (intros; by split).
  assert (forall d', grown c d0 d' -> look d' from = Some c -> fault w (calls d') Metadata_ = None ->
    wp (let! there := attempt (symlink_metadata w (Entry to)) in
        match there with Ok _ => throw AlreadyExists | Err _ => rename w from to end)
       (moved from to) d') as Hfall.
  { intros d' G' Hc' Hl. apply wp_bind, wp_attempt, wp_sys; [done|intros e He; by rewrite Hl in He|].
    unfold wp. cbn [fst snd look]. destruct (received (tick d') !! to) as [v|] eqn:E.
    - apply Herr; [by apply grown_tick|done].
    - apply rename_ok; [done..|by apply grown_tick|done|done]. }
  apply wp_bind, wp_attempt, wp_sys; [done| |].
  { intros e He. destruct e; try (apply Hfall; [by apply grown_tick|done|by eapply (st_look St)]).
    apply wp_throw, Herr; [by apply grown_tick|done]. }
  unfold wp. cbn [look]. change (look (tick d) from) with (look d from). rewrite Hc.
  change (received (tick d) !! to) with (received d !! to).
  destruct (received d !! to) as [v|] eqn:E; cbn [fst snd].
  { apply Herr; [by apply grown_tick|done]. }
  pose proof (absent_before _ _ G E) as Hn0.
  set (d1 := put (tick d) (Entry to) (Some c)).
  assert (grown c d0 d1) as G1 by (apply grown_put; [by apply grown_tick|done|by left]).
  assert (look d1 from = Some c) as Hc1 by (unfold d1; by rewrite look_put_other).
  assert (received d1 !! to = Some c) as Ht1 by (cbn; by rewrite lookup_insert_eq).
  apply wp_bind, wp_attempt, wp_sys; [done| |].
  - intros e _. apply wp_bind, wp_attempt, wp_sys; [done| |].
    + intros e' _. apply wp_throw, Herr; [by do 2 apply grown_tick|done].
    + unfold wp. cbn [look]. change (received (tick (tick d1)) !! to) with (received d1 !! to). rewrite Ht1.
      cbn [fst snd]. apply wp_throw, Herr.
      * apply grown_remove; [by do 2 apply grown_tick|done].
      * by rewrite look_put_other.
  - unfold wp. change (look (tick d1) from) with (look d1 from). rewrite Hc1. cbn [fst snd].
    apply wp_ret. split; [apply grown_take; [done|by apply grown_tick]|].
    split; [done|]. by rewrite received_take.
Qed.

(** What trying the names does; [P] is what holds when no name was taken. *)
Definition placed (name : text) (P : Disk -> Prop) (r : result IoError text) (d' : Disk) : Prop :=
  grown c d0 d' /\
  match r with
  | Ok t => (exists n, t = candidate name n) /\ received d0 !! t = None /\ received d' !! t = Some c
  | Err _ => P d'
  end.

Lemma try_names_ok from name failed P d tries n :
  source_loc from -> hidden (staging_name w) ->
  (forall d', look d' from = Some c -> P d') ->
  (forall e d', grown c d0 d' -> look d' from = Some c -> wp (failed e) (placed name P) d') ->
  grown c d0 d -> look d from = Some c ->
  wp (try_names w tries n from name failed) (placed name P) d.
Proof.
  intros Hf Hh HP Hfailed. revert n d. induction tries as [|tries IH]; intros n d G Hc; cbn [try_names].
  { apply wp_throw. split; [done|by apply HP]. }
  assert (candidate name n <> staging_name w) as Hto by (by apply candidate_visible).
  assert (wp (let! moved_ := attempt (move_no_clobber w from (candidate name n)) in
    match moved_ with
    | Ok _ => ret (candidate name n)
    | Err AlreadyExists => try_names w tries (n + 1) from name failed
    | Err e => failed e
    end) (placed name P) (tick d)) as Hmove; [|apply wp_bind, wp_attempt, wp_sys; [done|by intros e _|];
    unfold wp; cbn [fst snd]; destruct (look (tick d) (Entry (candidate name n)));
    [apply IH; [by apply grown_tick|done]|exact Hmove]].
  apply wp_bind, wp_attempt. eapply wp_impl; [apply move_ok; [done..|by apply grown_tick|done]|].
  intros r d' [G' Hr]. destruct r as [[]|e]; cbn beta match.
  - apply wp_ret. split; [done|]. split; [by exists n|done].
  - destruct e; try (by apply Hfailed). by apply IH.
Qed.

(** Copying into the folder: the source is still there if it fails. *)
Lemma place_copy_ok name d : hidden (staging_name w) ->
  grown c d0 d -> temp d = Some c -> wp (place_copy w Temp name) (placed name (fun _ => True)) d.
Proof.
  intros Hh G Hc. unfold place_copy. apply wp_bind, wp_sys; [done| |].
  { intros e _. split; [by apply grown_tick|done]. }
  unfold wp. cbn [received tick]. destruct (received d !! staging_name w) eqn:E; cbn [fst snd].
  { split; [by apply grown_tick|done]. }
  set (d1 := put (tick d) (Entry (staging_name w)) (Some [])).
  assert (grown c d0 d1) as G1 by (apply grown_put; [by apply grown_tick|done|by right]).
  unfold with_cleanup. apply wp_bind, wp_attempt.
  apply (wp_impl _ (placed name (fun _ => True))).
  2:{ intros r d' [G' Hr]. destruct r as [t|e]; [by apply wp_ret|].
      apply wp_bind, wp_attempt, wp_sys; [done| |].
      - intros e' _. apply wp_throw. split; [by apply grown_tick|done].
      - unfold wp. destruct (look _ _); cbn [fst snd]; apply wp_throw; split; try done; [|by apply grown_tick].
        apply grown_remove; [by apply grown_tick|done]. }
  assert (forall d' e, grown c d0 d' -> placed name (fun _ => True) (Err e) d') as Herr by (intros; by split).
  apply wp_bind, wp_sys; [done|intros e _; by apply Herr, grown_tick|].
  unfold wp. change (look (tick d1) Temp) with (temp d). rewrite Hc. cbn [fst snd].
  set (d2 := put (tick d1) (Entry (staging_name w)) (Some c)).
  assert (grown c d0 d2) as G2 by (apply grown_put; [by apply grown_tick|done|by right]).
  apply wp_bind, wp_sys; [done|intros e _; by apply Herr, grown_tick|]. cbn [wp fst snd].
  apply wp_bind, wp_sys; [done|intros e _; by apply Herr; do 2 apply grown_tick|]. cbn [wp fst snd].
  apply wp_bind. eapply wp_impl.
  { apply (try_names_ok (Entry (staging_name w)) name throw (fun _ => True)); [by right|done|done| | |].
    - intros e d' G' _. by apply wp_throw, Herr.
    - by do 2 apply grown_tick.
    - cbn. by rewrite lookup_insert_eq. }
  intros r d' [G' Hr]. destruct r as [t|e]; [|by apply Herr]. cbn beta match.
  apply wp_bind, wp_attempt, wp_sys; [done| |].
  - intros e _. apply wp_ret. split; [by apply grown_tick|done].
  - unfold wp. cbn [look]. destruct (temp (tick d')); cbn [fst snd]; apply wp_ret;
      (split; [by apply (same_grown _ _ d')|done]).
Qed.

Lemma keep_ok name d : hidden (staging_name w) -> grown c d0 d -> temp d = Some c ->
  wp (keep w name) (placed name (fun _ => True)) d.
Proof.
  intros Hh G Hc. unfold keep, with_cleanup. apply wp_bind, wp_attempt.
  apply (wp_impl _ (placed name (fun _ => True))).
  2:{ intros r d' [G' Hr]. destruct r as [t|e]; [by apply wp_ret|].
      apply wp_bind, wp_attempt, wp_sys; [done| |].
      - intros e' _. apply wp_throw. split; [by apply grown_tick|done].
      - unfold wp. cbn [look]. destruct (temp (tick d')); cbn [fst snd]; apply wp_throw;
          (split; [by apply (same_grown _ _ d')|done]). }
  apply wp_bind, wp_sys; [done|intros e _; split; [by apply grown_tick|done]|]. cbn [wp fst snd].
  unfold place. apply wp_bind, wp_sys; [done|intros e _; split; [by do 2 apply grown_tick|done]|].
  cbn [wp fst snd].
  apply (try_names_ok Temp); [by left|done|done| |by do 2 apply grown_tick|done].
  intros e d' G' Hc'. by apply place_copy_ok.
Qed.
End Move.

(** ** Sweeping *)

(** Names that are not those of staging files are left alone. *)
Lemma sweep_entries_ok (St : steady) k : stale k = false -> forall names n d,
  received (sweep_entries w names n d).2 !! k = received d !! k.
Proof.
  intros Hk. induction names as [|name names IH]; intros n d; [done|]. cbn [sweep_entries].
  destruct (stale name) eqn:E; cbn [negb]; [|apply IH].
  assert (name <> k) as Hne by congruence.
  unfold bind at 1, attempt at 1, symlink_metadata, sys at 1. rewrite (st_others St).
  fold (tick d). cbn [look]. destruct (fault w (calls d) Metadata_); [by rewrite IH|].
  destruct (received (tick d) !! name); [|by rewrite IH].
  unfold bind, attempt, remove_file, sys. rewrite (st_others St).
  destruct (fault w _ Remove); [by rewrite IH|]. cbn [look received].
  destruct (received (tick d) !! name); rewrite IH; [|done]. cbn. by rewrite lookup_delete_ne.
Qed.

(** A sweep never removes a kept file: candidate names are not hidden. *)
Lemma sweep_keeps_received (St : steady) name n d :
  received (sweep w d).2 !! candidate name n = received d !! candidate name n.
Proof.
  assert (stale (candidate name n) = false) as Hs.
  { apply not_true_iff_false. intros [H _]%andb_prop. unfold has_prefix in H. apply bool_decide_eq_true in H.
    eapply (candidate_visible name n); [|reflexivity]. unfold hidden.
    by destruct (candidate name n) as [|c t]; [|injection H as -> _]. }
  unfold sweep, bind, attempt, sys. rewrite (st_others St).
  destruct (fault w (calls d) ReadDir); [done|]. by rewrite sweep_entries_ok.
Qed.

(** ** Other programs at work *)

(** Hard links work, and the others leave the hidden staging file alone. *)
Record linking : Prop := {
  lk_links : forall n, fault w n HardLink = None;
  lk_private : forall n d, others w n d !! staging_name w = d !! staging_name w
}.

Definition unclobbered (d d' : Disk) : Prop := clobbered d' = clobbered d.

#[local] Instance unclobbered_refl : Reflexive unclobbered.
Proof. done. Qed.
#[local] Instance unclobbered_trans : Transitive unclobbered.
Proof. intros a b d. unfold unclobbered. congruence. Qed.

Lemma respects_sys {A} c (op : SM Disk IoError A) :
  respects unclobbered op -> respects unclobbered (sys w c op).
Proof.
  intros Hop d. unfold sys. destruct (fault w (calls d) c); [done|].
  etransitivity; [|apply Hop]. done.
Qed.

Lemma respects_attempt {A} (m : SM Disk IoError A) :
  respects unclobbered m -> respects unclobbered (attempt m).
Proof. intros Hm d. specialize (Hm d). unfold attempt. by destruct (m d). Qed.

Lemma respects_metadata l : respects unclobbered (symlink_metadata w l).
Proof. apply respects_sys. by intros d. Qed.

Lemma respects_remove l : respects unclobbered (remove_file w l).
Proof. apply respects_sys. intros d. destruct (look d l); [by destruct l|done]. Qed.

Lemma respects_create : respects unclobbered (create_staging w).
Proof. apply respects_sys. intros d. by destruct (received d !! _). Qed.

Lemma respects_copy l : respects unclobbered (copy_into_staging w l).
Proof. apply respects_sys. intros d. by destruct (look d l). Qed.

Lemma respects_noop c : respects unclobbered (sys w c (fun d => (Ok tt, d))).
Proof. apply respects_sys. by intros d. Qed.

#[local] Hint Resolve respects_attempt respects_metadata respects_remove respects_create respects_copy
  respects_noop : respects.

(** The source of a move is out of the others' reach. *)
Lemma look_others from n d : linking -> source_loc from ->
  look {| received := others w n (received d); temp := temp d; clobbered := clobbered d;
          calls := S n |} from = look d from.
Proof. intros L [-> | ->]; [done|]. cbn. apply (lk_private L). Qed.

Lemma respects_move from to : linking -> source_loc from ->
  respects unclobbered (move_no_clobber w from to).
Proof.
  intros L Hf d. unfold move_no_clobber, bind at 1. unfold attempt at 1, hard_link, sys at 1.
  rewrite (lk_links L). rewrite look_others by done.
  set (d1 := {| received := _ |}). assert (unclobbered d d1) as H1 by done.
  destruct (look d from) as [c|] eqn:Hc.
  - destruct (look d1 (Entry to)); [done|].
    transitivity (put d1 (Entry to) (Some c)); [done|].
    match goal with |- unclobbered ?x (?m ?x).2 => change (unclobbered x (m x).2); generalize x end.
    change (respects unclobbered (let! removed := attempt (remove_file w from) in
      match removed with
      | Ok _ => ret tt
      | Err e => let! _ := attempt (remove_file w (Entry to)) in throw e
      end : SM Disk IoError unit)). respects.
  - transitivity d1; [done|]. unfold bind, attempt, symlink_metadata, sys at 1.
    set (d2 := {| received := others w _ (received d1) |}).
    assert (look d2 from = None) as Hc2.
    { unfold d2. rewrite look_others by done. unfold d1. by rewrite look_others. }
    assert (unclobbered d1 (rename w from to d2).2) as Hr.
    { transitivity d2; [done|]. unfold rename, sys. destruct (fault _ _ _); [done|].
      rewrite look_others by done. by rewrite Hc2. }
    destruct (fault w (calls d1) Metadata_); [done|]. by destruct (look d2 (Entry to)).
Qed.

Lemma respects_try tries n from name failed : linking -> source_loc from ->
  (forall e, respects unclobbered (failed e)) ->
  respects unclobbered (try_names w tries n from name failed).
Proof.
  intros L Hf Hfail. pose proof (fun to => respects_attempt _ (respects_move from to L Hf)).
  revert n. induction tries as [|tries IH]; intros n; cbn [try_names]; respects.
Qed.

Lemma keep_respects name : linking -> respects unclobbered (keep w name).
Proof.
  intros L. unfold keep, with_cleanup, place.
  assert (respects unclobbered (place_copy w Temp name)) as Hcopy.
  { unfold place_copy, with_cleanup. respects.
    apply respects_attempt. respects. apply respects_try; [done|by right|]. intros e. respects. }
  respects.
  apply respects_attempt. respects. apply respects_try; [done|by left|done].
Qed.

(** ** When nothing fails *)

Record calm : Prop := {
  cm_others : forall n d, others w n d = d;
  cm_fault : forall n c, fault w n c = None
}.

Lemma sys_calm {A} (C : calm) c (op : SM Disk IoError A) d : sys w c op d = op (tick d).
Proof. unfold sys. rewrite (cm_fault C), (cm_others C). done. Qed.

Lemma move_calm (C : calm) c to d : temp d = Some c -> received d !! to = None ->
  exists d', move_no_clobber w Temp to d = (Ok tt, d') /\
    received d' = <[to := c]> (received d) /\ temp d' = None /\ clobbered d' = clobbered d.
Proof.
  intros Hc Hn. unfold move_no_clobber, bind, attempt, hard_link, remove_file.
  rewrite (sys_calm C). cbn [look tick temp received]. rewrite Hc, Hn.
  rewrite (sys_calm C). cbn [look tick temp put received]. rewrite Hc. by eexists.
Qed.

(** The first free name is taken. *)
Lemma try_names_calm (C : calm) c name failed tries k : forall n d,
  temp d = Some c -> n <= k < n + Z.of_nat tries -> received d !! candidate name k = None ->
  exists t d', try_names w tries n Temp name failed d = (Ok t, d') /\
    received d !! t = None /\ received d' = <[t := c]> (received d) /\ temp d' = None /\
    clobbered d' = clobbered d /\ (exists j, n <= j <= k /\ t = candidate name j).
Proof.
  induction tries as [|tries IH]; intros n d Hc Hk Hfree; [lia|].
  cbn [try_names]. unfold bind at 1. unfold attempt at 1, symlink_metadata. rewrite (sys_calm C).
  cbn [look tick received]. destruct (received d !! candidate name n) as [v|] eqn:E.
  - destruct (IH (n + 1) (tick d)) as (t & d' & H & H1 & H2 & H3 & H4 & j & Hj & ->); [done| |done|].
    { assert (n <> k) by congruence. lia. }
    exists (candidate name j), d'. split_and!; try done. exists j. split; [lia|done].
  - destruct (move_calm C c (candidate name n) (tick d) Hc E) as (d' & Hm & H1 & H2 & H3).
    unfold bind, attempt. rewrite Hm. exists (candidate name n), d'. split_and!; try done.
    exists n. split; [lia|done].
Qed.

Lemma keep_calm (C : calm) c name k d :
  temp d = Some c -> 1 <= k <= 999 -> received d !! candidate name k = None ->
  exists t d', keep w name d = (Ok t, d') /\
    received d !! t = None /\ received d' = <[t := c]> (received d) /\ temp d' = None /\
    clobbered d' = clobbered d /\ (exists j, 1 <= j <= k /\ t = candidate name j).
Proof.
  intros Hc Hk Hfree.
  destruct (try_names_calm C c name (fun _ => place_copy w Temp name) MAX_TRIES k 1 (tick (tick d)))
    as (t & d' & H & Hrest); [done|unfold MAX_TRIES; lia|done|].
  exists t, d'. split; [|done]. unfold keep, with_cleanup, place.
  unfold bind at 1, attempt at 1. unfold bind at 1. rewrite (sys_calm C).
  unfold bind. rewrite (sys_calm C), H. done.
Qed.
End Proofs.
