(* ===== verification/DirectSink.v ===== *)
(** * The sink of a direct send

    Models [desktop/src-tauri/src/drop/direct/sink.rs] and the [SinkSlot] of
    [session.rs]: the envelope written piece by piece, END's checks, and the
    lock that decides between keeping the file and stopping.

    A file operation's failure is an argument: [None] is success.  The
    [cfg(test)] hooks of the source are left out. *)
From S2P Require Import Prelude EnvelopeFormat EnvelopeName EnvelopeKey Envelope DirectText DirectFrames DirectReceived DirectMessages.

(** ** Errors *)

Inductive SinkError := SFailed (what : string) | SStorage.

Definition stop_code (e : SinkError) : Z :=
  match e with
  | SFailed _ => DirectFrames.stop_byte DirectFrames.StopFailed
  | SStorage => DirectFrames.stop_byte DirectFrames.StopStorage
  end.

Definition sink_reason (e : SinkError) : string :=
  match e with SFailed _ => "verification" | SStorage => "storage" end.

Definition io_error (e : IoError) (what : string) : SinkError :=
  match e with
  | StorageFull | QuotaExceeded | FileTooLarge => SStorage
  | _ => SFailed what
  end.

(** ** The sink *)

(** [sk_envelope] is the content of the private temp file. *)
Record Sink := {
  sk_transfer : text;
  sk_key : InputKey;
  sk_manifest : Manifest;
  sk_total : Z;
  sk_envelope : list byte;
  sk_written : Z;
  sk_acked : Z;
  sk_broken : bool
}.

Record Verified := { v_plain : list byte; v_name : text }.

Section Sink.
Context `{U : Unicode, C : Crypto, J : Json}.

(** [messages::envelope_bytes]. *)
Definition manifest_bytes (m : Manifest) : option Z :=
  match envelope_bytes (m_name m) (m_media_type m) (m_size m) with Ok n => Some n | Err _ => None end.

Definition create (temp_fault : option IoError) (transfer : text) (key : InputKey) (manifest : Manifest)
    : result SinkError Sink :=
  if MAX_FILE_BYTES <? m_size manifest then Err (SFailed "larger than the limit")
  else
    let? total := ok_or (manifest_bytes manifest) (SFailed "the manifest cannot be sealed") in
    match temp_fault with
    | Some e => Err (io_error e "temp file")
    | None =>
        Ok {| sk_transfer := transfer; sk_key := key; sk_manifest := manifest; sk_total := total;
              sk_envelope := []; sk_written := 0; sk_acked := 0; sk_broken := false |}
    end.

(** [write_file]: on failure some prefix of the bytes may have been written. *)
Definition write_file (io : option (IoError * nat)) (bytes : list byte) (s : Sink)
    : result SinkError unit * Sink :=
  let put l :=
    {| sk_transfer := sk_transfer s; sk_key := sk_key s; sk_manifest := sk_manifest s;
       sk_total := sk_total s; sk_envelope := sk_envelope s ++ l; sk_written := sk_written s;
       sk_acked := sk_acked s; sk_broken := sk_broken s |} in
  match io with
  | None => (Ok tt, put bytes)
  | Some (e, n) => (Err (io_error e "write"), put (take n bytes))
  end.

Definition break (s : Sink) : Sink :=
  {| sk_transfer := sk_transfer s; sk_key := sk_key s; sk_manifest := sk_manifest s;
     sk_total := sk_total s; sk_envelope := sk_envelope s; sk_written := sk_written s;
     sk_acked := sk_acked s; sk_broken := true |}.

Definition write (io : option (IoError * nat)) (offset : Z) (bytes : list byte) (s : Sink)
    : result SinkError (option Z) * Sink :=
  let '(checked, s) :=
    if sk_broken s then (Err (SFailed "the sink has failed"), s)
    else if (blen bytes =? 0) || (DirectFrames.FRAME_BYTES <? blen bytes)
    then (Err (SFailed "a write of the wrong length"), s)
    else if negb (offset =? sk_written s) then (Err (SFailed "a gap or an overlap"), s)
    else if sk_total s - sk_written s <? blen bytes
    then (Err (SFailed "bytes past the end of the envelope"), s)
    else write_file io bytes s in
  match checked with
  | Err e => (Err e, break s)
  | Ok _ =>
      let written := sk_written s + blen bytes in
      let ack := DirectFrames.ack_due written (sk_acked s) (sk_total s) in
      (Ok ack,
       {| sk_transfer := sk_transfer s; sk_key := sk_key s; sk_manifest := sk_manifest s;
          sk_total := sk_total s; sk_envelope := sk_envelope s; sk_written := written;
          sk_acked := default (sk_acked s) ack; sk_broken := sk_broken s |})
  end.

(** [decrypt_file_to_private_temp] of the envelope crate: unless a file
    operation fails (its kind is [io]), it opens what the file holds. *)
Definition decrypt_file_to_private_temp (io : option IoError) (key : InputKey) (envelope : list byte)
    (limits : Limits) : result (IoError + Error) (Metadata * list byte) :=
  match io with
  | Some e => Err (inl e)
  | None => map_err inr (open_bytes key envelope limits)
  end.

Definition digest_of (file : list byte) : Z * list byte := (blen file, sha256 file).

(** The failures of END's file operations: the sync, the decryption, the
    reading back. *)
Record VerifyIo := { v_sync : option IoError; v_decrypt : option IoError; v_read : option IoError }.

Definition fails (io : option IoError) (what : string) : result SinkError unit :=
  match io with Some e => Err (io_error e what) | None => Ok tt end.

Definition verify (io : VerifyIo) (digest : list byte) (size : Z) (s : Sink) : result SinkError Verified :=
  if sk_broken s then Err (SFailed "the sink has failed")
  else if negb (sk_written s =? sk_total s) then Err (SFailed "not every byte arrived")
  else if negb (size =? m_size (sk_manifest s)) then Err (SFailed "END names another size")
  else
    let? _ := fails (v_sync io) "sync" in
    let? (metadata, plain) :=
      map_err (fun e => match e with
                        | inl e => io_error e "decrypt"
                        | inr _ => SFailed "the envelope did not open"
                        end)
        (decrypt_file_to_private_temp (v_decrypt io) (sk_key s) (sk_envelope s)
           {| max_source_bytes := MAX_FILE_BYTES |}) in
    if negb (bool_decide (name metadata = m_name (sk_manifest s))
             && (EnvelopeFormat.size metadata =? m_size (sk_manifest s))
             && bool_decide (media_type metadata = m_media_type (sk_manifest s)))
    then Err (SFailed "the metadata is not the manifest")
    else
      let? _ := fails (v_read io) "read" in
      let '(length, d) := digest_of plain in
      if negb ((length =? size) && bool_decide (d = digest))
      then Err (SFailed "the size or SHA-256 is not END's")
      else Ok {| v_plain := plain; v_name := name metadata |}.

(** [Verified::keep]: the plaintext is the disk's private temp file. *)
Definition keep_verified (w : World) (v : Verified) (d : Disk) : result SinkError text * Disk :=
  let '(r, d) := keep w (v_name v) (put d Temp (Some (v_plain v))) in
  (map_err (fun e => io_error e "keep") r, d).

Definition end_ (io : VerifyIo) (w : World) (digest : list byte) (size : Z) (s : Sink) (d : Disk)
    : result SinkError text * Disk :=
  match verify io digest size s with
  | Err e => (Err e, d)
  | Ok v => keep_verified w v d
  end.
End Sink.

(** ** The slot the session and the sink commands share *)

Inductive SinkEvent := EProgress (acked : Z) | EVerifying | EKept (name : text) | EFailed (e : SinkError).

(** The mutex-protected state; [sl_pending] are the calls of [end] between
    their verification and the ending's lock.  A mutex poisoned by a panic, and the time of the last write, which
    only the stall timer reads, are not modelled. *)
Record Slot := {
  sl_sink : option Sink;
  sl_installed : bool;
  sl_cancelled : bool;
  sl_kept : option text;
  sl_events : list SinkEvent;
  sl_pending : list Verified;
  sl_disk : Disk
}.

Definition set_sink (s : Slot) (k : option Sink) (ev : list SinkEvent) : Slot :=
  {| sl_sink := k; sl_installed := sl_installed s; sl_cancelled := sl_cancelled s; sl_kept := sl_kept s;
     sl_events := sl_events s ++ ev; sl_pending := sl_pending s; sl_disk := sl_disk s |}.

Section Slot.
Context `{U : Unicode, C : Crypto, J : Json} (w : World).

Definition install (k : Sink) (s : Slot) : Slot :=
  {| sl_sink := Some k; sl_installed := true; sl_cancelled := sl_cancelled s; sl_kept := sl_kept s;
     sl_events := sl_events s; sl_pending := sl_pending s; sl_disk := sl_disk s |}.

(** The sink, if it belongs to [transfer]. *)
Definition ours (transfer : text) (s : Slot) : option Sink :=
  match sl_sink s with
  | Some k => if bool_decide (sk_transfer k = transfer) then Some k else None
  | None => None
  end.

(** [SinkSlot::take]. *)
Definition take_sink (transfer : text) (s : Slot) : option Sink * Slot :=
  match ours transfer s with
  | Some k => (Some k, set_sink s None [])
  | None => (None, s)
  end.

(** [SinkSlot::write], all of it under the sink's lock. *)
Definition slot_write (io : option (IoError * nat)) (transfer : text) (offset : Z) (bytes : list byte)
    (s : Slot) : result SinkError unit * Slot :=
  match ours transfer s with
  | None => (Err (SFailed "no transfer is receiving"), s)
  | Some k =>
      match write io offset bytes k with
      | (Ok ack, k) =>
          (Ok tt, set_sink s (Some k) match ack with Some acked => [EProgress acked] | None => [] end)
      | (Err e, _) => (Err e, set_sink s None [EFailed e])
      end
  end.

(** [SinkSlot::end] up to the ending's lock: the sink is taken and verified. *)
Definition end_begin (io : VerifyIo) (transfer : text) (digest : list byte) (size : Z) (s : Slot)
    : result SinkError unit * Slot :=
  match take_sink transfer s with
  | (None, s) => (Err (SFailed "no transfer is receiving"), s)
  | (Some k, s) =>
      let s := set_sink s None [EVerifying] in
      match verify io digest size k with
      | Err e => (Err e, set_sink s None [EFailed e])
      | Ok v =>
          (Ok tt, {| sl_sink := sl_sink s; sl_installed := sl_installed s;
                     sl_cancelled := sl_cancelled s; sl_kept := sl_kept s; sl_events := sl_events s;
                     sl_pending := v :: sl_pending s; sl_disk := sl_disk s |})
      end
  end.

(** The rest of [SinkSlot::end], under the ending's lock: [rest] are the
    other calls waiting for it. *)
Definition end_finish (v : Verified) (rest : list Verified) (s : Slot) : result SinkError text * Slot :=
  let with_ kept ev disk :=
    {| sl_sink := sl_sink s; sl_installed := sl_installed s; sl_cancelled := sl_cancelled s;
       sl_kept := kept; sl_events := sl_events s ++ ev; sl_pending := rest; sl_disk := disk |} in
  if sl_cancelled s
  then (Err (SFailed "the transfer was stopped"), with_ (sl_kept s) [] (sl_disk s))
  else
    match keep_verified w v (sl_disk s) with
    | (Ok k, d) => (Ok k, with_ (Some k) [EKept k] d)
    | (Err e, d) => (Err e, with_ (sl_kept s) [EFailed e] d)
    end.

Definition abort (transfer : text) (s : Slot) : Slot := (take_sink transfer s).2.

(** [SinkSlot::cancel]: the part under the ending's lock, and the part that
    drops the sink. *)
Definition cancel_ending (s : Slot) : option text * Slot :=
  let cancelled := match sl_kept s with None => true | Some _ => sl_cancelled s end in
  (sl_kept s,
   {| sl_sink := sl_sink s; sl_installed := sl_installed s; sl_cancelled := cancelled;
      sl_kept := sl_kept s; sl_events := sl_events s; sl_pending := sl_pending s;
      sl_disk := sl_disk s |}).

Definition cancel_drop (s : Slot) : Slot := set_sink s None [].

Definition slot_kept (s : Slot) : option text := sl_kept s.
Definition holds (s : Slot) : bool := match sl_sink s with Some _ => true | None => false end.

(** Every interleaving of the calls.  The session installs one sink, a new one
    for the manifest it accepted. *)
Inductive slot_step : Slot -> Slot -> Prop :=
| step_install io transfer key m k s : sl_installed s = false -> 0 <= m_size m ->
    create io transfer key m = Ok k -> slot_step s (install k s)
| step_write io transfer offset bytes s : slot_step s (slot_write io transfer offset bytes s).2
| step_end io transfer digest size s : slot_step s (end_begin io transfer digest size s).2
| step_finish v before after s : sl_pending s = before ++ v :: after ->
    slot_step s (end_finish v (before ++ after) s).2
| step_abort transfer s : slot_step s (abort transfer s)
| step_cancel s : slot_step s (cancel_ending s).2
| step_drop s : slot_step s (cancel_drop s).
End Slot.

(** [controls()]. *)
Definition new_slot (d : Disk) : Slot :=
  {| sl_sink := None; sl_installed := false; sl_cancelled := false; sl_kept := None; sl_events := [];
     sl_pending := []; sl_disk := d |}.
