(* ===== verification/DirectSinkProofs.v ===== *)
(** * What the sink keeps

    [verify_sound]: a verified plaintext is the one the offered manifest, key
    and END describe.  [writes_deliver]: an envelope written frame by frame is
    verified and kept.  [slot_inv_step]: however the calls interleave, what is
    recorded as kept is what was placed. *)
From S2P Require Import Prelude EnvelopeFormat EnvelopeName EnvelopeKey Envelope EnvelopeProofs EnvelopeCanon.
From S2P Require Import DirectText DirectFrames DirectPath DirectReceived DirectReceivedProofs DirectMessages DirectSink.

Section SinkProofs.
Context `{U : Unicode, C : Crypto, J : Json} {UL : UnicodeLaws U} {CL : CryptoLaws C} {JL : JsonLaws J}.

(** A sink and the bytes it has acknowledged to the caller. *)
Inductive sink_reach (key : InputKey) (m : Manifest) : list byte -> Sink -> Prop :=
| reach_create f t s : create f t key m = Ok s -> sink_reach key m [] s
| reach_write io offset bytes sent s ack s' : sink_reach key m sent s ->
    write io offset bytes s = (Ok ack, s') -> sink_reach key m (sent ++ bytes) s'
| reach_fail io offset bytes sent s e s' : sink_reach key m sent s ->
    write io offset bytes s = (Err e, s') -> sink_reach key m sent s'.

Record sink_inv (key : InputKey) (m : Manifest) (sent : list byte) (s : Sink) : Prop := {
  si_key : sk_key s = key;
  si_manifest : sk_manifest s = m;
  si_total : manifest_bytes m = Some (sk_total s);
  si_size : m_size m <= MAX_FILE_BYTES;
  si_written : sk_written s = blen sent;
  si_envelope : sk_broken s = false -> sk_envelope s = sent;
  si_bound : blen sent <= sk_total s;
  si_acked : 0 <= sk_acked s <= sk_written s;
  si_owed : sk_written s - sk_acked s < ACK_EVERY_BYTES;
  si_last : sk_written s = sk_total s -> sk_acked s = sk_total s
}.

Lemma manifest_bytes_pos m n : 0 <= m_size m -> manifest_bytes m = Some n -> 0 < n.
Proof.
  unfold manifest_bytes, envelope_bytes. intros Hm. destruct (layout _ _ _ _) as [l|] eqn:E; [|done].
  intros [= <-]. pose proof (layout_ok _ _ _ _ _ E Hm) as Hl.
  destruct (layout_geometry _ _ _ Hl Hm) as (G1 & G2 & G3 & G4).
  unfold envelope_len_for, HEADER_BYTES, TAG_BYTES, MIN_PADDING_BUCKET in *.
  pose proof (div_ceil_pos (plaintext_len l) CHUNK_BYTES ltac:(done) ltac:(lia)). lia.
Qed.

Lemma create_inv f t key m s : 0 <= m_size m -> create f t key m = Ok s -> sink_inv key m [] s.
Proof.
  unfold create. intros Hm. destruct (Z.ltb_spec MAX_FILE_BYTES (m_size m)); [done|].
  destruct (manifest_bytes m) as [n|] eqn:E; [|done]. cbn [ok_or]. destruct f; [done|].
  intros [= <-]. pose proof (manifest_bytes_pos m n Hm E).
  split; cbn; change (blen []) with 0; try done; unfold ACK_EVERY_BYTES; lia.
Qed.

Lemma break_inv key m sent s x : sink_inv key m sent s ->
  sk_key x = sk_key s -> sk_manifest x = sk_manifest s -> sk_total x = sk_total s ->
  sk_written x = sk_written s -> sk_acked x = sk_acked s -> sink_inv key m sent (break x).
Proof.
  intros [I1 I2 I3 I4 I5 I6 I7 I8 I9 I10] E1 E2 E3 E4 E5.
  split; cbn; rewrite ?E1, ?E2, ?E3, ?E4, ?E5; done.
Qed.

Lemma write_inv key m sent s io offset bytes r s' : sink_inv key m sent s ->
  write io offset bytes s = (r, s') ->
  match r with
  | Ok ack => sink_inv key m (sent ++ bytes) s' /\ offset = blen sent /\ blen bytes <> 0 /\
              sk_broken s' = false /\ ack = ack_due (blen sent + blen bytes) (sk_acked s) (sk_total s)
  | Err _ => sink_inv key m sent s' /\ sk_broken s' = true
  end.
Proof.
  intros I H. unfold write in H.
  assert (forall x e, (Err e, break x) = (r, s') -> sk_key x = sk_key s -> sk_manifest x = sk_manifest s ->
    sk_total x = sk_total s -> sk_written x = sk_written s -> sk_acked x = sk_acked s ->
    r = Err e /\ sink_inv key m sent s' /\ sk_broken s' = true) as Hbreak.
  { intros x e [= <- <-] **. split_and!; [done|by apply (break_inv _ _ _ s)|done]. }
  destruct (sk_broken s) eqn:Hb; [by apply Hbreak in H as (-> & H)|].
  destruct ((blen bytes =? 0) || _) eqn:Hlen; [by apply Hbreak in H as (-> & H)|].
  destruct (Z.eqb_spec offset (sk_written s)) as [-> |]; cbn [negb] in H; [|by apply Hbreak in H as (-> & H)].
  destruct (Z.ltb_spec (sk_total s - sk_written s) (blen bytes)); [by apply Hbreak in H as (-> & H)|].
  destruct io as [[e n]|]; cbn [write_file] in H; [by apply Hbreak in H as (-> & H)|].
  destruct I as [I1 I2 I3 I4 I5 I6 I7 I8 I9 I10].
  injection H as <- <-. cbn [sk_written sk_acked sk_total sk_key sk_manifest sk_envelope sk_broken].
  pose proof (blen_nonneg bytes). rewrite I5.
  pose proof (ack_due_bound (blen sent + blen bytes) (sk_acked s) (sk_total s) ltac:(lia)) as (A1 & A2 & A3).
  split_and!; try done; [|lia].
  assert (0 <= default (sk_acked s) (ack_due (blen sent + blen bytes) (sk_acked s) (sk_total s))).
  { unfold ack_due. destruct (_ && _); cbn; [pose proof (blen_nonneg sent); lia|lia]. }
  split; cbn; rewrite ?blen_app; try done; try lia. intros _. by rewrite I6.
Qed.

Lemma reach_inv key m sent s : 0 <= m_size m -> sink_reach key m sent s -> sink_inv key m sent s.
Proof.
  intros Hm. induction 1 as [f t s H|io offset bytes sent s ack s' _ IH H|io offset bytes sent s e s' _ IH H].
  - by eapply create_inv.
  - by apply (write_inv _ _ _ _ _ _ _ _ _ IH) in H as [H _].
  - by apply (write_inv _ _ _ _ _ _ _ _ _ IH) in H as [H _].
Qed.

Definition direct_limits : Limits := {| max_source_bytes := MAX_FILE_BYTES |}.

(** What the offer describes: [env] is [plain] sealed under [key] with the
    manifest's name and type, of the manifest's size. *)
Definition offered (key : InputKey) (m : Manifest) (plain env : list byte) : Prop :=
  blen plain = m_size m /\
  exists fresh, fresh_ok fresh /\
    seal_bytes (Some fresh) key (m_name m) (m_media_type m) plain direct_limits = Ok env.

Lemma verify_sound key m sent s io digest size v :
  0 <= m_size m -> sink_reach key m sent s -> verify io digest size s = Ok v ->
  offered key m (v_plain v) sent /\ v_name v = m_name m /\
  blen sent = sk_total s /\ size = m_size m /\ sha256 (v_plain v) = digest.
Proof.
  intros Hm R H. apply reach_inv in R as [I1 I2 I3 I4 I5 I6 I7 I8 I9 I10]; [|done]. unfold verify in H.
  destruct (sk_broken s); [done|]. specialize (I6 eq_refl).
  destruct (Z.eqb_spec (sk_written s) (sk_total s)) as [Hw|]; [|done]. cbn [negb] in H.
  destruct (Z.eqb_spec size (m_size (sk_manifest s))) as [Hs|]; [|done]. cbn [negb] in H.
  destruct (fails (v_sync io) _); [|done].
  unfold decrypt_file_to_private_temp in H. destruct (v_decrypt io); [done|].
  destruct (open_bytes _ _ _) as [[md plain]|] eqn:Ho; [|done]. cbn [map_err] in H.
  destruct (_ && _ && _) eqn:Emd; [|done]. cbn [negb] in H.
  destruct (fails (v_read io) _); [|done]. cbv beta iota delta [digest_of] in H.
  destruct ((blen plain =? size) && _) eqn:Ed; cbn [negb] in H; [|done]. injection H as <-. cbn [v_plain v_name].
  apply andb_prop in Emd as [[En%bool_decide_eq_true Es%Z.eqb_eq]%andb_prop Et%bool_decide_eq_true].
  apply andb_prop in Ed as [El%Z.eqb_eq Edig%bool_decide_eq_true].
  rewrite I1, I6 in Ho. rewrite I2 in *. apply open_then_seal in Ho as (H1 & H2 & H3 & H4).
  split_and!; try done; try congruence. unfold offered. rewrite <- En, <- Et. split; [congruence|done].
Qed.

(** ** Delivery *)

(** Each piece written where the last one ended. *)
Fixpoint write_all_pieces (pieces : list (list byte)) (s : Sink) : result SinkError (list Z) * Sink :=
  match pieces with
  | [] => (Ok [], s)
  | p :: pieces =>
      match write None (sk_written s) p s with
      | (Err e, s) => (Err e, s)
      | (Ok ack, s) =>
          match write_all_pieces pieces s with
          | (Err e, s) => (Err e, s)
          | (Ok acks, s) => (Ok (option_list ack ++ acks), s)
          end
      end
  end.

(** A piece that fits a DATA frame. *)
Definition piece_ok (p : list byte) : Prop := 0 < blen p <= FRAME_BYTES - DATA_HEADER_BYTES.

Lemma write_piece key m sent s p : sink_inv key m sent s -> sk_broken s = false -> piece_ok p ->
  blen sent + blen p <= sk_total s ->
  exists ack s', write None (blen sent) p s = (Ok ack, s') /\ sink_inv key m (sent ++ p) s' /\
    sk_broken s' = false /\ sk_total s' = sk_total s /\ ack = ack_due (blen sent + blen p) (sk_acked s) (sk_total s).
Proof.
  intros I Hb Hp Hfit. destruct (write None (blen sent) p s) as [r s'] eqn:E.
  pose proof (write_inv _ _ _ _ _ _ _ _ _ I E) as W. unfold piece_ok, FRAME_BYTES, DATA_HEADER_BYTES in Hp.
  unfold write in E. rewrite Hb, (si_written _ _ _ _ I) in E.
  destruct ((blen p =? 0) || (FRAME_BYTES <? blen p)) eqn:E1; [unfold FRAME_BYTES in E1; lia|].
  rewrite Z.eqb_refl in E. cbn [negb] in E.
  destruct (Z.ltb_spec (sk_total s - blen sent) (blen p)); [lia|]. cbn [write_file] in E.
  injection E as <- <-. eexists _, _. split; [done|]. destruct W as (W1 & _ & _ & W2 & W3). done.
Qed.

Lemma write_pieces key m pieces : forall sent s, sink_inv key m sent s -> sk_broken s = false ->
  Forall piece_ok pieces -> blen sent + blen (concat pieces) = sk_total s ->
  exists acks s', write_all_pieces pieces s = (Ok acks, s') /\
    sink_inv key m (sent ++ concat pieces) s' /\ sk_broken s' = false /\ sk_total s' = sk_total s /\
    (pieces <> [] -> last acks = Some (sk_total s)).
Proof.
  induction pieces as [|p pieces IH]; intros sent s I Hb Hp Hfit.
  { exists [], s. cbn. rewrite app_nil_r. done. }
  apply Forall_cons in Hp as [Hp Hps]. cbn [concat] in Hfit. rewrite blen_app in Hfit.
  pose proof (blen_nonneg (concat pieces)) as Hn.
  destruct (write_piece key m sent s p I Hb Hp ltac:(lia)) as (ack & s1 & W & I1 & Hb1 & Ht1 & Hack).
  destruct (IH (sent ++ p) s1 I1 Hb1 Hps) as (acks & s2 & W2 & I2 & Hb2 & Ht2 & Hl).
  { rewrite blen_app. lia. }
  cbn [write_all_pieces]. rewrite (si_written _ _ _ _ I), W, W2. eexists _, _. split; [done|].
  cbn [concat]. rewrite app_assoc. split_and!; try done; [congruence|]. intros _.
  destruct pieces as [|p' pieces].
  - cbn in W2. injection W2 as <- <-. rewrite app_nil_r. cbn in Hfit. change (blen []) with 0 in *.
    destruct I. unfold piece_ok in Hp. rewrite Hack. unfold ack_due.
    destruct (_ && _) eqn:Ea; [cbn; f_equal; lia|].
    exfalso. rewrite si_written0 in *. lia.
  - rewrite last_app, Hl by done. f_equal. congruence.
Qed.

Lemma pieces_reach key m pieces : forall sent s acks s', sink_reach key m sent s ->
  write_all_pieces pieces s = (Ok acks, s') ->
  sink_reach key m (sent ++ concat pieces) s' /\ sk_transfer s' = sk_transfer s.
Proof.
  induction pieces as [|p pieces IH]; intros sent s acks s' Hr H; cbn [write_all_pieces] in H.
  { injection H as <- <-. cbn. by rewrite app_nil_r. }
  destruct (write None (sk_written s) p s) as [[ack|e] s1] eqn:E; [|done].
  destruct (write_all_pieces pieces s1) as [[acks'|e] s2] eqn:E2; [|done]. injection H as _ <-.
  cbn [concat]. rewrite app_assoc.
  destruct (IH (sent ++ p) s1 acks' s2) as [H1 H2]; [by eapply reach_write|done|].
  split; [done|]. rewrite H2. unfold write in E. repeat (destruct (_ : bool) in E; [by destruct s1|]).
  by injection E as _ <-.
Qed.

(** The manifest's type is one the envelope takes as it is. *)
Lemma media_type_fixed mt : valid_media_type mt = true -> normalise_media_type mt = Ok mt.
Proof.
  intros [[Hl Hc]%andb_prop Hlow%bool_decide_eq_true]%andb_prop. unfold normalise_media_type.
  destruct mt as [|c t]; [done|]. rewrite Hlow. apply negb_true_iff in Hc. rewrite Hc.
  unfold between in Hl. rewrite (proj2 (Z.ltb_ge MAX_MEDIA_TYPE_UTF16 _)); [done|].
  unfold MAX_MEDIA_TYPE_UTF16. lia.
Qed.

(** Offsets in it are offsets a page can hold. *)
Lemma sealed_bound fresh key nm mt plain env :
  fresh_ok fresh -> seal_bytes (Some fresh) key nm mt plain direct_limits = Ok env -> blen env < 2 ^ 53.
Proof.
  intros Hf H. unfold seal_bytes, encrypt in H. cbn [ok_or] in H.
  destruct (encrypt_with _ _ _ _ _ _ _ _ _) as [[sealed w']|] eqn:Hrun; [|done]. injection H as <-.
  apply encrypt_then_decrypt in Hrun as (e & l & Hl & Hw & _ & _ & _ & _ & Hsize & _);
    [|done|apply blen_nonneg].
  cbn [mem_writer w_out app] in Hw. rewrite Hw, Hsize. pose proof (blen_nonneg plain) as Hp.
  apply layout_ok in Hl; [|done]. destruct (layout_geometry _ _ _ Hl Hp) as (G1 & _ & _ & _).
  pose proof (ls_max _ _ _ Hl) as Hm. change (max_records direct_limits) with 239 in Hm.
  unfold envelope_len_for. rewrite <- (ls_records _ _ _ Hl).
  unfold CHUNK_BYTES, HEADER_BYTES, TAG_BYTES in *. lia.
Qed.

Definition no_faults : VerifyIo := {| v_sync := None; v_decrypt := None; v_read := None |}.

(** END accepts the envelope that was offered. *)
Lemma verify_complete key m s plain fresh env :
  sink_inv key m env s -> sk_broken s = false -> blen env = sk_total s ->
  valid_name (m_name m) = true -> valid_media_type (m_media_type m) = true ->
  m_size m = blen plain -> fresh_ok fresh ->
  seal_bytes (Some fresh) key (m_name m) (m_media_type m) plain direct_limits = Ok env ->
  verify no_faults (sha256 plain) (m_size m) s = Ok {| v_plain := plain; v_name := m_name m |}.
Proof.
  intros I Hb Ht Hn%bool_decide_eq_true Hmt%media_type_fixed Hs Hf Hseal.
  unfold verify. rewrite Hb, (si_written _ _ _ _ I), Ht, Z.eqb_refl, (si_manifest _ _ _ _ I), Z.eqb_refl.
  cbn [negb fails no_faults v_sync v_decrypt v_read decrypt_file_to_private_temp].
  rewrite (si_key _ _ _ _ I), (si_envelope _ _ _ _ I Hb).
  change {| max_source_bytes := MAX_FILE_BYTES |} with direct_limits.
  rewrite (seal_then_open fresh key env direct_limits
    {| name := m_name m; size := m_size m; media_type := m_media_type m |} plain Hs Hn Hmt Hf Hseal).
  cbn [map_err name EnvelopeFormat.size media_type]. rewrite !bool_decide_eq_true_2, !Z.eqb_refl by done.
  cbn [andb negb digest_of]. by rewrite Hs, Z.eqb_refl, bool_decide_eq_true_2.
Qed.

Lemma create_complete key m plain fresh env t :
  valid_name (m_name m) = true -> valid_media_type (m_media_type m) = true ->
  m_size m = blen plain -> m_size m <= MAX_FILE_BYTES -> fresh_ok fresh ->
  seal_bytes (Some fresh) key (m_name m) (m_media_type m) plain direct_limits = Ok env ->
  exists s, create None t key m = Ok s /\ sk_total s = blen env /\ sk_broken s = false /\
    sink_inv key m [] s.
Proof.
  intros Hn Hmt Hs Hmax Hf Hseal.
  assert (create None t key m = Ok {| sk_transfer := t; sk_key := key; sk_manifest := m;
    sk_total := blen env; sk_envelope := []; sk_written := 0; sk_acked := 0; sk_broken := false |}) as Hc.
  { unfold create. rewrite (proj2 (Z.ltb_ge _ _) Hmax). unfold manifest_bytes. rewrite Hs.
    by rewrite (sealed_size fresh key _ _ plain direct_limits env) by (done || (unfold MAX_FILE_BYTES, U64_MAX in *; lia)). }
  eexists. split; [exact Hc|]. split_and!; [done..|]. eapply create_inv; [|exact Hc].
  rewrite Hs. apply blen_nonneg.
Qed.

(** ** Frames into the sink *)

(** The DATA frames of the pieces, from [offset] on. *)
Fixpoint data_frames (offset : Z) (pieces : list (list byte)) : list Frame :=
  match pieces with
  | [] => []
  | p :: pieces => Data offset p :: data_frames (offset + blen p) pieces
  end.

(** What the window does with the messages it gets: each DATA frame is
    written at its offset. *)
Fixpoint receive (messages : list (list byte)) (s : Sink) : result SinkError (list Z) * Sink :=
  match messages with
  | [] => (Ok [], s)
  | b :: messages =>
      match DirectFrames.decode Sender b with
      | Ok (Data offset bytes) =>
          match write None offset bytes s with
          | (Err e, s) => (Err e, s)
          | (Ok ack, s) =>
              match receive messages s with
              | (Err e, s) => (Err e, s)
              | (Ok acks, s) => (Ok (option_list ack ++ acks), s)
              end
          end
      | _ => (Err (SFailed "a frame the protocol does not allow"), s)
      end
  end.

Lemma encode_data offset p : piece_ok p -> 0 <= offset < 2 ^ 53 ->
  exists b, DirectFrames.encode (Data offset p) = Some b /\ DirectFrames.decode Sender b = Ok (Data offset p).
Proof.
  intros Hp Ho. unfold piece_ok, FRAME_BYTES, DATA_HEADER_BYTES in Hp.
  destruct (DirectFrames.encode (Data offset p)) as [b|] eqn:E.
  - exists b. split; [done|]. by eapply decode_encode.
  - cbn in E. destruct (_ || _) eqn:E' in E; [|done]. unfold FRAME_BYTES, DATA_HEADER_BYTES in E'. lia.
Qed.

Lemma receive_pieces key m pieces messages : forall sent s, sink_inv key m sent s ->
  sk_broken s = false -> sk_total s < 2 ^ 53 -> Forall piece_ok pieces ->
  blen sent + blen (concat pieces) <= sk_total s ->
  Forall2 (fun f b => DirectFrames.encode f = Some b) (data_frames (blen sent) pieces) messages ->
  receive messages s = write_all_pieces pieces s.
Proof.
  revert messages. induction pieces as [|p pieces IH]; intros messages sent s I Hb Ht Hp Hfit H; cbn [data_frames] in H.
  { by apply Forall2_nil_inv_l in H as ->. }
  apply Forall2_cons_inv_l in H as (b & ms & Eb & Hms & ->).
  apply Forall_cons in Hp as [Hp Hps]. cbn [concat] in Hfit. rewrite blen_app in Hfit.
  pose proof (blen_nonneg (concat pieces)). pose proof (blen_nonneg sent). pose proof (proj1 Hp).
  destruct (encode_data (blen sent) p Hp ltac:(lia)) as (b' & Eb' & Hd).
  rewrite Eb in Eb'. injection Eb' as <-.
  destruct (write_piece key m sent s p I Hb Hp ltac:(lia)) as (ack & s1 & W & I1 & Hb1 & Ht1 & _).
  cbn [receive write_all_pieces]. rewrite Hd, (si_written _ _ _ _ I), W.
  rewrite (IH ms (sent ++ p) s1); [done..|congruence|done|rewrite blen_app; lia|by rewrite blen_app].
Qed.

Lemma frames_exist offset pieces : 0 <= offset -> offset + blen (concat pieces) < 2 ^ 53 ->
  Forall piece_ok pieces ->
  exists messages, Forall2 (fun f b => DirectFrames.encode f = Some b) (data_frames offset pieces) messages.
Proof.
  revert offset. induction pieces as [|p pieces IH]; intros offset Ho Hfit Hp; [by exists []|].
  apply Forall_cons in Hp as [Hp Hps]. cbn [concat] in Hfit. rewrite blen_app in Hfit.
  pose proof (blen_nonneg (concat pieces)). pose proof (proj1 Hp).
  destruct (encode_data offset p Hp ltac:(lia)) as (b & Eb & _).
  destruct (IH (offset + blen p) ltac:(lia) ltac:(lia) Hps) as (ms & Hms).
  exists (b :: ms). cbn. by constructor.
Qed.

(** ** The slot *)

Definition count {A} (o : option A) : nat := match o with Some _ => 1 | None => 0 end.

(** One sink in all, in the slot, being ended, or kept; what is kept was
    reported; a cancelled transfer kept nothing. *)
Record slot_inv (s : Slot) : Prop := {
  sv_one : (count (sl_sink s) + length (sl_pending s) + count (sl_kept s)
            <= if sl_installed s then 1 else 0)%nat;
  sv_cancelled : sl_cancelled s = true -> sl_kept s = None;
  sv_events : forall t, EKept t ∈ sl_events s <-> sl_kept s = Some t
}.

Lemma new_slot_inv d : slot_inv (new_slot d).
Proof. split; cbn; [lia|done|]. intros t. split; [intros H; by apply elem_of_nil in H|done]. Qed.

(** Events other than the report of a kept file. *)
Definition no_report (ev : list SinkEvent) : Prop := forall t, EKept t ∉ ev.

Lemma sv_events_more s ev : no_report ev -> (forall t, EKept t ∈ sl_events s <-> sl_kept s = Some t) ->
  forall t, EKept t ∈ sl_events s ++ ev <-> sl_kept s = Some t.
Proof. intros Hev H t. rewrite elem_of_app, H. split; [intros [?|?]; [done|by destruct (Hev t)]|by left]. Qed.

Lemma no_report_nil : no_report [].
Proof. intros t. apply not_elem_of_nil. Qed.
Lemma no_report_one e : (forall t, e <> EKept t) -> no_report [e].
Proof. intros H t Ht%list_elem_of_singleton. by apply (H t). Qed.
Hint Resolve no_report_nil : core.
Hint Extern 1 (no_report [_]) => by apply no_report_one : core.

Lemma set_sink_inv s k ev : slot_inv s -> (count k <= count (sl_sink s))%nat -> no_report ev ->
  slot_inv (set_sink s k ev).
Proof. intros [H1 H2 H3] Hk Hev. split; cbn; [lia|done|by apply sv_events_more]. Qed.

Lemma take_sink_inv t s : slot_inv s -> slot_inv (take_sink t s).2.
Proof.
  intros I. unfold take_sink. destruct (ours t s); [|done]. apply set_sink_inv; [done|cbn; lia|done].
Qed.

Lemma ours_sink t s k : ours t s = Some k -> sl_sink s = Some k.
Proof. unfold ours. destruct (sl_sink s) as [k'|]; [|done]. by destruct (bool_decide _). Qed.

Lemma ours_count t s k : ours t s = Some k -> count (sl_sink s) = 1%nat.
Proof. by intros ->%ours_sink. Qed.

Lemma slot_inv_step w s s' : slot_inv s -> slot_step w s s' -> slot_inv s'.
Proof.
  intros I H. pose proof I as [H1 H2 H3].
  destruct H as [io t key m k s Hi Hm Hc|io t offset bytes s|io t digest size s|v before after s Hv|t s|s|s].
  - rewrite Hi in H1. split; cbn; [lia|done|done].
  - unfold slot_write. destruct (ours t s) as [k|] eqn:Eo; [|done]. apply ours_count in Eo.
    destruct (write io offset bytes k) as [[[]|e] k']; apply set_sink_inv; cbn; auto; lia.
  - unfold end_begin, take_sink. destruct (ours t s) as [k|] eqn:Eo; [|done]. apply ours_count in Eo.
    destruct (verify io digest size k) as [v|e].
    + split; cbn; [lia|done|]. rewrite app_nil_r. apply sv_events_more; auto.
    + apply set_sink_inv; [apply set_sink_inv; [apply set_sink_inv; [done|cbn; lia|done]|done|auto]|done|auto].
  - rewrite Hv, length_app in H1. cbn in H1.
    assert (length (before ++ after) = (length before + length after)%nat) as Hl by apply length_app.
    unfold end_finish. destruct (sl_cancelled s) eqn:Ec.
    { split; cbn; [lia|auto|]. by apply sv_events_more. }
    assert (sl_kept s = None) as Hnone.
    { destruct (sl_kept s); [|done]. cbn in H1. destruct (sl_installed s); lia. }
    rewrite Hnone in *. cbn in H1.
    destruct (keep_verified w v (sl_disk s)) as [[k|e] d]; split; cbn; rewrite ?Ec, ?Hnone; try done; try lia.
    + intros t. rewrite elem_of_app, H3, list_elem_of_singleton. split; [intros [?|[= ->]]; done|].
      intros [= ->]. by right.
    + intros t. rewrite elem_of_app, H3, list_elem_of_singleton. split; [intros [?|?]; done|done].
  - by apply take_sink_inv.
  - split; cbn; [done| |done]. destruct (sl_kept s) eqn:Ek; [|done]. exact H2.
  - apply set_sink_inv; [done|cbn; lia|done].
Qed.

Lemma slot_inv_steps w s s' : slot_inv s -> rtc (slot_step w) s s' -> slot_inv s'.
Proof. intros I H. induction H; [done|]. by eauto using slot_inv_step. Qed.

(** An ending once decided stays. *)
Lemma cancelled_stays w s s' : slot_step w s s' -> sl_cancelled s = true ->
  sl_cancelled s' = true /\ sl_kept s' = sl_kept s /\ sl_disk s' = sl_disk s.
Proof.
  intros H Hc.
  destruct H as [io t key m k s Hi Hm Hcr|io t offset bytes s|io t digest size s|v before after s Hv|t s|s|s]; cbn; try done.
  - unfold slot_write. destruct (ours t s) as [k|]; [|done]. by destruct (write io offset bytes k) as [[]].
  - unfold end_begin, take_sink. destruct (ours t s); [|done]. by destruct (verify _ _ _ _).
  - unfold end_finish. by rewrite Hc.
  - unfold abort, take_sink. by destruct (ours t s).
  - split; [|done]. cbn. by destruct (sl_kept s).
Qed.

Lemma kept_stays w s s' k : slot_inv s -> slot_step w s s' -> sl_kept s = Some k ->
  sl_kept s' = Some k /\ sl_disk s' = sl_disk s.
Proof.
  intros [H1 H2 H3] H Hk. rewrite Hk in H1. cbn in H1.
  destruct H as [io t key m k' s Hi Hm Hcr|io t offset bytes s|io t digest size s|v before after s Hv|t s|s|s]; cbn; try done.
  - unfold slot_write. destruct (ours t s) as [k'|]; [|done]. by destruct (write io offset bytes k') as [[]].
  - unfold end_begin, take_sink. destruct (ours t s); [|done]. by destruct (verify _ _ _ _).
  - rewrite Hv, length_app in H1. cbn in H1. destruct (sl_installed s); lia.
  - unfold abort, take_sink. by destruct (ours t s).
Qed.

Lemma cancelled_forever w s s' : rtc (slot_step w) s s' -> sl_cancelled s = true ->
  sl_kept s' = sl_kept s /\ sl_disk s' = sl_disk s.
Proof.
  induction 1 as [s|s s1 s' H _ IH]; [done|]. intros Hc.
  destruct (cancelled_stays _ _ _ H Hc) as (H1 & H2 & H3). destruct (IH H1) as [H4 H5].
  by rewrite H4, H5.
Qed.

Lemma kept_forever w s s' k : slot_inv s -> rtc (slot_step w) s s' -> sl_kept s = Some k ->
  sl_kept s' = Some k /\ sl_disk s' = sl_disk s.
Proof.
  intros I H. revert I. induction H as [s|s s1 s' H _ IH]; [done|]. intros I Hk.
  destruct (kept_stays _ _ _ _ I H Hk) as [H1 H2]. destruct (IH (slot_inv_step _ _ _ I H) H1) as [H3 H4].
  by rewrite H3, H4.
Qed.

(** ** The slot and the folder *)

(** A folder nobody else writes to, without the staging file. *)
Record own_folder (w : World) (d : Disk) : Prop := {
  of_steady : steady w;
  of_hidden : hidden (staging_name w);
  of_staging : received d !! staging_name w = None
}.

(** Bytes some transfer of this session described. *)
Definition described (v : Verified) : Prop :=
  exists key m sent, offered key m (v_plain v) sent /\ v_name v = m_name m.

(** What is in the folder, next to the folder [d] the session started with. *)
Record slot_folder (d : Disk) (s : Slot) : Prop := {
  sf_sink : forall k, sl_sink s = Some k ->
    exists key m sent, 0 <= m_size m /\ sink_reach key m sent k;
  sf_pending : Forall described (sl_pending s);
  sf_fresh : received (sl_disk s) = received d \/
    sl_installed s = true /\ sl_sink s = None /\ sl_pending s = [];
  sf_old : received d ⊆ received (sl_disk s);
  sf_kept : match sl_kept s with
    | Some t => received d !! t = None /\ exists v, described v /\ received (sl_disk s) !! t = Some (v_plain v)
    | None => received (sl_disk s) = received d \/ exists e, EFailed e ∈ sl_events s
    end
}.

Lemma new_slot_folder d : slot_folder d (new_slot d).
Proof. split; cbn; auto; done. Qed.

(** Steps that leave the folder alone. *)
Lemma slot_folder_same d s s' : slot_folder d s -> sl_disk s' = sl_disk s -> sl_kept s' = sl_kept s ->
  sl_events s ⊆ sl_events s' -> (sl_installed s = true -> sl_installed s' = true) ->
  (sl_installed s = true -> sl_sink s = None -> sl_sink s' = None) ->
  (sl_sink s = None -> sl_pending s = [] -> sl_pending s' = []) ->
  (forall k, sl_sink s' = Some k -> exists key m sent, 0 <= m_size m /\ sink_reach key m sent k) ->
  Forall described (sl_pending s') -> slot_folder d s'.
Proof.
  intros [F1 F2 F3 F4 F5] Ed Ek Ev Ei Es Ep Hs Hp. split; [done|done| |by rewrite Ed|].
  - rewrite Ed. destruct F3 as [?|(? & ? & ?)]; [by left|right; auto].
  - rewrite Ek, Ed. destruct (sl_kept s); [done|]. destruct F5 as [?|[e He]]; [by left|right]. exists e. by apply Ev.
Qed.

Lemma slot_folder_finish w d s v before after : own_folder w d -> slot_inv s -> slot_folder d s ->
  sl_pending s = before ++ v :: after -> slot_folder d (end_finish w v (before ++ after) s).2.
Proof.
  intros O [I1 I2 I3] F Hv. pose proof F as [F1 F2 F3 F4 F5]. rewrite Hv, length_app in I1. cbn in I1.
  assert (before = [] /\ after = [] /\ sl_sink s = None /\ sl_kept s = None /\ sl_installed s = true)
    as (-> & -> & Hsink & Hkept & Hinst).
  { destruct before, after, (sl_sink s), (sl_kept s), (sl_installed s); cbn in I1; (done || lia). }
  assert (received (sl_disk s) = received d) as Hfresh.
  { destruct F3 as [?|(_ & _ & Hn)]; [done|]. by rewrite Hv in Hn. }
  rewrite Hv in F2. apply Forall_cons in F2 as [Hd _]. cbn [app].
  unfold end_finish. destruct (sl_cancelled s).
  { apply (slot_folder_same d s); cbn; try done. by rewrite app_nil_r. }
  unfold keep_verified.
  pose proof (keep_ok w (of_steady _ _ O) (v_plain v) (sl_disk s) ltac:(rewrite Hfresh; apply (of_staging _ _ O))
    (v_name v) (put (sl_disk s) Temp (Some (v_plain v))) (of_hidden _ _ O)
    (grown_temp w _ _ _ _ (grown_refl w _ _)) eq_refl) as Hk.
  unfold wp in Hk. destruct (keep w (v_name v) _) as [r d']. cbn [fst snd] in Hk. destruct Hk as [[G1 _ _] Hr].
  rewrite Hfresh in G1, Hr. destruct r as [t|e]; cbn [map_err].
  - destruct Hr as (_ & H1 & H2). split; cbn; [by rewrite Hsink|constructor|by right|done|].
    split; [done|]. by exists v.
  - split; cbn; rewrite ?Hsink, ?Hkept; [done|constructor|by right|done|]. right. exists (io_error e "keep").
    apply elem_of_app. right. by apply list_elem_of_singleton.
Qed.

Lemma slot_folder_step w d s s' : own_folder w d -> slot_inv s -> slot_folder d s -> slot_step w s s' ->
  slot_folder d s'.
Proof.
  intros O I F H. pose proof F as [F1 F2 F3 F4 F5].
  destruct H as [io t key m k s Hi Hm Hc|io t offset bytes s|io t digest size s|v before after s Hv|t s|s|s].
  - apply (slot_folder_same d s); cbn; try done; [by rewrite Hi|]. intros k' [= <-].
    exists key, m, []. split; [done|by eapply reach_create].
  - unfold slot_write. destruct (ours t s) as [k|] eqn:Eo; [|done]. pose proof (ours_sink _ _ _ Eo) as Es.
    destruct (F1 k Es) as (key & m & sent & Hm & Hr).
    destruct (write io offset bytes k) as [[ack|e] k'] eqn:Ew; apply (slot_folder_same d s); cbn; try done;
      try set_solver; try congruence.
    intros k2 [= <-]. exists key, m, (sent ++ bytes). split; [done|by eapply reach_write].
  - unfold end_begin, take_sink. destruct (ours t s) as [k|] eqn:Eo; [|done]. pose proof (ours_sink _ _ _ Eo) as Es.
    destruct (F1 k Es) as (key & m & sent & Hm & Hr).
    destruct (verify io digest size k) as [v|e] eqn:Ev; apply (slot_folder_same d s); cbn; try done; try set_solver.
    constructor; [|done]. apply (verify_sound key m sent) in Ev as (Hoff & Hname & _); [|done..].
    by exists key, m, sent.
  - by apply slot_folder_finish.
  - unfold abort, take_sink. destruct (ours t s) as [k|]; [|done]. apply (slot_folder_same d s); cbn; try done; set_solver.
  - apply (slot_folder_same d s); cbn; done.
  - apply (slot_folder_same d s); cbn; try done; set_solver.
Qed.

Lemma slot_folder_steps w d s s' : own_folder w d -> slot_inv s -> slot_folder d s -> rtc (slot_step w) s s' ->
  slot_folder d s'.
Proof.
  intros O I F H. revert I F. induction H as [s|s s1 s' H _ IH]; [done|]. intros I F.
  apply IH; [by eapply slot_inv_step|by eapply slot_folder_step].
Qed.
End SinkProofs.
