(* ===== verification/DirectTheorems.v ===== *)
(** * Direct send: the theorems

    The guarantees of [desktop/src-tauri/src/drop/direct]: what a message
    stands for, what is kept of a transfer, that an honest transfer is kept,
    that keeping replaces nothing in a folder nobody else writes to while looks
    after failed hard links work ([steady]), and what the ending reported says
    of the disk; with a concrete run of each, and runs outside these bounds
    that replace a file ([replaced_when_blind]) and leave one after a failed
    END ([failed_end_may_leave_a_file]). *)
From S2P Require Import Prelude EnvelopeFormat EnvelopeName EnvelopeKey Envelope EnvelopeProofs EnvelopeCanon.
From S2P Require Import DirectText DirectJson DirectJsonReader DirectFrames DirectPath DirectReceived DirectReceivedProofs DirectMessages DirectMessagesProofs DirectSink DirectSinkProofs.

Section Theorems.
Context `{U : Unicode, B : Base64, R : JsonReader, C : Crypto, J : Json}.
Context {UL : UnicodeLaws U} {BL : Base64Laws B} {BA : Base64Ascii B} {RL : JsonReaderLaws R}.
Context {CL : CryptoLaws C} {JL : JsonLaws J}.

(** C17: of every message a sender may send, a reader accepts exactly one
    byte string, the one [encode] writes, and accepts it exactly when the
    event is due from that side at that index, the ICE servers are on its
    list, the name does not disguise itself and the size is within its
    maximum.  No other spelling of the JSON, order of members, number format
    or key text is accepted. *)
Theorem messages_read_iff_written (b : list byte) (cx : ReadContext) (m : Message)
  (Hsend : sendable m = true) :
  decode b cx = Ok m <-> typed m /\ encode m = Ok b /\ admits cx m = true.
Proof.
  split; [by apply encode_decode_message|]. intros (Ht & He & Ha). by apply decode_encode_message.
Qed.

(** C12: whatever bytes arrive in whatever writes, when END is processed on a
    folder nobody else writes to and whatever fails, except that the look at a
    name after a hard link to it could not be made works ([steady]): no file
    that was there is changed or replaced; the only file added is one whose
    bytes, sealed under the transfer's key with the manifest's name and type,
    are exactly the bytes that arrived (or a hidden staging copy); and if the
    sink reports the file kept, it is there under a name that was free and
    passes the name rules, with the manifest's size and END's SHA-256. *)
Theorem direct_keeps_only_the_offer (key : InputKey) (m : Manifest) (sent : list byte) (s : Sink)
  (io : VerifyIo) (w : World) (digest : list byte) (size : Z) (d : Disk)
  (Hm : 0 <= m_size m) (Hreach : sink_reach key m sent s) (Hw : steady w)
  (Hhidden : hidden (staging_name w)) (Hstaging : received d !! staging_name w = None) :
  let '(r, d') := end_ io w digest size s d in
  received d ⊆ received d' /\ clobbered d' = clobbered d /\
  (forall k v, received d' !! k = Some v -> received d !! k = None ->
     k = staging_name w \/ offered key m v sent) /\
  match r with
  | Ok t => exists plain,
      received d !! t = None /\ received d' !! t = Some plain /\ valid_component t = true /\
      offered key m plain sent /\ blen plain = m_size m /\ size = m_size m /\ sha256 plain = digest
  | Err _ => True
  end.
Proof.
  unfold end_. destruct (verify io digest size s) as [v|e] eqn:Ev; [|by split_and!; [..|congruence|]].
  apply (verify_sound key m sent) in Ev as (Hoff & Hname & _ & Hsize & Hdig); [|done..].
  unfold keep_verified.
  pose proof (keep_ok w Hw (v_plain v) d Hstaging (v_name v) (put d Temp (Some (v_plain v))) Hhidden
    (grown_temp w _ _ _ _ (grown_refl w _ _)) eq_refl) as Hk.
  unfold wp in Hk. destruct (keep w (v_name v) _) as [r d']. cbn [fst snd] in Hk.
  destruct Hk as [[G1 G2 G3] Hr]. split_and!; try done.
  - intros k c Hk Hn. destruct (G2 k c Hk Hn) as [-> | ->]; [by right|by left].
  - destruct r as [t|]; cbn [map_err]; [|done]. destruct Hr as ([n ->] & H1 & H2).
    exists (v_plain v). split_and!; try done; [apply candidate_valid|apply Hoff].
Qed.

(** C9: an honest transfer is kept: if the page seals a file of at most
    250,000,000 bytes under the key with the manifest's name and type, cuts
    the envelope into DATA frames in any way that fits, and END names its size
    and SHA-256, then, when no file operation fails and one of the 999 names
    is free, the sink is created, takes every frame, acknowledges the whole
    envelope, and leaves exactly that file, under a name that was free, as
    the only change to the folder; nothing is left in the temp directory. *)
Theorem direct_send_delivers (key : InputKey) (m : Manifest) (plain env : list byte) (fresh : Fresh)
  (pieces messages : list (list byte)) (w : World) (d : Disk) (transfer : text) (k : Z)
  (Hname : valid_name (m_name m) = true) (Htype : valid_media_type (m_media_type m) = true)
  (Hsize : m_size m = blen plain) (Hmax : m_size m <= MAX_FILE_BYTES) (Hfresh : fresh_ok fresh)
  (Hseal : seal_bytes (Some fresh) key (m_name m) (m_media_type m) plain direct_limits = Ok env)
  (Hpieces : Forall piece_ok pieces) (Henv : concat pieces = env)
  (Hmessages : Forall2 (fun f b => DirectFrames.encode f = Some b) (data_frames 0 pieces) messages)
  (Hcalm : calm w) (Hk : 1 <= k <= 999) (Hfree : received d !! candidate (m_name m) k = None) :
  exists s acks s' t d',
    create None transfer key m = Ok s /\ sk_total s = blen env /\
    receive messages s = (Ok acks, s') /\ last acks = Some (blen env) /\
    end_ no_faults w (sha256 plain) (m_size m) s' d = (Ok t, d') /\
    received d !! t = None /\ received d' = <[t := plain]> (received d) /\
    valid_component t = true /\ temp d' = None /\ clobbered d' = clobbered d.
Proof.
  destruct (create_complete key m plain fresh env transfer) as (s & Hc & Ht & Hb & I); try done.
  pose proof (sealed_bound fresh key _ _ plain env Hfresh Hseal) as Hbound.
  assert (pieces <> []) as Hne.
  { intros ->. cbn in Henv. pose proof (manifest_bytes_pos m (sk_total s)) as Hpos.
    rewrite (si_total _ _ _ _ I), Ht, <- Henv in Hpos. pose proof (blen_nonneg plain).
    change (blen []) with 0 in Hpos. specialize (Hpos ltac:(lia) eq_refl). lia. }
  destruct (write_pieces key m pieces [] s I Hb Hpieces) as (acks & s' & Hw & I' & Hb' & Ht' & Hl).
  { rewrite Henv, Ht. done. }
  rewrite <- (receive_pieces key m pieces messages [] s) in Hw; try done;
    [|by rewrite Ht|rewrite Henv, Ht; done].
  cbn [app] in I'. rewrite Henv in I'.
  pose proof (verify_complete key m s' plain fresh env I' Hb' ltac:(congruence) Hname Htype Hsize Hfresh Hseal) as Hv.
  destruct (keep_calm w Hcalm plain (m_name m) k (put d Temp (Some plain)) eq_refl Hk Hfree)
    as (t & d' & Hkeep & H1 & H2 & H3 & H4 & j & _ & Hj).
  exists s, acks, s', t, d'. split_and!; try done.
  - rewrite <- Ht. by apply Hl.
  - unfold end_. rewrite Hv. unfold keep_verified. cbn [v_plain v_name]. by rewrite Hkeep.
  - rewrite Hj. apply candidate_valid.
Qed.


(** Where hard links work, keeping a file replaces nothing even while
    other programs write to the folder: whatever they do between any two
    system calls and whatever fails, no rename ever lands on an existing
    file. *)
Theorem keeping_clobbers_nothing (w : World) (name : text) (d : Disk) (Hlink : linking w) :
  clobbered (keep w name d).2 = clobbered d.
Proof. pose proof (keep_respects w name Hlink d) as H. unfold unclobbered in H. exact H. Qed.
End Theorems.

(** ** Concrete instances *)

(** An ASCII code with base64's laws: 32 bytes as 43 digits of base 64, other
    lengths in hexadecimal. *)
Fixpoint digits64 (n : nat) (z : Z) : list byte :=
  match n with O => [] | S n => digits64 n (z / 64) ++ [z2b (48 + z mod 64)] end.

Definition value64 (l : list byte) : Z := foldl (fun a b => a * 64 + (b2z b - 48)) 0 l.

Fixpoint hex_bytes (l : list byte) : list byte :=
  match l with [] => [] | b :: l => z2b (65 + b2z b / 16) :: z2b (65 + b2z b mod 16) :: hex_bytes l end.

Fixpoint unhex (l : list byte) : list byte :=
  match l with h :: t :: l => z2b ((b2z h - 65) * 16 + (b2z t - 65)) :: unhex l | _ => [] end.

Definition ascii_base64 : Base64 :=
  {| b64_encode l := if decide (length l = 32%nat) then digits64 43 (be_value l) else hex_bytes l;
     b64_decode l := Some (if decide (length l = 43%nat) then be_bytes 32 (value64 l) else unhex l) |}.

Lemma length_digits64 n z : length (digits64 n z) = n.
Proof. revert z. induction n as [|n IH]; intros z; [done|]. cbn. rewrite length_app, IH. cbn. lia. Qed.

Lemma digit64_byte z : b2z (z2b (48 + z mod 64)) = 48 + z mod 64.
Proof. rewrite b2z_z2b. apply Z.mod_small. pose proof (Z.mod_pos_bound z 64). lia. Qed.

Lemma value64_digits n z : 0 <= z < 64 ^ Z.of_nat n -> value64 (digits64 n z) = z.
Proof.
  revert z. induction n as [|n IH]; intros z Hz.
  { change (64 ^ Z.of_nat 0) with 1 in Hz. cbn. lia. }
  rewrite Nat2Z.inj_succ, Z.pow_succ_r in Hz by lia. cbn [digits64]. unfold value64 in *.
  rewrite foldl_app, IH by (Z.to_euclidean_division_equations; lia). cbn [foldl].
  rewrite digit64_byte. Z.to_euclidean_division_equations; lia.
Qed.

Lemma digits64_ascii n z : Forall (fun b => b2z b < 128) (digits64 n z).
Proof.
  revert z. induction n as [|n IH]; intros z; cbn; [constructor|]. apply Forall_app. split; [done|].
  repeat constructor. rewrite digit64_byte. pose proof (Z.mod_pos_bound z 64). lia.
Qed.

Lemma nibble_byte x : 0 <= x < 16 -> b2z (z2b (65 + x)) = 65 + x.
Proof. intros Hx. rewrite b2z_z2b. apply Z.mod_small. lia. Qed.

Lemma nibbles b : 0 <= b2z b / 16 < 16 /\ 0 <= b2z b mod 16 < 16.
Proof. pose proof (b2z_range b). Z.to_euclidean_division_equations; lia. Qed.

Lemma unhex_hex l : unhex (hex_bytes l) = l.
Proof.
  induction l as [|b l IH]; [done|]. cbn [hex_bytes unhex]. destruct (nibbles b).
  rewrite !nibble_byte, IH by done. f_equal. rewrite <- (z2b_b2z b) at 3. f_equal.
  Z.to_euclidean_division_equations; lia.
Qed.

Lemma length_hex l : length (hex_bytes l) = (2 * length l)%nat.
Proof. induction l as [|b l IH]; [done|]. cbn. rewrite IH. lia. Qed.

Lemma ascii_base64_laws : Base64Laws ascii_base64.
Proof.
  split; cbn [b64_encode b64_decode ascii_base64]; intros l.
  - destruct (decide (length l = 32%nat)) as [H|H].
    + rewrite decide_True by apply length_digits64. pose proof (be_value_bound l) as Hb.
      rewrite value64_digits; [f_equal; rewrite <- H; apply be_bytes_value|].
      rewrite H in Hb. split; [lia|]. eapply Z.lt_trans; [apply Hb|]. done.
    + rewrite decide_False; [by rewrite unhex_hex|]. rewrite length_hex. lia.
  - intros H. rewrite decide_True by done. apply length_digits64.
Qed.

Lemma ascii_base64_ascii : Base64Ascii ascii_base64.
Proof.
  intros l. cbn [b64_encode ascii_base64]. destruct (decide _) as [_|_]; [apply digits64_ascii|].
  induction l as [|b l IH]; cbn; [constructor|]. destruct (nibbles b).
  constructor; [rewrite nibble_byte by done; lia|]. constructor; [rewrite nibble_byte by done; lia|done].
Qed.

#[local] Existing Instances ascii_unicode ascii_unicode_laws ascii_base64 ascii_base64_laws
  ascii_base64_ascii canonical_reader canonical_reader_laws toy_crypto toy_crypto_laws toy_json toy_json_laws.

Definition drop_reads (index : Z) : ReadContext :=
  {| cx_from := SidePage; cx_index := index; ice_allowlist := []; cx_max := Some MAX_FILE_BYTES |}.

Definition toy_manifest : Manifest :=
  {| m_name := lit "a.txt"; m_size := 3; m_media_type := lit "text/plain" |}.

(** A description as small as the rules allow. *)
Definition toy_sdp : text :=
  lit "v=0" ++ CRLF ++ lit "m=application 9 UDP/DTLS/SCTP webrtc-datachannel" ++ CRLF ++
  lit "a=fingerprint:sha-256 00" ++ CRLF.

Example messages_on_the_wire :
  encode (MManifest toy_manifest) = Ok (text_bytes (
    [123; 34] ++ lit "event" ++ [34; 58; 34] ++ lit "manifest" ++ [34; 44; 34] ++ lit "name" ++ [34; 58; 34]
    ++ lit "a.txt" ++ [34; 44; 34] ++ lit "size" ++ [34; 58; 51; 44; 34] ++ lit "type" ++ [34; 58; 34]
    ++ lit "text/plain" ++ [34; 44; 34] ++ lit "v" ++ [34; 58; 49; 125])) /\
  is_ok (encode (Answer toy_key toy_sdp)) = true /\
  encode (Invite true [default_stun] (lit "AAAAAAAAAAAAAAAAAAAAAA") 1) = Err Invalid.
Proof. vm_compute. done. Qed.

Lemma messages_read_iff_written_witness :
  exists b, encode (Answer toy_key toy_sdp) = Ok b /\
    decode b (drop_reads 1) = Ok (Answer toy_key toy_sdp).
Proof.
  destruct (encode (Answer toy_key toy_sdp)) as [b|] eqn:E; [|vm_compute in E; discriminate E].
  exists b. split; [reflexivity|].
  apply (messages_read_iff_written b (drop_reads 1) (Answer toy_key toy_sdp) eq_refl).
  split; [exact I|]. split; [exact E|]. vm_compute. reflexivity.
Defined.

(** *** A transfer of three bytes *)

Definition calm_world : World :=
  {| others _ d := d; fault _ _ := None; staging_name := lit ".wildbloom-x.part" |}.

Lemma calm_world_calm : calm calm_world.
Proof. by split. Qed.

Lemma calm_world_steady : steady calm_world.
Proof. by split. Qed.

(** The folder has a file of that name already. *)
Definition toy_disk : Disk :=
  {| received := {[ lit "a.txt" := ascii_bytes "old" ]}; temp := None; clobbered := []; calls := 0 |}.

Lemma toy_sealed :
  exists env, seal_bytes (Some toy_fresh) toy_key (lit "a.txt") (lit "text/plain") toy_bytes direct_limits
    = Ok env /\ blen env = 65608.
Proof.
  assert (layout (lit "a.txt") (lit "text/plain") (blen toy_bytes) direct_limits
    = Ok {| l_metadata := toy_metadata; l_prefix := be_bytes 4 2 ++ ascii_bytes "{}";
            plaintext_len := MIN_PADDING_BUCKET; record_count := 1 |}) as Hl by (vm_compute; reflexivity).
  destruct (encrypt_with_total toy_key (mem_reader toy_bytes) _ _ _ toy_fresh mem_writer _
    toy_fresh_total Hl eq_refl eq_refl eq_refl) as (sealed & w' & H).
  exists (w_out w').
  assert (seal_bytes (Some toy_fresh) toy_key (lit "a.txt") (lit "text/plain") toy_bytes direct_limits
    = Ok (w_out w')) as Hs.
  { unfold seal_bytes, encrypt. cbn [ok_or]. change (fun _ _ : Z => true) with always.
    cbn [mem_reader r_bytes] in H. unfold mem_reader in *. by rewrite H. }
  split; [done|]. apply sealed_size in Hs; [|apply toy_fresh_total|done].
  assert (envelope_bytes (lit "a.txt") (lit "text/plain") (blen toy_bytes) = Ok 65608) as E
    by (vm_compute; reflexivity). congruence.
Qed.

(** Cut in two, it fits two DATA frames. *)
Lemma toy_pieces env : blen env = 65608 ->
  exists pieces messages, concat pieces = env /\ Forall piece_ok pieces /\
    Forall2 (fun f b => DirectFrames.encode f = Some b) (data_frames 0 pieces) messages.
Proof.
  intros He. assert (exists a b, env = a ++ b /\ blen a = 60000 /\ blen b = 5608) as (a & b & -> & Ha & Hb).
  { exists (take (Z.to_nat 60000) env), (drop (Z.to_nat 60000) env). split; [by rewrite take_drop|].
    unfold blen in *. rewrite length_take, length_drop. lia. }
  assert (concat [a; b] = a ++ b) as Hc by (cbn; by rewrite app_nil_r).
  assert (Forall piece_ok [a; b]) as Hp.
  { repeat constructor; unfold FRAME_BYTES, DATA_HEADER_BYTES; lia. }
  destruct (frames_exist 0 [a; b]) as (messages & Hm); [lia|rewrite Hc, He; done|done|].
  by exists [a; b], messages.
Qed.

Lemma direct_send_delivers_witness :
  exists messages s acks s' t d',
    create None (lit "t") toy_key toy_manifest = Ok s /\ sk_total s = 65608 /\
    receive messages s = (Ok acks, s') /\
    end_ no_faults calm_world (sha256 toy_bytes) 3 s' toy_disk = (Ok t, d') /\
    received d' = <[t := toy_bytes]> (received toy_disk) /\ received toy_disk !! t = None.
Proof.
  destruct toy_sealed as (env & Hseal & Hlen).
  destruct (toy_pieces env Hlen) as (pieces & messages & Hc & Hp & Hm).
  destruct (direct_send_delivers toy_key toy_manifest toy_bytes env toy_fresh pieces messages calm_world
    toy_disk (lit "t") 2) as (s & acks & s' & t & d' & H1 & H2 & H3 & _ & H4 & H5 & H6 & _);
    [vm_compute; reflexivity|vm_compute; reflexivity|reflexivity|vm_compute; discriminate
    |apply toy_fresh_total|exact Hseal|exact Hp|exact Hc|exact Hm|apply calm_world_calm|lia
    |vm_compute; reflexivity|].
  exists messages, s, acks, s', t, d'. rewrite Hlen in H2.
  split; [exact H1|]. split; [exact H2|]. split; [exact H3|]. split; [exact H4|]. split; [exact H6|exact H5].
Defined.

(** The sink after every byte, and what END makes of it. *)
Lemma toy_sink :
  exists s0 pieces acks s env, create None (lit "t") toy_key toy_manifest = Ok s0 /\
    write_all_pieces pieces s0 = (Ok acks, s) /\
    sink_reach toy_key toy_manifest env s /\ sk_transfer s = lit "t" /\
    verify no_faults (sha256 toy_bytes) 3 s = Ok {| v_plain := toy_bytes; v_name := lit "a.txt" |}.
Proof.
  destruct toy_sealed as (env & Hseal & Hlen).
  destruct (toy_pieces env Hlen) as (pieces & _ & Henv & Hp & _).
  assert (valid_name (m_name toy_manifest) = true) as Hn by (vm_compute; reflexivity).
  assert (valid_media_type (m_media_type toy_manifest) = true) as Hmt by (vm_compute; reflexivity).
  assert (m_size toy_manifest <= MAX_FILE_BYTES) as Hmax by (vm_compute; discriminate).
  pose proof (ft_ok _ toy_fresh_total) as Hf.
  destruct (create_complete toy_key toy_manifest toy_bytes toy_fresh env (lit "t") Hn Hmt eq_refl Hmax Hf Hseal)
    as (s & Hc & Ht & Hb & I).
  destruct (write_pieces toy_key toy_manifest pieces [] s I Hb Hp) as (acks & s' & Hw & I' & Hb' & Ht' & _).
  { rewrite Henv, Ht. change (blen []) with 0. lia. }
  destruct (pieces_reach toy_key toy_manifest pieces [] s acks s') as [Hr Htr]; [by eapply reach_create|exact Hw|].
  cbn [app] in Hr, I'. rewrite Henv in Hr, I'.
  exists s, pieces, acks, s', env. split; [exact Hc|]. split; [exact Hw|]. split; [exact Hr|]. split.
  - rewrite Htr. unfold create in Hc. destruct (_ <? _); [done|]. destruct (manifest_bytes _); [|done].
    by injection Hc as <-.
  - apply (verify_complete toy_key toy_manifest s' toy_bytes toy_fresh env I' Hb'); [congruence|done..].
Qed.

Lemma direct_keeps_only_the_offer_witness :
  exists env s t d', end_ no_faults calm_world (sha256 toy_bytes) 3 s toy_disk = (Ok t, d') /\
    exists plain, received d' !! t = Some plain /\ offered toy_key toy_manifest plain env.
Proof.
  destruct toy_sink as (_ & _ & _ & s & env & _ & _ & Hr & _ & Hv).
  assert (received (put toy_disk Temp (Some toy_bytes)) !! candidate (lit "a.txt") 2 = None) as Hfree
    by (vm_compute; reflexivity).
  assert (1 <= 2 <= 999) as H2 by lia.
  pose proof (keep_calm calm_world calm_world_calm toy_bytes (lit "a.txt") 2
    (put toy_disk Temp (Some toy_bytes)) eq_refl H2 Hfree) as (t & d' & Hk & _).
  assert (end_ no_faults calm_world (sha256 toy_bytes) 3 s toy_disk = (Ok t, d')) as He.
  { unfold end_. rewrite Hv. unfold keep_verified. cbn [v_plain v_name]. by rewrite Hk. }
  pose proof (direct_keeps_only_the_offer toy_key toy_manifest env s no_faults calm_world
    (sha256 toy_bytes) 3 toy_disk ltac:(vm_compute; discriminate) Hr calm_world_steady eq_refl
    ltac:(vm_compute; reflexivity)) as H.
  rewrite He in H. destruct H as (_ & _ & _ & plain & _ & H1 & _ & H3 & _).
  exists env, s, t, d'. split; [exact He|]. exists plain. split; [exact H1|exact H3].
Defined.

(** *** A stop that comes while END waits for the lock *)





(** *** Other programs writing to the folder *)

(** Another program takes the name [b.txt] from the fourth call on; hard
    links work or fail. *)
Definition busy_world (links : option IoError) : World :=
  {| others n d := if (3 <=? n)%nat then <[ lit "b.txt" := ascii_bytes "theirs" ]> d else d;
     fault _ c := match c with HardLink => links | _ => None end;
     staging_name := lit ".wildbloom-x.part" |}.

Definition sending : Disk :=
  {| received := ∅; temp := Some toy_bytes; clobbered := []; calls := 0 |}.

Lemma keeping_clobbers_nothing_witness :
  clobbered (keep (busy_world None) (lit "b.txt") sending).2 = [].
Proof.
  apply (keeping_clobbers_nothing (busy_world None) (lit "b.txt") sending).
  split; [done|]. intros n d. cbn [others busy_world staging_name]. destruct (3 <=? n)%nat; [|reflexivity]. rewrite lookup_insert_ne; [reflexivity|vm_compute; discriminate].
Defined.

(** Where hard links fail, [move_no_clobber] looks at the name and then
    renames onto it: a file another program creates in between is replaced. *)
Definition late_world : World :=
  {| others n d := if (5 <=? n)%nat then <[ lit "b.txt" := ascii_bytes "theirs" ]> d else d;
     fault _ c := match c with HardLink => Some OtherError | _ => None end;
     staging_name := lit ".wildbloom-x.part" |}.

Example rename_race :
  clobbered (keep late_world (lit "b.txt") sending).2 = [lit "b.txt"].
Proof. vm_compute. reflexivity. Qed.

(** The look after a hard link that failed matters even with nobody else there:
    a failed look is taken for a free name. *)
Definition blind_world : World :=
  {| others _ d := d; fault _ c := match c with HardLink | Metadata_ => Some OtherError | _ => None end;
     staging_name := lit ".wildbloom-x.part" |}.

Example replaced_when_blind :
  let d' := (keep blind_world (lit "a.txt")
    {| received := {[ lit "a.txt" := ascii_bytes "old" ]}; temp := Some toy_bytes; clobbered := []; calls := 0 |}).2 in
  clobbered d' = [lit "a.txt"] /\ received d' !! lit "a.txt" = Some toy_bytes.
Proof. vm_compute. split; reflexivity. Qed.

(** Where no file can be removed, a move is reported failed with the file
    under both names; END then fails and the file stays. *)
Definition sticky_world : World :=
  {| others _ d := d; fault _ c := match c with Remove => Some OtherError | _ => None end;
     staging_name := lit ".wildbloom-x.part" |}.

Example failed_end_may_leave_a_file :
  let '(r, d') := keep sticky_world (lit "b.txt") sending in
  is_ok r = false /\ received d' !! lit "b.txt" = Some toy_bytes.
Proof. vm_compute. split; reflexivity. Qed.

(** A name the name rule accepts whose first candidate is longer than 255
    bytes: 84 three-byte characters and [ab.], with [_] added. *)
Definition long_name : text := replicate 84 0x4e00 ++ lit "ab.".

Example candidate_over_255_bytes :
  valid_name long_name = true /\ str_len (candidate long_name 1) = 256.
Proof. vm_compute. done. Qed.
