(* ===== verification/DropLayout.v ===== *)
(** * Where each kept file goes in the Wildbloom folder

    Models [desktop/src-tauri/src/drop/layout.rs]: the pure function every
    computer runs over the same live rows to decide the place of each
    plaintext copy.  A [HashMap] or [BTreeMap] is a [gmap], a set a [gset].
    The source's loop over conflict numbers has no bound but [u32]; here it
    may also try no more numbers than three for each taken key and one more.
    [DropLayoutTheorems.layout_total] shows that this is enough: a name has
    one of three endings, and the numbers tell apart those with the same. *)
From stdpp Require Import sorting gmap.
From S2P Require Import Prelude EnvelopeFormat EnvelopeName DirectText DirectPath.
#[local] Open Scope Z_scope.

Record LayoutEntry := {
  id : text;
  path : text;
  prev : option text;
  added : Z;
  from : text;
  plain : option (list byte)
}.

#[export] Instance LayoutEntry_eq_dec : EqDecision LayoutEntry.
Proof. solve_decision. Defined.

Record Layout := {
  placed : gmap text text;
  hidden : gset text;
  duplicates : gmap text text
}.

(** Folded keys of the files placed so far and of every folder above them. *)
Record Taken := {
  files : gmap text LayoutEntry;
  folders : gset text
}.

Definition no_layout : Layout := {| placed := ∅; hidden := ∅; duplicates := ∅ |}.
Definition nothing_taken : Taken := {| files := ∅; folders := ∅ |}.

(** The order of [(a.added, &a.id).cmp(&(b.added, &b.id))]: strings compare by
    bytes, which is the order of their scalar values. *)
Definition earlier (a b : LayoutEntry) : bool :=
  (added a <? added b) || (added a =? added b) && lex_le (id a) (id b).

Definition before (a b : LayoutEntry) : Prop := earlier a b = true.
#[export] Instance before_dec a b : Decision (before a b) := decide (earlier a b = true).

(** [components.join("/")]. *)
Definition joined (components : list text) : text := join_with 47 components.

Section Layout.
Context `{U : Unicode}.

(** The folded keys of each proper prefix of [components]. *)
Definition ancestors (components : list text) : list text :=
  map (fun n => fold (joined (take n components))) (seq 1 (length components - 1)).

(** [iter().position(p)]. *)
Fixpoint position {A} (p : A -> bool) (l : list A) : option nat :=
  match l with
  | [] => None
  | x :: l => if p x then Some O else option_map S (position p l)
  end.

Definition file_at (t : Taken) (key : text) : bool := bool_decide (is_Some (files t !! key)).

Definition blocking_ancestor (t : Taken) (components : list text) : option nat :=
  position (file_at t) (ancestors components).

Definition free (t : Taken) (components : list text) : bool :=
  let key := fold (joined components) in
  negb (file_at t key) && negb (bool_decide (key ∈ folders t)) &&
  bool_decide (blocking_ancestor t components = None).

Definition place (t : Taken) (components : list text) (entry : LayoutEntry) : Taken :=
  {| files := <[fold (joined components) := entry]> (files t);
     folders := folders t ∪ list_to_set (ancestors components) |}.

(** [replaced.contains(..)]: some entry names this one, not itself, as the
    version it replaces at the same folded path. *)
Definition replaced (entries : list LayoutEntry) (e : LayoutEntry) : bool :=
  existsb (fun r =>
    match prev r with
    | Some p => negb (bool_decide (p = id r)) && bool_decide (p = id e) &&
                bool_decide (fold (path r) = fold (path e))
    | None => false
    end) entries.

Definition safe_components (e : LayoutEntry) : list text := map safe_component (split_on 47 (path e)).

(** [renamed[at] = conflict_name(..)]. *)
Definition rename_at (components : list text) (at_ : nat) (e : LayoutEntry) (n : Z) : list text :=
  <[at_ := conflict_name (default [] (components !! at_)) (from e) (added e) n]> components.

(** The loop [for n in 1u32..]; [None] past the last number. *)
Fixpoint number_from (fuel : nat) (t : Taken) (components : list text) (at_ : nat) (e : LayoutEntry)
    (n : Z) : option (list text) :=
  match fuel with
  | O => None
  | S fuel =>
      if U32_MAX <? n then None
      else
        let renamed := rename_at components at_ e n in
        if free t renamed then Some renamed else number_from fuel t components at_ e (n + 1)
  end.

Definition tries (t : Taken) : nat := S (3 * (base.size (files t) + base.size (folders t))).

Definition put_at (t : Taken) (out : Layout) (components : list text) (e : LayoutEntry) : Taken * Layout :=
  (place t components e,
   {| placed := <[id e := joined components]> (placed out); hidden := hidden out;
      duplicates := duplicates out |}).

(** The body of the loop over [order]. *)
Definition lay_one (t : Taken) (out : Layout) (e : LayoutEntry) : option (Taken * Layout) :=
  let components := safe_components e in
  if free t components then Some (put_at t out components e)
  else
    let key := fold (joined components) in
    let clash :=
      let at_ := default (length components - 1)%nat (blocking_ancestor t components) in
      renamed ← number_from (tries t) t components at_ e 1;
      Some (put_at t out renamed e) in
    match files t !! key with
    | Some winner =>
        if bool_decide (is_Some (plain e)) && bool_decide (plain winner = plain e)
        then Some (t, {| placed := placed out; hidden := hidden out;
                         duplicates := <[id e := id winner]> (duplicates out) |})
        else clash
    | None => clash
    end.

Fixpoint lay_all (t : Taken) (out : Layout) (order : list LayoutEntry) : option (Taken * Layout) :=
  match order with
  | [] => Some (t, out)
  | e :: order => '(t, out) ← lay_one t out e; lay_all t out order
  end.

Definition in_order (entries : list LayoutEntry) : list LayoutEntry :=
  merge_sort before (List.filter (fun e => negb (replaced entries e)) entries).

Definition start (entries : list LayoutEntry) : Layout :=
  {| placed := ∅;
     hidden := list_to_set (map id (List.filter (replaced entries) entries));
     duplicates := ∅ |}.

Definition layout (entries : list LayoutEntry) : option Layout :=
  '(_, out) ← lay_all nothing_taken (start entries) (in_order entries);
  Some out.
End Layout.

(** [device::valid_from]: a computer name as a row may carry it. *)
Definition MAX_FROM_UTF16 : Z := 64.

Definition valid_from `{U : Unicode} (name : text) : bool :=
  (utf16_count name <=? MAX_FROM_UTF16) &&
  negb (existsb (fun c => is_control_char c || (c =? 34) || (c =? 92)) name) &&
  bool_decide (nfc name = name).

(** ** Examples *)

Definition entry_at (n : Z) (p : string) (at_ : Z) : LayoutEntry :=
  {| id := u64_to_string n; path := lit p; prev := None; added := at_; from := lit "Laptop";
     plain := Some [z2b n] |}.

Definition edit_of (old : Z) (e : LayoutEntry) : LayoutEntry :=
  {| id := id e; path := path e; prev := Some (u64_to_string old); added := added e; from := from e;
     plain := plain e |}.

Definition copy_of (n : Z) (e : LayoutEntry) : LayoutEntry :=
  {| id := id e; path := path e; prev := prev e; added := added e; from := from e; plain := Some [z2b n] |}.

Example layout_examples :
  let lay l := (fun o => (map_to_list (placed o), elements (hidden o), map_to_list (duplicates o)))
               <$> @layout ascii_unicode l in
  lay [entry_at 1 "Notes" 1792324800; entry_at 2 "notes/a.txt" 1792324801] =
    Some ([(lit "2", lit "notes (conflict from Laptop 2026-10-18)/a.txt"); (lit "1", lit "Notes")], [], []) /\
  lay [entry_at 3 "a.txt" 1792324802; entry_at 1 "a.txt" 1792324800;
       entry_at 2 "a (conflict from Laptop 2026-10-18).txt" 1792324801] =
    Some ([(lit "3", lit "a (conflict from Laptop 2026-10-18 2).txt");
           (lit "2", lit "a (conflict from Laptop 2026-10-18).txt"); (lit "1", lit "a.txt")], [], []) /\
  lay [edit_of 1 (entry_at 2 "a.txt" 5); entry_at 1 "A.txt" 4; copy_of 2 (entry_at 3 "A.TXT" 6);
       entry_at 4 "CON.txt" 7] =
    Some ([(lit "4", lit "CON_.txt"); (lit "2", lit "a.txt")], [lit "1"], [(lit "3", lit "2")]).
Proof. vm_compute. repeat split. Qed.
