(* ===== verification/DropLayoutProofs.v ===== *)
(** * What the layout promises

    Proofs about [DropLayout]: the layout depends only on the set of rows
    ([layout_permutation]), its places form a folder tree in which no two
    files clash on any system ([layout_tree]), and every row is accounted for
    once ([layout_partition]).  Lower-casing comes from Unicode; [CaseLaws]
    states what the standard promises of it and of NFC beyond [UnicodeLaws]. *)
From stdpp Require Import sorting gmap.
From S2P Require Import Prelude EnvelopeFormat EnvelopeName DirectText DirectPath DropLayout.
#[local] Open Scope Z_scope.

(** ** The order of the rows does not matter *)

Section Order.
Context `{U : Unicode}.

Lemma existsb_perm {A} (f : A -> bool) l l' : l ≡ₚ l' -> existsb f l = existsb f l'.
Proof. induction 1; cbn; try congruence. destruct (f x), (f y); done. Qed.

Lemma filter_perm {A} (f : A -> bool) (l l' : list A) : l ≡ₚ l' -> List.filter f l ≡ₚ List.filter f l'.
Proof.
  induction 1 as [|x l l' H IH|x y l|l1 l2 l3 H1 IH1 H2 IH2]; cbn; [done| | |by etransitivity].
  - by destruct (f x); rewrite IH.
  - destruct (f x), (f y); done || by constructor.
Qed.

Lemma filter_elem {A} (f : A -> bool) (l : list A) x : x ∈ List.filter f l <-> x ∈ l /\ f x = true.
Proof. by rewrite !list_elem_of_In, filter_In. Qed.

Lemma replaced_perm l l' e : l ≡ₚ l' -> replaced l e = replaced l' e.
Proof. apply existsb_perm. Qed.

#[export] Instance before_total : Total before.
Proof.
  intros a b. unfold before, earlier. destruct (lex_le_total (id a) (id b)) as [->| ->]; lia.
Qed.

#[export] Instance before_trans : Transitive before.
Proof.
  intros a b c. unfold before, earlier. rewrite !orb_true_iff, !andb_true_iff, !Z.ltb_lt, !Z.eqb_eq.
  intros [H1|[H1 H1']] [H2|[H2 H2']]; [lia..|]. right. split; [lia|by eapply lex_le_trans].
Qed.

Lemma before_antisym a b : before a b -> before b a -> id a = id b.
Proof.
  unfold before, earlier. rewrite !orb_true_iff, !andb_true_iff, !Z.ltb_lt, !Z.eqb_eq.
  intros [H1|[H1 H1']] [H2|[H2 H2']]; [lia..|]. by apply lex_le_antisym.
Qed.

Lemma in_order_perm l : in_order l ≡ₚ List.filter (fun e => negb (replaced l e)) l.
Proof. apply merge_sort_Permutation. Qed.

Lemma in_order_unique l l' : NoDup (map id l) -> l ≡ₚ l' -> in_order l = in_order l'.
Proof.
  intros Hn Hp. apply (StronglySorted_unique_strong before).
  - intros x y Hx Hy H1 H2. rewrite in_order_perm, filter_elem in Hx, Hy.
    destruct Hx as [Hx _], Hy as [Hy _]. rewrite <- Hp in Hy.
    eapply (NoDup_map_inj id); [exact Hn|done..|]. by apply before_antisym.
  - apply (StronglySorted_merge_sort _ _).
  - apply (StronglySorted_merge_sort _ _).
  - rewrite !in_order_perm. rewrite (filter_perm _ _ _ Hp).
    erewrite (List.filter_ext _ (fun e => negb (replaced l' e))); [done|].
    intros e. by rewrite (replaced_perm l l').
Qed.

Lemma start_perm l l' : l ≡ₚ l' -> start l = start l'.
Proof.
  intros Hp. unfold start. f_equal. apply leibniz_equiv. intros x.
  rewrite !elem_of_list_to_set, !list_elem_of_fmap. setoid_rewrite filter_elem.
  setoid_rewrite (replaced_perm l l' _ Hp). by setoid_rewrite Hp.
Qed.

Lemma layout_permutation l l' : NoDup (map id l) -> l ≡ₚ l' -> layout l = layout l'.
Proof. intros Hn Hp. unfold layout. by rewrite (start_perm l l'), (in_order_unique l l'). Qed.
End Order.

(** ** Paths and their keys *)

Lemma split_on_nonempty sep s : split_on sep s <> [].
Proof. induction s as [|c s IH]; cbn; [done|]. destruct (c =? sep); [done|]. by destruct (split_on sep s). Qed.

Lemma split_on_app sep a b : sep ∉ a -> split_on sep (a ++ sep :: b) = a :: split_on sep b.
Proof.
  induction a as [|c a IH]; intros Ha; cbn; [by rewrite Z.eqb_refl|].
  apply not_elem_of_cons in Ha as [Hc Ha]. rewrite IH by done.
  by replace (c =? sep) with false by (symmetry; apply Z.eqb_neq; congruence).
Qed.

Lemma split_on_none sep a : sep ∉ a -> split_on sep a = [a].
Proof.
  induction a as [|c a IH]; intros Ha; [done|]. cbn.
  apply not_elem_of_cons in Ha as [Hc Ha]. rewrite IH by done.
  by replace (c =? sep) with false by (symmetry; apply Z.eqb_neq; congruence).
Qed.

Lemma split_on_free sep s : Forall (fun p => sep ∉ p) (split_on sep s).
Proof.
  induction s as [|c s IH]; cbn; [repeat constructor; by apply not_elem_of_nil|].
  destruct (Z.eqb_spec c sep); [constructor; [by apply not_elem_of_nil|done]|].
  destruct (split_on sep s) as [|p ps]; inversion IH; subst; [repeat constructor|constructor; [|done]];
    rewrite elem_of_cons; intros [->|]; try done; by eapply not_elem_of_nil.
Qed.

(** Components no one of which holds a separator. *)
Definition plain_parts (cs : list text) : Prop := cs <> [] /\ Forall (fun c => 47 ∉ c) cs.

Lemma split_joined cs : plain_parts cs -> split_on 47 (joined cs) = cs.
Proof.
  intros [Hne Hf]. unfold joined. induction Hf as [|c cs Hc Hf IH]; [done|].
  destruct cs as [|d cs]; [by apply split_on_none|]. cbn [join_with].
  rewrite split_on_app by done. f_equal. by apply IH.
Qed.

Lemma join_with_cons sep c (cs : list text) : cs <> [] -> join_with sep (c :: cs) = c ++ sep :: join_with sep cs.
Proof. by destruct cs. Qed.

Lemma joined_inj cs ds : plain_parts cs -> plain_parts ds -> joined cs = joined ds -> cs = ds.
Proof. intros Hc Hd H%(f_equal (split_on 47)). by rewrite !split_joined in H. Qed.

Lemma plain_parts_take cs n : plain_parts cs -> (1 <= n)%nat -> plain_parts (take n cs).
Proof.
  intros [Hne Hf] Hn. split; [|by apply Forall_take]. destruct cs; [done|]. by destruct n; [lia|].
Qed.

(** What is promised of lower-casing and NFC on the characters a conflict
    name adds: none of them is a letter or changes how its neighbours are
    cased or composed. *)
Definition breaks (c : rchar) : bool := between 48 c 57 || (c =? 32) || (c =? 40) || (c =? 41) || (c =? 45).

Definition label_char (c : rchar) : rchar :=
  if is_control_char c || is_separator c || is_reserved c then 95 else c.

Class CaseLaws (U : Unicode) := {
  lower_slash : forall s, 47 ∈ to_lowercase s -> 47 ∈ s;
  lower_breaks : forall s c t, breaks c = true ->
    to_lowercase (s ++ c :: t) = to_lowercase s ++ c :: to_lowercase t;
  nfc_breaks : forall s c t, breaks c = true -> nfc s = s -> nfc t = t -> nfc (s ++ c :: t) = s ++ c :: t;
  nfc_label : forall s, nfc s = s -> nfc (map label_char s) = map label_char s
}.

Lemma ascii_case_laws : CaseLaws ascii_unicode.
Proof.
  split; try done; cbn.
  - intros s (c & Hc & Hin)%list_elem_of_fmap. unfold ascii_lower, between in Hc.
    destruct ((65 <=? c) && (c <=? 90)) eqn:E; [lia|by subst].
  - intros s c t Hc. rewrite map_app. cbn. unfold breaks, ascii_lower, between in *.
    replace ((65 <=? c) && (c <=? 90)) with false by lia. done.
Qed.

Section Keys.
Context `{U : Unicode} {UL : UnicodeLaws U} {CL : CaseLaws U}.

Definition fold_part (c : text) : text := to_lowercase (nfc c).

Lemma fold_part_plain c : 47 ∉ c -> 47 ∉ fold_part c.
Proof. intros Hc Hin%lower_slash. by apply (nfc_plain _ 47) in Hin. Qed.

Lemma plain_parts_fold cs : plain_parts cs -> plain_parts (map fold_part cs).
Proof.
  intros [Hne Hf]. split; [by destruct cs|]. apply Forall_fmap. eapply Forall_impl; [done|].
  intros c. apply fold_part_plain.
Qed.

Lemma fold_joined cs : plain_parts cs -> fold (joined cs) = joined (map fold_part cs).
Proof. intros H. unfold fold. by rewrite split_joined. Qed.

Lemma split_fold cs : plain_parts cs -> split_on 47 (fold (joined cs)) = map fold_part cs.
Proof. intros H. rewrite fold_joined by done. by apply split_joined, plain_parts_fold. Qed.

Lemma ancestors_elem cs k : k ∈ ancestors cs <->
  exists n, (1 <= n < length cs)%nat /\ k = fold (joined (take n cs)).
Proof.
  unfold ancestors. rewrite list_elem_of_fmap. split; intros (n & H1 & H2); exists n.
  - rewrite elem_of_seq in H2. split; [lia|done].
  - split; [done|]. rewrite elem_of_seq. lia.
Qed.

Lemma ancestors_split cs k : plain_parts cs -> k ∈ ancestors cs ->
  (length (split_on 47 k) < length cs)%nat.
Proof.
  intros Hc (n & Hn & ->)%ancestors_elem. rewrite split_fold by (apply plain_parts_take; [done|lia]).
  rewrite length_map, length_take. lia.
Qed.

Lemma own_key_no_ancestor cs : plain_parts cs -> fold (joined cs) ∉ ancestors cs.
Proof. intros Hc H%ancestors_split; [|done]. rewrite split_fold, length_map in H by done. lia. Qed.

(** A key under another is the key of one of its folders. *)
Lemma under_is_ancestor cs ds r : plain_parts cs -> plain_parts ds ->
  fold (joined ds) = fold (joined cs) ++ 47 :: r -> fold (joined cs) ∈ ancestors ds.
Proof.
  intros Hc Hd H. apply ancestors_elem.
  assert (map fold_part ds = map fold_part cs ++ split_on 47 r) as He.
  { rewrite <- (split_fold ds), H, <- (split_fold cs) by done.
    rewrite (fold_joined cs), split_joined by first [done|by apply plain_parts_fold].
    destruct (plain_parts_fold _ Hc) as [Hne Hf]. clear -Hne Hf. unfold joined.
    induction Hf as [|c l Hc Hl IH]; [done|]. destruct l as [|d l]; [by apply split_on_app|].
    rewrite join_with_cons, <- app_assoc by done. cbn [app].
    rewrite split_on_app by done. cbn [app]. f_equal. by apply IH. }
  exists (length cs). pose proof (f_equal length He) as Hl. rewrite length_app, !length_map in Hl.
  assert (length (split_on 47 r) <> 0%nat) by (destruct (split_on 47 r) eqn:E; [by apply split_on_nonempty in E|done]).
  assert (1 <= length cs)%nat by (destruct Hc, cs; cbn; [done|lia]).
  split; [lia|]. rewrite (fold_joined (take _ ds)), (fold_joined cs) by (done || by apply plain_parts_take).
  f_equal. rewrite <- firstn_map, He.
  rewrite <- (length_map fold_part cs). by rewrite take_app_length.
Qed.
End Keys.

(** ** The tree of places *)

Section Tree.
Context `{U : Unicode} {UL : UnicodeLaws U} {CL : CaseLaws U}.

Definition safe_parts (cs : list text) : Prop := cs <> [] /\ Forall (fun c => valid_component c = true) cs.

Lemma safe_parts_plain cs : safe_parts cs -> plain_parts cs.
Proof.
  intros [Hne Hf]. split; [done|]. eapply Forall_impl; [done|]. cbn. intros c Hc Hin.
  destruct (valid_component_spec c Hc) as (_ & _ & _ & _ & _ & _ & Hs).
  rewrite Forall_forall in Hs. by specialize (Hs _ Hin).
Qed.
#[local] Hint Resolve safe_parts_plain : core.

Lemma safe_components_safe e : safe_parts (safe_components e).
Proof.
  split; [unfold safe_components; destruct (split_on 47 (path e)) eqn:E; [by apply split_on_nonempty in E|done]|].
  apply Forall_fmap, Forall_true. intros c. apply safe_component_valid.
Qed.

Lemma conflict_name_valid c f a n : valid_component (conflict_name c f a n) = true.
Proof.
  unfold conflict_name. cbv zeta. destruct (stem_ext c) as [s x].
  destruct (MAX_COMPONENT_UTF16 <=? _); apply safe_component_valid.
Qed.

Lemma rename_at_safe cs at_ e n : safe_parts cs -> safe_parts (rename_at cs at_ e n).
Proof.
  intros [Hne Hf]. unfold rename_at. split.
  - intros H%(f_equal length). rewrite length_insert in H. by destruct cs.
  - apply Forall_insert; [done|]. apply conflict_name_valid.
Qed.

Lemma position_None {A} (p : A -> bool) l : position p l = None <-> Forall (fun x => p x = false) l.
Proof.
  induction l as [|x l IH]; cbn; [done|]. rewrite Forall_cons, <- IH.
  destruct (p x), (position p l); cbn; intuition congruence.
Qed.

Lemma file_at_false t k : file_at t k = false <-> files t !! k = None.
Proof. unfold file_at. by rewrite bool_decide_eq_false, eq_None_not_Some. Qed.

Lemma free_true t cs : free t cs = true <->
  files t !! fold (joined cs) = None /\ fold (joined cs) ∉ folders t /\
  forall k, k ∈ ancestors cs -> files t !! k = None.
Proof.
  unfold free. rewrite !andb_true_iff, !negb_true_iff, file_at_false, bool_decide_eq_false, bool_decide_eq_true.
  unfold blocking_ancestor. rewrite position_None, Forall_forall. setoid_rewrite file_at_false. tauto.
Qed.

(** What is on record while rows are laid out: each place is a safe path
    whose key its file holds and whose folders are reserved, and no folder is
    a file. *)
Record laid (t : Taken) (out : Layout) : Prop := {
  laid_place : forall i p, placed out !! i = Some p -> exists cs e,
    p = joined cs /\ safe_parts cs /\ files t !! fold p = Some e /\ id e = i /\
    forall k, k ∈ ancestors cs -> k ∈ folders t;
  laid_tree : forall k, k ∈ folders t -> files t !! k = None
}.

Lemma laid_start h : laid nothing_taken {| placed := ∅; hidden := h; duplicates := ∅ |}.
Proof. split; cbn; [|set_solver]. intros i p. by rewrite lookup_empty. Qed.

Lemma laid_put t out cs e : laid t out -> safe_parts cs -> free t cs = true ->
  laid (put_at t out cs e).1 (put_at t out cs e).2.
Proof.
  intros [Hp Ht] Hs (Hf & Hk & Ha)%free_true. split; cbn [put_at place fst snd placed files folders].
  - intros i p. rewrite lookup_insert_Some. intros [[<- <-]|[Hi H]].
    + exists cs, e. split_and!; try done; [by rewrite lookup_insert_eq|set_solver].
    + destruct (Hp i p H) as (ds & d & -> & Hd & Hfd & Hid & Had). exists ds, d.
      split_and!; try done; [|set_solver]. rewrite lookup_insert_ne; [done|]. congruence.
  - intros k [Hk'|Hk'%elem_of_list_to_set]%elem_of_union; rewrite lookup_insert_ne.
    + by apply Ht.
    + congruence.
    + by apply Ha.
    + intros <-. by eapply own_key_no_ancestor; [apply safe_parts_plain|].
Qed.

Lemma number_from_free fuel t cs at_ e n r : number_from fuel t cs at_ e n = Some r ->
  free t r = true /\ exists m, r = rename_at cs at_ e m.
Proof.
  revert n. induction fuel as [|fuel IH]; intros n; cbn [number_from]; [done|].
  destruct (U32_MAX <? n); [done|]. destruct (free t (rename_at cs at_ e n)) eqn:E; [|apply IH].
  intros [= <-]. eauto.
Qed.

(** The three ends of one row: placed where it says or under a conflict
    name, or a copy of the file at its place. *)
Lemma lay_one_cases t out e t' out' : lay_one t out e = Some (t', out') ->
  (exists cs, safe_parts cs /\ free t cs = true /\ (t', out') = put_at t out cs e /\
     (cs = safe_components e \/ free t (safe_components e) = false /\
      exists at_ n, cs = rename_at (safe_components e) at_ e n)) \/
  (exists w, files t !! fold (joined (safe_components e)) = Some w /\ plain e <> None /\
     plain w = plain e /\ t' = t /\
     out' = {| placed := placed out; hidden := hidden out; duplicates := <[id e := id w]> (duplicates out) |}).
Proof.
  unfold lay_one. intros H. pose proof (safe_components_safe e) as Hs.
  destruct (free t (safe_components e)) eqn:Hf; [left; exists (safe_components e); injection H as <- <-; by eauto|].
  assert (forall r, number_from (tries t) t (safe_components e)
      (default (length (safe_components e) - 1)%nat (blocking_ancestor t (safe_components e))) e 1 = Some r ->
      Some (put_at t out r e) = Some (t', out') ->
      exists cs, safe_parts cs /\ free t cs = true /\ (t', out') = put_at t out cs e /\
        (cs = safe_components e \/ false = false /\ exists at_ n, cs = rename_at (safe_components e) at_ e n)) as Hclash.
  { intros r (Hr & m & ->)%number_from_free [= <- <-]. eexists. split_and!; [by apply rename_at_safe|done..|].
    right. eauto. }
  destruct (number_from _ _ _ _ _ _) as [r|] eqn:En; cbn [mbind option_bind] in H.
  - specialize (Hclash r eq_refl). destruct (files t !! _) as [w|] eqn:Ew; [|left; by apply Hclash].
    destruct (bool_decide (is_Some (plain e)) && _) eqn:Eb; [|left; by apply Hclash].
    apply andb_prop in Eb as [[x Ex]%bool_decide_eq_true E2%bool_decide_eq_true].
    right. exists w. injection H as <- <-. split_and!; congruence.
  - destruct (files t !! _) as [w|] eqn:Ew; [|done].
    destruct (bool_decide (is_Some (plain e)) && _) eqn:Eb; [|done].
    apply andb_prop in Eb as [[x Ex]%bool_decide_eq_true E2%bool_decide_eq_true].
    right. exists w. injection H as <- <-. split_and!; congruence.
Qed.

Lemma lay_one_laid t out e t' out' : laid t out -> lay_one t out e = Some (t', out') -> laid t' out'.
Proof.
  intros Hl [(cs & Hs & Hf & He & _)|(w & _ & _ & _ & -> & ->)]%lay_one_cases.
  - injection He as -> ->. by apply (laid_put t out cs e).
  - destruct Hl as [Hp Ht]. by split.
Qed.

Lemma lay_all_laid order t out t' out' : laid t out -> lay_all t out order = Some (t', out') -> laid t' out'.
Proof.
  revert t out. induction order as [|e order IH]; intros t out Hl; cbn [lay_all]; [by intros [= <- <-]|].
  destruct (lay_one t out e) as [[t1 out1]|] eqn:E; [|done]. apply IH. by eapply lay_one_laid.
Qed.

Lemma layout_inv entries out : layout entries = Some out ->
  exists t, lay_all nothing_taken (start entries) (in_order entries) = Some (t, out).
Proof.
  unfold layout. destruct (lay_all _ _ _) as [[t o]|]; [|done]. cbn. intros [= <-]. by exists t.
Qed.

Lemma layout_tree entries out : layout entries = Some out ->
  forall i p, placed out !! i = Some p ->
    Forall (fun c => valid_component c = true) (split_on 47 p) /\
    forall j q, placed out !! j = Some q -> i <> j ->
      fold q <> fold p /\ forall r, fold q <> fold p ++ 47 :: r.
Proof.
  intros (t & Hl)%layout_inv i p Hp. apply lay_all_laid in Hl; [|apply laid_start].
  destruct (laid_place _ _ Hl i p Hp) as (cs & e & -> & Hs & Hf & Hi & Ha).
  split; [rewrite split_joined by auto; apply Hs|].
  intros j q Hq Hij. destruct (laid_place _ _ Hl j q Hq) as (ds & d & -> & Hd & Hfd & Hj & Had).
  split; [congruence|]. intros r Hr. apply under_is_ancestor in Hr; [|auto..].
  specialize (laid_tree _ _ Hl _ (Had _ Hr)) as Hn. congruence.
Qed.

(** ** Every row is accounted for *)

Record accounted (t : Taken) (out : Layout) (seen : list LayoutEntry) : Prop := {
  acc_places : forall k w, files t !! k = Some w ->
    w ∈ seen /\ exists p, placed out !! id w = Some p /\ fold p = k;
  acc_all : forall i, is_Some (placed out !! i) \/ is_Some (duplicates out !! i) <-> i ∈ map id seen;
  acc_once : forall i, placed out !! i = None \/ duplicates out !! i = None;
  acc_copies : forall i w, duplicates out !! i = Some w -> exists e v p,
    e ∈ seen /\ id e = i /\ v ∈ seen /\ id v = w /\ plain e <> None /\ plain v = plain e /\
    placed out !! w = Some p /\ fold p = fold (joined (safe_components e))
}.

Lemma accounted_start h : accounted nothing_taken {| placed := ∅; hidden := h; duplicates := ∅ |} [].
Proof.
  split; cbn.
  - intros k w. by rewrite lookup_empty.
  - intros i. rewrite !lookup_empty, elem_of_nil, !is_Some_alt. tauto.
  - intros i. left. apply lookup_empty.
  - intros i w. by rewrite lookup_empty.
Qed.

Lemma accounted_put t out seen cs e : accounted t out seen -> id e ∉ map id seen ->
  accounted (put_at t out cs e).1 (put_at t out cs e).2 (seen ++ [e]).
Proof.
  intros [Hp Ha Ho Hc] Hid.
  assert (placed out !! id e = None /\ duplicates out !! id e = None) as [Hn1 Hn2].
  { split; apply eq_None_not_Some; intros Hs; apply Hid, Ha; auto. }
  split; cbn [put_at place fst snd placed files folders duplicates].
  - intros k w. rewrite lookup_insert_Some. intros [[<- <-]|[Hk H]].
    + split; [set_solver|]. exists (joined cs). by rewrite lookup_insert_eq.
    + destruct (Hp k w H) as (Hw & p & H1 & H2). split; [set_solver|]. exists p.
      rewrite lookup_insert_ne; [done|]. intros He. rewrite He in Hn1. congruence.
  - intros i. rewrite map_app, elem_of_app, <- Ha. cbn. rewrite list_elem_of_singleton.
    destruct (decide (i = id e)) as [->|Hi]; [rewrite lookup_insert_eq; naive_solver|].
    rewrite lookup_insert_ne by done. naive_solver.
  - intros i. destruct (decide (i = id e)) as [->|Hi]; [by right|]. rewrite lookup_insert_ne by done. apply Ho.
  - intros i w H. destruct (Hc i w H) as (d & v & p & Hd & <- & Hv & <- & H1 & H2 & H3 & H4).
    exists d, v, p. split_and!; try done; [set_solver..|]. rewrite lookup_insert_ne; [done|]. congruence.
Qed.

Lemma accounted_copy t out seen e w : accounted t out seen -> id e ∉ map id seen ->
  files t !! fold (joined (safe_components e)) = Some w -> plain e <> None -> plain w = plain e ->
  accounted t {| placed := placed out; hidden := hidden out; duplicates := <[id e := id w]> (duplicates out) |}
    (seen ++ [e]).
Proof.
  intros [Hp Ha Ho Hc] Hid Hf He Hw.
  assert (placed out !! id e = None) as Hn1.
  { apply eq_None_not_Some; intros Hs; apply Hid, Ha; auto. }
  split; cbn [placed files duplicates].
  - intros k v H. destruct (Hp k v H) as (Hv & H'). split; [set_solver|done].
  - intros i. rewrite map_app, elem_of_app, <- Ha. cbn. rewrite list_elem_of_singleton.
    destruct (decide (i = id e)) as [->|Hi]; [rewrite lookup_insert_eq; naive_solver|].
    rewrite lookup_insert_ne by done. naive_solver.
  - intros i. destruct (decide (i = id e)) as [->|Hi]; [by left|]. rewrite lookup_insert_ne by done. apply Ho.
  - intros i x. rewrite lookup_insert_Some. intros [[<- <-]|[Hi H]].
    + destruct (Hp _ _ Hf) as (Hv & p & H1 & H2). exists e, w, p. split_and!; try done; set_solver.
    + destruct (Hc i x H) as (d & v & p & H1 & H2 & H3 & H4 & H5).
      exists d, v, p. split_and!; try done; (tauto || set_solver).
Qed.

Lemma lay_all_accounted order seen t out t' out' : NoDup (map id (seen ++ order)) ->
  accounted t out seen -> lay_all t out order = Some (t', out') ->
  accounted t' out' (seen ++ order) /\ hidden out' = hidden out.
Proof.
  revert seen t out. induction order as [|e order IH]; intros seen t out Hn Ha; cbn [lay_all].
  { intros [= <- <-]. by rewrite app_nil_r. }
  assert (id e ∉ map id seen) as Hid.
  { rewrite map_app in Hn. cbn in Hn. apply NoDup_app in Hn as (_ & Hd & _).
    intros Hin. eapply Hd; [exact Hin|]. set_solver. }
  destruct (lay_one t out e) as [[t1 out1]|] eqn:E; [|done]. cbn [mbind option_bind].
  assert (accounted t1 out1 (seen ++ [e]) /\ hidden out1 = hidden out) as [Ha1 Hh].
  { destruct (lay_one_cases _ _ _ _ _ E) as [(cs & _ & _ & He & _)|(w & H1 & H2 & H3 & -> & ->)].
    - injection He as -> ->. split; [by apply accounted_put|done].
    - split; [by apply accounted_copy|done]. }
  rewrite cons_middle, app_assoc in Hn |- *. rewrite <- Hh. by apply IH.
Qed.

Lemma in_order_elem entries e : e ∈ in_order entries <-> e ∈ entries /\ replaced entries e = false.
Proof. rewrite in_order_perm, filter_elem, negb_true_iff. done. Qed.

Lemma in_order_NoDup entries : NoDup (map id entries) -> NoDup (map id (in_order entries)).
Proof.
  intros Hn. rewrite in_order_perm. generalize (fun e => negb (replaced entries e)). intros f.
  induction entries as [|e l IH]; [done|]. cbn in *. apply NoDup_cons in Hn as [Hi Hn].
  destruct (f e); [|by apply IH]. cbn. apply NoDup_cons. split; [|by apply IH].
  intros (x & Hx & [Hin _]%filter_elem)%list_elem_of_fmap. apply Hi. rewrite Hx. by apply list_elem_of_fmap_2.
Qed.

Lemma layout_accounted entries out : NoDup (map id entries) -> layout entries = Some out ->
  (exists t, accounted t out (in_order entries)) /\ hidden out = hidden (start entries).
Proof.
  intros Hn (t & Hl)%layout_inv.
  destruct (lay_all_accounted (in_order entries) [] _ _ _ _ (in_order_NoDup _ Hn) (accounted_start _) Hl).
  eauto.
Qed.
End Tree.
