(* ===== verification/DropConflict.v ===== *)
(** * Conflict names

    Proofs about [path::conflict_name] of [DirectPath]: for a component, a
    computer name and a time as rows carry them, the name is some text, the
    date and number in their bracket, and one of three endings
    ([conflict_name_text], [tails]): the extension, the extension cut short
    when a surrogate pair leaves no room before the bracket, or nothing when
    the extension is too long to keep.  Two numbers with the same ending give
    names with different keys ([conflict_names_differ]). *)
From stdpp Require Import gmap.
From S2P Require Import Prelude EnvelopeFormat EnvelopeName DirectText DirectPath.
From S2P Require Import DropLayout DropLayoutProofs.
#[local] Open Scope Z_scope.

(** ** The date *)

Lemma day_of_era doe yoe : 0 <= doe <= 146096 -> yoe = (doe - doe / 1460 + doe / 36524 - doe / 146096) / 365 ->
  0 <= yoe <= 399 /\ 0 <= doe - (365 * yoe + yoe / 4 - yoe / 100) <= 365.
Proof. intros. Z.to_euclidean_division_equations. lia. Qed.

Lemma day_of_month doy mp : 0 <= doy <= 365 -> mp = (5 * doy + 2) / 153 ->
  0 <= mp <= 11 /\ 1 <= doy - (153 * mp + 2) / 5 + 1 <= 31.
Proof. intros. Z.to_euclidean_division_equations. lia. Qed.

(** Months and days are what a calendar has, and the year of a time a row
    carries has at most nine digits. *)
Lemma ymd_range unix : 0 <= unix < 2 ^ 53 -> exists y m d, ymd unix = (y, m, d) /\
  0 <= y < 10 ^ 9 /\ 1 <= m <= 12 /\ 1 <= d <= 31.
Proof.
  intros Hu. unfold ymd. cbv zeta.
  set (z := unix / 86400 + 719468).
  assert (0 <= z < 104250719468) as Hz by (subst z; Z.to_euclidean_division_equations; lia).
  set (era := z / 146097). set (doe := z mod 146097).
  assert (0 <= era < 713572) by (subst era; Z.to_euclidean_division_equations; lia).
  assert (0 <= doe <= 146096) as Hd by (subst doe; Z.to_euclidean_division_equations; lia).
  destruct (day_of_era doe _ Hd eq_refl) as [H1 H2].
  set (yoe := (_ : Z) / 365) in *. set (doy := doe - (365 * yoe + yoe / 4 - yoe / 100)) in *.
  destruct (day_of_month doy _ H2 eq_refl) as [H3 H4]. set (mp := (5 * doy + 2) / 153) in *.
  eexists _, _, _. split; [reflexivity|].
  destruct (Z.ltb_spec mp 10); [destruct (Z.leb_spec (mp + 3) 2)|destruct (Z.leb_spec (mp - 9) 2)]; lia.
Qed.

Lemma length_digits n k z : 0 <= z < 10 ^ Z.of_nat (S k) -> (length (digits n z) <= S k)%nat.
Proof.
  revert k z. induction n as [|n IH]; intros k z Hz; cbn [digits length]; [lia|].
  destruct (Z.ltb_spec z 10); [cbn; lia|]. rewrite length_app. cbn. destruct k as [|k].
  { change (10 ^ Z.of_nat 1) with 10 in Hz. lia. }
  rewrite (Nat2Z.inj_succ (S k)), Z.pow_succ_r in Hz by lia.
  specialize (IH k (z / 10) ltac:(Z.to_euclidean_division_equations; lia)). lia.
Qed.

Definition all_digits (s : text) : Prop := Forall (fun c => is_digit c = true) s.

Lemma padded_digits w k z : (w <= S k)%nat -> (S k <= 19)%nat -> 0 <= z < 10 ^ Z.of_nat (S k) ->
  all_digits (padded w z) /\ (length (padded w z) <= S k)%nat /\ padded w z <> [].
Proof.
  intros Hw Hk Hz. assert (10 ^ Z.of_nat (S k) <= 10 ^ 19) by (apply Z.pow_le_mono_r; lia).
  destruct (u64_to_string_ok z) as (c & t & Hs & Hd & _); [unfold is_u64, U64_MAX; lia|].
  pose proof (length_digits 20 k z Hz) as Hl. fold (u64_to_string z) in Hl. unfold padded.
  rewrite Hs in *. split_and!.
  - apply Forall_app. split; [by apply Forall_replicate|done].
  - rewrite length_app, length_replicate. lia.
  - by intros [_ ?]%app_eq_nil.
Qed.

Definition date_char (c : rchar) : Prop := is_digit c = true \/ c = 45.

(** A date is digits and hyphens and ends in the digits of the day. *)
Lemma utc_date_shape unix : 0 <= unix < 2 ^ 53 -> exists a ds,
  utc_date unix = a ++ 45 :: ds /\ all_digits ds /\ Forall date_char (utc_date unix) /\
  (length (utc_date unix) <= 15)%nat.
Proof.
  intros Hu. unfold utc_date. destruct (ymd_range unix Hu) as (y & m & d & -> & Hy & Hm & Hd).
  destruct (padded_digits 4 8 y) as (Y1 & Y2 & _); [lia..|].
  destruct (padded_digits 2 1 m) as (M1 & M2 & _); [lia|lia|change (10 ^ Z.of_nat 2) with 100; lia|].
  destruct (padded_digits 2 1 d) as (D1 & D2 & _); [lia|lia|change (10 ^ Z.of_nat 2) with 100; lia|].
  exists (padded 4 y ++ 45 :: padded 2 m), (padded 2 d).
  rewrite <- app_assoc. split; [done|]. split; [done|].
  assert (forall s, all_digits s -> Forall date_char s) as Hdc.
  { intros s Hs. eapply Forall_impl; [exact Hs|]. intros c ?. by left. }
  split.
  - apply Forall_app. split; [auto|]. constructor; [by right|]. apply Forall_app. split; [auto|].
    constructor; [by right|auto].
  - rewrite length_app. cbn [length]. rewrite length_app. cbn [length]. lia.
Qed.

Definition number_text (n : Z) : text := if 2 <=? n then 32 :: u64_to_string n else [].

(** Two tails that differ in their number differ. *)
Lemma last_run (a b : text) x y ds es : all_digits ds -> all_digits es -> is_digit x = false -> is_digit y = false ->
  a ++ x :: ds = b ++ y :: es -> x = y /\ ds = es.
Proof.
  intros Hd He Hx Hy H%(f_equal reverse). rewrite !reverse_app, !reverse_cons, <- !app_assoc in H. cbn in H.
  apply Forall_reverse in Hd, He. enough (x = y /\ reverse ds = reverse es) as [-> E%(inj reverse)]; [done|].
  revert H Hd He. generalize (reverse ds) (reverse es). intros l. induction l as [|c l IH]; intros [|c' l'] H Hd He;
    cbn in H; injection H as H1 H2; subst.
  - done.
  - inversion He; congruence.
  - inversion Hd; congruence.
  - inversion Hd; inversion He; subst. by destruct (IH l' H2) as [-> ->].
Qed.

Lemma number_text_inj a b unix n m : 0 <= unix < 2 ^ 53 -> 1 <= n <= U32_MAX -> 1 <= m <= U32_MAX ->
  a ++ utc_date unix ++ number_text n = b ++ utc_date unix ++ number_text m -> n = m.
Proof.
  intros Hu Hn Hm. destruct (utc_date_shape unix Hu) as (p & ds & -> & Hd & _).
  assert (forall k, 1 <= k <= U32_MAX -> k = 1 /\ number_text k = [] \/
    exists s, number_text k = 32 :: s /\ all_digits s /\ digits_value s = k) as Hk.
  { intros k Hk. unfold number_text. destruct (Z.leb_spec 2 k); [right|left; split; [lia|done]].
    destruct (u64_to_string_ok k) as (c & t & -> & H1 & H2); [unfold is_u64, U64_MAX; unfold U32_MAX in *; lia|].
    by exists (c :: t). }
  destruct (Hk n Hn) as [[-> ->]|(s & -> & Hs & Vs)], (Hk m Hm) as [[-> ->]|(t & -> & Ht & Vt)];
    rewrite ?app_nil_r; intros H; [done|..].
  - rewrite !app_assoc in H. by apply last_run in H as [H _].
  - rewrite !app_assoc in H. by apply last_run in H as [H _].
  - rewrite !app_assoc in H. apply last_run in H as [_ ->]; [congruence|done..].
Qed.

(** ** The parts of a conflict name *)

Lemma join_split_on sep s : join_with sep (split_on sep s) = s.
Proof.
  induction s as [|c s IH]; [done|]. cbn [split_on]. destruct (Z.eqb_spec c sep) as [->|].
  - rewrite join_with_cons by apply split_on_nonempty. by rewrite IH.
  - destruct (split_on sep s) as [|p ps] eqn:E; [by apply split_on_nonempty in E|].
    destruct ps; cbn in *; congruence.
Qed.

Lemma join_with_app sep (a b : list text) : a <> [] -> b <> [] ->
  join_with sep (a ++ b) = join_with sep a ++ sep :: join_with sep b.
Proof.
  intros Ha Hb. induction a as [|x a IH]; [done|]. destruct a as [|y a]; [by cbn [app]; rewrite join_with_cons|].
  change ((x :: y :: a) ++ b) with (x :: ((y :: a) ++ b)). rewrite !join_with_cons by done.
  rewrite IH by done. by rewrite <- app_assoc.
Qed.

(** The stem is not empty, and the stem and the extension make the name. *)
Lemma stem_ext_spec c : c <> [] -> (stem_ext c).1 <> [] /\ (stem_ext c).1 ++ (stem_ext c).2 = c /\
  ((stem_ext c).2 = [] \/ exists x, (stem_ext c).2 = 46 :: x /\ 46 ∉ x).
Proof.
  intros Hc. unfold stem_ext. destruct (reverse (split_on 46 c)) as [|x front] eqn:E.
  { cbn. rewrite app_nil_r. auto. }
  destruct front as [|y front]; [cbn; rewrite app_nil_r; auto|].
  destruct (bool_decide_reflect (join_with 46 (reverse (y :: front)) = [])); cbn [fst snd].
  { rewrite app_nil_r. auto. }
  split_and!; [done| |].
  2: { right. exists x. split; [done|]. pose proof (split_on_free 46 c) as Hx. rewrite Forall_forall in Hx. apply Hx.
       apply elem_of_reverse. rewrite E. left. }
  apply (f_equal reverse) in E. rewrite reverse_involutive, reverse_cons in E.
  rewrite <- (join_split_on 46 c), E, (join_with_app 46 (reverse (y :: front)) [x]); [done| |done].
  intros H. rewrite reverse_cons in H. by apply app_eq_nil in H as [_ H].
Qed.

Lemma truncate_from_prefix units s max : exists b, s = truncate_from units s max ++ b.
Proof.
  revert units. induction s as [|c s IH]; intros units; cbn; [by exists []|].
  destruct (max <? _); [by eexists|]. destruct (IH (units + len_utf16 c)) as [b Hb]. exists b. cbn. by f_equal.
Qed.

Lemma truncate_from_count units s max : units <= max -> units + utf16_count (truncate_from units s max) <= max.
Proof.
  revert units. induction s as [|c s IH]; intros units Hu; cbn [truncate_from]; [cbn; lia|].
  destruct (Z.ltb_spec max (units + len_utf16 c)); [cbn; lia|]. specialize (IH _ H). rewrite utf16_count_cons. lia.
Qed.

Lemma truncate_path_head s max : truncate_path s max <> [] -> head (truncate_path s max) = head s.
Proof. destruct s as [|c s]; [done|]. unfold truncate_path. cbn [truncate_from]. by destruct (_ <? _). Qed.

(** With room for a surrogate pair, truncation keeps a character. *)
Lemma truncate_path_room s max : s <> [] -> truncate_path s max = [] -> max <= 1.
Proof.
  destruct s as [|c s]; [done|]. intros _. unfold truncate_path. cbn [truncate_from].
  pose proof (len_utf16_pos c). destruct (Z.ltb_spec max (0 + len_utf16 c)); [lia|done].
Qed.

Lemma truncate_from_shift s max k : forall units, truncate_from (units + k) s max = truncate_from units s (max - k).
Proof.
  induction s as [|c s IH]; intros units; [done|]. cbn [truncate_from].
  replace (units + k + len_utf16 c) with (units + len_utf16 c + k) by lia. rewrite IH.
  destruct (Z.ltb_spec max (units + len_utf16 c + k)), (Z.ltb_spec (max - k) (units + len_utf16 c)); (done || lia).
Qed.

Lemma truncate_path_app a s max : utf16_count a <= max ->
  truncate_path (a ++ s) max = a ++ truncate_path s (max - utf16_count a).
Proof.
  intros Ha. unfold truncate_path. rewrite <- truncate_from_shift. revert Ha.
  assert (forall units, units + utf16_count a <= max ->
    truncate_from units (a ++ s) max = a ++ truncate_from (units + utf16_count a) s max) as H; [|apply (H 0)].
  induction a as [|c a IH]; intros units Ha; [cbn; by rewrite Z.add_0_r|].
  rewrite utf16_count_cons in *. pose proof (utf16_count_nonneg a). cbn [app truncate_from].
  destruct (Z.ltb_spec max (units + len_utf16 c)); [lia|]. rewrite IH by lia. by rewrite Z.add_assoc.
Qed.

Lemma trim_start_app p s x t : p x = false -> trim_start p (s ++ x :: t) = trim_start p s ++ x :: t.
Proof. intros Hx. induction s as [|c s IH]; cbn; [by rewrite Hx|]. by destruct (p c). Qed.

Lemma trim_end_app p a x t : p x = false -> trim_end p (a ++ x :: t) = a ++ x :: trim_end p t.
Proof.
  intros Hx. unfold trim_end. rewrite reverse_app, reverse_cons, <- app_assoc. cbn [app].
  rewrite trim_start_app by done. rewrite reverse_app, reverse_cons, reverse_involutive, <- app_assoc. done.
Qed.

Lemma ascii_units s : Forall (fun c => 0 <= c < 128) s -> utf16_count s = Z.of_nat (length s).
Proof.
  induction 1 as [|c s Hc Hs IH]; [done|]. rewrite utf16_count_cons, IH. cbn [length].
  unfold len_utf16. destruct (Z.leb_spec 0x10000 c); lia.
Qed.

Section Name.
Context `{U : Unicode} {UL : UnicodeLaws U} {CL : CaseLaws U}.

Definition plain_char (c : rchar) : Prop := is_control c || is_separator c || is_reserved c = false.

Lemma plain_ascii s : forallb (fun c => between 0 c 127 && negb (is_control c || is_separator c || is_reserved c)) s = true ->
  Forall (fun c => 0 <= c < 128) s /\ Forall plain_char s.
Proof.
  rewrite forallb_forall. intros H. rewrite !Forall_forall. split; intros c Hc%list_elem_of_In; specialize (H c Hc);
    unfold between, plain_char in *; [lia|]. by destruct (is_control c || is_separator c || is_reserved c); [rewrite andb_false_r in H|].
Qed.

Lemma label_char_plain c : plain_char (label_char c).
Proof.
  unfold label_char, plain_char. destruct (is_control_char c || is_separator c || is_reserved c) eqn:E; [done|].
  rewrite !orb_false_iff in *. destruct E as [[E1 E2] E3]. split_and!; try done.
  unfold is_control, is_control_char, between in *. lia.
Qed.

Lemma label_facts f : valid_from f = true ->
  nfc (computer_label f) = computer_label f /\ Forall plain_char (computer_label f) /\
  0 <= utf16_count (computer_label f) <= 64.
Proof.
  unfold valid_from. rewrite !andb_true_iff, Z.leb_le, bool_decide_eq_true. intros ((Hl & _) & Hn).
  split_and!; [| |apply utf16_count_nonneg|]; (destruct f as [|c f]; [|change (computer_label (c :: f)) with (map label_char (c :: f))]).
  - apply nfc_ascii. by apply plain_ascii.
  - by apply nfc_label.
  - by apply plain_ascii.
  - apply Forall_fmap, Forall_true. intros x. apply label_char_plain.
  - vm_compute. congruence.
  - transitivity (utf16_count (c :: f)); [|done]. generalize (c :: f). clear. intros l.
    induction l as [|c l IH]; [done|]. cbn [map]. rewrite !utf16_count_cons.
    enough (len_utf16 (label_char c) <= len_utf16 c) by lia. unfold label_char.
    destruct (_ || _); [apply len_utf16_pos|done].
Qed.

Definition suffix (f : text) (unix n : Z) : text :=
  lit " (conflict from " ++ computer_label f ++ 32 :: utc_date unix ++ number_text n ++ [41].

Lemma dated_facts unix n : 0 <= unix < 2 ^ 53 -> 1 <= n <= U32_MAX ->
  Forall (fun c => breaks c = true) (utc_date unix ++ number_text n) /\
  (length (utc_date unix ++ number_text n) <= 26)%nat.
Proof.
  intros Hu Hn. destruct (utc_date_shape unix Hu) as (_ & _ & _ & _ & Hd & Hl).
  assert (all_digits (u64_to_string n) /\ (length (u64_to_string n) <= 10)%nat) as [Hs Hc].
  { split; [|apply (length_digits 20 9); unfold U32_MAX in *; lia].
    destruct (u64_to_string_ok n) as (c & t & -> & H & _); [unfold is_u64, U64_MAX; unfold U32_MAX in *; lia|done]. }
  rewrite length_app. unfold number_text. split.
  - apply Forall_app. split.
    + eapply Forall_impl; [exact Hd|]. intros c [H| ->]; [|done]. unfold breaks. unfold is_digit in H. by rewrite H.
    + destruct (2 <=? n); [|done]. constructor; [done|]. eapply Forall_impl; [exact Hs|].
      intros c H. unfold breaks. unfold is_digit in H. by rewrite H.
  - destruct (2 <=? n); cbn [length]; lia.
Qed.

Lemma breaks_ascii c : breaks c = true -> 0 <= c < 128 /\ plain_char c /\ c <> 46.
Proof.
  unfold breaks, plain_char, is_control, is_separator, is_reserved, between. intros H.
  rewrite !orb_true_iff, !andb_true_iff, !Z.leb_le, !Z.eqb_eq in H.
  rewrite !orb_false_iff, !andb_false_iff, !Z.leb_gt, !Z.eqb_neq. lia.
Qed.

(** ** The whole name *)

Definition base_of (s : text) : text := default [] (head (split_on 46 s)).

Lemma base_of_dot a b : 46 ∈ a -> base_of (a ++ b) = base_of a.
Proof.
  unfold base_of. intros Ha.
  enough (head (split_on 46 (a ++ b)) = head (split_on 46 a)) as -> by done.
  induction a as [|c a IH]; [by apply elem_of_nil in Ha|]. cbn [app split_on].
  destruct (Z.eqb_spec c 46) as [|Hc]; [done|]. apply elem_of_cons in Ha as [Ha|Ha]; [congruence|].
  specialize (IH Ha). destruct (split_on 46 (a ++ b)) eqn:E1, (split_on 46 a) eqn:E2; cbn in *; try done;
    try (by apply split_on_nonempty in E1); try (by apply split_on_nonempty in E2). congruence.
Qed.

Lemma base_of_plain a b : 46 ∉ a -> base_of (a ++ b) = a ++ base_of b.
Proof.
  unfold base_of. induction a as [|c a IH]; intros Ha; [done|]. cbn [app split_on].
  apply not_elem_of_cons in Ha as [Hc Ha]. replace (c =? 46) with false by (symmetry; apply Z.eqb_neq; congruence).
  specialize (IH Ha). destruct (split_on 46 (a ++ b)) eqn:E; [by apply split_on_nonempty in E|]. cbn in *. congruence.
Qed.

Lemma reserved_by_base a b : base_of a = base_of b -> reserved_device_name a = reserved_device_name b.
Proof. unfold reserved_device_name, base_of. by intros ->. Qed.

(** No device name holds a space. *)
Lemma reserved_no_space s : 32 ∈ base_of s -> reserved_device_name s = false.
Proof.
  intros Hs. unfold reserved_device_name. fold (base_of s). set (u := map ascii_upper (base_of s)).
  assert (32 ∈ u) as Hu by (apply list_elem_of_fmap; by exists 32). clearbody u. clear Hs.
  apply orb_false_iff. split.
  - apply bool_decide_eq_false. intros H. repeat (apply elem_of_cons in H as [H|H]);
      try (by apply elem_of_nil in H); rewrite H in Hu; apply (bool_decide_eq_true_2 _) in Hu;
      vm_compute in Hu; done.
  - apply not_true_iff_false. rewrite existsb_exists. intros (p & Hp & H).
    unfold cut_prefix in H. destruct (bool_decide_reflect (take (length p) u = p)) as [Ep|]; [|done].
    destruct (drop (length p) u) as [|c [|]] eqn:Ed; try done.
    rewrite <- (take_drop (length p) u), Ep, Ed in Hu. apply elem_of_app in Hu as [Hu|Hu].
    + destruct Hp as [<-|[<-|[]]]; apply (bool_decide_eq_true_2 _) in Hu; vm_compute in Hu; done.
    + apply list_elem_of_singleton in Hu. by subst c.
Qed.

Lemma suffix_units f unix n : valid_from f = true -> 0 <= unix < 2 ^ 53 -> 1 <= n <= U32_MAX ->
  0 <= utf16_count (suffix f unix n) <= 108.
Proof.
  intros Hf Hu Hn. destruct (label_facts f Hf) as (_ & _ & Hl). destruct (dated_facts unix n Hu Hn) as [Hd Hc].
  split; [apply utf16_count_nonneg|]. unfold suffix. rewrite utf16_count_app.
  change (utf16_count (lit " (conflict from ")) with 16. rewrite utf16_count_app, utf16_count_cons.
  rewrite app_assoc, utf16_count_app. change (utf16_count [41]) with 1. change (len_utf16 32) with 1.
  rewrite (ascii_units (_ ++ _)); [lia|]. eapply Forall_impl; [exact Hd|]. intros c. apply breaks_ascii.
Qed.

Lemma nfc_nil : nfc [] = [].
Proof. by apply nfc_ascii. Qed.

(** The bracket a conflict name carries, without its end. *)
Definition bracket (f : text) (unix n : Z) : text :=
  lit "(conflict from" ++ 32 :: computer_label f ++ 32 :: (utc_date unix ++ number_text n).

Lemma suffix_text stem f unix n ext : stem ++ suffix f unix n ++ ext = stem ++ 32 :: bracket f unix n ++ 41 :: ext.
Proof. unfold suffix, bracket. cbn. by repeat (rewrite <- app_assoc; cbn). Qed.

Section Bracket.
Context (f : text) (unix n : Z).
Context (Hf : valid_from f = true) (Hu : 0 <= unix < 2 ^ 53) (Hn : 1 <= n <= U32_MAX).

Lemma bracket_nfc t : nfc t = t -> nfc (bracket f unix n ++ 41 :: t) = bracket f unix n ++ 41 :: t.
Proof using All.
  intros Ht. destruct (label_facts f Hf) as (Hl & _ & _). destruct (dated_facts unix n Hu Hn) as [Hd _].
  apply nfc_breaks; [done| |done]. unfold bracket.
  apply nfc_breaks; [done|by apply nfc_ascii, plain_ascii|].
  apply nfc_breaks; [done|done|].
  apply nfc_ascii. eapply Forall_impl; [exact Hd|]. intros x. apply breaks_ascii.
Qed.

Lemma bracket_plain : Forall plain_char (bracket f unix n).
Proof using All.
  destruct (label_facts f Hf) as (_ & Hl & _). destruct (dated_facts unix n Hu Hn) as [Hd _].
  unfold bracket. rewrite Forall_app, Forall_cons, Forall_app, Forall_cons. split_and!; try done.
  - by apply plain_ascii.
  - eapply Forall_impl; [exact Hd|]. intros x. apply breaks_ascii.
Qed.

Lemma bracket_base t : reserved_device_name (bracket f unix n ++ 41 :: t) = false.
Proof using.
  apply reserved_no_space.
  change (bracket f unix n) with
    (lit "(conflict" ++ [32] ++ lit "from" ++ 32 :: computer_label f ++ 32 :: utc_date unix ++ number_text n).
  rewrite <- app_assoc, base_of_plain by (apply (bool_decide_unpack _); vm_compute; exact I).
  rewrite <- app_assoc, (base_of_plain [32]) by (apply (bool_decide_unpack _); vm_compute; exact I).
  apply elem_of_app. right. apply elem_of_app. left. apply list_elem_of_here.
Qed.

(** A name may start with the bracket. *)
Lemma bracket_valid t : nfc t = t -> Forall plain_char t -> last t <> Some 46 ->
  (forall x, last t = Some x -> is_js_whitespace x = false) -> utf16_count (bracket f unix n ++ 41 :: t) <= 180 ->
  valid_component (bracket f unix n ++ 41 :: t) = true.
Proof using All.
  intros Ht Hp H46 Hws Hl.
  assert (forall x, last (bracket f unix n ++ 41 :: t) = Some x -> x = 41 \/ last t = Some x) as Hlast.
  { intros x. rewrite last_app, last_cons. destruct (last t); [by right|]. intros [= <-]. by left. }
  assert (canonical_name (bracket f unix n ++ 41 :: t)) as Hcan.
  { split; [by apply bracket_nfc| |done|by intros x [= <-]| |done].
    - apply Forall_app. split; [apply bracket_plain|by constructor].
    - intros x [->|Hx]%Hlast; [done|by apply Hws]. }
  unfold valid_component, ends_in. rewrite bracket_base, (canonical_name_fixed _ Hcan).
  rewrite !andb_true_iff, !negb_true_iff, !bool_decide_eq_false, bool_decide_eq_true.
  split_and!; try done.
  - by intros [E|E]%Hlast.
  - intros [E|E]%Hlast; [done|]. by apply Hws in E.
Qed.
End Bracket.

(** What the name of a conflict loser is made of. *)
Definition parts (c stem ext : text) : Prop := exists b, c = stem ++ b ++ ext.

Section Parts.
Context (c stem ext f : text) (unix n : Z).
Context (Hc : valid_component c = true) (Hp : parts c stem ext) (Hf : valid_from f = true).
Context (Hu : 0 <= unix < 2 ^ 53) (Hn : 1 <= n <= U32_MAX).

Lemma parts_facts : nfc stem = stem /\ nfc ext = ext /\ Forall plain_char stem /\ Forall plain_char ext.
Proof using UL Hc Hp.
  destruct (valid_component_spec c Hc) as ([Hcn Hcp _ _ _ _] & _). destruct Hp as [b ->].
  apply Forall_app in Hcp as [H1 [H2 H3]%Forall_app].
  split_and!; [by apply (nfc_substring [] stem (b ++ ext))| |done..].
  apply (nfc_substring (stem ++ b) ext []). by rewrite app_nil_r, <- app_assoc.
Qed.

Lemma text_nfc : nfc (stem ++ suffix f unix n ++ ext) = stem ++ suffix f unix n ++ ext.
Proof using All.
  destruct parts_facts as (H1 & H2 & _). rewrite suffix_text. apply nfc_breaks; [done..|by apply bracket_nfc].
Qed.

Lemma text_plain : Forall plain_char (stem ++ suffix f unix n ++ ext).
Proof using All.
  destruct parts_facts as (_ & _ & H1 & H2). rewrite suffix_text, Forall_app, Forall_cons, Forall_app, Forall_cons.
  split_and!; try done. by apply bracket_plain.
Qed.

Lemma text_last x : last (stem ++ suffix f unix n ++ ext) = Some x -> x = 41 \/ last c = Some x.
Proof using All.
  destruct Hp as [b ->]. rewrite suffix_text, (app_assoc stem b), !last_app, last_cons, last_app, last_cons.
  destruct (last ext) as [w|]; [by right|]. intros [= <-]. by left.
Qed.

Lemma text_base : reserved_device_name (stem ++ suffix f unix n ++ ext) = false.
Proof using All.
  destruct (valid_component_spec c Hc) as (_ & _ & _ & _ & _ & Hr & _).
  destruct Hp as [b Hb]. destruct (decide (46 ∈ stem)) as [Hd|Hd].
  - rewrite <- Hr. apply reserved_by_base. rewrite Hb. by rewrite !base_of_dot.
  - apply reserved_no_space. rewrite suffix_text, base_of_plain by done.
    change (32 :: ?l) with ([32] ++ l). rewrite base_of_plain by (apply not_elem_of_cons; split; [done|apply not_elem_of_nil]).
    set_solver.
Qed.

Lemma text_valid : head stem = head c -> utf16_count (stem ++ suffix f unix n ++ ext) <= 180 ->
  valid_component (stem ++ suffix f unix n ++ ext) = true.
Proof using All.
  intros Hhd Hl. destruct (valid_component_spec c Hc) as ([_ _ Hne Hh Hlast _] & _ & _ & L1 & L2 & _ & _).
  assert (exists x s, stem = x :: s /\ leading x = false) as (x & s & Hs & Hx).
  { destruct c as [|x c']; [done|]. destruct stem as [|y s]; [done|].
    injection Hhd as ->. exists x, s. split; [done|by apply Hh]. }
  assert (canonical_name (stem ++ suffix f unix n ++ ext)) as Hcan.
  { split; [apply text_nfc|apply text_plain| | | |done].
    - by rewrite Hs.
    - intros y. rewrite Hs. by intros [= <-].
    - intros y [->|Hy]%text_last; [done|by apply Hlast]. }
  assert (x <> 46) as Hx46 by (intros ->; done).
  unfold valid_component, ends_in. rewrite text_base, (canonical_name_fixed _ Hcan).
  rewrite !andb_true_iff, !negb_true_iff, !bool_decide_eq_false, bool_decide_eq_true.
  split_and!; try done.
  - by rewrite Hs.
  - rewrite Hs. by intros [= E _].
  - rewrite Hs. by intros [= E _].
  - by intros [E|E]%text_last.
  - by intros [E|E]%text_last.
Qed.
End Parts.

(** The name of the loser when not even one character of the stem fits. *)
Definition short_ext (ext : text) : text :=
  let cut := trim_end is_js_whitespace (truncate_path ext (utf16_count ext - 1)) in
  if ends_in 46 cut then cut ++ [95] else cut.

Lemma sanitise_plain s : nfc s = s -> Forall plain_char s ->
  let trimmed := trim_end is_js_whitespace (trim_start leading s) in
  trimmed <> [] -> utf16_count trimmed <= MAX_NAME_UTF16 -> sanitise_name s = trimmed.
Proof.
  intros Hn Hp trimmed Hne Hl. unfold sanitise_name.
  rewrite leaf_id by (eapply Forall_impl; [exact Hp|]; unfold plain_char; intros c; rewrite !orb_false_iff; tauto).
  assert (List.filter (fun c => negb (is_control c)) s = s) as ->.
  { clear -Hp. induction Hp as [|c s Hc _ IH]; [done|]. unfold plain_char in Hc.
    rewrite !orb_false_iff in Hc. destruct Hc as [[Hc _] _]. cbn. by rewrite Hc, IH. }
  rewrite Hn. assert (map replace_reserved s = s) as ->.
  { clear -Hp. induction Hp as [|c s Hc _ IH]; [done|]. unfold plain_char in Hc.
    rewrite !orb_false_iff in Hc. destruct Hc as [_ Hc]. cbn. unfold replace_reserved at 1. by rewrite Hc, IH. }
  fold trimmed. destruct trimmed as [|c t]; [done|]. by rewrite (proj2 (Z.leb_le _ _) Hl).
Qed.
Lemma short_ext_cut ext x : ext = 46 :: x -> 46 ∉ x ->
  let cut := trim_end is_js_whitespace (truncate_path ext (utf16_count ext - 1)) in
  last cut = Some 46 -> short_ext ext = [46; 95].
Proof.
  intros -> Hx cut Hlast. unfold short_ext. fold cut. unfold ends_in. rewrite bool_decide_eq_true_2 by done.
  destruct (trim_end_prefix is_js_whitespace (truncate_path (46 :: x) (utf16_count (46 :: x) - 1))) as [b Hb].
  destruct (truncate_from_prefix 0 (46 :: x) (utf16_count (46 :: x) - 1)) as [d Hd].
  fold (truncate_path (46 :: x) (utf16_count (46 :: x) - 1)) in Hd. fold cut in Hb. rewrite Hb, <- app_assoc in Hd.
  destruct cut as [|y cut']; [done|]. injection Hd as <- ->. destruct cut' as [|z cut']; [done|].
  exfalso. apply Hx, elem_of_app. left. by apply last_Some_elem_of.
Qed.

Section Short.
Context (c ext x f : text) (unix n : Z).
Context (Hc : valid_component c = true) (Hp : parts c [] ext) (Hx : ext = 46 :: x) (H46 : 46 ∉ x).
Context (Hf : valid_from f = true) (Hu : 0 <= unix < 2 ^ 53) (Hn : 1 <= n <= U32_MAX).
Context (Hl : utf16_count (suffix f unix n) + utf16_count ext = 179).

Let kept : text := truncate_path ext (utf16_count ext - 1).
Let cut : text := trim_end is_js_whitespace kept.

Lemma bracket_units : utf16_count (bracket f unix n) <= 106 /\
  utf16_count (suffix f unix n) = 2 + utf16_count (bracket f unix n).
Proof using All.
  pose proof (suffix_units f unix n Hf Hu Hn) as [_ H]. pose proof (suffix_text [] f unix n []) as E.
  cbn [app] in E. rewrite app_nil_r in E. rewrite E, utf16_count_cons, utf16_count_app in *.
  change (utf16_count [41]) with 1 in *. change (len_utf16 32) with 1 in *. lia.
Qed.

Lemma kept_facts : nfc kept = kept /\ Forall plain_char kept /\ utf16_count kept <= utf16_count ext - 1.
Proof using All.
  destruct (parts_facts c [] ext Hc Hp) as (_ & H1 & _ & H2). destruct (suffix_units f unix n Hf Hu Hn) as [_ H3].
  destruct (truncate_from_prefix 0 ext (utf16_count ext - 1)) as [b Hb].
  change (truncate_from 0 ext (utf16_count ext - 1)) with kept in Hb. rewrite Hb in H1, H2.
  destruct (sub_name plain_char [] kept b H1 H2) as [H4 H5]. split_and!; [done..|].
  apply (truncate_from_count 0). lia.
Qed.

Lemma cut_facts : nfc cut = cut /\ Forall plain_char cut /\ utf16_count cut <= utf16_count ext - 1.
Proof using All.
  destruct kept_facts as (H1 & H2 & H3). destruct (trim_end_prefix is_js_whitespace kept) as [d Hd]. fold cut in Hd.
  rewrite Hd in H1, H2, H3. destruct (sub_name plain_char [] cut d H1 H2) as [H4 H5]. split_and!; [done..|].
  rewrite utf16_count_app in H3. pose proof (utf16_count_nonneg d). lia.
Qed.

Lemma short_valid : nfc (short_ext ext) = short_ext ext /\
  valid_component (bracket f unix n ++ 41 :: short_ext ext) = true.
Proof using All.
  destruct cut_facts as (H1 & H2 & H3), bracket_units as [H4 H5].
  destruct (decide (last cut = Some 46)) as [E|E].
  - rewrite (short_ext_cut ext x) by done. assert (nfc [46; 95] = [46; 95]) by (by apply nfc_ascii; repeat constructor).
    split; [done|]. apply bracket_valid; try done; [by repeat constructor|by intros y [= <-]|].
    rewrite utf16_count_app. change (utf16_count [41; 46; 95]) with 3. lia.
  - replace (short_ext ext) with cut by (unfold short_ext, ends_in; fold kept cut; by rewrite bool_decide_eq_false_2).
    split; [done|]. apply bracket_valid; try done; [intros y; apply trim_end_last|].
    rewrite utf16_count_app, utf16_count_cons. change (len_utf16 41) with 1. lia.
Qed.

Lemma short_sanitised :
  sanitise_name (truncate_path (suffix f unix n ++ ext) (MAX_COMPONENT_UTF16 - 2)) = bracket f unix n ++ 41 :: cut.
Proof using All.
  destruct cut_facts as (_ & _ & H3), kept_facts as (H1 & H2 & _), bracket_units as [H4 H5].
  rewrite truncate_path_app by (unfold MAX_COMPONENT_UTF16; lia).
  replace (MAX_COMPONENT_UTF16 - 2 - utf16_count (suffix f unix n)) with (utf16_count ext - 1)
    by (unfold MAX_COMPONENT_UTF16; lia).
  fold kept. rewrite (suffix_text [] f unix n kept : suffix f unix n ++ kept = _). cbn [app].
  assert (trim_end is_js_whitespace (trim_start leading (32 :: bracket f unix n ++ 41 :: kept)) =
    bracket f unix n ++ 41 :: cut) as Ht by by apply (trim_end_app _ (bracket f unix n)).
  rewrite sanitise_plain; rewrite ?Ht; try done.
  - apply (nfc_breaks []); [done|apply nfc_nil|by apply bracket_nfc].
  - constructor; [done|]. apply Forall_app. split; [by apply bracket_plain|by constructor].
  - rewrite utf16_count_app, utf16_count_cons. change (len_utf16 41) with 1. unfold MAX_NAME_UTF16. lia.
Qed.

(** The leading space goes, and what is left of the extension stays. *)
Lemma safe_short : safe_component (suffix f unix n ++ ext) = bracket f unix n ++ 41 :: short_ext ext.
Proof using All.
  destruct short_valid as [_ Hv]. unfold safe_component.
  replace (valid_component (suffix f unix n ++ ext)) with false.
  2: { symmetry. apply not_true_iff_false. intros ([_ _ _ Hh _ _] & _)%valid_component_spec. by specialize (Hh 32 eq_refl). }
  cbv zeta. rewrite short_sanitised.
  assert (reserved_device_name (bracket f unix n ++ 41 :: cut) = false) as -> by apply bracket_base.
  assert (forall y, last (bracket f unix n ++ 41 :: cut) = Some y -> y = 41 \/ last cut = Some y) as Hlast.
  { intros y. rewrite last_app, last_cons. destruct (last cut); [by right|]. intros [= <-]. by left. }
  assert (ends_in 32 (bracket f unix n ++ 41 :: cut) = false) as ->.
  { apply bool_decide_eq_false. intros [E|E]%Hlast; [done|]. by apply trim_end_last in E. }
  assert (ends_in 46 (bracket f unix n ++ 41 :: cut) = ends_in 46 cut) as ->.
  { apply bool_decide_ext. rewrite last_app, last_cons. by destruct (last cut). }
  assert ((if ends_in 46 cut || false then (bracket f unix n ++ 41 :: cut) ++ [95] else bracket f unix n ++ 41 :: cut) =
    bracket f unix n ++ 41 :: short_ext ext) as ->; [|by rewrite Hv].
  rewrite orb_false_r. unfold short_ext. fold kept cut. destruct (ends_in 46 cut); [|done]. by rewrite <- app_assoc.
Qed.
End Short.

(** What a conflict name ends in. *)
Definition tail_of (c f : text) (unix n : Z) : text :=
  let '(stem, ext) := stem_ext c in
  let used := utf16_count (suffix f unix n) + utf16_count ext in
  if MAX_COMPONENT_UTF16 <=? used then []
  else if bool_decide (truncate_path stem (MAX_COMPONENT_UTF16 - used) = []) then short_ext ext else ext.

Definition tails (c : text) : list text := [(stem_ext c).2; short_ext (stem_ext c).2; []].

Lemma tail_of_tails c f unix n : tail_of c f unix n ∈ tails c.
Proof.
  unfold tail_of, tails. destruct (stem_ext c) as [stem ext]. cbn [snd].
  destruct (_ <=? _); [set_solver|]. destruct (bool_decide _); set_solver.
Qed.

(** The name when a part of the stem is kept. *)
Lemma safe_text c stem ext f unix n : valid_component c = true -> parts c stem ext -> head stem = head c ->
  valid_from f = true -> 0 <= unix < 2 ^ 53 -> 1 <= n <= U32_MAX ->
  utf16_count stem + utf16_count (suffix f unix n) + utf16_count ext <= 180 -> exists p,
  safe_component (stem ++ suffix f unix n ++ ext) = p ++ bracket f unix n ++ 41 :: ext /\
  nfc (p ++ bracket f unix n ++ 41 :: ext) = p ++ bracket f unix n ++ 41 :: ext.
Proof.
  intros Hc Hp Hh Hf Hu Hn Hl. exists (stem ++ [32]). rewrite safe_component_fixed.
  - pose proof (text_nfc c stem ext f unix n Hc Hp Hf Hu Hn) as H. rewrite suffix_text in *.
    rewrite <- app_assoc. by split.
  - apply (text_valid c); try done. rewrite !utf16_count_app. lia.
Qed.

Lemma kept_text c s x f unix n (room := 180 - (utf16_count (suffix f unix n) + utf16_count x)) :
  valid_component c = true -> parts c s x -> valid_from f = true -> 0 <= unix < 2 ^ 53 -> 1 <= n <= U32_MAX ->
  0 < room -> truncate_path s room <> [] -> exists p,
  safe_component (truncate_path s room ++ suffix f unix n ++ x) = p ++ bracket f unix n ++ 41 :: x /\
  nfc (safe_component (truncate_path s room ++ suffix f unix n ++ x)) =
    safe_component (truncate_path s room ++ suffix f unix n ++ x).
Proof.
  intros Hc [y Hy] Hf Hu Hn Hroom Hk.
  destruct (truncate_from_prefix 0 s room) as [b Hb]. fold (truncate_path s room) in Hb.
  pose proof (truncate_from_count 0 s room ltac:(lia)) as Hcnt. fold (truncate_path s room) in Hcnt.
  destruct (safe_text c (truncate_path s room) x f unix n) as (p & H1 & H2); try done.
  - exists (b ++ y). by rewrite <- app_assoc, (app_assoc _ b), <- Hb.
  - rewrite truncate_path_head, Hy by done. by destruct s.
  - subst room. lia.
  - exists p. by rewrite H1.
Qed.

(** The name a loser takes. *)
Lemma conflict_name_text c f unix n : valid_component c = true -> valid_from f = true ->
  0 <= unix < 2 ^ 53 -> 1 <= n <= U32_MAX -> exists p,
  conflict_name c f unix n = p ++ bracket f unix n ++ 41 :: tail_of c f unix n /\
  nfc (conflict_name c f unix n) = conflict_name c f unix n.
Proof.
  intros Hc Hf Hu Hn. destruct (valid_component_spec c Hc) as ([_ _ Hne _ _ _] & _).
  destruct (stem_ext_spec c Hne) as (Hs & Hw & He). destruct (suffix_units f unix n Hf Hu Hn) as [Hl0 Hl].
  unfold conflict_name, tail_of. cbv zeta. change (if 2 <=? n then 32 :: u64_to_string n else []) with (number_text n).
  change (lit " (conflict from " ++ computer_label f ++ 32 :: utc_date unix ++ number_text n ++ [41]) with (suffix f unix n).
  destruct (stem_ext c) as [stem ext]; cbn [fst snd] in *. pose proof (utf16_count_nonneg ext) as Hx0.
  unfold saturating_sub, MAX_COMPONENT_UTF16 in *.
  destruct (Z.leb_spec 180 (utf16_count (suffix f unix n) + utf16_count ext)) as [Hbig|Hsmall].
  - assert (utf16_count [] = 0) as H0 by done. rewrite Z.max_l by lia.
    apply (kept_text c); [done|by exists []; rewrite !app_nil_r|done..|lia|].
    intros E%truncate_path_room; [lia|done].
  - rewrite Z.max_l by lia. case_bool_decide as E.
    + rewrite E. apply truncate_path_room in E; [|done]. cbn [app]. exists [].
      destruct He as [->|(x & Hx & H46)]; [change (utf16_count []) with 0 in E; lia|].
      assert (parts c [] ext) as Hp by by exists stem.
      assert (utf16_count (suffix f unix n) + utf16_count ext = 179) as H179 by lia.
      destruct (short_valid c ext x f unix n) as [Hse _]; try done.
      rewrite (safe_short c ext x f unix n) by done. split; [done|by apply bracket_nfc].
    + apply (kept_text c); try done; [by exists []|lia].
Qed.

Lemma lower_run ds t : Forall (fun c => breaks c = true) ds -> to_lowercase (ds ++ t) = ds ++ to_lowercase t.
Proof.
  induction 1 as [|d ds Hd _ IH]; [done|]. change ((d :: ds) ++ t) with ([] ++ d :: (ds ++ t)).
  rewrite lower_breaks, IH by done. by rewrite (lower_ascii []).
Qed.

(** The numbers tell names with the same ending apart, also where case does
    not matter. *)
Lemma conflict_names_differ c f unix n m : valid_component c = true -> valid_from f = true ->
  0 <= unix < 2 ^ 53 -> 1 <= n <= U32_MAX -> 1 <= m <= U32_MAX -> tail_of c f unix n = tail_of c f unix m ->
  fold_part (conflict_name c f unix n) = fold_part (conflict_name c f unix m) -> n = m.
Proof.
  intros Hc Hf Hu Hn Hm Ht.
  assert (forall k, 1 <= k <= U32_MAX -> exists a, fold_part (conflict_name c f unix k) =
    (a ++ utc_date unix ++ number_text k) ++ 41 :: to_lowercase (tail_of c f unix k)) as Hk.
  { intros k Hk. destruct (conflict_name_text c f unix k Hc Hf Hu Hk) as (p & Hx & Hnfc).
    unfold fold_part. rewrite Hnfc, Hx. unfold bracket. destruct (dated_facts unix k Hu Hk) as [Hd _].
    exists (to_lowercase (p ++ lit "(conflict from") ++ 32 :: to_lowercase (computer_label f) ++ [32]).
    pose proof (lower_run _ [] Hd) as Hrun. rewrite (lower_ascii []), app_nil_r in Hrun by constructor.
    repeat (rewrite <- app_assoc; cbn [app]). rewrite (app_assoc p), (app_assoc (utc_date unix)), !lower_breaks by done.
    rewrite Hrun. repeat (rewrite <- app_assoc; cbn [app]). done. }
  destruct (Hk n Hn) as [a ->], (Hk m Hm) as [b ->]. rewrite Ht. intros [H _]%app_inj_2; [|reflexivity].
  by eapply number_text_inj.
Qed.
End Name.

(** One component whose numbers give all three endings: the face with its
    extension of 143 units, no face and one unit less, and no extension. *)
Example three_endings :
  let c := 0x1F600 :: 46 :: replicate 142 98 in
  let name := @conflict_name ascii_unicode c (lit "Laptop") 1792324800 in
  @valid_component ascii_unicode c = true /\
  name 1 = 0x1F600 :: lit " (conflict from Laptop 2026-10-18)" ++ 46 :: replicate 142 98 /\
  name 2 = lit "(conflict from Laptop 2026-10-18 2)" ++ 46 :: replicate 141 98 /\
  name 10 = 0x1F600 :: 46 :: replicate 140 98 ++ lit " (conflict from Laptop 2026-10-18 10)".
Proof. vm_compute. repeat split. Qed.
