(* ===== verification/DropLayoutTheorems.v ===== *)
(** * The folder layout converges, is complete and terminates

    The claims about [DropLayout].  Unicode is a parameter with
    [UnicodeLaws] and [CaseLaws]; the witnesses run the layout on ASCII names.
    [layout_total] is about rows whose computer name, time and path the key
    list's checks let through ([listed]). *)
From stdpp Require Import sorting gmap.
From S2P Require Import Prelude EnvelopeFormat EnvelopeName DirectText DirectJson DirectPath.
From S2P Require Import DropLayout DropLayoutProofs DropConflict.
#[local] Open Scope Z_scope.

Section Total.
Context `{U : Unicode} {UL : UnicodeLaws U} {CL : CaseLaws U}.

(** What the layout needs of a row, and no more than the checks of the key
    list ask of its fields ([DropKeyListTheorems.checked_listed]): a computer
    name and a time within their limits and at most [MAX_COMPONENTS]
    components. *)
Definition listed (e : LayoutEntry) : bool :=
  valid_from (from e) && between 1 (added e) MAX_SAFE_INTEGER &&
  (Z.of_nat (length (split_on 47 (path e))) <=? MAX_COMPONENTS).

Lemma listed_spec e : listed e = true ->
  valid_from (from e) = true /\ 0 <= added e < 2 ^ 53 /\ (length (safe_components e) <= 17)%nat.
Proof.
  unfold listed, between, MAX_SAFE_INTEGER, MAX_COMPONENTS. rewrite !andb_true_iff, !Z.leb_le.
  intros ((H1 & H2) & H3). split_and!; [done|lia|lia|unfold safe_components; rewrite length_map; lia].
Qed.

Lemma number_from_None fuel t cs at_ e n m : number_from fuel t cs at_ e n = None ->
  n + Z.of_nat fuel - 1 <= U32_MAX -> n <= m < n + Z.of_nat fuel -> free t (rename_at cs at_ e m) = false.
Proof.
  revert n. induction fuel as [|fuel IH]; intros n H Hm1 Hm2; [lia|]. cbn [number_from] in H.
  destruct (Z.ltb_spec U32_MAX n); [lia|]. destruct (free t (rename_at cs at_ e n)) eqn:E; [done|].
  destruct (decide (m = n)) as [->|]; [done|]. apply (IH (n + 1)); [done|lia..].
Qed.

Lemma position_first {A} (p : A -> bool) l i x j : position p l = Some i -> (j < i)%nat -> l !! j = Some x -> p x = false.
Proof.
  revert i j. induction l as [|y l IH]; intros i j; cbn; [done|]. destruct (p y) eqn:E; [intros [= <-]; lia|].
  destruct (position p l) as [k|] eqn:Ek; [|done]. cbn. intros [= <-] Hj. destruct j as [|j]; cbn; [congruence|].
  apply (IH k j); [done|lia].
Qed.

Lemma position_bound {A} (p : A -> bool) l i : position p l = Some i -> (i < length l)%nat.
Proof.
  revert i. induction l as [|y l IH]; intros i; cbn; [done|]. destruct (p y); [intros [= <-]; lia|].
  destruct (position p l); [|done]. cbn. intros [= <-]. specialize (IH n eq_refl). lia.
Qed.

Lemma ancestors_lookup cs j : (S j < length cs)%nat -> ancestors cs !! j = Some (fold (joined (take (S j) cs))).
Proof.
  intros Hj. unfold ancestors. rewrite list_lookup_fmap, lookup_seq_lt by lia. done.
Qed.

Definition taken_keys (t : Taken) : list text := elements (dom (files t)) ++ elements (folders t).

Definition nth_part (at_ : nat) (key : text) : text := default [] (split_on 47 key !! at_).

(** The place a clash is broken at: every folder above it is clear. *)
Definition clear_above (t : Taken) (cs : list text) (at_ : nat) : Prop :=
  (at_ < length cs)%nat /\ forall j, (j < at_)%nat -> files t !! fold (joined (take (S j) cs)) = None.

Lemma break_clear t cs : cs <> [] ->
  clear_above t cs (default (length cs - 1)%nat (blocking_ancestor t cs)).
Proof.
  intros Hne. assert (length cs <> 0%nat) by by destruct cs.
  unfold blocking_ancestor. destruct (position (file_at t) (ancestors cs)) as [i|] eqn:E; cbn.
  - pose proof (position_bound _ _ _ E) as Hi. unfold ancestors in Hi. rewrite length_map, length_seq in Hi.
    split; [lia|]. intros j Hj. apply file_at_false. eapply position_first; [exact E|exact Hj|].
    apply ancestors_lookup. lia.
  - split; [lia|]. intros j Hj. rewrite position_None, Forall_forall in E. apply file_at_false, E.
    apply ancestors_elem. exists (S j). split; [lia|done].
Qed.

(** A new name that is not free meets a taken key that holds it. *)
Lemma blocked_key t cs at_ e m : safe_parts cs -> clear_above t cs at_ -> free t (rename_at cs at_ e m) = false ->
  exists k, k ∈ taken_keys t /\
    nth_part at_ k = fold_part (conflict_name (default [] (cs !! at_)) (from e) (added e) m).
Proof.
  intros Hs [Hat Hclear] Hf. set (nm := conflict_name _ _ _ _).
  assert (length (rename_at cs at_ e m) = length cs) as Hl by apply length_insert.
  pose proof (safe_parts_plain _ (rename_at_safe cs at_ e m Hs)) as Hp.
  assert (rename_at cs at_ e m !! at_ = Some nm) as Hnm by by apply list_lookup_insert_eq.
  assert (forall n, (at_ < n)%nat -> nth_part at_ (fold (joined (take n (rename_at cs at_ e m)))) = fold_part nm) as Hpart.
  { intros n Hn. unfold nth_part. rewrite split_fold by (apply plain_parts_take; [done|lia]).
    rewrite list_lookup_fmap, lookup_take_lt, Hnm by lia. done. }
  assert (forall k x, files t !! k = Some x -> k ∈ taken_keys t) as Hfile.
  { intros k x Hx. apply elem_of_app. left. by apply elem_of_elements, elem_of_dom. }
  pose proof (Hpart (length cs) Hat) as Hwhole. rewrite take_ge in Hwhole by lia.
  apply not_true_iff_false in Hf. rewrite free_true in Hf.
  destruct (files t !! fold (joined (rename_at cs at_ e m))) as [x|] eqn:E1; [by eauto|].
  destruct (decide (fold (joined (rename_at cs at_ e m)) ∈ folders t)) as [E2|E2].
  { eexists. split; [|exact Hwhole]. apply elem_of_app. right. by apply elem_of_elements. }
  destruct (blocking_ancestor t (rename_at cs at_ e m)) as [i|] eqn:E3.
  2: { exfalso. apply Hf. split_and!; [done..|]. unfold blocking_ancestor in E3.
       rewrite position_None, Forall_forall in E3. intros k Hk. by apply file_at_false, E3. }
  clear Hf. unfold blocking_ancestor in E3.
  assert (exists k, k ∈ ancestors (rename_at cs at_ e m) /\ file_at t k = true) as (k & Hk & Hfk).
  { destruct (decide (Exists (fun k => file_at t k = true) (ancestors (rename_at cs at_ e m)))) as [H|H];
      [by apply Exists_exists in H|].
    apply not_Exists_Forall in H; [|apply _]. assert (position (file_at t) (ancestors (rename_at cs at_ e m)) = None); [|congruence].
    apply position_None. eapply Forall_impl; [exact H|]. intros k. apply not_true_is_false. }
  apply ancestors_elem in Hk as (n & Hn & ->). rewrite Hl in Hn.
  destruct (decide (at_ < n)%nat) as [Hlt|Hge].
  - eexists. split; [|by apply Hpart]. unfold file_at in Hfk. apply bool_decide_eq_true in Hfk as [x Hx]. by eauto.
  - exfalso. unfold rename_at in Hfk. rewrite take_insert_ge in Hfk by lia. destruct n as [|n]; [lia|].
    rewrite (proj2 (file_at_false _ _)) in Hfk; [done|]. apply Hclear. lia.
Qed.

Lemma number_from_some t cs at_ e : safe_parts cs -> clear_above t cs at_ ->
  valid_from (from e) = true -> 0 <= added e < 2 ^ 53 -> Z.of_nat (tries t) <= U32_MAX ->
  number_from (tries t) t cs at_ e 1 <> None.
Proof.
  intros Hs Hc Hf Ha Ht Hnone.
  destruct (lookup_lt_is_Some_2 cs at_) as [c Ec]; [apply Hc|].
  assert (valid_component c = true) as Hv by (destruct Hs as [_ Hs]; eapply Forall_lookup_1 in Hs; done).
  set (name k := (tail_of c (from e) (added e) (Z.of_nat k), fold_part (conflict_name c (from e) (added e) (Z.of_nat k)))).
  assert (NoDup (map name (seq 1 (tries t)))) as Hnd.
  { apply NoDup_fmap_2_strong; [|apply NoDup_seq]. intros i j Hi%elem_of_seq Hj%elem_of_seq H.
    injection H as H1 H2. apply conflict_names_differ in H2; (done || lia). }
  assert (map name (seq 1 (tries t)) ⊆+ list_prod (tails c) (map (nth_part at_) (taken_keys t))) as Hsub%submseteq_length.
  { apply NoDup_submseteq; [done|]. intros x (k & -> & Hk%elem_of_seq)%list_elem_of_fmap.
    destruct (blocked_key t cs at_ e (Z.of_nat k) Hs Hc) as (key & Hkey & Hpart).
    { eapply number_from_None; [exact Hnone|lia..]. }
    apply list_elem_of_In, in_prod; apply list_elem_of_In; [apply tail_of_tails|].
    apply list_elem_of_fmap. exists key. split; [|done]. rewrite Hpart, Ec. done. }
  rewrite length_prod, !length_map, length_seq in Hsub. change (length (tails c)) with 3%nat in Hsub. unfold taken_keys in Hsub.
  rewrite length_app in Hsub. unfold tries in Hsub.
  replace (length (elements (dom (files t)))) with (base.size (files t)) in Hsub by (symmetry; apply (size_dom (files t))).
  change (length (elements (folders t))) with (base.size (folders t)) in Hsub. lia.
Qed.

Lemma set_of_list_size_le (l : list text) : (base.size (list_to_set l : gset text) <= length l)%nat.
Proof.
  induction l as [|x l IH]; [done|]. cbn [list_to_set length]. rewrite size_union_alt, size_singleton.
  pose proof (subseteq_size ((list_to_set l : gset text) ∖ {[x]}) (list_to_set l) ltac:(set_solver)). lia.
Qed.

Lemma lay_one_some t out e : listed e = true -> Z.of_nat (tries t) <= U32_MAX ->
  exists t' out', lay_one t out e = Some (t', out') /\ (tries t' <= tries t + 51)%nat.
Proof.
  intros (Hf & Ha & Hl)%listed_spec Ht.
  pose proof (safe_components_safe e) as Hs.
  destruct (lay_one t out e) as [[t' out']|] eqn:E.
  - exists t', out'. split; [done|].
    assert (forall cs, (length cs <= 17)%nat -> (tries (place t cs e) <= tries t + 51)%nat) as Hplace.
    { intros cs Hcs. unfold tries, place; cbn [files folders]. rewrite map_size_insert.
      rewrite size_union_alt.
      pose proof (subseteq_size (list_to_set (ancestors cs) ∖ folders t) (list_to_set (ancestors cs) : gset text)
        ltac:(set_solver)).
      pose proof (set_of_list_size_le (ancestors cs)) as H2.
      unfold ancestors in H2 at 2. rewrite length_map, length_seq in H2.
      destruct (files t !! _); unfold Datatypes.id; lia. }
    destruct (lay_one_cases _ _ _ _ _ E) as [(cs & _ & _ & He & Hcs)|(w & _ & _ & _ & -> & _)]; [|lia].
    injection He as -> _. apply Hplace. destruct Hcs as [->|(_ & at_ & n & ->)]; [done|].
    unfold rename_at. by rewrite length_insert.
  - exfalso. unfold lay_one in E. destruct (free t (safe_components e)); [done|].
    pose proof (number_from_some t (safe_components e) _ e Hs (break_clear t _ (proj1 Hs)) Hf Ha Ht) as Hn.
    destruct (number_from _ _ _ _ _ _); [|done]. destruct (files t !! _); [|done].
    destruct (bool_decide (is_Some (plain e)) && _); done.
Qed.

Lemma lay_all_some order t out : Forall (fun e => listed e = true) order ->
  Z.of_nat (tries t) + 51 * Z.of_nat (length order) <= U32_MAX ->
  exists t' out', lay_all t out order = Some (t', out').
Proof.
  intros Hl. revert t out. induction Hl as [|e order He Ho IH]; intros t out Ht; cbn [lay_all]; [eauto|].
  cbn [length] in Ht. destruct (lay_one_some t out e He) as (t1 & out1 & -> & H1); [lia|].
  cbn [mbind option_bind]. apply IH. lia.
Qed.

Lemma in_order_length entries : (length (in_order entries) <= length entries)%nat.
Proof. rewrite in_order_perm. apply List.filter_length_le. Qed.

Lemma layout_some entries : Forall (fun e => listed e = true) entries ->
  51 * Z.of_nat (length entries) < U32_MAX -> layout entries <> None.
Proof.
  intros Hl Hn. pose proof (in_order_length entries). unfold layout.
  destruct (lay_all_some (in_order entries) nothing_taken (start entries)) as (t & out & ->); [| |done].
  - rewrite Forall_forall in *. intros e [He _]%in_order_elem. by apply Hl.
  - change (tries nothing_taken) with 1%nat. lia.
Qed.
End Total.

(** ** Claims *)

Section Claims.
Context `{U : Unicode} {UL : UnicodeLaws U} {CL : CaseLaws U}.

(** C13: The layout depends on which rows there are and not on the order they
    arrived in: two computers that hold the same rows, in any order, place,
    hide and de-duplicate the same files in the same way. *)
Theorem layout_converges entries entries' :
  NoDup (map id entries) -> Permutation entries entries' -> layout entries = layout entries'.
Proof. apply layout_permutation. Qed.

(** C14: The places of a layout make one tree that every supported system can
    write: every component is a valid name, no two files share a path where
    case and composition do not count, and no file is also a folder another
    file lies in. *)
Theorem layout_is_a_tree entries out i p : layout entries = Some out -> placed out !! i = Some p ->
  Forall (fun c => valid_component c = true) (split_on 47 p) /\
  forall j q, placed out !! j = Some q -> i <> j ->
    fold q <> fold p /\ forall r, fold q <> fold p ++ 47 :: r.
Proof. intros H1 H2. by eapply layout_tree. Qed.

(** C18: No row is lost.  A row of the layout is hidden because another row
    names it as the version it replaces at the same path, or it is placed, or
    it is a duplicate of a row with the same known content that is placed at
    its path; and it is only one of the three. *)
Theorem layout_loses_nothing entries out e :
  NoDup (map id entries) -> layout entries = Some out -> e ∈ entries ->
  (id e ∈ hidden out /\ placed out !! id e = None /\ duplicates out !! id e = None /\
     exists r, r ∈ entries /\ prev r = Some (id e) /\ id r <> id e /\ fold (path r) = fold (path e)) \/
  (id e ∉ hidden out /\ is_Some (placed out !! id e) /\ duplicates out !! id e = None) \/
  (id e ∉ hidden out /\ placed out !! id e = None /\
     exists w p, duplicates out !! id e = Some (id w) /\ w ∈ entries /\ plain e <> None /\ plain w = plain e /\
       placed out !! id w = Some p /\ fold p = fold (joined (safe_components e))).
Proof.
  intros Hn Hl He. destruct (layout_accounted entries out Hn Hl) as ([t [_ Hall Honce Hcopy]] & Hh).
  assert (forall d, d ∈ entries -> id d = id e -> d = e) as Hid.
  { intros d Hd Hi. by eapply (NoDup_map_inj id). }
  assert (id e ∈ hidden out <-> replaced entries e = true) as Hhid.
  { rewrite Hh. cbn. rewrite elem_of_list_to_set, list_elem_of_fmap. setoid_rewrite filter_elem. split; [|eauto].
    intros (d & Hi & Hd & Hr). by rewrite <- (Hid d). }
  assert (id e ∈ map id (in_order entries) <-> replaced entries e = false) as Hin.
  { rewrite list_elem_of_fmap. setoid_rewrite in_order_elem. split; [|eauto].
    intros (d & Hi & Hd & Hr). by rewrite <- (Hid d). }
  specialize (Hall (id e)). specialize (Honce (id e)).
  destruct (replaced entries e) eqn:Er.
  - left. split; [by apply Hhid|]. split_and!; [apply eq_None_not_Some; intros H; by destruct Hin as [Hin _];
      specialize (Hin (proj1 Hall ltac:(auto)))..|].
    unfold replaced in Er. apply existsb_exists in Er as (r & Hr & H). exists r. rewrite list_elem_of_In.
    destruct (prev r) as [q|]; [|done]. rewrite !andb_true_iff, negb_true_iff, bool_decide_eq_false, !bool_decide_eq_true in H.
    destruct H as ((H1 & ->) & H2). split_and!; congruence.
  - right. assert (id e ∉ hidden out) as Hnh by (rewrite Hhid; done).
    destruct (proj2 Hall (proj2 Hin eq_refl)) as [[p Hp]|[w Hw]].
    + left. split_and!; [done|by eexists|]. destruct Honce; congruence.
    + right. split_and!; [done|destruct Honce; congruence|].
      destruct (Hcopy _ _ Hw) as (d & v & p & Hd & Hi & Hv & <- & H1 & H2 & H3 & H4).
      apply in_order_elem in Hd as [Hd _], Hv as [Hv _]. rewrite (Hid d Hd Hi) in *. by exists v, p.
Qed.

(** C33: The search for a conflict name ends: the layout is defined for rows
    whose computer name, time and number of path components are within the
    limits of the key list, whatever their names, as long as there are fewer
    than [U32_MAX] / 51 (some 84 million) of them, so that the [u32] numbers do
    not run out.  A conflict name has one of three endings (its extension, a
    part of it, or none), the numbers give names that differ where case does
    not count when the ending is the same, and so one more number than three
    for each taken path is enough. *)
Theorem layout_total entries : Forall (fun e => listed e = true) entries ->
  51 * Z.of_nat (length entries) < U32_MAX -> is_Some (layout entries).
Proof. intros H1 H2. by apply not_eq_None_Some, layout_some. Qed.
End Claims.

(** ** Witnesses *)

Definition two_rows : list LayoutEntry :=
  [entry_at 1 "Notes" 1792324800; entry_at 2 "notes/a.txt" 1792324801].

Definition two_rows_layout : Layout := default no_layout (@layout ascii_unicode two_rows).

Lemma layout_converges_witness :
  @layout ascii_unicode two_rows = @layout ascii_unicode (reverse two_rows).
Proof.
  apply layout_converges; [apply (bool_decide_unpack _); vm_compute; exact I|].
  change (reverse two_rows) with [entry_at 2 "notes/a.txt" 1792324801; entry_at 1 "Notes" 1792324800].
  apply perm_swap.
Defined.

Lemma layout_is_a_tree_witness :
  Forall (fun c => @valid_component ascii_unicode c = true)
    (split_on 47 (lit "notes (conflict from Laptop 2026-10-18)/a.txt")).
Proof.
  apply (@layout_is_a_tree ascii_unicode ascii_unicode_laws ascii_case_laws two_rows two_rows_layout (lit "2"));
    vm_compute; reflexivity.
Defined.

Lemma layout_loses_nothing_witness :
  lit "2" ∉ hidden two_rows_layout /\ is_Some (placed two_rows_layout !! lit "2").
Proof.
  assert (is_Some (placed two_rows_layout !! lit "2")) as [p Hp] by (vm_compute; eauto).
  destruct (@layout_loses_nothing ascii_unicode ascii_unicode_laws ascii_case_laws two_rows two_rows_layout
    (entry_at 2 "notes/a.txt" 1792324801)) as [(_ & H & _)|[(H & H' & _)|(_ & H & _)]].
  - apply (bool_decide_unpack _). vm_compute. exact I.
  - vm_compute. reflexivity.
  - apply list_elem_of_further, list_elem_of_here.
  - change (id (entry_at 2 "notes/a.txt" 1792324801)) with (lit "2") in H. congruence.
  - split; [exact H|exact H'].
  - change (id (entry_at 2 "notes/a.txt" 1792324801)) with (lit "2") in H. congruence.
Defined.

Lemma layout_total_witness : is_Some (@layout ascii_unicode two_rows).
Proof.
  apply (@layout_total ascii_unicode ascii_unicode_laws ascii_case_laws);
    [repeat constructor|vm_compute; reflexivity].
Defined.
