(* ===== verification/DropKeyList.v ===== *)
(** * The key list

    Models the list of [desktop/src-tauri/src/drop/device.rs] in memory: its
    entries and tombstones, the checks of an entry, insertion, removal and the
    merge of copies, with the file ids of [drop/mod.rs].  [DropKeyListWire] adds
    its text and its envelope.  [slice::binary_search_by] is given lists in
    strictly ascending id order, on which it is [search]; a [BTreeMap] is a
    [gmap] read out in the order of its keys. *)
From stdpp Require Import sorting gmap.
From S2P Require Import Prelude EnvelopeFormat EnvelopeName EnvelopeKey DirectText DirectJson DirectPath.
From S2P Require Import DropLayout.
#[local] Open Scope Z_scope.

(** ** File ids *)

(** [FileId([u8; 16])]; its derived order compares the bytes. *)
Abbreviation FileId := (list byte) (only parsing).

#[export] Instance byte_countable : Countable byte :=
  inj_countable' b2z z2b z2b_b2z.

Definition id_le (a b : FileId) : bool := lex_le (map b2z a) (map b2z b).
Definition id_lt (a b : FileId) : bool := negb (id_le b a).

(** ** Entries *)

Record KeyListEntry := {
  id : FileId;
  sha256 : list byte;
  size : Z;
  key : InputKey;
  name : text;
  media_type : text;
  bytes : Z;
  added : Z;
  path : text;
  prev : option FileId;
  plain : option (list byte);
  from : text
}.

#[export] Instance InputKey_eq_dec : EqDecision InputKey.
Proof.
  intros a b. destruct (decide (expose a = expose b)) as [H|H].
  - left. by apply key_ext.
  - right. by intros ->.
Defined.

#[export] Instance KeyListEntry_eq_dec : EqDecision KeyListEntry.
Proof. solve_decision. Defined.

Definition is_v1_shape (e : KeyListEntry) : bool :=
  bool_decide (path e = name e) && bool_decide (prev e = None) &&
  bool_decide (plain e = None) && bool_decide (from e = []).

Record Tombstone := { stone_id : FileId; at_ : Z }.

#[export] Instance Tombstone_eq_dec : EqDecision Tombstone.
Proof. solve_decision. Defined.

Record KeyList := { seq : Z; entries : list KeyListEntry; removed : list Tombstone }.

#[export] Instance KeyList_eq_dec : EqDecision KeyList.
Proof. solve_decision. Defined.

Inductive KeyListError :=
  | UnsupportedVersion
  | Malformed (what : string)
  | NotAKeyList
  | DuplicateId
  | Envelope (e : EnvelopeFormat.Error)
  | NoCandidates
  | Rollback (last_seen newest : Z)
  | Conflict (seq : Z)
  | Removed
  | SeqExhausted.

#[export] Instance KeyListError_eq_dec : EqDecision KeyListError.
Proof. solve_decision. Defined.

Definition new : KeyList := {| seq := 0; entries := []; removed := [] |}.

(** Equal entries and tombstones, whatever the [seq]. *)
Definition same_content (a b : KeyList) : bool :=
  bool_decide (entries a = entries b) && bool_decide (removed a = removed b).

(** ** Looking up *)

(** [binary_search_by] by id: the index of the element with this id, or where
    it would go. *)
Fixpoint search {A} (idof : A -> FileId) (l : list A) (k : FileId) : result nat nat :=
  match l with
  | [] => Err O
  | x :: l =>
      if bool_decide (idof x = k) then Ok O
      else if id_lt k (idof x) then Err O
      else match search idof l k with Ok i => Ok (S i) | Err i => Err (S i) end
  end.

(** [Vec::insert]. *)
Definition insert_at {A} (i : nat) (x : A) (l : list A) : list A := take i l ++ x :: drop i l.
(** [Vec::remove]. *)
Definition remove_at {A} (i : nat) (l : list A) : list A := take i l ++ drop (S i) l.

Definition get (l : KeyList) (k : FileId) : option KeyListEntry :=
  match search id (entries l) k with Ok i => entries l !! i | Err _ => None end.

Definition tombstone_index (l : KeyList) (k : FileId) : result nat nat := search stone_id (removed l) k.

(** ** Operations *)

Section KeyList.
Context `{U : Unicode}.

Definition check_entry (e : KeyListEntry) : result KeyListError unit :=
  if bool_decide (name e = []) || negb (bool_decide (sanitise_name (name e) = name e)) then Err (Malformed "name")
  else if negb (bool_decide (normalise_media_type (media_type e) = Ok (media_type e))) then Err (Malformed "type")
  else if (size e <? MIN_ENVELOPE_BYTES) || (MAX_SAFE_INTEGER <? size e) || (size e <=? bytes e)
  then Err (Malformed "size")
  else if (added e =? 0) || (MAX_SAFE_INTEGER <? added e) then Err (Malformed "added")
  else if negb (bool_decide (path e = name e)) && negb (valid_path (path e)) then Err (Malformed "path")
  else if bool_decide (prev e = Some (id e)) then Err (Malformed "prev")
  else if negb (valid_from (from e)) then Err (Malformed "from")
  else Ok tt.

Definition insert (l : KeyList) (e : KeyListEntry) : result KeyListError KeyList :=
  let? _ := check_entry e in
  if is_ok (tombstone_index l (id e)) then Err Removed
  else
    match search id (entries l) (id e) with
    | Ok _ => Err DuplicateId
    | Err i => Ok {| seq := seq l; entries := insert_at i e (entries l); removed := removed l |}
    end.

Definition remove (l : KeyList) (k : FileId) (removed_at : Z) : result KeyListError (KeyList * option KeyListEntry) :=
  if (removed_at =? 0) || (MAX_SAFE_INTEGER <? removed_at) then Err (Malformed "removed")
  else
    let stones :=
      match tombstone_index l k with
      | Ok i => alter (fun stone => {| stone_id := stone_id stone; at_ := Z.max (at_ stone) removed_at |}) i (removed l)
      | Err i => insert_at i {| stone_id := k; at_ := removed_at |} (removed l)
      end in
    match search id (entries l) k with
    | Ok i => Ok ({| seq := seq l; entries := remove_at i (entries l); removed := stones |}, entries l !! i)
    | Err _ => Ok ({| seq := seq l; entries := entries l; removed := stones |}, None)
    end.
End KeyList.

(** ** Merging *)

(** [BTreeMap::into_iter]. *)
Definition by_id {A} (a b : FileId * A) : Prop := id_le a.1 b.1 = true.
#[export] Instance by_id_dec {A} : RelDecision (@by_id A) := fun a b => decide (id_le a.1 b.1 = true).

Definition sorted_items {A} (m : gmap FileId A) : list (FileId * A) := merge_sort by_id (map_to_list m).

Definition max_seq (lists : list KeyList) : option Z :=
  foldr (fun l o => Some (match o with Some m => Z.max (seq l) m | None => seq l end)) None lists.

(** [removed.entry(stone.id).or_insert(stone.at)] and the larger [at]. *)
Definition union_stone (m : gmap FileId Z) (t : Tombstone) : gmap FileId Z :=
  <[stone_id t := match m !! stone_id t with Some a => Z.max a (at_ t) | None => at_ t end]> m.

Definition union_removed (lists : list KeyList) : gmap FileId Z :=
  foldl union_stone ∅ (flat_map removed lists).

Record Choice := {
  chosen : gmap FileId (Z * KeyListEntry);
  disputed : gmap FileId Z
}.

(** One entry of the copy with this [seq]. *)
Definition choose (gone : gmap FileId Z) (s : Z) (c : Choice) (e : KeyListEntry) : Choice :=
  if bool_decide (is_Some (gone !! id e)) then c
  else
    match chosen c !! id e with
    | Some (best, existing) =>
        if s <? best then c
        else if best =? s then
          if bool_decide (existing = e) then c
          else {| chosen := chosen c; disputed := <[id e := s]> (disputed c) |}
        else {| chosen := <[id e := (s, e)]> (chosen c); disputed := delete (id e) (disputed c) |}
    | None => {| chosen := <[id e := (s, e)]> (chosen c); disputed := delete (id e) (disputed c) |}
    end.

Definition choose_all (gone : gmap FileId Z) (lists : list KeyList) : Choice :=
  foldl (fun c l => foldl (choose gone (seq l)) c (entries l)) {| chosen := ∅; disputed := ∅ |} lists.

(** [disputed.values().max()]. *)
Definition max_value (m : gmap FileId Z) : option Z :=
  foldr (fun kv o => Some (match o with Some m => Z.max kv.2 m | None => kv.2 end)) None (map_to_list m).

Definition merge (lists : list KeyList) : result KeyListError KeyList :=
  let? s := ok_or (max_seq lists) NoCandidates in
  let gone := union_removed lists in
  let c := choose_all gone lists in
  match max_value (disputed c) with
  | Some s => Err (Conflict s)
  | None =>
      Ok {| seq := s;
            entries := map (fun x => x.2.2) (sorted_items (chosen c));
            removed := map (fun x => {| stone_id := x.1; at_ := x.2 |}) (sorted_items gone) |}
  end.
