(* ===== verification/DropKeyListProofs.v ===== *)
(** * What the key list keeps

    Proofs about [DropKeyList].  A list in order is determined by the maps of
    its entries and tombstones by id ([content]); insertion and removal are
    the updates of those maps; [merge] chooses per id ([choose_all_spec]) and is
    the join of the maps when the copies agree ([merge_join]). *)
From stdpp Require Import sorting gmap.
From S2P Require Import Prelude EnvelopeFormat EnvelopeName EnvelopeKey DirectText DirectJson DirectPath.
From S2P Require Import DropLayout DropKeyList.
#[local] Open Scope Z_scope.

(** ** The order of ids *)

Lemma map_b2z_inj (a b : list byte) : map b2z a = map b2z b -> a = b.
Proof. assert (Inj (=) (=) b2z) by (intros x y; apply b2z_inj). apply (inj (fmap b2z)). Qed.

Lemma id_le_total a b : id_le a b = true \/ id_le b a = true.
Proof. apply lex_le_total. Qed.

Lemma id_le_antisym a b : id_le a b = true -> id_le b a = true -> a = b.
Proof. intros H1 H2. by apply map_b2z_inj, lex_le_antisym. Qed.

Lemma id_le_trans a b c : id_le a b = true -> id_le b c = true -> id_le a c = true.
Proof. apply lex_le_trans. Qed.

Lemma id_lt_spec a b : id_lt a b = true <-> id_le a b = true /\ a <> b.
Proof.
  unfold id_lt. rewrite negb_true_iff. split.
  - intros H. destruct (id_le_total a b) as [Ha|Hb]; [|congruence]. split; [done|]. intros ->. congruence.
  - intros [H1 H2]. apply not_true_iff_false. intros H3. by apply H2, id_le_antisym.
Qed.

Lemma id_lt_irrefl a : id_lt a a = false.
Proof. apply not_true_iff_false. rewrite id_lt_spec. tauto. Qed.

Lemma id_lt_trans a b c : id_lt a b = true -> id_lt b c = true -> id_lt a c = true.
Proof.
  rewrite !id_lt_spec. intros [H1 N1] [H2 N2]. split; [by eapply id_le_trans|].
  intros ->. by apply N1, id_le_antisym.
Qed.

Lemma id_lt_total a b : a <> b -> id_lt a b = false -> id_lt b a = true.
Proof.
  intros Hn H. rewrite id_lt_spec. split; [|done]. destruct (id_le_total a b) as [Ha|Hb]; [|done].
  rewrite <- not_true_iff_false, id_lt_spec in H. tauto.
Qed.

(** ** Lists in order of id *)

Section Ordered.
Context {A : Type} (idof : A -> FileId).
Implicit Types l : list A.

Definition ordered l : Prop := StronglySorted (fun a b => id_lt (idof a) (idof b) = true) l.

Lemma ordered_app l1 l2 : ordered (l1 ++ l2) <->
  ordered l1 /\ ordered l2 /\ forall a b, a ∈ l1 -> b ∈ l2 -> id_lt (idof a) (idof b) = true.
Proof.
  induction l1 as [|x l1 IH]; cbn.
  - split; [|tauto]. intros H. split_and!; [constructor|done|]. intros a b Ha. by apply elem_of_nil in Ha.
  - split.
    + intros [H1 H2]%StronglySorted_inv. apply IH in H1 as (H3 & H4 & H5). apply Forall_app in H2 as [H2 H6].
      split_and!; [by constructor|done|]. intros a b [->|Ha]%elem_of_cons Hb; [|by apply H5].
      rewrite Forall_forall in H6. by apply H6.
    + intros ([H1 H2]%StronglySorted_inv & H3 & H4). constructor.
      * apply IH. split_and!; try done. intros a b Ha Hb. apply H4; [by right|done].
      * apply Forall_app. split; [done|]. apply Forall_forall. intros b Hb. apply H4; [by left|done].
Qed.

Lemma ordered_NoDup l : ordered l -> NoDup (map idof l).
Proof.
  induction l as [|x l IH]; cbn; [constructor|]. intros [H1 H2]%StronglySorted_inv. constructor; [|by apply IH].
  intros (y & Hy & Hin)%list_elem_of_fmap. rewrite Forall_forall in H2. specialize (H2 y Hin).
  rewrite Hy, id_lt_irrefl in H2. done.
Qed.

(** The map of a list by id. *)
Definition by_ids l : gmap FileId A := list_to_map (map (fun x => (idof x, x)) l).

Lemma by_ids_keys l : map fst (map (fun x => (idof x, x)) l) = map idof l.
Proof. rewrite map_map. done. Qed.

Lemma by_ids_lookup l k x : ordered l -> by_ids l !! k = Some x <-> x ∈ l /\ idof x = k.
Proof.
  intros H%ordered_NoDup. unfold by_ids. rewrite <- elem_of_list_to_map.
  - rewrite list_elem_of_fmap. split; [intros (y & [= -> ->] & Hy); done|]. intros [Hx <-]. eauto.
  - unfold fmap, list_fmap. change (NoDup (map fst (map (fun x => (idof x, x)) l))). by rewrite by_ids_keys.
Qed.

Lemma by_ids_None l k : ordered l -> by_ids l !! k = None <-> k ∉ map idof l.
Proof.
  intros H. rewrite eq_None_not_Some, list_elem_of_fmap. apply not_iff_compat. split.
  - intros [x Hx]. apply by_ids_lookup in Hx as [Hx <-]; [|done]. eauto.
  - intros (x & -> & Hx). exists x. by apply by_ids_lookup.
Qed.

(** A list in order is determined by its map. *)
Lemma ordered_inj l l' : ordered l -> ordered l' -> by_ids l = by_ids l' -> l = l'.
Proof.
  intros H H' E. apply (StronglySorted_unique_strong (fun a b => id_lt (idof a) (idof b) = true)); try done.
  - intros x y _ _ H1 H2. pose proof (id_lt_trans _ _ _ H1 H2). by rewrite id_lt_irrefl in H0.
  - apply NoDup_Permutation; [apply (NoDup_fmap_1 idof), ordered_NoDup, H|apply (NoDup_fmap_1 idof), ordered_NoDup, H'|].
    intros x. pose proof (by_ids_lookup l (idof x) x H) as H1. pose proof (by_ids_lookup l' (idof x) x H') as H2.
    rewrite E in H1. tauto.
Qed.

(** [binary_search_by] on a list in order. *)
Lemma search_spec l k : ordered l ->
  match search idof l k with
  | Ok i => exists x, l !! i = Some x /\ idof x = k
  | Err i => (i <= length l)%nat /\ (forall a, a ∈ take i l -> id_lt (idof a) k = true) /\
             (forall b, b ∈ drop i l -> id_lt k (idof b) = true)
  end.
Proof.
  induction l as [|x l IH]; cbn [search]; intros Ho.
  { split_and!; [done|..]; intros a Ha; by apply elem_of_nil in Ha. }
  destruct (bool_decide_reflect (idof x = k)) as [Hx|Hx]; [by exists x|].
  apply StronglySorted_inv in Ho as [Ho Hf]. rewrite Forall_forall in Hf.
  destruct (id_lt k (idof x)) eqn:Hk.
  - split_and!; [cbn; lia|intros a Ha; by apply elem_of_nil in Ha|].
    intros b [->|Hb]%elem_of_cons; [done|]. eapply id_lt_trans; [exact Hk|by apply Hf].
  - specialize (IH Ho). destruct (search idof l k) as [i|i].
    + destruct IH as (y & Hy & <-). by exists y.
    + destruct IH as (Hi & H1 & H2). split_and!; [cbn; lia| |exact H2].
      intros a. cbn [take]. intros [->|Ha]%elem_of_cons; [|by apply H1]. by apply id_lt_total.
Qed.

Lemma search_Ok l k i : ordered l -> search idof l k = Ok i -> exists x, l !! i = Some x /\ by_ids l !! k = Some x.
Proof.
  intros Ho Hs. pose proof (search_spec l k Ho) as H. rewrite Hs in H. destruct H as (x & Hx & Hk).
  exists x. split; [done|]. apply by_ids_lookup; [done|]. split; [by eapply list_elem_of_lookup_2|done].
Qed.

Lemma search_Err l k i : ordered l -> search idof l k = Err i -> by_ids l !! k = None.
Proof.
  intros Ho Hs. pose proof (search_spec l k Ho) as H. rewrite Hs in H. destruct H as (_ & H1 & H2).
  apply by_ids_None; [done|]. intros (x & -> & Hx)%list_elem_of_fmap.
  rewrite <- (take_drop i l), elem_of_app in Hx.
  destruct Hx as [Hx|Hx]; [apply H1 in Hx|apply H2 in Hx]; by rewrite id_lt_irrefl in Hx.
Qed.

Lemma insert_ordered l x i : ordered l -> search idof l (idof x) = Err i ->
  ordered (insert_at i x l) /\ by_ids (insert_at i x l) = <[idof x := x]> (by_ids l).
Proof.
  intros Ho Hs. pose proof (search_spec l (idof x) Ho) as H. rewrite Hs in H. destruct H as (_ & H1 & H2).
  assert (ordered (insert_at i x l)) as Hi.
  { rewrite <- (take_drop i l) in Ho. apply ordered_app in Ho as (Ha & Hb & Hc). apply ordered_app.
    split_and!; [done| |].
    - constructor; [done|]. apply Forall_forall. intros b. apply H2.
    - intros a b Ha' [->|Hb']%elem_of_cons; [by apply H1|by apply Hc]. }
  split; [done|]. apply map_eq. intros k. apply option_eq. intros y.
  rewrite by_ids_lookup by done. unfold insert_at. rewrite elem_of_app, elem_of_cons.
  rewrite lookup_insert_Some, by_ids_lookup by done.
  rewrite <- (take_drop i l) at 3. rewrite elem_of_app. split.
  - intros [[Ha|[->|Ha]] <-]; [right|by left|right]; (split; [|tauto]); intros E;
      [apply H1 in Ha|apply H2 in Ha]; by rewrite E, id_lt_irrefl in Ha.
  - intros [[<- <-]|[Hn [Ha <-]]]; [tauto|]. tauto.
Qed.

Lemma remove_ordered l x i : ordered l -> l !! i = Some x ->
  ordered (remove_at i l) /\ by_ids (remove_at i l) = delete (idof x) (by_ids l).
Proof.
  intros Ho Hx. pose proof (take_drop_middle l i x Hx) as Hl.
  assert (ordered (take i l ++ x :: drop (S i) l)) as Ho' by by rewrite Hl.
  apply ordered_app in Ho' as (Ha & [Hb Hf]%StronglySorted_inv & Hc). rewrite Forall_forall in Hf.
  assert (ordered (remove_at i l)) as Hr.
  { apply ordered_app. split_and!; [done..|]. intros a b H1 H2. apply Hc; [done|by right]. }
  split; [done|]. apply map_eq. intros k. apply option_eq. intros y.
  rewrite by_ids_lookup by done. unfold remove_at. rewrite elem_of_app, lookup_delete_Some, by_ids_lookup by done.
  rewrite <- Hl at 3. rewrite elem_of_app, elem_of_cons. split.
  - intros [[H|H] <-]; (split; [|tauto]); intros E.
    + specialize (Hc y x H ltac:(left)). by rewrite E, id_lt_irrefl in Hc.
    + specialize (Hf y H). by rewrite E, id_lt_irrefl in Hf.
  - intros (Hn & [H|[->|H]] & <-); tauto.
Qed.

(** [v[i] = f(v[i])] with the id unchanged. *)
Lemma alter_ordered l x i (f : A -> A) : (forall a, idof (f a) = idof a) -> ordered l -> l !! i = Some x ->
  ordered (alter f i l) /\ by_ids (alter f i l) = <[idof x := f x]> (by_ids l).
Proof.
  intros Hf Ho Hx. pose proof (take_drop_middle l i x Hx) as Hl.
  assert (alter f i l = take i l ++ f x :: drop (S i) l) as ->.
  { rewrite <- Hl at 1. assert (length (take i l) = i) as Hi by (apply length_take_le; apply lookup_lt_Some in Hx; lia).
    rewrite <- Hi at 1. by rewrite alter_app_r_alt, Nat.sub_diag by lia. }
  assert (ordered (take i l ++ x :: drop (S i) l)) as Ho' by by rewrite Hl.
  apply ordered_app in Ho' as (Ha & [Hb Hg]%StronglySorted_inv & Hc).
  assert (ordered (take i l ++ f x :: drop (S i) l)) as Hr.
  { apply ordered_app. split_and!; [done|constructor; [done|by rewrite Hf]|].
    intros a b H1 [->|H2]%elem_of_cons; [rewrite Hf; apply Hc; [done|left]|apply Hc; [done|by right]]. }
  split; [done|]. rewrite Forall_forall in Hg. apply map_eq. intros k. apply option_eq. intros y.
  rewrite by_ids_lookup, elem_of_app, elem_of_cons, lookup_insert_Some, by_ids_lookup by done.
  rewrite <- Hl at 3. rewrite elem_of_app, elem_of_cons. split.
  - intros [[H|[->|H]] <-]; [right|left; by rewrite Hf|right]; (split; [|tauto]); intros E.
    + specialize (Hc y x H ltac:(left)). by rewrite E, id_lt_irrefl in Hc.
    + specialize (Hg y H). by rewrite E, id_lt_irrefl in Hg.
  - intros [[<- <-]|[Hn [[H|[->|H]] <-]]]; rewrite ?Hf; tauto.
Qed.
End Ordered.

(** ** What a key list is *)

Section WellFormed.
Context `{U : Unicode}.

Definition stone_ok (t : Tombstone) : Prop := 1 <= at_ t <= MAX_SAFE_INTEGER.

(** Unsigned fields and byte arrays of their lengths: what the types of the
    source say of an entry. *)
Record typed (e : KeyListEntry) : Prop := {
  ty_id : length (id e) = 16%nat;
  ty_sha : length (sha256 e) = 32%nat;
  ty_prev : forall p, prev e = Some p -> length p = 16%nat;
  ty_plain : forall p, plain e = Some p -> length p = 32%nat;
  ty_bytes : 0 <= bytes e;
  ty_added : 0 <= added e;
  ty_text : is_text (name e) /\ is_text (media_type e) /\ is_text (path e) /\ is_text (from e)
}.

Record wf (l : KeyList) : Prop := {
  wf_seq : 0 <= seq l <= MAX_SAFE_INTEGER;
  wf_entries : ordered id (entries l);
  wf_removed : ordered stone_id (removed l);
  wf_checked : Forall (fun e => typed e /\ check_entry e = Ok tt) (entries l);
  wf_stones : Forall (fun t => length (stone_id t) = 16%nat /\ stone_ok t) (removed l);
  wf_apart : forall e t, e ∈ entries l -> t ∈ removed l -> id e <> stone_id t
}.

Definition entry_map (l : KeyList) : gmap FileId KeyListEntry := by_ids id (entries l).
Definition stone_map (l : KeyList) : gmap FileId Z := at_ <$> by_ids stone_id (removed l).

(** Entries and tombstones by id. *)
Definition content (l : KeyList) : gmap FileId KeyListEntry * gmap FileId Z := (entry_map l, stone_map l).

Lemma get_entry_map l k : wf l -> get l k = entry_map l !! k.
Proof.
  intros [_ He _ _ _ _]. unfold get, entry_map. destruct (search id (entries l) k) as [i|i] eqn:E.
  - destruct (search_Ok _ _ _ _ He E) as (x & -> & ->). done.
  - by rewrite (search_Err _ _ _ _ He E).
Qed.

Lemma stones_inj l l' : ordered stone_id l -> ordered stone_id l' ->
  at_ <$> by_ids stone_id l = at_ <$> by_ids stone_id l' -> l = l'.
Proof.
  intros H H' E. apply (ordered_inj stone_id); [done..|]. apply map_eq. intros k.
  apply (f_equal (lookup k)) in E. rewrite !lookup_fmap in E.
  destruct (by_ids stone_id l !! k) as [[i a]|] eqn:E1, (by_ids stone_id l' !! k) as [[i' a']|] eqn:E2; cbn in E; try done.
  apply by_ids_lookup in E1 as [_ <-]; [|done]. apply by_ids_lookup in E2 as [_ E2]; [|done]. cbn in E2. congruence.
Qed.

(** A key list is its [seq] and its content. *)
Lemma content_inj l l' : wf l -> wf l' -> seq l = seq l' -> content l = content l' -> l = l'.
Proof.
  intros [_ E1 R1 _ _ _] [_ E2 R2 _ _ _] Hs [= He Hr]. apply (ordered_inj id) in He; [|done..].
  apply stones_inj in Hr; [|done..]. destruct l, l'; cbn in *. congruence.
Qed.

Lemma same_content_iff l l' : wf l -> wf l' -> same_content l l' = true <-> content l = content l'.
Proof.
  intros [_ E1 R1 _ _ _] [_ E2 R2 _ _ _]. unfold same_content. rewrite andb_true_iff, !bool_decide_eq_true. split.
  - intros [H1 H2]. unfold content, entry_map, stone_map. by rewrite H1, H2.
  - intros [= He Hr]. split; [by apply (ordered_inj id)|by apply stones_inj].
Qed.

Lemma wf_new : wf new.
Proof. split; cbn; try constructor; try done. intros e t H. by apply elem_of_nil in H. Qed.

Lemma tombstone_index_ok l k : wf l -> is_ok (tombstone_index l k) = bool_decide (is_Some (stone_map l !! k)).
Proof.
  intros [_ _ Hr _ _ _]. unfold tombstone_index, stone_map. rewrite lookup_fmap.
  destruct (search stone_id (removed l) k) as [i|i] eqn:E; cbn.
  - destruct (search_Ok _ _ _ _ Hr E) as (x & _ & ->). done.
  - by rewrite (search_Err _ _ _ _ Hr E).
Qed.

Lemma stone_map_None l k : wf l -> stone_map l !! k = None <-> forall t, t ∈ removed l -> stone_id t <> k.
Proof.
  intros [_ _ Hr _ _ _]. unfold stone_map. rewrite lookup_fmap, fmap_None, by_ids_None by done.
  rewrite list_elem_of_fmap. split; [|naive_solver]. intros H t Ht E. apply H. by exists t.
Qed.

Lemma elem_insert_at {A} i (x y : A) l : y ∈ insert_at i x l <-> y = x \/ y ∈ l.
Proof. unfold insert_at. rewrite <- (take_drop i l) at 3. rewrite !elem_of_app, elem_of_cons. tauto. Qed.

Lemma elem_remove_at {A} i (y : A) l : y ∈ remove_at i l -> y ∈ l.
Proof.
  unfold remove_at. rewrite elem_of_app. intros [H|H]; [by eapply elem_of_take_in|].
  apply list_elem_of_lookup in H as [j Hj]. rewrite lookup_drop in Hj. by eapply list_elem_of_lookup_2.
Qed.

(** Adding an entry is adding it to the map, and keeps the list well formed. *)
Lemma insert_spec l e l' : wf l -> typed e -> insert l e = Ok l' ->
  wf l' /\ check_entry e = Ok tt /\ entry_map l !! id e = None /\ stone_map l !! id e = None /\
  content l' = (<[id e := e]> (entry_map l), stone_map l) /\ seq l' = seq l.
Proof.
  intros Hwf He. unfold insert. destruct (check_entry e) as [[]|] eqn:Hc; [|done].
  rewrite tombstone_index_ok by done. destruct (bool_decide_reflect (is_Some (stone_map l !! id e))) as [|Hs]; [done|].
  apply eq_None_not_Some in Hs. destruct (search id (entries l) (id e)) as [i|i] eqn:E; [done|]. intros [= <-].
  pose proof Hwf as [W1 W2 W3 W4 W5 W6]. destruct (insert_ordered _ _ _ _ W2 E) as [Ho Hm].
  split_and!; try done; [|by apply (search_Err id) in E|by unfold content, entry_map; cbn [entries removed]; rewrite Hm].
  split; cbn [seq entries removed]; try done.
  - apply Forall_forall. intros x [->|Hx]%elem_insert_at; [done|]. rewrite Forall_forall in W4. by apply W4.
  - intros x t [->|Hx]%elem_insert_at Ht; [|by apply W6].
    rewrite stone_map_None in Hs by done. intros E'. by apply (Hs t Ht).
Qed.

Definition later_stone (o : option Z) (a : Z) : Z := match o with Some b => Z.max b a | None => a end.

(** The tombstones after a removal. *)
Lemma removed_stones l k a : ordered stone_id (removed l) ->
  Forall (fun t => length (stone_id t) = 16%nat /\ stone_ok t) (removed l) ->
  length k = 16%nat -> 1 <= a <= MAX_SAFE_INTEGER ->
  let stones :=
    match tombstone_index l k with
    | Ok i => alter (fun stone => {| stone_id := stone_id stone; at_ := Z.max (at_ stone) a |}) i (removed l)
    | Err i => insert_at i {| stone_id := k; at_ := a |} (removed l)
    end in
  ordered stone_id stones /\ at_ <$> by_ids stone_id stones = <[k := later_stone (stone_map l !! k) a]> (stone_map l) /\
  forall t, t ∈ stones -> (stone_id t = k \/ t ∈ removed l) /\ length (stone_id t) = 16%nat /\ stone_ok t.
Proof.
  intros W3 W5 Hk Ha. cbv zeta. unfold tombstone_index. unfold stone_map. rewrite lookup_fmap.
  destruct (search stone_id (removed l) k) as [i|i] eqn:E.
  - destruct (search_Ok _ _ _ _ W3 E) as (x & Hx & Hl). rewrite Hl. cbn [option_fmap option_map fmap later_stone].
    edestruct (alter_ordered stone_id (removed l) x i) as [H1 H2]; [|exact W3|exact Hx|split; [exact H1|]]; [done|].
    apply by_ids_lookup in Hl as [Hin Hid]; [|done]. split; [rewrite H2, fmap_insert, Hid; done|].
    intros t Ht. apply list_elem_of_lookup in Ht as [j Hj]. rewrite Forall_forall in W5.
    destruct (decide (j = i)) as [->|Hij].
    + rewrite list_lookup_alter_eq, Hx in Hj. injection Hj as <-. cbn [stone_id]. destruct (W5 x Hin) as [H3 H4].
      split; [by left|]. split; [done|]. unfold stone_ok in *. cbn. lia.
    + rewrite list_lookup_alter_ne in Hj by done. apply list_elem_of_lookup_2 in Hj. split; [by right|by apply W5].
  - rewrite (search_Err _ _ _ _ W3 E). cbn [option_fmap option_map fmap later_stone].
    edestruct (insert_ordered stone_id (removed l) {| stone_id := k; at_ := a |} i) as [H1 H2]; [exact W3|exact E|].
    split; [done|]. split; [by rewrite H2, fmap_insert|].
    intros t [->|Ht]%elem_insert_at; [split; [by left|done]|]. rewrite Forall_forall in W5. split; [by right|by apply W5].
Qed.

(** Removing is deleting from one map and adding to the other. *)
Lemma remove_spec l k a l' o : wf l -> length k = 16%nat -> 0 <= a -> remove l k a = Ok (l', o) ->
  wf l' /\ o = entry_map l !! k /\ seq l' = seq l /\
  content l' = (delete k (entry_map l), <[k := later_stone (stone_map l !! k) a]> (stone_map l)).
Proof.
  intros Hwf Hk Ha0. unfold remove. destruct ((a =? 0) || (MAX_SAFE_INTEGER <? a)) eqn:Ea; [done|].
  pose proof Hwf as [W1 W2 W3 W4 W5 W6].
  assert (1 <= a <= MAX_SAFE_INTEGER) as Ha by lia. clear Ea Ha0.
  set (stones := match tombstone_index l k with Ok i => _ | Err i => _ end).
  destruct (removed_stones l k a W3 W5 Hk Ha) as (S1 & S2 & S3). fold stones in S1, S2, S3.
  assert (forall l1, ordered id l1 -> by_ids id l1 = delete k (entry_map l) -> (forall e, e ∈ l1 -> e ∈ entries l) ->
    wf {| seq := seq l; entries := l1; removed := stones |}) as Hnew.
  { intros l1 H1 H2 H3. split; cbn [seq entries removed]; try done.
    - rewrite Forall_forall in *. auto.
    - apply Forall_forall. intros t Ht. by apply S3.
    - intros e t He Ht. destruct (S3 t Ht) as [[Hid|Hin] _].
      + rewrite Hid. intros E. assert (by_ids id l1 !! k = Some e) as Hl by by apply by_ids_lookup.
        by rewrite H2, lookup_delete_eq in Hl.
      + apply W6; [by apply H3|done]. }
  unfold content. destruct (search id (entries l) k) as [i|i] eqn:E; intros [= <- <-].
  - destruct (search_Ok _ _ _ _ W2 E) as (x & Hx & Hl). edestruct (remove_ordered id (entries l) x i) as [H1 H2]; [done..|].
    pose proof Hl as Hl'. apply by_ids_lookup in Hl' as [_ Hid]; [|done]. rewrite Hid in H2.
    split_and!; [apply Hnew; [done..|]; intros e; apply elem_remove_at|by rewrite Hx|done|].
    f_equal; [exact H2|exact S2].
  - pose proof (search_Err _ _ _ _ W2 E) as Hn.
    assert (entry_map l = delete k (entry_map l)) as Hd by by rewrite delete_id.
    split_and!; [by apply Hnew|done|done|]. f_equal; [exact Hd|exact S2].
Qed.
End WellFormed.
