(* ===== verification/DropMerge.v ===== *)
(** * Merging copies of the key list

    Proofs about [merge] of [DropKeyList]: what it takes per id, that the order
    of the copies does not matter, that the result is a key list, and that on
    copies that agree it is the join of their contents. *)
From stdpp Require Import sorting gmap.
From S2P Require Import Prelude EnvelopeFormat EnvelopeName EnvelopeKey DirectText DirectJson DirectPath.
From S2P Require Import DropLayout DropKeyList DropKeyListProofs.
#[local] Open Scope Z_scope.

(** ** Maps read out in order *)

#[export] Instance by_id_total {A} : Total (@by_id A).
Proof. intros a b. apply id_le_total. Qed.
#[export] Instance by_id_trans {A} : Transitive (@by_id A).
Proof. intros a b c. apply id_le_trans. Qed.

Lemma sorted_items_elem {A} (m : gmap FileId A) k a : (k, a) ∈ sorted_items m <-> m !! k = Some a.
Proof. unfold sorted_items. by rewrite merge_sort_Permutation, elem_of_map_to_list. Qed.

Lemma sorted_items_ordered {A} (m : gmap FileId A) : ordered fst (sorted_items m).
Proof.
  assert (StronglySorted by_id (sorted_items m)) as Hs by apply (StronglySorted_merge_sort _ _).
  assert (NoDup (map fst (sorted_items m))) as Hn.
  { unfold sorted_items. rewrite merge_sort_Permutation. apply NoDup_fst_map_to_list. }
  revert Hs Hn. generalize (sorted_items m). intros l Hs Hn. induction l as [|x l IH]; [constructor|].
  apply StronglySorted_inv in Hs as [Hs Hf]. cbn in Hn. apply NoDup_cons in Hn as [Hx Hn]. constructor; [by apply IH|].
  rewrite Forall_forall in *. intros y Hy. apply id_lt_spec. split; [by apply Hf|].
  intros E. apply Hx. rewrite E. by apply list_elem_of_fmap_2.
Qed.

(** Items mapped to things that carry their key. *)
Lemma ordered_map {A B} (f : A -> FileId) (g : B -> FileId) (h : A -> B) l :
  (forall a, a ∈ l -> g (h a) = f a) -> ordered f l -> ordered g (map h l).
Proof.
  intros Hg. induction l as [|x l IH]; cbn; [constructor|]. intros [H1 H2]%StronglySorted_inv.
  assert (forall a, a ∈ l -> g (h a) = f a) as Hg' by (intros a Ha; apply Hg; by right).
  constructor; [by apply IH|]. apply Forall_fmap. rewrite Forall_forall in *. intros y Hy. cbn.
  rewrite Hg, Hg' by (done || left). by apply H2.
Qed.

(** ** The tombstones *)

(** [o] is the latest of the removals of [k] in [stones], if there is one. *)
Definition latest (stones : list Tombstone) (k : FileId) (o : option Z) : Prop :=
  match o with
  | None => forall t, t ∈ stones -> stone_id t <> k
  | Some a => (exists t, t ∈ stones /\ stone_id t = k /\ at_ t = a) /\
              forall t, t ∈ stones -> stone_id t = k -> at_ t <= a
  end.

Lemma latest_unique stones stones' k o o' : (forall t, t ∈ stones <-> t ∈ stones') ->
  latest stones k o -> latest stones' k o' -> o = o'.
Proof.
  intros He. destruct o as [a|], o' as [b|]; cbn; [|naive_solver..|done].
  intros [(t & Ht & H1 & <-) Ha] [(u & Hu & H2 & <-) Hb]. f_equal.
  specialize (Ha u ltac:(by apply He) H2). specialize (Hb t ltac:(by apply He) H1). lia.
Qed.

Lemma latest_snoc stones t k o : latest stones k o ->
  latest (stones ++ [t]) k (if decide (stone_id t = k) then Some (later_stone o (at_ t)) else o).
Proof.
  intros Hl. assert (forall u, u ∈ stones ++ [t] <-> u ∈ stones \/ u = t) as He.
  { intros u. by rewrite elem_of_app, list_elem_of_singleton. }
  destruct (decide (stone_id t = k)) as [Hk|Hk], o as [a|]; cbn in *.
  - destruct Hl as [(u & Hu & H1 & <-) Ha]. split.
    + destruct (Z.max_spec (at_ u) (at_ t)) as [[_ ->]|[_ ->]]; [exists t|exists u]; rewrite He; auto.
    + intros v [Hv| ->]%He Hvk; [specialize (Ha v Hv Hvk)|]; lia.
  - split; [exists t; rewrite He; auto|]. intros v [Hv| ->]%He Hvk; [|done]. by specialize (Hl v Hv Hvk).
  - destruct Hl as [(u & Hu & H1 & <-) Ha]. split; [exists u; rewrite He; auto|].
    intros v [Hv| ->]%He Hvk; [by apply Ha|done].
  - intros v [Hv| ->]%He; [by apply Hl|done].
Qed.

Lemma union_stones_latest stones k : latest stones k (foldl union_stone ∅ stones !! k).
Proof.
  induction stones as [|t stones IH] using rev_ind; [cbn [foldl]; rewrite lookup_empty; intros t H; by apply elem_of_nil in H|].
  rewrite foldl_snoc. unfold union_stone at 1. apply (latest_snoc _ t) in IH.
  destruct (decide (stone_id t = k)) as [<-|Hk]; [by rewrite lookup_insert_eq|by rewrite lookup_insert_ne].
Qed.

Definition stones_of (lists : list KeyList) : list Tombstone := flat_map removed lists.

Lemma stones_of_elem lists t : t ∈ stones_of lists <-> exists l, l ∈ lists /\ t ∈ removed l.
Proof.
  unfold stones_of. rewrite list_elem_of_In, in_flat_map. setoid_rewrite <- list_elem_of_In. done.
Qed.

Lemma union_removed_latest lists k : latest (stones_of lists) k (union_removed lists !! k).
Proof. apply union_stones_latest. Qed.

(** ** The entries *)

Definition offers (lists : list KeyList) : list (Z * KeyListEntry) :=
  flat_map (fun l => map (pair (seq l)) (entries l)) lists.

Lemma offers_elem lists s e : (s, e) ∈ offers lists <-> exists l, l ∈ lists /\ e ∈ entries l /\ seq l = s.
Proof.
  unfold offers. rewrite list_elem_of_In, in_flat_map. setoid_rewrite in_map_iff. setoid_rewrite <- list_elem_of_In.
  naive_solver.
Qed.

Lemma choose_all_offers gone lists : choose_all gone lists =
  foldl (fun c o => choose gone o.1 c o.2) {| chosen := ∅; disputed := ∅ |} (offers lists).
Proof.
  unfold choose_all, offers. generalize {| chosen := ∅; disputed := ∅ |}. induction lists as [|l lists IH]; intros c; [done|].
  cbn [flat_map foldl]. rewrite foldl_app, <- IH. f_equal. clear IH. revert c.
  induction (entries l) as [|e es IHe]; intros c; cbn; [done|]. apply IHe.
Qed.

Lemma offers_snoc (os : list (Z * KeyListEntry)) s e s' e' :
  (s', e') ∈ os ++ [(s, e)] <-> (s', e') ∈ os \/ s' = s /\ e' = e.
Proof. rewrite elem_of_app, list_elem_of_singleton. naive_solver. Qed.

(** [(s, e)] is what the newest copies that hold [k] offer, and [d] whether
    they disagree. *)
Definition taken (os : list (Z * KeyListEntry)) (k : FileId) (s : Z) (e : KeyListEntry) (d : option Z) : Prop :=
  (s, e) ∈ os /\ id e = k /\ (forall s' e', (s', e') ∈ os -> id e' = k -> s' <= s) /\
  ((d = None /\ forall e', (s, e') ∈ os -> id e' = k -> e' = e) \/
   (d = Some s /\ exists e', (s, e') ∈ os /\ id e' = k /\ e' <> e)).

Definition choice_at (gone : gmap FileId Z) (os : list (Z * KeyListEntry)) (c : Choice) (k : FileId) : Prop :=
  if bool_decide (is_Some (gone !! k)) then chosen c !! k = None /\ disputed c !! k = None
  else
    match chosen c !! k with
    | None => disputed c !! k = None /\ forall s e, (s, e) ∈ os -> id e <> k
    | Some (s, e) => taken os k s e (disputed c !! k)
    end.

Lemma choice_skip gone os c k s e : (bool_decide (is_Some (gone !! id e)) = true \/ id e <> k) ->
  choice_at gone os c k -> choice_at gone (os ++ [(s, e)]) c k.
Proof.
  intros Hs. unfold choice_at. destruct (bool_decide (is_Some (gone !! k))) eqn:Eg; [done|].
  assert (id e <> k) as Hk by (destruct Hs as [Hs|Hs]; [intros <-; by rewrite Eg in Hs|done]). clear Hs.
  assert (forall s' e', (s', e') ∈ os ++ [(s, e)] -> id e' = k -> (s', e') ∈ os) as Hold.
  { intros s' e' [H|[-> ->]]%offers_snoc ?; [done|done]. }
  destruct (chosen c !! k) as [[s1 e1]|].
  - intros (H1 & H2 & H3 & H4). split_and!; [apply elem_of_app; by left|done|by eauto|].
    destruct H4 as [(-> & H4)|(-> & e' & H4 & H5)]; [left; eauto|right]. split; [done|]. exists e'. rewrite elem_of_app. auto.
  - intros [H1 H2]. split; [done|]. intros s' e' H Hid. by eapply H2; [eapply Hold|].
Qed.

(** The choice of an entry at another id is untouched. *)
Lemma choose_other gone s c e k : id e <> k ->
  chosen (choose gone s c e) !! k = chosen c !! k /\ disputed (choose gone s c e) !! k = disputed c !! k.
Proof.
  intros Hk. unfold choose. destruct (bool_decide _); [done|].
  destruct (chosen c !! id e) as [[best ex]|]; [destruct (s <? best); [done|destruct (best =? s);
    [destruct (bool_decide (ex = e)); [done|]|]]|]; cbn [chosen disputed];
    rewrite ?lookup_insert_ne, ?lookup_delete_ne by done; done.
Qed.

(** A newer copy's entry takes its place. *)
Lemma choice_fresh gone os c s e : bool_decide (is_Some (gone !! id e)) = false ->
  (forall s' e', (s', e') ∈ os -> id e' = id e -> s' < s) ->
  choice_at gone (os ++ [(s, e)]) {| chosen := <[id e := (s, e)]> (chosen c); disputed := delete (id e) (disputed c) |} (id e).
Proof.
  intros Hg Hlt. unfold choice_at. rewrite Hg. cbn [chosen disputed]. rewrite lookup_insert_eq, lookup_delete_eq.
  split_and!; [apply elem_of_app; right; by apply list_elem_of_singleton|done| |left; split; [done|]].
  - intros s' e' [H|[-> ->]]%offers_snoc Hid; [specialize (Hlt _ _ H Hid)|]; lia.
  - intros e' [H|[_ ->]]%offers_snoc Hid; [specialize (Hlt _ _ H Hid); lia|done].
Qed.

Lemma choose_spec gone os c s e : (forall k, choice_at gone os c k) ->
  forall k, choice_at gone (os ++ [(s, e)]) (choose gone s c e) k.
Proof.
  intros Hc k. destruct (decide (id e = k)) as [<-|Hk].
  2: { pose proof (choice_skip gone os c k s e (or_intror Hk) (Hc k)) as H. unfold choice_at in *.
       destruct (choose_other gone s c e k Hk) as [-> ->]. done. }
  pose proof (Hc (id e)) as H. unfold choose. destruct (bool_decide (is_Some (gone !! id e))) eqn:Eg.
  { by apply choice_skip; [left|]. }
  unfold choice_at in H. rewrite Eg in H.
  destruct (chosen c !! id e) as [[best ex]|] eqn:Ec.
  2: { destruct H as [_ H]. apply choice_fresh; [done|]. intros s' e' Hin Hid. by apply H in Hin. }
  destruct H as (H1 & H2 & H3 & H4).
  destruct (Z.ltb_spec s best); [|destruct (Z.eqb_spec best s) as [->|]; [|
    apply choice_fresh; [done|]; intros s' e' Hin Hid; specialize (H3 _ _ Hin Hid); lia]].
  - unfold choice_at. rewrite Eg, Ec. split_and!; [apply elem_of_app; by left|done| |].
    + intros s' e' [Hin|[-> ->]]%offers_snoc Hid; [by eapply H3|lia].
    + destruct H4 as [(-> & H4)|(-> & e' & H4 & H5)]; [left; split; [done|]|right; split; [done|]; exists e'; by rewrite elem_of_app; auto].
      intros e' [Hin|[-> ->]]%offers_snoc Hid; [by apply H4|lia].
  - assert (forall s' e', (s', e') ∈ os ++ [(s, e)] -> id e' = id e -> s' <= s) as Hmax.
    { intros s' e' [Hin|[-> ->]]%offers_snoc Hid; [by eapply H3|lia]. }
    destruct (bool_decide_reflect (ex = e)) as [->|Hne]; unfold choice_at; rewrite Eg; cbn [chosen disputed]; rewrite Ec.
    + split_and!; [apply elem_of_app; by left|done|done|].
      destruct H4 as [(-> & H4)|(-> & e' & H4 & H5)]; [left; split; [done|]|right; split; [done|]; exists e'; by rewrite elem_of_app; auto].
      intros e' [Hin|[_ ->]]%offers_snoc Hid; [by apply H4|done].
    + split_and!; [apply elem_of_app; by left|done|done|]. right. rewrite lookup_insert_eq. split; [done|].
      exists e. split_and!; [apply elem_of_app; right; by apply list_elem_of_singleton|done|congruence].
Qed.

Lemma choose_all_spec gone lists k : choice_at gone (offers lists) (choose_all gone lists) k.
Proof.
  rewrite choose_all_offers. revert k. induction (offers lists) as [|[s e] os IH] using rev_ind.
  - intros k. unfold choice_at. cbn. rewrite !lookup_empty. destruct (bool_decide _); [done|]. split; [done|].
    intros s e H. by apply elem_of_nil in H.
  - rewrite foldl_snoc. apply choose_spec, IH.
Qed.

(** ** The result *)

Lemma max_seq_spec lists : match max_seq lists with
  | None => lists = []
  | Some m => (exists l, l ∈ lists /\ seq l = m) /\ forall l, l ∈ lists -> seq l <= m
  end.
Proof.
  induction lists as [|l lists IH]; [done|]. change (max_seq (l :: lists)) with
    (Some (match max_seq lists with Some m => Z.max (seq l) m | None => seq l end)).
  destruct (max_seq lists) as [m|].
  - destruct IH as [(x & Hx & <-) Hm]. split.
    + destruct (Z.max_spec (seq l) (seq x)) as [[_ ->]|[_ ->]]; [exists x|exists l]; by rewrite elem_of_cons; auto.
    + intros y [->|Hy]%elem_of_cons; [|specialize (Hm y Hy)]; lia.
  - subst. split; [exists l; by rewrite list_elem_of_singleton|]. by intros y ->%list_elem_of_singleton.
Qed.

Lemma max_value_None (m : gmap FileId Z) : max_value m = None <-> m = ∅.
Proof.
  unfold max_value. split; [|by intros ->; rewrite map_to_list_empty].
  destruct (map_to_list m) eqn:E; [|done]. intros _. by apply map_to_list_empty_iff.
Qed.

(** No two of the newest copies that hold an id disagree about it. *)
Definition undisputed (lists : list KeyList) : Prop :=
  disputed (choose_all (union_removed lists) lists) = ∅.

Section Permuted.
Context (lists lists' : list KeyList) (Hp : Permutation lists lists').

Lemma max_seq_perm : max_seq lists = max_seq lists'.
Proof using Hp.
  pose proof (max_seq_spec lists) as H1. pose proof (max_seq_spec lists') as H2.
  destruct (max_seq lists) as [m|], (max_seq lists') as [m'|]; try done.
  - destruct H1 as [(x & Hx & <-) H1], H2 as [(y & Hy & <-) H2].
    rewrite Hp in Hx. rewrite <- Hp in Hy. specialize (H1 y Hy). specialize (H2 x Hx). f_equal. lia.
  - subst. by destruct H1 as [(x & Hx & _) _]; rewrite Hp in Hx; apply elem_of_nil in Hx.
  - subst. by destruct H2 as [(x & Hx & _) _]; rewrite <- Hp in Hx; apply elem_of_nil in Hx.
Qed.

Lemma union_removed_perm : union_removed lists = union_removed lists'.
Proof using Hp.
  apply map_eq. intros k. eapply latest_unique; [|apply union_removed_latest..].
  intros t. rewrite !stones_of_elem. by setoid_rewrite Hp.
Qed.

Lemma offers_perm s e : (s, e) ∈ offers lists <-> (s, e) ∈ offers lists'.
Proof using Hp. rewrite !offers_elem. by setoid_rewrite Hp. Qed.

(** What is taken at an id depends on the offers alone, up to the dispute. *)
Lemma taken_unique k s e d s' e' d' :
  taken (offers lists) k s e d -> taken (offers lists') k s' e' d' ->
  d = d' /\ (d = None -> (s, e) = (s', e')).
Proof using Hp.
  intros (H1 & I1 & M1 & D1) (H2 & I2 & M2 & D2). pose proof H1 as H1'. pose proof H2 as H2'.
  rewrite offers_perm in H1'. rewrite <- offers_perm in H2'.
  assert (s = s') as <- by (specialize (M1 _ _ H2' I2); specialize (M2 _ _ H1' I1); lia).
  destruct D1 as [(-> & D1)|(-> & x & Hx & Ix & Nx)], D2 as [(-> & D2)|(-> & y & Hy & Iy & Ny)].
  - split; [done|]. intros _. by rewrite (D1 e').
  - rewrite <- offers_perm in Hy. rewrite (D1 y Hy Iy), (D1 e' H2' I2) in Ny. done.
  - rewrite offers_perm in Hx. rewrite (D2 x Hx Ix), (D2 e H1' I1) in Nx. done.
  - done.
Qed.

Lemma choices_perm (gone : gmap FileId Z) :
  disputed (choose_all gone lists) = disputed (choose_all gone lists') /\
  (disputed (choose_all gone lists) = ∅ -> chosen (choose_all gone lists) = chosen (choose_all gone lists')).
Proof using Hp.
  assert (forall k, disputed (choose_all gone lists) !! k = disputed (choose_all gone lists') !! k /\
    (disputed (choose_all gone lists) !! k = None ->
     chosen (choose_all gone lists) !! k = chosen (choose_all gone lists') !! k)) as Hk.
  { intros k. pose proof (choose_all_spec gone lists k) as H1. pose proof (choose_all_spec gone lists' k) as H2.
    unfold choice_at in *. destruct (bool_decide (is_Some (gone !! k))).
    { destruct H1 as [-> ->], H2 as [-> ->]. done. }
    destruct (chosen (choose_all gone lists) !! k) as [[s e]|], (chosen (choose_all gone lists') !! k) as [[s' e']|].
    - destruct (taken_unique _ _ _ _ _ _ _ H1 H2) as [-> H]. split; [done|]. intros E. by rewrite H.
    - destruct H2 as [_ H2], H1 as (H1 & Hid & _). rewrite offers_perm in H1. by apply H2 in H1.
    - destruct H1 as [_ H1], H2 as (H2 & Hid & _). rewrite <- offers_perm in H2. by apply H1 in H2.
    - destruct H1 as [-> _], H2 as [-> _]. done. }
  split; [apply map_eq; intros k; apply Hk|]. intros E. apply map_eq. intros k. apply Hk. by rewrite E, lookup_empty.
Qed.

Lemma merge_perm : merge lists = merge lists'.
Proof using Hp.
  unfold merge. rewrite max_seq_perm, union_removed_perm. destruct (choices_perm (union_removed lists')) as [Hd Hc].
  rewrite Hd in *. destruct (max_value _) eqn:E; [done|]. apply max_value_None in E. by rewrite (Hc E).
Qed.
End Permuted.

Lemma merge_inv lists m : merge lists = Ok m ->
  max_seq lists = Some (seq m) /\ undisputed lists /\
  entries m = map (fun x => x.2.2) (sorted_items (chosen (choose_all (union_removed lists) lists))) /\
  removed m = map (fun x => {| stone_id := x.1; at_ := x.2 |}) (sorted_items (union_removed lists)).
Proof.
  unfold merge. destruct (max_seq lists) as [s|]; [|done]. cbn [ok_or].
  destruct (max_value _) eqn:E; [done|]. apply max_value_None in E. by intros [= <-].
Qed.

Lemma merge_some lists : lists <> [] -> undisputed lists -> exists m, merge lists = Ok m.
Proof.
  intros Hne Hu. unfold merge. pose proof (max_seq_spec lists). destruct (max_seq lists) as [s|]; [|done]. cbn [ok_or].
  rewrite (proj2 (max_value_None _) Hu). eauto.
Qed.

(** The choice at an id, when nothing is disputed. *)
Lemma undisputed_choice lists k s e : undisputed lists ->
  chosen (choose_all (union_removed lists) lists) !! k = Some (s, e) <->
  union_removed lists !! k = None /\ (s, e) ∈ offers lists /\ id e = k /\
  forall s' e', (s', e') ∈ offers lists -> id e' = k -> s' <= s /\ (s' = s -> e' = e).
Proof.
  intros Hu. pose proof (choose_all_spec (union_removed lists) lists k) as H. unfold choice_at in H.
  assert (disputed (choose_all (union_removed lists) lists) !! k = None) as Hd by (by rewrite Hu, lookup_empty).
  rewrite Hd in H. destruct (bool_decide_reflect (is_Some (union_removed lists !! k))) as [[a Ha]|Hn].
  { destruct H as [-> _]. rewrite Ha. naive_solver. }
  apply eq_None_not_Some in Hn. rewrite Hn.
  destruct (chosen _ !! k) as [[s1 e1]|].
  - destruct H as (H1 & H2 & H3 & H4). assert (forall e', (s1, e') ∈ offers lists -> id e' = k -> e' = e1) as H5
      by (destruct H4 as [(_ & H4)|(? & _)]; done). split.
    + intros [= <- <-]. split_and!; try done. intros s' e' Hin Hid. split; [by eapply H3|]. intros ->. by apply H5.
    + intros (_ & K1 & K2 & K3). destruct (K3 _ _ H1 H2) as [L1 L2]. pose proof (H3 _ _ K1 K2).
      assert (s1 = s) as -> by lia. by rewrite (L2 eq_refl).
  - destruct H as [_ H]. split; [done|]. intros (_ & K1 & K2 & _). by apply H in K1.
Qed.

Lemma merged_entry lists m e : merge lists = Ok m -> e ∈ entries m <->
  exists s, chosen (choose_all (union_removed lists) lists) !! id e = Some (s, e).
Proof.
  intros (_ & Hu & -> & _)%merge_inv. rewrite list_elem_of_fmap. split.
  - intros ([k [s x]] & -> & H%sorted_items_elem). exists s. cbn. pose proof H as H'.
    apply undisputed_choice in H' as (_ & _ & Hid & _); [|done]. by rewrite Hid.
  - intros [s H]. exists (id e, (s, e)). split; [done|]. by apply sorted_items_elem.
Qed.

Lemma merged_stone lists m t : merge lists = Ok m -> t ∈ removed m <-> union_removed lists !! stone_id t = Some (at_ t).
Proof.
  intros (_ & _ & _ & ->)%merge_inv. rewrite list_elem_of_fmap. split.
  - intros ([k a] & -> & H%sorted_items_elem). done.
  - intros H. exists (stone_id t, at_ t). split; [by destruct t|]. by apply sorted_items_elem.
Qed.

Lemma merged_ordered lists m : merge lists = Ok m -> ordered id (entries m) /\ ordered stone_id (removed m).
Proof.
  intros (_ & Hu & -> & ->)%merge_inv. split; eapply (ordered_map fst); try apply sorted_items_ordered; [|done].
  intros [k [s x]] H%sorted_items_elem. cbn. by apply undisputed_choice in H as (_ & _ & Hid & _).
Qed.

Lemma offer_removed lists k : union_removed lists !! k = None <->
  forall l t, l ∈ lists -> t ∈ removed l -> stone_id t <> k.
Proof.
  pose proof (union_removed_latest lists k) as H. destruct (union_removed lists !! k) as [a|]; cbn in H.
  - destruct H as [(t & (l & Hl & Ht)%stones_of_elem & Hid & _) _]. split; [done|]. intros H. by destruct (H l t).
  - split; [|done]. intros _ l t Hl Ht. apply H. apply stones_of_elem. eauto.
Qed.

Section Merged.
Context `{U : Unicode}.

Lemma merge_wf lists m : Forall wf lists -> merge lists = Ok m -> wf m.
Proof.
  intros Hwf Hm. destruct (merged_ordered _ _ Hm) as [Ho1 Ho2]. rewrite Forall_forall in Hwf.
  pose proof (merge_inv _ _ Hm) as (Hs & Hu & _ & _).
  assert (forall e, e ∈ entries m -> union_removed lists !! id e = None /\ exists l, l ∈ lists /\ e ∈ entries l) as He.
  { intros e [s Hc]%(merged_entry lists m e Hm). apply undisputed_choice in Hc as (H1 & H2 & _); [|done].
    split; [done|]. apply offers_elem in H2 as (l & H2 & H3 & _). eauto. }
  split; try done.
  - pose proof (max_seq_spec lists) as H. rewrite Hs in H. destruct H as [(l & Hl & <-) _]. by apply Hwf.
  - apply Forall_forall. intros e Hin. destruct (He e Hin) as (_ & l & Hl & Hel).
    destruct (Hwf l Hl) as [_ _ _ H _ _]. rewrite Forall_forall in H. by apply H.
  - apply Forall_forall. intros t Ht%(merged_stone lists m t Hm). pose proof (union_removed_latest lists (stone_id t)) as H.
    rewrite Ht in H. destruct H as [(u & (l & Hl & Hu')%stones_of_elem & Hid & Hat) _].
    destruct (Hwf l Hl) as [_ _ _ _ H _]. rewrite Forall_forall in H. destruct (H u Hu') as [H1 H2].
    rewrite <- Hid. split; [done|]. unfold stone_ok in *. by rewrite <- Hat.
  - intros e t [He' _]%He Ht%(merged_stone lists m t Hm) E. rewrite E in He'. congruence.
Qed.

(** ** Contents as a join-semilattice *)

Abbreviation Content := (gmap FileId KeyListEntry * gmap FileId Z)%type (only parsing).

Definition join_stones (a b : gmap FileId Z) : gmap FileId Z := union_with (fun x y => Some (Z.max x y)) a b.

(** What two copies know together: every removal, at its latest time, and
    every entry neither has removed. *)
Definition join (a b : Content) : Content :=
  let stones := join_stones a.2 b.2 in
  (filter (fun kv => stones !! kv.1 = None) (a.1 ∪ b.1), stones).

Definition joined_content (lists : list KeyList) : Content := foldr join (∅, ∅) (map content lists).

(** One entry per id in all copies: ids are random and entries never change. *)
Definition agree (lists : list KeyList) : Prop := forall l l' e e',
  l ∈ lists -> l' ∈ lists -> e ∈ entries l -> e' ∈ entries l' -> id e = id e' -> e = e'.

Lemma agree_undisputed lists : agree lists -> undisputed lists.
Proof.
  intros Ha. apply map_empty. intros k. pose proof (choose_all_spec (union_removed lists) lists k) as H.
  unfold choice_at in H. destruct (bool_decide _); [tauto|]. destruct (chosen _ !! k) as [[s e]|]; [|tauto].
  destruct H as (H1 & H2 & _ & [[-> _]|(_ & e' & H3 & H4 & H5)]); [done|]. exfalso. apply H5.
  apply offers_elem in H1 as (l & Hl & He & _), H3 as (l' & Hl' & He' & _). eapply Ha; [exact Hl'|exact Hl|done..|congruence].
Qed.

Lemma stone_map_latest l k : wf l -> latest (removed l) k (stone_map l !! k).
Proof.
  intros [_ _ Hr _ _ _]. unfold stone_map. rewrite lookup_fmap.
  destruct (by_ids stone_id (removed l) !! k) as [t|] eqn:E; cbn.
  - apply by_ids_lookup in E as [Ht <-]; [|done]. split; [eauto|]. intros u Hu Hid.
    assert (u = t) as ->; [|done]. eapply (NoDup_map_inj stone_id); [by apply ordered_NoDup|done..].
  - apply by_ids_None in E; [|done]. intros t Ht Hid. apply E. rewrite <- Hid. by apply list_elem_of_fmap_2.
Qed.

Lemma stone_map_lookup l k a : wf l ->
  stone_map l !! k = Some a <-> exists t, t ∈ removed l /\ stone_id t = k /\ at_ t = a.
Proof.
  intros [_ _ Hr _ _ _]. unfold stone_map. rewrite lookup_fmap_Some. setoid_rewrite by_ids_lookup; [|done]. naive_solver.
Qed.

Lemma latest_join (s1 s2 : list Tombstone) k (o1 o2 : option Z) : latest s1 k o1 -> latest s2 k o2 ->
  latest (s1 ++ s2) k (union_with (fun x y => Some (Z.max x y)) o1 o2).
Proof.
  intros H1 H2. destruct o1 as [a|], o2 as [b|]; cbn in *.
  - destruct H1 as [(t & Ht & I1 & <-) H1], H2 as [(u & Hu & I2 & <-) H2]. split.
    + destruct (Z.max_spec (at_ t) (at_ u)) as [[_ ->]|[_ ->]]; [exists u|exists t]; rewrite elem_of_app; auto.
    + intros v [Hv|Hv]%elem_of_app Hid; [specialize (H1 v Hv Hid)|specialize (H2 v Hv Hid)]; lia.
  - destruct H1 as [(t & Ht & I1 & <-) H1]. split; [exists t; rewrite elem_of_app; auto|].
    intros v [Hv|Hv]%elem_of_app Hid; [by apply H1|by apply H2 in Hv].
  - destruct H2 as [(t & Ht & I1 & <-) H2]. split; [exists t; rewrite elem_of_app; auto|].
    intros v [Hv|Hv]%elem_of_app Hid; [by apply H1 in Hv|by apply H2].
  - intros v [Hv|Hv]%elem_of_app; [by apply H1|by apply H2].
Qed.

Lemma joined_stones lists k : Forall wf lists -> latest (stones_of lists) k ((joined_content lists).2 !! k).
Proof.
  induction 1 as [|l lists Hl Hls IH]; [cbn; rewrite lookup_empty; intros t H; by apply elem_of_nil in H|].
  change (joined_content (l :: lists)) with (join (content l) (joined_content lists)).
  change (stones_of (l :: lists)) with (removed l ++ stones_of lists).
  cbn [join snd content]. unfold join_stones. rewrite lookup_union_with.
  apply latest_join; [by apply stone_map_latest|done].
Qed.

Lemma joined_stones_eq lists : Forall wf lists -> (joined_content lists).2 = union_removed lists.
Proof.
  intros H. apply map_eq. intros k. eapply latest_unique; [done|by apply joined_stones|apply union_removed_latest].
Qed.

Lemma entry_map_lookup l k e : wf l -> entry_map l !! k = Some e <-> e ∈ entries l /\ id e = k.
Proof. intros [_ H _ _ _ _]. by apply by_ids_lookup. Qed.

Lemma joined_entries lists k e : Forall wf lists -> agree lists ->
  (joined_content lists).1 !! k = Some e <->
  union_removed lists !! k = None /\ id e = k /\ exists l, l ∈ lists /\ e ∈ entries l.
Proof.
  intros Hwf. revert e. induction Hwf as [|l lists Hl Hls IH]; intros e Ha.
  { cbn. rewrite lookup_empty. split; [done|]. intros (_ & _ & l & H & _). by apply elem_of_nil in H. }
  assert (agree lists) as Ha' by (intros l1 l2 e1 e2 H1 H2; apply Ha; by right).
  assert (Forall wf (l :: lists)) as Hall by by constructor.
  assert ((joined_content (l :: lists)).1 !! k = Some e <->
    union_removed (l :: lists) !! k = None /\ (entry_map l ∪ (joined_content lists).1) !! k = Some e) as ->.
  { rewrite <- joined_stones_eq by done. change (joined_content (l :: lists)) with (join (content l) (joined_content lists)).
    cbn [join fst snd content]. rewrite map_lookup_filter_Some. cbn. tauto. }
  rewrite lookup_union_Some_raw, IH, entry_map_lookup by done.
  assert (union_removed (l :: lists) !! k = None -> union_removed lists !! k = None) as Hsub.
  { rewrite !offer_removed. intros H l' t Hl' Ht. eapply H; [by right|done]. }
  split.
  - intros (H1 & [[H2 H3]|(_ & _ & H2 & l' & H3 & H4)]); split_and!; try done; [exists l; by split; [left|]|].
    exists l'. by split; [right|].
  - intros (H1 & H2 & l' & [->|H3]%elem_of_cons & H4); split; try done; [by left|].
    destruct (entry_map l !! k) as [x|] eqn:E; [left|right; split; [done|]; split_and!; eauto].
    apply entry_map_lookup in E as [E1 E2]; [|done].
    assert (x = e) as <-; [|done]. eapply (Ha l l'); [left|by right|done..|congruence].
Qed.

(** Merging copies that agree is joining what they know. *)
Lemma merge_join lists : lists <> [] -> Forall wf lists -> agree lists ->
  exists m, merge lists = Ok m /\ wf m /\ content m = joined_content lists.
Proof.
  intros Hne Hwf Ha. destruct (merge_some lists Hne (agree_undisputed _ Ha)) as [m Hm].
  exists m. pose proof (merge_wf _ _ Hwf Hm) as Hw. split_and!; [done..|].
  rewrite (surjective_pairing (joined_content lists)). unfold content. f_equal; apply map_eq; intros k.
  - apply option_eq. intros e. rewrite entry_map_lookup, joined_entries, (merged_entry _ _ _ Hm) by done. split.
    + intros [[s H] <-]. apply undisputed_choice in H as (H1 & H2 & _); [|by apply agree_undisputed].
      split_and!; [done..|]. apply offers_elem in H2 as (l & H2 & H3 & _). eauto.
    + intros (H1 & <- & l & Hl & He). split; [|done].
      pose proof (choose_all_spec (union_removed lists) lists (id e)) as H. unfold choice_at in H.
      rewrite bool_decide_eq_false_2 in H by (rewrite H1; by intros [? ?]).
      assert ((seq l, e) ∈ offers lists) as Hoff by (apply offers_elem; eauto).
      destruct (chosen _ !! id e) as [[s e']|]; [|destruct H as [_ H]; by apply H in Hoff].
      destruct H as (H2 & H3 & _). apply offers_elem in H2 as (l' & Hl' & He' & _). exists s.
      by rewrite (Ha l' l e' e Hl' Hl He' He H3).
  - rewrite joined_stones_eq by done. apply option_eq. intros a. rewrite stone_map_lookup by done. split.
    + intros (t & Ht%(merged_stone _ _ _ Hm) & <- & <-). done.
    + intros H. exists {| stone_id := k; at_ := a |}. by rewrite (merged_stone _ _ _ Hm).
Qed.

(** Merging again changes nothing but the [seq]. *)
Lemma joined_content_in lists l : l ∈ lists -> Forall wf lists -> agree lists ->
  join (content l) (joined_content lists) = joined_content lists.
Proof.
  intros Hl Hwf Ha. assert (wf l) as Hwl by (rewrite Forall_forall in Hwf; by apply Hwf).
  assert (agree (l :: lists)) as Ha'.
  { intros l1 l2 e1 e2 H1 H2. apply Ha; [revert H1|revert H2]; by intros [->|?]%elem_of_cons. }
  change (joined_content (l :: lists) = joined_content lists).
  rewrite (surjective_pairing (joined_content (l :: lists))), (surjective_pairing (joined_content lists)).
  assert (Forall wf (l :: lists)) as Hall by by constructor.
  assert (union_removed (l :: lists) = union_removed lists) as Hr.
  { apply map_eq. intros k. eapply latest_unique; [|apply union_removed_latest..]. intros t.
    rewrite !stones_of_elem. setoid_rewrite elem_of_cons. naive_solver. }
  f_equal; [|by rewrite !joined_stones_eq by done]. apply map_eq. intros k. apply option_eq. intros e.
  rewrite !joined_entries, Hr by done. setoid_rewrite elem_of_cons. naive_solver.
Qed.
End Merged.
