(* ===== verification/DropKeyListWire.v ===== *)
(** * The key list as text and as an envelope

    Models the rest of the key list in [desktop/src-tauri/src/drop/device.rs]:
    its versions 1 and 2 as JSON, strict decoding, sealing and opening, and the
    choice among candidate copies; with the hexadecimal of [drop/mod.rs].
    [serde_json]'s writer of these structures is written out (members in the
    order of the fields, its escapes); its reader is the parameter
    [WireReader], with what derived [Deserialize] promises in
    [WireReaderLaws]. *)
From stdpp Require Import sorting gmap.
From S2P Require Import Prelude EnvelopeFormat EnvelopeName EnvelopeKey Envelope DirectText DirectJson DirectPath.
From S2P Require Import DirectMessages DropLayout DropKeyList.
#[local] Open Scope Z_scope.

Definition KEY_LIST_VERSION : text := lit "wildbloom-drop-keys/1".
Definition KEY_LIST_VERSION_2 : text := lit "wildbloom-drop-keys/2".
Definition KEY_LIST_NAME : text := lit "wildbloom-drop-keys.json".
Definition KEY_LIST_MEDIA_TYPE : text := lit "application/json".
Definition KEY_LIST_LIMITS : Limits := {| max_source_bytes := 64 * 1024 * 1024 |}.

(** ** Hexadecimal *)

(** [format!("{b:02x}")] of each byte. *)
Definition hex_lower (l : list byte) : text :=
  flat_map (fun b => [hex_digit (b2z b / 16); hex_digit (b2z b mod 16)]) l.

Definition is_lower_hex (b : Z) : bool := between 48 b 57 || between 97 b 102.

(** [u8::from_str_radix] of two lower-case digits. *)
Definition hex_number (b : Z) : Z := if b <? 58 then b - 48 else b - 87.

Fixpoint hex_pairs (l : list Z) : list byte :=
  match l with h :: t :: l => z2b (hex_number h * 16 + hex_number t) :: hex_pairs l | _ => [] end.

(** Exactly [n] bytes in lower-case hexadecimal. *)
Definition parse_hex (n : nat) (s : text) : option (list byte) :=
  if negb (str_len s =? 2 * Z.of_nat n) || negb (forallb is_lower_hex (utf8 s)) then None
  else Some (hex_pairs (utf8 s)).

Definition FileId_parse (s : text) : option FileId := parse_hex 16 s.
Definition parse_sha256 (s : text) : option (list byte) := parse_hex 32 s.

(** ** The wire structures *)

Record WireTombstone := { wt_id : text; wt_at : Z }.

Record WireEntry := {
  w_id : text; w_sha256 : text; w_size : Z; w_key : text; w_name : text; w_type : text; w_bytes : Z; w_added : Z
}.

(** The fields of version 1, and [path], [prev], [plain] and [from]. *)
Record WireEntryV2 := {
  w_v1 : WireEntry; w_path : text; w_prev : text; w_plain : text; w_from : text
}.

Record WireList (E : Type) := { w_v : text; w_seq : Z; w_files : list E; w_removed : list WireTombstone }.
Arguments w_v {E}.
Arguments w_seq {E}.
Arguments w_files {E}.
Arguments w_removed {E}.

(** [serde_json::to_writer] of them. *)
Definition member (k : string) (v : text) : text := write_member (lit k, v).
Definition object (members : list text) : text := 123 :: separated members ++ [125].
Definition array (items : list text) : text := 91 :: separated items ++ [93].

Definition tombstone_text (t : WireTombstone) : text :=
  object [member "id" (write_string (wt_id t)); member "at" (u64_to_string (wt_at t))].

Definition v1_members (e : WireEntry) : list text :=
  [member "id" (write_string (w_id e)); member "sha256" (write_string (w_sha256 e));
   member "size" (u64_to_string (w_size e)); member "key" (write_string (w_key e));
   member "name" (write_string (w_name e)); member "type" (write_string (w_type e));
   member "bytes" (u64_to_string (w_bytes e)); member "added" (u64_to_string (w_added e))].

Definition entry_text (e : WireEntry) : text := object (v1_members e).

Definition entry_text_v2 (e : WireEntryV2) : text :=
  object (v1_members (w_v1 e) ++
    [member "path" (write_string (w_path e)); member "prev" (write_string (w_prev e));
     member "plain" (write_string (w_plain e)); member "from" (write_string (w_from e))]).

Definition list_text {E} (entry : E -> text) (l : WireList E) : text :=
  object [member "v" (write_string (w_v l)); member "seq" (u64_to_string (w_seq l));
          member "files" (array (map entry (w_files l))); member "removed" (array (map tombstone_text (w_removed l)))].

(** [serde_json::from_slice] at [VersionOnly] and at the two lists. *)
Class WireReader := {
  read_version : list byte -> option text;
  read_list : list byte -> option (WireList WireEntry);
  read_list_v2 : list byte -> option (WireList WireEntryV2)
}.

Section Wire.
Context `{U : Unicode, B : Base64, R : WireReader, C : Crypto, J : Json}.

(** ** Encoding *)

Definition to_wire (e : KeyListEntry) : WireEntry :=
  {| w_id := hex_lower (id e); w_sha256 := hex_lower (sha256 e); w_size := size e; w_key := wbk1_text (key e);
     w_name := name e; w_type := media_type e; w_bytes := bytes e; w_added := added e |}.

(** [unwrap_or_default] of an optional hexadecimal string. *)
Definition hex_or_empty (o : option (list byte)) : text := match o with Some l => hex_lower l | None => [] end.

Definition to_wire_v2 (e : KeyListEntry) : WireEntryV2 :=
  {| w_v1 := to_wire e; w_path := path e; w_prev := hex_or_empty (prev e); w_plain := hex_or_empty (plain e);
     w_from := from e |}.

Definition to_wire_stone (t : Tombstone) : WireTombstone := {| wt_id := hex_lower (stone_id t); wt_at := at_ t |}.

Definition canonical_json_at (l : KeyList) (s : Z) : list byte :=
  let stones := map to_wire_stone (removed l) in
  if forallb is_v1_shape (entries l)
  then text_bytes (list_text entry_text
         {| w_v := KEY_LIST_VERSION; w_seq := s; w_files := map to_wire (entries l); w_removed := stones |})
  else text_bytes (list_text entry_text_v2
         {| w_v := KEY_LIST_VERSION_2; w_seq := s; w_files := map to_wire_v2 (entries l); w_removed := stones |}).

Definition to_canonical_json (l : KeyList) : list byte := canonical_json_at l (seq l).

(** ** Decoding *)

Definition to_entry (w : WireEntry) : result KeyListError KeyListEntry :=
  let? i := ok_or (FileId_parse (w_id w)) (Malformed "id") in
  let? sha := ok_or (parse_sha256 (w_sha256 w)) (Malformed "sha256") in
  let? k := map_err (fun _ => Malformed "key") (parse_wbk1 (text_bytes (w_key w))) in
  Ok {| id := i; sha256 := sha; size := w_size w; key := k; name := w_name w; media_type := w_type w;
        bytes := w_bytes w; added := w_added w; path := w_name w; prev := None; plain := None; from := [] |}.

(** The empty string, or what it parses to. *)
Definition parse_optional {A} (parse : text -> option A) (what : string) (s : text) : result KeyListError (option A) :=
  match s with [] => Ok None | _ => let? a := ok_or (parse s) (Malformed what) in Ok (Some a) end.

Definition to_entry_v2 (w : WireEntryV2) : result KeyListError KeyListEntry :=
  let v1 := w_v1 w in
  let? i := ok_or (FileId_parse (w_id v1)) (Malformed "id") in
  let? sha := ok_or (parse_sha256 (w_sha256 v1)) (Malformed "sha256") in
  let? k := map_err (fun _ => Malformed "key") (parse_wbk1 (text_bytes (w_key v1))) in
  let? p := parse_optional FileId_parse "prev" (w_prev w) in
  let? q := parse_optional parse_sha256 "plain" (w_plain w) in
  Ok {| id := i; sha256 := sha; size := w_size v1; key := k; name := w_name v1; media_type := w_type v1;
        bytes := w_bytes v1; added := w_added v1; path := w_path w; prev := p; plain := q; from := w_from w |}.

(** The loop over the decoded entries; [done] is what was pushed. *)
Fixpoint check_entries (done : list KeyListEntry) (decoded : list (result KeyListError KeyListEntry))
    : result KeyListError (list KeyListEntry) :=
  match decoded with
  | [] => Ok done
  | r :: decoded =>
      let? e := r in
      let? _ := check_entry e in
      match last done with
      | Some previous =>
          if bool_decide (id previous = id e) then Err DuplicateId
          else if id_lt (id e) (id previous) then Err (Malformed "order")
          else check_entries (done ++ [e]) decoded
      | None => check_entries (done ++ [e]) decoded
      end
  end.

(** The loop over the tombstones. *)
Fixpoint check_stones (held : list KeyListEntry) (done : list Tombstone) (wire : list WireTombstone)
    : result KeyListError (list Tombstone) :=
  match wire with
  | [] => Ok done
  | stone :: wire =>
      let? i := ok_or (FileId_parse (wt_id stone)) (Malformed "removed") in
      if (wt_at stone =? 0) || (MAX_SAFE_INTEGER <? wt_at stone)
         || match last done with Some t => id_le i (stone_id t) | None => false end
         || is_ok (search id held i)
      then Err (Malformed "removed")
      else check_stones held (done ++ [{| stone_id := i; at_ := wt_at stone |}]) wire
  end.

Definition from_canonical_json (b : list byte) : result KeyListError KeyList :=
  let? version := ok_or (read_version b) (Malformed "shape") in
  let? (s, decoded, stones) :=
    (if bool_decide (version = KEY_LIST_VERSION) then
       let? wire := ok_or (read_list b) (Malformed "shape") in
       Ok (w_seq wire, map to_entry (w_files wire), w_removed wire)
     else if bool_decide (version = KEY_LIST_VERSION_2) then
       let? wire := ok_or (read_list_v2 b) (Malformed "shape") in
       Ok (w_seq wire, map to_entry_v2 (w_files wire), w_removed wire)
     else Err UnsupportedVersion) in
  if (s =? 0) || (MAX_SAFE_INTEGER <? s) then Err (Malformed "seq")
  else
    let? held := check_entries [] decoded in
    let? gone := check_stones held [] stones in
    let l := {| seq := s; entries := held; removed := gone |} in
    if bool_decide (to_canonical_json l = b) then Ok l else Err (Malformed "canonical form").

(** ** Sealing and opening; [vault] is [recovery.key_list_key()] *)

Definition seal (draw : option Fresh) (vault : InputKey) (l : KeyList) : result KeyListError (list byte * KeyList) :=
  let? next := ok_or (n ← checked_add (seq l) 1; if n <=? MAX_SAFE_INTEGER then Some n else None) SeqExhausted in
  let? sealed := map_err DropKeyList.Envelope
    (seal_bytes draw vault KEY_LIST_NAME KEY_LIST_MEDIA_TYPE (canonical_json_at l next) KEY_LIST_LIMITS) in
  Ok (sealed, {| seq := next; entries := entries l; removed := removed l |}).

Definition open (vault : InputKey) (envelope : list byte) : result KeyListError KeyList :=
  let? (metadata, json) := map_err DropKeyList.Envelope (open_bytes vault envelope KEY_LIST_LIMITS) in
  if negb (bool_decide (EnvelopeFormat.name metadata = KEY_LIST_NAME)) ||
     negb (bool_decide (EnvelopeFormat.media_type metadata = KEY_LIST_MEDIA_TYPE))
  then Err NotAKeyList
  else from_canonical_json json.

(** The copies that open, and the first failure. *)
Fixpoint open_all (vault : InputKey) (candidates : list (list byte)) : list KeyList * option KeyListError :=
  match candidates with
  | [] => ([], None)
  | c :: candidates =>
      let '(opened, first) := open_all vault candidates in
      match open vault c with Ok l => (l :: opened, first) | Err e => (opened, Some e) end
  end.

Definition open_newest (vault : InputKey) (candidates : list (list byte)) (last_seen : Z) : result KeyListError KeyList :=
  let '(opened, first_error) := open_all vault candidates in
  match opened with
  | [] => Err (default NoCandidates first_error)
  | _ =>
      let? merged := merge opened in
      if seq merged <? last_seen then Err (Rollback last_seen (seq merged)) else Ok merged
  end.
End Wire.
