(* ===== verification/DropKeyListWireProofs.v ===== *)
(** * Key lists are read back exactly

    Proofs about [DropKeyListWire]: decoding accepts the canonical text of a
    well-formed list and nothing else ([key_list_text_iff]), so sealing and
    opening give the list back. *)
From stdpp Require Import sorting gmap.
From S2P Require Import Prelude EnvelopeFormat EnvelopeName EnvelopeKey Envelope EnvelopeProofs EnvelopeCanon.
From S2P Require Import DirectText DirectJson DirectPath DirectMessages DirectMessagesProofs.
From S2P Require Import DropLayout DropKeyList DropKeyListProofs DropKeyListWire.
#[local] Open Scope Z_scope.

(** ** The reader's promises *)

Definition typed_stone (t : WireTombstone) : Prop := is_text (wt_id t) /\ is_u64 (wt_at t) = true.

Definition typed_wire (e : WireEntry) : Prop :=
  is_text (w_id e) /\ is_text (w_sha256 e) /\ is_u64 (w_size e) = true /\ is_text (w_key e) /\ is_text (w_name e) /\
  is_text (w_type e) /\ is_u64 (w_bytes e) = true /\ is_u64 (w_added e) = true.

Definition typed_wire_v2 (e : WireEntryV2) : Prop :=
  typed_wire (w_v1 e) /\ is_text (w_path e) /\ is_text (w_prev e) /\ is_text (w_plain e) /\ is_text (w_from e).

Definition typed_list {E} (P : E -> Prop) (l : WireList E) : Prop :=
  is_text (w_v l) /\ is_u64 (w_seq l) = true /\ Forall P (w_files l) /\ Forall typed_stone (w_removed l).

(** Derived [Deserialize] reads back what derived [Serialize] wrote, ignores
    members [VersionOnly] does not name, and returns values of its types. *)
Class WireReaderLaws (R : WireReader) := {
  read_version_written : forall l, typed_list typed_wire l ->
    read_version (text_bytes (list_text entry_text l)) = Some (w_v l);
  read_version_written_v2 : forall l, typed_list typed_wire_v2 l ->
    read_version (text_bytes (list_text entry_text_v2 l)) = Some (w_v l);
  read_list_written : forall l, typed_list typed_wire l ->
    read_list (text_bytes (list_text entry_text l)) = Some l;
  read_list_v2_written : forall l, typed_list typed_wire_v2 l ->
    read_list_v2 (text_bytes (list_text entry_text_v2 l)) = Some l;
  read_list_typed : forall b l, read_list b = Some l -> typed_list typed_wire l;
  read_list_v2_typed : forall b l, read_list_v2 b = Some l -> typed_list typed_wire_v2 l
}.

(** ** Hexadecimal *)

Lemma hex_digit_ascii d : 0 <= d < 16 -> is_lower_hex (hex_digit d) = true /\ 0 <= hex_digit d < 128 /\ hex_number (hex_digit d) = d.
Proof.
  intros Hd. unfold is_lower_hex, hex_digit, hex_number, between.
  destruct (Z.ltb_spec d 10); [replace (48 + d <? 58) with true by lia|replace (87 + d <? 58) with false by lia]; lia.
Qed.

Lemma byte_nibbles b : 0 <= b2z b / 16 < 16 /\ 0 <= b2z b mod 16 < 16.
Proof. pose proof (b2z_range b). Z.to_euclidean_division_equations; lia. Qed.

Lemma hex_lower_ascii l : Forall (fun c => 0 <= c < 128) (hex_lower l) /\ forallb is_lower_hex (hex_lower l) = true /\
  length (hex_lower l) = (2 * length l)%nat /\ hex_pairs (hex_lower l) = l.
Proof.
  induction l as [|b l (IH1 & IH2 & IH3 & IH4)]; [done|]. cbn [hex_lower flat_map app].
  fold (hex_lower l). destruct (byte_nibbles b) as [N1 N2].
  destruct (hex_digit_ascii _ N1) as (A1 & A2 & A3), (hex_digit_ascii _ N2) as (B1 & B2 & B3).
  split_and!; [constructor; [done|by constructor]|cbn; by rewrite A1, B1|cbn; lia|]. cbn [hex_pairs]. rewrite A3, B3, IH4. f_equal.
  rewrite <- (z2b_b2z b) at 3. f_equal. Z.to_euclidean_division_equations; lia.
Qed.

Lemma parse_hex_lower n l : length l = n -> parse_hex n (hex_lower l) = Some l.
Proof.
  intros <-. destruct (hex_lower_ascii l) as (H1 & H2 & H3 & H4). unfold parse_hex, str_len.
  rewrite utf8_ascii, H2, H3, H4 by done. replace (Z.of_nat (2 * length l) =? 2 * Z.of_nat (length l)) with true; [done|]. symmetry. apply Z.eqb_eq. lia.
Qed.

Lemma length_hex_pairs n l : length l = (2 * n)%nat -> length (hex_pairs l) = n.
Proof.
  revert l. induction n as [|n IH]; intros [|a [|b l]] H; cbn in H; try lia; [done|]. cbn. rewrite IH; [done|lia].
Qed.

Lemma parse_hex_length n s l : parse_hex n s = Some l -> length l = n.
Proof.
  unfold parse_hex, str_len. destruct (Z.eqb_spec (Z.of_nat (length (utf8 s))) (2 * Z.of_nat n)); [|done].
  destruct (forallb is_lower_hex (utf8 s)); [|done]. intros [= <-]. apply length_hex_pairs. lia.
Qed.

Lemma hex_lower_text l : is_text (hex_lower l).
Proof. apply ascii_is_text, hex_lower_ascii. Qed.

Section Proofs.
Context `{U : Unicode} {UL : UnicodeLaws U} `{B : Base64} {BL : Base64Laws B} {BA : Base64Ascii B}.
Context `{R : WireReader} {RL : WireReaderLaws R}.

Lemma parse_key k : parse_wbk1 (text_bytes (wbk1_text k)) = Ok k.
Proof. rewrite wbk1_bytes. by apply (wbk1_round_trip k []). Qed.

(** ** Entries *)

Lemma to_entry_wire e : typed e -> is_v1_shape e = true -> to_entry (to_wire e) = Ok e.
Proof.
  intros [T1 T2 T3 T4 T5 T6 T7]. unfold is_v1_shape. rewrite !andb_true_iff, !bool_decide_eq_true.
  intros (((H1 & H2) & H3) & H4). unfold to_entry, FileId_parse, parse_sha256. cbn [to_wire w_id w_sha256 w_key].
  rewrite !parse_hex_lower by done. cbn [ok_or]. rewrite parse_key. cbn. destruct e; cbn in *. by subst.
Qed.

Lemma parse_optional_hex n what o : (forall p, o = Some p -> length p = n) -> n <> O ->
  parse_optional (parse_hex n) what (hex_or_empty o) = Ok o.
Proof.
  intros Ho Hn. destruct o as [p|]; [|done]. cbn [hex_or_empty]. unfold parse_optional.
  specialize (Ho p eq_refl). destruct (hex_lower_ascii p) as (_ & _ & Hl & _).
  destruct (hex_lower p) as [|c s] eqn:E; [cbn in Hl; lia|]. rewrite <- E, parse_hex_lower by done. done.
Qed.

Lemma to_entry_v2_wire e : typed e -> to_entry_v2 (to_wire_v2 e) = Ok e.
Proof.
  intros [T1 T2 T3 T4 T5 T6 T7]. unfold to_entry_v2, FileId_parse, parse_sha256.
  cbn [to_wire_v2 w_v1 to_wire w_id w_sha256 w_key w_prev w_plain].
  rewrite !parse_hex_lower by done. cbn [ok_or]. rewrite parse_key. cbn [map_err].
  rewrite !parse_optional_hex by done. by destruct e.
Qed.

Lemma checked_numbers e : check_entry e = Ok tt -> typed e ->
  is_u64 (size e) = true /\ is_u64 (bytes e) = true /\ is_u64 (added e) = true.
Proof.
  unfold check_entry. intros H [_ _ _ _ T5 T6 _].
  destruct (bool_decide (name e = []) || _); [done|]. destruct (negb _); [done|].
  destruct ((size e <? MIN_ENVELOPE_BYTES) || (MAX_SAFE_INTEGER <? size e) || (size e <=? bytes e)) eqn:E1; [done|].
  destruct ((added e =? 0) || (MAX_SAFE_INTEGER <? added e)) eqn:E2; [done|]. clear H.
  rewrite !orb_false_iff in E1, E2. unfold is_u64, U64_MAX, MAX_SAFE_INTEGER, MIN_ENVELOPE_BYTES, HEADER_BYTES,
    MIN_PADDING_BUCKET, TAG_BYTES in *. lia.
Qed.

Lemma to_wire_typed e : typed e -> check_entry e = Ok tt -> typed_wire (to_wire e).
Proof.
  intros T Hc. destruct (checked_numbers e Hc T) as (H1 & H2 & H3). destruct T as [_ _ _ _ _ _ (X1 & X2 & _ & _)].
  unfold typed_wire. cbn. split_and!; try done; try apply hex_lower_text. apply ascii_is_text, wbk1_ascii.
Qed.

Lemma to_wire_v2_typed e : typed e -> check_entry e = Ok tt -> typed_wire_v2 (to_wire_v2 e).
Proof.
  intros T Hc. split; [by apply to_wire_typed|]. destruct T as [_ _ _ _ _ _ (_ & _ & X3 & X4)]. cbn.
  split_and!; try done; [destruct (prev e)|destruct (plain e)]; cbn; try apply hex_lower_text; constructor.
Qed.

Lemma to_entry_typed w e : typed_wire w -> to_entry w = Ok e -> typed e.
Proof.
  intros (X1 & X2 & X3 & X4 & X5 & X6 & X7 & X8). unfold to_entry, FileId_parse, parse_sha256, ok_or.
  destruct (parse_hex 16 (w_id w)) as [i|] eqn:Ei; [|done]. destruct (parse_hex 32 (w_sha256 w)) as [h|] eqn:Eh; [|done].
  destruct (parse_wbk1 _) as [k|]; [|done]. cbn [map_err]. intros [= <-]. unfold is_u64 in *.
  split; cbn; try done; try (by eapply parse_hex_length); try lia. split_and!; try done. constructor.
Qed.

Lemma parse_optional_length n what s o : parse_optional (parse_hex n) what s = Ok o -> forall p, o = Some p -> length p = n.
Proof.
  unfold parse_optional. destruct s as [|c s]; [by intros [= <-]|]. destruct (parse_hex n (c :: s)) as [x|] eqn:E; [|done].
  cbn [ok_or]. intros [= <-] p [= <-]. by eapply parse_hex_length.
Qed.

Lemma to_entry_v2_typed w e : typed_wire_v2 w -> to_entry_v2 w = Ok e -> typed e.
Proof.
  intros ((X1 & X2 & X3 & X4 & X5 & X6 & X7 & X8) & Y1 & Y2 & Y3 & Y4). unfold to_entry_v2, FileId_parse, parse_sha256, ok_or.
  destruct (parse_hex 16 (w_id _)) as [i|] eqn:Ei; [|done]. destruct (parse_hex 32 (w_sha256 _)) as [h|] eqn:Eh; [|done].
  destruct (parse_wbk1 _) as [k|]; [|done]. cbn [map_err].
  destruct (parse_optional _ _ (w_prev w)) as [p|] eqn:Ep; [|done]. destruct (parse_optional _ _ (w_plain w)) as [q|] eqn:Eq; [|done].
  intros [= <-]. unfold is_u64 in *.
  split; cbn; try done; try (by eapply parse_hex_length); try (by eapply parse_optional_length); lia.
Qed.

(** ** The two loops *)

Lemma ordered_snoc_last {A} (idof : A -> FileId) l x : ordered idof (l ++ [x]) <->
  ordered idof l /\ forall y, last l = Some y -> id_lt (idof y) (idof x) = true.
Proof.
  rewrite ordered_app. split.
  - intros (H1 & _ & H2). split; [done|]. intros y Hy. apply H2; [|by apply list_elem_of_singleton].
    by apply last_Some_elem_of.
  - intros [H1 H2]. split_and!; [done|repeat constructor|]. intros a b Ha ->%list_elem_of_singleton.
    destruct (last l) as [y|] eqn:El; [|apply last_None in El as ->; by apply elem_of_nil in Ha].
    apply last_Some in El as [l' ->]. specialize (H2 y eq_refl).
    apply ordered_app in H1 as (_ & _ & H1). apply elem_of_app in Ha as [Ha|Ha%list_elem_of_singleton]; [|by subst].
    eapply id_lt_trans; [apply H1; [done|by apply list_elem_of_singleton]|done].
Qed.

Lemma check_entries_ok es : forall done, ordered id (done ++ es) -> Forall (fun e => check_entry e = Ok tt) es ->
  check_entries done (map Ok es) = Ok (done ++ es).
Proof.
  induction es as [|e es IH]; intros d Ho Hc; cbn [map check_entries]; [by rewrite app_nil_r|].
  inversion Hc as [|? ? Hc1 Hc2]; subst. rewrite Hc1. rewrite cons_middle, app_assoc in Ho.
  specialize (IH (d ++ [e]) Ho Hc2). rewrite <- app_assoc in IH. cbn [app] in IH.
  apply ordered_app in Ho as (Ho & _). apply ordered_snoc_last in Ho as [_ Hl].
  destruct (last d) as [p|] eqn:E; [|done]. specialize (Hl p eq_refl).
  rewrite bool_decide_eq_false_2 by (intros E'; by rewrite E', id_lt_irrefl in Hl).
  destruct (id_lt (id e) (id p)) eqn:El; [|done]. pose proof (id_lt_trans _ _ _ El Hl) as X. by rewrite id_lt_irrefl in X.
Qed.

Lemma check_entries_inv decoded : forall done held, ordered id done -> check_entries done decoded = Ok held ->
  ordered id held /\ forall e, e ∈ held -> e ∈ done \/ Ok e ∈ decoded /\ check_entry e = Ok tt.
Proof.
  induction decoded as [|r decoded IH]; intros d held Ho; cbn [check_entries]; [intros [= <-]; auto|].
  destruct r as [e|]; [|done]. destruct (check_entry e) as [[]|] eqn:Hc; [|done].
  assert (ordered id (d ++ [e]) -> check_entries (d ++ [e]) decoded = Ok held -> ordered id held /\
    forall x, x ∈ held -> x ∈ d \/ Ok x ∈ Ok e :: decoded /\ check_entry x = Ok tt) as Hnext.
  { intros Ho' H. destruct (IH _ _ Ho' H) as [H1 H2]. split; [done|]. intros x Hx.
    destruct (H2 x Hx) as [[Hd|Hd%list_elem_of_singleton]%elem_of_app|[Hd Hcx]]; [by left|subst; right; split; [left|done]|].
    right. split; [by right|done]. }
  destruct (last d) as [p|] eqn:El.
  - destruct (bool_decide_reflect (id p = id e)) as [|Hne]; [done|]. destruct (id_lt (id e) (id p)) eqn:Elt; [done|].
    apply Hnext. apply ordered_snoc_last. split; [done|]. intros y [= <-]%(eq_trans (eq_sym El)).
    apply id_lt_total; [congruence|done].
  - apply Hnext. apply ordered_snoc_last. split; [done|]. intros y Hy. congruence.
Qed.

Lemma search_absent es i : ordered id es -> is_ok (search id es i) = false <-> forall e, e ∈ es -> id e <> i.
Proof.
  intros Ho. destruct (search id es i) as [j|j] eqn:E; cbn.
  - apply (search_Ok id) in E as (x & _ & Hx); [|done]. apply by_ids_lookup in Hx as [H1 H2]; [|done].
    split; [done|]. intros H. by apply H in H1.
  - apply (search_Err id) in E; [|done]. apply by_ids_None in E; [|done]. split; [|done]. intros _ e He Hid.
    apply E. rewrite <- Hid. by apply list_elem_of_fmap_2.
Qed.

Lemma check_stones_ok held ts : forall done, ordered id held -> ordered stone_id (done ++ ts) ->
  Forall (fun t => length (stone_id t) = 16%nat /\ stone_ok t) ts ->
  (forall e t, e ∈ held -> t ∈ ts -> id e <> stone_id t) ->
  check_stones held done (map to_wire_stone ts) = Ok (done ++ ts).
Proof.
  induction ts as [|t ts IH]; intros d Hh Ho Hts Hap; cbn [map check_stones]; [by rewrite app_nil_r|].
  inversion Hts as [|? ? [Hlen Hok] Hts']; subst. unfold FileId_parse. cbn [to_wire_stone wt_id wt_at].
  rewrite parse_hex_lower by done. cbn [ok_or]. rewrite cons_middle, app_assoc in Ho.
  assert (forall e u, e ∈ held -> u ∈ ts -> id e <> stone_id u) as Hap' by (intros e u He Hu; apply Hap; [done|by right]).
  specialize (IH (d ++ [t]) Hh Ho Hts' Hap'). rewrite <- app_assoc in IH. cbn [app] in IH.
  apply ordered_app in Ho as (Ho & _). apply ordered_snoc_last in Ho as [_ Hl]. unfold stone_ok in Hok.
  rewrite (proj2 (search_absent held (stone_id t) Hh)) by (intros e He; apply Hap; [done|left]).
  replace ((at_ t =? 0) || (MAX_SAFE_INTEGER <? at_ t)) with false by lia.
  assert (match last d with Some u => id_le (stone_id t) (stone_id u) | None => false end = false) as ->.
  { destruct (last d) as [u|]; [|done]. specialize (Hl u eq_refl). unfold id_lt in Hl. by apply negb_true_iff. }
  cbn [orb]. by destruct t.
Qed.

Lemma check_stones_inv held wire : forall done gone, ordered id held -> Forall typed_stone wire ->
  ordered stone_id done -> check_stones held done wire = Ok gone ->
  ordered stone_id gone /\ forall t, t ∈ gone -> t ∈ done \/
    (length (stone_id t) = 16%nat /\ stone_ok t /\ forall e, e ∈ held -> id e <> stone_id t).
Proof.
  induction wire as [|w wire IH]; intros d gone Hh Hw Ho; cbn [check_stones]; [intros [= <-]; auto|].
  inversion Hw as [|? ? [_ Hu] Hw']; subst. unfold FileId_parse.
  destruct (parse_hex 16 (wt_id w)) as [i|] eqn:Ei; [|done]. cbn [ok_or].
  destruct (_ || is_ok (search id held i)) eqn:E; [done|]. rewrite !orb_false_iff in E. destruct E as (((E1 & E2) & E3) & E4).
  intros H. apply IH in H as [H1 H2]; [|done..|].
  - split; [done|]. intros t Ht. destruct (H2 t Ht) as [[Hd|Hd%list_elem_of_singleton]%elem_of_app|Hd]; [by left|right|by right].
    subst t. cbn. split_and!; [by eapply parse_hex_length| |by apply search_absent].
    unfold stone_ok, is_u64 in *. cbn. lia.
  - apply ordered_snoc_last. split; [done|]. intros y Hy. rewrite Hy in E3. unfold id_lt. by apply negb_true_iff.
Qed.

(** ** The text *)

Lemma written_list l s : wf l -> 0 <= s <= MAX_SAFE_INTEGER ->
  typed_list typed_wire {| w_v := KEY_LIST_VERSION; w_seq := s; w_files := map to_wire (entries l);
                           w_removed := map to_wire_stone (removed l) |} /\
  typed_list typed_wire_v2 {| w_v := KEY_LIST_VERSION_2; w_seq := s; w_files := map to_wire_v2 (entries l);
                              w_removed := map to_wire_stone (removed l) |}.
Proof.
  intros [_ _ _ Hc Hs _] Hseq.
  assert (is_u64 s = true) as Hu by (unfold is_u64, U64_MAX, MAX_SAFE_INTEGER in *; lia).
  assert (Forall typed_stone (map to_wire_stone (removed l))) as Hst.
  { apply Forall_fmap. eapply Forall_impl; [exact Hs|]. intros t [_ Ht]. unfold stone_ok in Ht. split; [apply hex_lower_text|].
    cbn. unfold is_u64, U64_MAX, MAX_SAFE_INTEGER in *. lia. }
  split; (split; [apply ascii_is_text; repeat constructor; done|split; [done|split; [|done]]]); cbn; apply Forall_fmap;
    (eapply Forall_impl; [exact Hc|]); intros e [H1 H2]; [by apply to_wire_typed|by apply to_wire_v2_typed].
Qed.

(** Decoding what is written. *)
Lemma from_canonical_written l : wf l -> 1 <= seq l -> from_canonical_json (to_canonical_json l) = Ok l.
Proof.
  intros Hwf Hs. pose proof Hwf as [W1 W2 W3 W4 W5 W6]. destruct (written_list l (seq l) Hwf W1) as [T1 T2].
  assert ((seq l =? 0) || (MAX_SAFE_INTEGER <? seq l) = false) as Hseq by lia.
  assert (check_entries [] (map Ok (entries l)) = Ok (entries l)) as He.
  { apply check_entries_ok; [done|]. eapply Forall_impl; [exact W4|]. by intros e [_ H]. }
  assert (check_stones (entries l) [] (map to_wire_stone (removed l)) = Ok (removed l)) as Hst.
  { by apply check_stones_ok. }
  rewrite Forall_forall in W4.
  assert (forall b, to_canonical_json l = b ->
    (if bool_decide (to_canonical_json {| seq := seq l; entries := entries l; removed := removed l |} = b)
     then Ok {| seq := seq l; entries := entries l; removed := removed l |}
     else Err (Malformed "canonical form")) = Ok l) as Hend.
  { intros b Hb. destruct l; cbn in *. by rewrite bool_decide_eq_true_2. }
  unfold from_canonical_json. destruct (forallb is_v1_shape (entries l)) eqn:Ev.
  - assert (to_canonical_json l = text_bytes (list_text entry_text _)) as Hb
      by (unfold to_canonical_json, canonical_json_at; by rewrite Ev).
    pose proof (read_version_written _ T1) as Hv. pose proof (read_list_written _ T1) as Hr. rewrite <- Hb in Hv, Hr.
    rewrite Hv, Hr. cbn [ok_or w_v w_seq w_files w_removed].
    rewrite bool_decide_eq_true_2 by done. rewrite Hseq, map_map.
    rewrite (map_ext_in _ Ok), He, Hst; [by apply Hend|]. intros e He'%list_elem_of_In.
    apply to_entry_wire; [by apply W4|]. rewrite forallb_forall in Ev. by apply Ev, list_elem_of_In.
  - assert (to_canonical_json l = text_bytes (list_text entry_text_v2 _)) as Hb
      by (unfold to_canonical_json, canonical_json_at; by rewrite Ev).
    pose proof (read_version_written_v2 _ T2) as Hv. pose proof (read_list_v2_written _ T2) as Hr. rewrite <- Hb in Hv, Hr.
    rewrite Hv, Hr. cbn [ok_or w_v w_seq w_files w_removed].
    rewrite bool_decide_eq_false_2 by (intros H; by vm_compute in H). rewrite bool_decide_eq_true_2 by done.
    rewrite Hseq, map_map.
    rewrite (map_ext_in _ Ok), He, Hst; [by apply Hend|]. intros e He'%list_elem_of_In. by apply to_entry_v2_wire, W4.
Qed.

(** What is decoded is well formed and has this text. *)
Lemma from_canonical_inv b l : from_canonical_json b = Ok l -> wf l /\ 1 <= seq l /\ b = to_canonical_json l.
Proof.
  unfold from_canonical_json. destruct (read_version b) as [version|]; [|done]. cbn [ok_or].
  assert (forall s decoded stones, is_u64 s = true -> Forall typed_stone stones -> (forall e, Ok e ∈ decoded -> typed e) ->
    (if (s =? 0) || (MAX_SAFE_INTEGER <? s) then Err (Malformed "seq")
     else let? held := check_entries [] decoded in let? gone := check_stones held [] stones in
       if bool_decide (to_canonical_json {| seq := s; entries := held; removed := gone |} = b)
       then Ok {| seq := s; entries := held; removed := gone |} else Err (Malformed "canonical form")) = Ok l ->
    wf l /\ 1 <= seq l /\ b = to_canonical_json l) as Hmain.
  { intros s decoded stones Hs Hst Hty. destruct ((s =? 0) || (MAX_SAFE_INTEGER <? s)) eqn:Es; [done|].
    destruct (check_entries [] decoded) as [held|] eqn:Eh; [|done].
    destruct (check_stones held [] stones) as [gone|] eqn:Eg; [|done].
    destruct (bool_decide_reflect (to_canonical_json {| seq := s; entries := held; removed := gone |} = b)) as [Hb|]; [|done].
    intros [= <-]. unfold is_u64 in Hs.
    apply check_entries_inv in Eh as [Ho He]; [|constructor]. apply check_stones_inv in Eg as [Hog Hg]; [|done..|constructor].
    split_and!; [|cbn; lia|done]. split; cbn; try done; [lia|..].
    - apply Forall_forall. intros e Hin. destruct (He e Hin) as [Hn|[H1 H2]]; [by apply elem_of_nil in Hn|]. auto.
    - apply Forall_forall. intros t Hin. destruct (Hg t Hin) as [Hn|(H1 & H2 & _)]; [by apply elem_of_nil in Hn|]. auto.
    - intros e t He' Ht. destruct (Hg t Ht) as [Hn|(_ & _ & H)]; [by apply elem_of_nil in Hn|by apply H]. }
  destruct (bool_decide (version = KEY_LIST_VERSION)); [|destruct (bool_decide (version = KEY_LIST_VERSION_2)); [|done]].
  - destruct (read_list b) as [wire|] eqn:E; [|done]. cbn [ok_or]. apply read_list_typed in E as (_ & E1 & E2 & E3).
    apply Hmain; [done..|]. intros e (w & Hw & Hin)%list_elem_of_fmap. rewrite Forall_forall in E2.
    eapply to_entry_typed; [by apply E2|done].
  - destruct (read_list_v2 b) as [wire|] eqn:E; [|done]. cbn [ok_or]. apply read_list_v2_typed in E as (_ & E1 & E2 & E3).
    apply Hmain; [done..|]. intros e (w & Hw & Hin)%list_elem_of_fmap. rewrite Forall_forall in E2.
    eapply to_entry_v2_typed; [by apply E2|done].
Qed.

Lemma key_list_text_iff b l : from_canonical_json b = Ok l <-> wf l /\ 1 <= seq l /\ b = to_canonical_json l.
Proof.
  split; [apply from_canonical_inv|]. intros (H1 & H2 & ->). by apply from_canonical_written.
Qed.

(** ** Envelopes *)

Context `{C : Crypto} {CL : CryptoLaws C} `{J : Json} {JL : JsonLaws J}.

Lemma key_list_name_canonical : sanitise_name KEY_LIST_NAME = KEY_LIST_NAME.
Proof.
  apply canonical_name_fixed. split; try done.
  - apply nfc_ascii. repeat constructor; done.
  - repeat constructor.
  - by intros c [= <-].
  - by intros c [= <-].
Qed.

Lemma key_list_type_canonical : normalise_media_type KEY_LIST_MEDIA_TYPE = Ok KEY_LIST_MEDIA_TYPE.
Proof.
  unfold normalise_media_type. change (match KEY_LIST_MEDIA_TYPE with [] => _ | _ => _ end) with (to_lowercase KEY_LIST_MEDIA_TYPE).
  rewrite lower_ascii; [done|]. repeat constructor; try done; intros [H1 H2]; done.
Qed.

(** A byte string opens to a key list exactly when it is a seal of that
    list's text. *)
Lemma open_iff vault env l : open vault env = Ok l <->
  wf l /\ 1 <= seq l /\ exists fresh, fresh_ok fresh /\
    seal_bytes (Some fresh) vault KEY_LIST_NAME KEY_LIST_MEDIA_TYPE (to_canonical_json l) KEY_LIST_LIMITS = Ok env.
Proof.
  unfold open. split.
  - destruct (open_bytes vault env KEY_LIST_LIMITS) as [[m json]|] eqn:E; [|done]. cbn [map_err].
    destruct (bool_decide_reflect (EnvelopeFormat.name m = KEY_LIST_NAME)) as [Hn|]; [|done].
    destruct (bool_decide_reflect (EnvelopeFormat.media_type m = KEY_LIST_MEDIA_TYPE)) as [Ht|]; [|done]. cbn [negb orb].
    intros (H1 & H2 & ->)%key_list_text_iff. apply open_then_seal in E as (_ & _ & _ & fresh & Hf & Hs).
    rewrite Hn, Ht in Hs. split_and!; eauto.
  - intros (H1 & H2 & fresh & Hf & Hs).
    rewrite (seal_then_open fresh vault env KEY_LIST_LIMITS
      {| EnvelopeFormat.name := KEY_LIST_NAME; EnvelopeFormat.size := blen (to_canonical_json l);
         EnvelopeFormat.media_type := KEY_LIST_MEDIA_TYPE |} (to_canonical_json l));
      [|done|apply key_list_name_canonical|apply key_list_type_canonical|done..].
    cbn [map_err EnvelopeFormat.name EnvelopeFormat.media_type]. rewrite !bool_decide_eq_true_2 by done. cbn [negb orb].
    by apply from_canonical_written.
Qed.

Lemma wf_seq_change l s : wf l -> 0 <= s <= MAX_SAFE_INTEGER -> wf {| seq := s; entries := entries l; removed := removed l |}.
Proof. intros [_ W2 W3 W4 W5 W6] Hs. by split. Qed.

Lemma seal_inv draw vault l env l' : wf l -> seal draw vault l = Ok (env, l') ->
  l' = {| seq := seq l + 1; entries := entries l; removed := removed l |} /\ wf l' /\
  seal_bytes draw vault KEY_LIST_NAME KEY_LIST_MEDIA_TYPE (to_canonical_json l') KEY_LIST_LIMITS = Ok env.
Proof.
  intros Hwf. unfold seal, checked_add. pose proof (wf_seq _ Hwf) as Hs.
  destruct (seq l + 1 <=? U64_MAX); [|done]. cbn [mbind option_bind].
  destruct (Z.leb_spec (seq l + 1) MAX_SAFE_INTEGER); [|done]. cbn [ok_or].
  destruct (seal_bytes _ _ _ _ _ _) as [sealed|] eqn:E; [|done]. cbn [map_err]. intros [= <- <-].
  split_and!; [done|apply wf_seq_change; [done|lia]|done].
Qed.

Lemma seal_open fresh vault l env l' : wf l -> fresh_ok fresh -> seal (Some fresh) vault l = Ok (env, l') ->
  open vault env = Ok l' /\ content l' = content l /\ seq l' = seq l + 1 /\ wf l'.
Proof.
  intros Hwf Hf (-> & Hw & Hs)%seal_inv; [|done]. pose proof (wf_seq _ Hwf). split_and!; try done.
  apply open_iff. split_and!; [done|cbn; lia|]. eauto.
Qed.

Lemma open_all_elem vault candidates l : l ∈ (open_all vault candidates).1 <->
  exists c, c ∈ candidates /\ open vault c = Ok l.
Proof.
  induction candidates as [|c cs IH]; cbn; [split; [by intros H%elem_of_nil|intros (c & H & _); by apply elem_of_nil in H]|].
  destruct (open_all vault cs) as [opened first]; cbn in IH.
  destruct (open vault c) as [x|] eqn:E; cbn; rewrite ?elem_of_cons, IH; split.
  - intros [->|(d & Hd & H)]; [exists c; split; [left|done]|exists d; split; [by right|done]].
  - intros (d & [->|Hd]%elem_of_cons & H); [left; congruence|right; eauto].
  - intros (d & Hd & H). exists d. split; [by right|done].
  - intros (d & [->|Hd]%elem_of_cons & H); [congruence|eauto].
Qed.

Lemma open_all_wf vault candidates : Forall wf (open_all vault candidates).1.
Proof. apply Forall_forall. intros l (c & _ & H)%open_all_elem. by apply open_iff in H as [H _]. Qed.
End Proofs.
