(* ===== verification/DropWireReader.v ===== *)
(** * A reader of key lists

    A reader of the text [DropKeyListWire] writes, proved to satisfy
    [WireReaderLaws]: the laws can hold, and the witnesses about key lists run
    on it. *)
From stdpp Require Import sorting gmap.
From S2P Require Import Prelude EnvelopeFormat EnvelopeName EnvelopeKey Envelope EnvelopeProofs EnvelopeCanon.
From S2P Require Import DirectText DirectJson DirectJsonReader DirectPath DirectMessages DirectMessagesProofs.
From S2P Require Import DropLayout DropKeyList DropKeyListProofs DropKeyListWire DropKeyListWireProofs.
#[local] Open Scope Z_scope.

(** ** Flat objects *)

Inductive Field := FStr (s : text) | FNum (n : Z).

Definition write_field (f : Field) : text := match f with FStr s => write_string s | FNum n => u64_to_string n end.
Definition is_string (f : Field) : bool := match f with FStr _ => true | FNum _ => false end.
Definition field_ok (f : Field) : bool := match f with FStr s => forallb scalar s | FNum n => is_u64 n end.

Definition read_string (s : text) : option (text * text) := s ← cut_prefix [34] s; read_chars (S (length s)) s.

Definition read_number (s : text) : option (Z * text) :=
  let '(ds, rest) := span_digits s in Some (digits_value ds, rest).

Definition read_field (string : bool) (s : text) : option (Field * text) :=
  if string then '(t, s) ← read_string s; Some (FStr t, s) else '(n, s) ← read_number s; Some (FNum n, s).

Fixpoint read_members (ks : list (string * bool)) (s : text) : option (list Field * text) :=
  match ks with
  | [] => Some ([], s)
  | k :: ks =>
      s ← cut_prefix (write_string (lit k.1) ++ [58]) s;
      '(f, s) ← read_field k.2 s;
      match ks with
      | [] => Some ([f], s)
      | _ => s ← cut_prefix [44] s; '(fs, s) ← read_members ks s; Some (f :: fs, s)
      end
  end.

Definition read_object (ks : list (string * bool)) (s : text) : option (list Field * text) :=
  s ← cut_prefix [123] s;
  '(fs, s) ← read_members ks s;
  s ← cut_prefix [125] s;
  Some (fs, s).

Definition written_object (ks : list (string * bool)) (fs : list Field) : text :=
  object (zip_with (fun k f => member k.1 (write_field f)) ks fs).

Lemma cut_prefix_app p s : cut_prefix p (p ++ s) = Some s.
Proof. unfold cut_prefix. by rewrite take_app_length, bool_decide_eq_true_2, drop_app_length. Qed.

Lemma cut_prefix_cons c s : cut_prefix [c] (c :: s) = Some s.
Proof. apply (cut_prefix_app [c]). Qed.

Lemma read_string_written s rest : read_string (write_string s ++ rest) = Some (s, rest).
Proof.
  unfold read_string, write_string. cbn [app]. rewrite cut_prefix_cons. cbn [mbind option_bind].
  apply read_chars_write. rewrite length_app. pose proof (write_chars_length s). lia.
Qed.

Lemma read_number_written n rest : is_u64 n = true -> delimited rest ->
  read_number (u64_to_string n ++ rest) = Some (n, rest).
Proof.
  intros Hn Hr. destruct (u64_to_string_ok n Hn) as (c & t & -> & Hd & Hv). unfold read_number.
  rewrite span_digits_app by done. by rewrite Hv.
Qed.

Lemma read_field_written f rest : field_ok f = true -> delimited rest ->
  read_field (is_string f) (write_field f ++ rest) = Some (f, rest).
Proof.
  intros Hf Hr. destruct f as [s|n]; cbn [is_string write_field read_field].
  - by rewrite read_string_written.
  - by rewrite read_number_written.
Qed.

Lemma read_members_written ks fs rest : map snd ks = map is_string fs -> forallb field_ok fs = true ->
  delimited rest -> read_members ks (separated (zip_with (fun k f => member k.1 (write_field f)) ks fs) ++ rest) = Some (fs, rest).
Proof.
  revert fs. induction ks as [|[k b] ks IH]; intros [|f fs] Hk Hf Hr; try done. injection Hk as -> Hk.
  cbn [forallb] in Hf. apply andb_prop in Hf as [Hf Hfs]. cbn [zip_with read_members fst snd].
  assert (forall r, member k (write_field f) ++ r = (write_string (lit k) ++ [58]) ++ (write_field f ++ r)) as Hm.
  { intros r. unfold member, write_member. cbn [fst snd]. rewrite <- !app_assoc. done. }
  destruct ks as [|k' ks].
  - destruct fs; [|done]. cbn [zip_with separated]. rewrite Hm, cut_prefix_app. cbn [mbind option_bind].
    by rewrite read_field_written.
  - destruct fs as [|f' fs]; [done|]. specialize (IH (f' :: fs) Hk Hfs Hr). cbn [zip_with] in IH |- *.
    change (separated (?a :: ?b :: ?l)) with (a ++ 44 :: separated (b :: l)).
    rewrite <- app_assoc, Hm, cut_prefix_app. cbn [mbind option_bind app].
    rewrite read_field_written by (done || by apply delimited_cons). cbn [mbind option_bind].
    rewrite cut_prefix_cons. cbn [mbind option_bind].
    by rewrite IH.
Qed.

Lemma read_object_written ks fs rest : map snd ks = map is_string fs -> forallb field_ok fs = true ->
  read_object ks (written_object ks fs ++ rest) = Some (fs, rest).
Proof.
  intros Hk Hf. unfold read_object, written_object, object. cbn [app]. rewrite cut_prefix_cons. cbn [mbind option_bind].
  rewrite <- app_assoc. rewrite read_members_written by (done || by apply delimited_cons). cbn [app mbind option_bind].
  by rewrite cut_prefix_cons.
Qed.

(** ** Arrays *)

Definition read_array {A} (item : text -> option (A * text)) (s : text) : option (list A * text) :=
  s ← cut_prefix [91] s;
  if has_prefix [93] s then Some ([], drop 1 s) else read_items 93 item (S (length s)) s.

Lemma read_array_written {A} (item : text -> option (A * text)) (w : A -> text) xs rest :
  (forall x, x ∈ xs -> exists t, w x = 123 :: t) ->
  (forall x r, x ∈ xs -> item (w x ++ r) = Some (x, r)) ->
  read_array item (array (map w xs) ++ rest) = Some (xs, rest).
Proof.
  intros Hh Hi. unfold read_array, array. cbn [app]. rewrite cut_prefix_cons. cbn [mbind option_bind].
  rewrite <- app_assoc. cbn [app]. destruct xs as [|x xs].
  { cbn [map separated app]. rewrite has_prefix_1. done. }
  assert (has_prefix [93] (separated (map w (x :: xs)) ++ 93 :: rest) = false) as ->.
  { destruct (Hh x ltac:(left)) as [t Ht]. cbn [map]. eapply separated_start; [exact Ht|done]. }
  apply read_items_write; [done|done| |done|].
  - assert (forall y, y ∈ x :: xs -> forall r, delimited r -> item (w y ++ r) = Some (y, r)) as Hi' by auto.
    revert Hi'. generalize (x :: xs). intros l. induction l as [|y l IH]; intros Hl; cbn; constructor.
    + apply Hl. left.
    + apply IH. intros z Hz. apply Hl. by right.
  - rewrite length_app. cbn [length]. pose proof (separated_length (map w (x :: xs))) as H. rewrite length_map in H. cbn [length] in *. lia.
Qed.

(** ** The key list *)

Definition stone_fields (t : WireTombstone) : list Field := [FStr (wt_id t); FNum (wt_at t)].
Definition STONE : list (string * bool) := [("id", true); ("at", false)]%string.

Definition v1_fields (e : WireEntry) : list Field :=
  [FStr (w_id e); FStr (w_sha256 e); FNum (w_size e); FStr (w_key e); FStr (w_name e); FStr (w_type e);
   FNum (w_bytes e); FNum (w_added e)].
Definition ENTRY : list (string * bool) :=
  [("id", true); ("sha256", true); ("size", false); ("key", true); ("name", true); ("type", true);
   ("bytes", false); ("added", false)]%string.

Definition v2_fields (e : WireEntryV2) : list Field :=
  v1_fields (w_v1 e) ++ [FStr (w_path e); FStr (w_prev e); FStr (w_plain e); FStr (w_from e)].
Definition ENTRY_V2 : list (string * bool) :=
  ENTRY ++ [("path", true); ("prev", true); ("plain", true); ("from", true)]%string.

Definition stone_of (fs : list Field) : option WireTombstone :=
  match fs with [FStr i; FNum a] => Some {| wt_id := i; wt_at := a |} | _ => None end.

Definition entry_of (fs : list Field) : option WireEntry :=
  match fs with
  | [FStr i; FStr h; FNum s; FStr k; FStr n; FStr t; FNum b; FNum a] =>
      Some {| w_id := i; w_sha256 := h; w_size := s; w_key := k; w_name := n; w_type := t; w_bytes := b; w_added := a |}
  | _ => None
  end.

Definition entry_v2_of (fs : list Field) : option WireEntryV2 :=
  v1 ← entry_of (take 8 fs);
  match drop 8 fs with
  | [FStr p; FStr v; FStr q; FStr f] => Some {| w_v1 := v1; w_path := p; w_prev := v; w_plain := q; w_from := f |}
  | _ => None
  end.

Definition read_as {A} (ks : list (string * bool)) (build : list Field -> option A) (s : text) : option (A * text) :=
  '(fs, s) ← read_object ks s; a ← build fs; Some (a, s).

(** What follows the opening brace up to the version. *)
Definition version_key : text := 123 :: write_string (lit "v") ++ [58].

Definition read_top {E} (item : text -> option (E * text)) (s : text) : option (WireList E) :=
  s ← cut_prefix version_key s;
  '(v, s) ← read_string s;
  s ← cut_prefix (44 :: write_string (lit "seq") ++ [58]) s;
  '(n, s) ← read_number s;
  s ← cut_prefix (44 :: write_string (lit "files") ++ [58]) s;
  '(files, s) ← read_array item s;
  s ← cut_prefix (44 :: write_string (lit "removed") ++ [58]) s;
  '(stones, s) ← read_array (read_as STONE stone_of) s;
  if bool_decide (s = [125]) then Some {| w_v := v; w_seq := n; w_files := files; w_removed := stones |} else None.

Definition typed_listb {E} (fields : E -> list Field) (l : WireList E) : bool :=
  forallb scalar (w_v l) && is_u64 (w_seq l) && forallb (fun e => forallb field_ok (fields e)) (w_files l) &&
  forallb (fun t => forallb field_ok (stone_fields t)) (w_removed l).

Definition checked {E} (fields : E -> list Field) (o : option (WireList E)) : option (WireList E) :=
  l ← o; if typed_listb fields l then Some l else None.

Definition wire_reader : WireReader :=
  {| read_version b := t ← text_of_bytes b; s ← cut_prefix version_key t; '(v, _) ← read_string s; Some v;
     read_list b := t ← text_of_bytes b; checked v1_fields (read_top (read_as ENTRY entry_of) t);
     read_list_v2 b := t ← text_of_bytes b; checked v2_fields (read_top (read_as ENTRY_V2 entry_v2_of) t) |}.

(** ** It has the laws *)

Lemma field_ok_text s : forallb scalar s = true <-> is_text s.
Proof. apply is_text_forallb. Qed.

Lemma typed_stone_fields t : typed_stone t <-> forallb field_ok (stone_fields t) = true.
Proof. unfold typed_stone. cbn. rewrite !andb_true_iff, <- field_ok_text. tauto. Qed.

Lemma typed_wire_fields e : typed_wire e <-> forallb field_ok (v1_fields e) = true.
Proof. unfold typed_wire. cbn. rewrite !andb_true_iff, <- !field_ok_text. tauto. Qed.

Lemma typed_wire_v2_fields e : typed_wire_v2 e <-> forallb field_ok (v2_fields e) = true.
Proof.
  unfold typed_wire_v2, v2_fields. rewrite forallb_app, andb_true_iff, <- typed_wire_fields. cbn.
  rewrite !andb_true_iff, <- !field_ok_text. tauto.
Qed.

Lemma typed_listb_spec {E} (fields : E -> list Field) (P : E -> Prop) (l : WireList E) :
  (forall e, P e <-> forallb field_ok (fields e) = true) -> typed_list P l <-> typed_listb fields l = true.
Proof.
  intros HP. unfold typed_list, typed_listb. rewrite !andb_true_iff, field_ok_text, !forallb_forall, !Forall_forall.
  setoid_rewrite HP. setoid_rewrite list_elem_of_In. setoid_rewrite typed_stone_fields. tauto.
Qed.

Lemma object_text ms : Forall is_text ms -> is_text (object ms).
Proof.
  intros H. constructor; [done|]. apply is_text_app. split; [by apply separated_is_text|by repeat constructor].
Qed.

Lemma array_text ms : Forall is_text ms -> is_text (array ms).
Proof.
  intros H. constructor; [done|]. apply is_text_app. split; [by apply separated_is_text|by repeat constructor].
Qed.

Lemma member_text k v : is_text v -> Forall (fun c => 0 <= c < 128) (lit k) -> is_text (member k v).
Proof.
  intros Hv Hk. unfold member, write_member. cbn [fst snd]. apply is_text_app. split; [by apply write_string_is_text, ascii_is_text|].
  by constructor.
Qed.

Lemma number_is_text n : is_u64 n = true -> is_text (u64_to_string n).
Proof. intros H. destruct (u64_to_string_ok n H) as (c & t & -> & Hd & _). by apply digits_are_text. Qed.

Lemma written_text ks fs : forallb field_ok fs = true -> Forall (fun k => Forall (fun c => 0 <= c < 128) (lit k.1)) ks ->
  is_text (written_object ks fs).
Proof.
  intros Hf Hk. apply object_text. revert fs Hf. induction Hk as [|k ks Hk Hks IH]; intros [|f fs] Hf; cbn [zip_with]; try constructor.
  - cbn [forallb] in Hf. apply andb_prop in Hf as [Hf _]. apply member_text; [|done].
    destruct f; cbn [write_field field_ok] in *; [by apply write_string_is_text, field_ok_text|by apply number_is_text].
  - cbn [forallb] in Hf. apply andb_prop in Hf as [_ Hf]. by apply IH.
Qed.

Lemma read_as_written {A} ks (build : list Field -> option A) (a : A) fs r : build fs = Some a ->
  map snd ks = map is_string fs -> forallb field_ok fs = true ->
  read_as ks build (written_object ks fs ++ r) = Some (a, r).
Proof. intros Hb Hk Hf. unfold read_as. rewrite read_object_written by done. cbn. by rewrite Hb. Qed.

Section Top.
Context {E : Type} (fields : E -> list Field) (ks : list (string * bool)) (build : list Field -> option E).
Context (Hbuild : forall e, build (fields e) = Some e) (Hkinds : forall e, map snd ks = map is_string (fields e)).
Context (Hascii : Forall (fun k : string * bool => Forall (fun c => 0 <= c < 128) (lit k.1)) ks).

Let text_of (e : E) : text := written_object ks (fields e).

(** The list's text, up to the version and after it. *)
Lemma list_text_shape (l : WireList E) : exists rest,
  list_text text_of l = version_key ++ write_string (w_v l) ++ rest /\
  rest = 44 :: write_string (lit "seq") ++ 58 :: u64_to_string (w_seq l) ++
         44 :: write_string (lit "files") ++ 58 :: array (map text_of (w_files l)) ++
         44 :: write_string (lit "removed") ++ 58 :: array (map tombstone_text (w_removed l)) ++ [125].
Proof.
  eexists. split; [|reflexivity]. unfold list_text, object, member, write_member, version_key. cbn [separated fst snd].
  repeat (rewrite <- app_assoc; cbn [app]). done.
Qed.

Lemma stone_text t : tombstone_text t = written_object STONE (stone_fields t).
Proof. done. Qed.

Lemma read_top_written (l : WireList E) : typed_listb fields l = true ->
  read_top (read_as ks build) (list_text text_of l) = Some l.
Proof using Hbuild Hkinds.
  unfold typed_listb. rewrite !andb_true_iff, !forallb_forall. intros (((_ & Hs) & Hf) & Ht).
  destruct (list_text_shape l) as (rest & -> & ->). unfold read_top.
  rewrite cut_prefix_app. cbn [mbind option_bind]. rewrite read_string_written. cbn [mbind option_bind].
  change (44 :: write_string (lit "seq") ++ 58 :: ?x) with ((44 :: write_string (lit "seq") ++ [58]) ++ x).
  rewrite cut_prefix_app. cbn [mbind option_bind].
  rewrite read_number_written by (done || by apply delimited_cons). cbn [mbind option_bind].
  change (44 :: write_string (lit "files") ++ 58 :: ?x) with ((44 :: write_string (lit "files") ++ [58]) ++ x).
  rewrite cut_prefix_app. cbn [mbind option_bind].
  rewrite read_array_written; [|intros e _; by eexists|].
  2: { intros e r He%list_elem_of_In. apply read_as_written; [done|done|by apply Hf]. }
  cbn [mbind option_bind].
  change (44 :: write_string (lit "removed") ++ 58 :: ?x) with ((44 :: write_string (lit "removed") ++ [58]) ++ x).
  rewrite cut_prefix_app. cbn [mbind option_bind].
  rewrite read_array_written; [|intros e _; by eexists|].
  2: { intros t r He%list_elem_of_In. rewrite stone_text. apply read_as_written; [by destruct t|done|by apply Ht]. }
  cbn [mbind option_bind]. rewrite bool_decide_eq_true_2 by done. by destruct l.
Qed.

Lemma list_text_text (l : WireList E) : typed_listb fields l = true -> is_text (list_text text_of l).
Proof using Hascii.
  unfold typed_listb. rewrite !andb_true_iff, !forallb_forall. intros (((Hv & Hs) & Hf) & Ht).
  apply object_text.
  constructor; [|constructor; [|constructor; [|constructor; [|constructor]]]]; apply member_text; try (repeat constructor; done).
  - by apply write_string_is_text, field_ok_text, forallb_forall.
  - by apply number_is_text.
  - apply array_text, Forall_fmap, Forall_forall. intros e He%list_elem_of_In. by apply written_text; [apply Hf|].
  - apply array_text, Forall_fmap, Forall_forall. intros t He%list_elem_of_In. cbn. rewrite stone_text.
    apply written_text; [by apply Ht|repeat constructor; done].
Qed.

Lemma decode_written (l : WireList E) : typed_listb fields l = true ->
  text_of_bytes (text_bytes (list_text text_of l)) = Some (list_text text_of l).
Proof using Hascii. intros H. apply utf8_iff. split; [by apply list_text_text|done]. Qed.

Lemma version_written (l : WireList E) : typed_listb fields l = true ->
  @read_version wire_reader (text_bytes (list_text text_of l)) = Some (w_v l).
Proof using Hascii.
  intros H. cbn [read_version wire_reader]. rewrite decode_written by done. cbn [mbind option_bind].
  destruct (list_text_shape l) as (rest & -> & _). rewrite cut_prefix_app. cbn [mbind option_bind].
  by rewrite read_string_written.
Qed.

Lemma list_written (l : WireList E) : typed_listb fields l = true ->
  (t ← text_of_bytes (text_bytes (list_text text_of l)); checked fields (read_top (read_as ks build) t)) = Some l.
Proof using Hbuild Hkinds Hascii.
  intros H. rewrite decode_written by done. cbn [mbind option_bind]. rewrite read_top_written by done.
  unfold checked. cbn [mbind option_bind]. by rewrite H.
Qed.
End Top.

Lemma entry_v2_text e : entry_text_v2 e = written_object ENTRY_V2 (v2_fields e).
Proof. done. Qed.

Lemma checked_typed {E} (fields : E -> list Field) (o : option (WireList E)) l :
  checked fields o = Some l -> typed_listb fields l = true.
Proof.
  unfold checked. destruct o as [l'|]; [|done]. cbn [mbind option_bind]. destruct (typed_listb fields l') eqn:E'; [|done]. by intros [= <-].
Qed.

Lemma wire_reader_laws : WireReaderLaws wire_reader.
Proof.
  assert (forall e, entry_of (v1_fields e) = Some e) as B1 by by intros [].
  assert (forall e, entry_v2_of (v2_fields e) = Some e) as B2 by by intros [[] ? ? ? ?].
  assert (Forall (fun k : string * bool => Forall (fun c => 0 <= c < 128) (lit k.1)) ENTRY) as A1 by (repeat constructor; done).
  assert (Forall (fun k : string * bool => Forall (fun c => 0 <= c < 128) (lit k.1)) ENTRY_V2) as A2 by (repeat constructor; done).
  split.
  - intros l Hl%(typed_listb_spec v1_fields _ _ typed_wire_fields). by apply (version_written v1_fields ENTRY).
  - intros l Hl%(typed_listb_spec v2_fields _ _ typed_wire_v2_fields). by apply (version_written v2_fields ENTRY_V2).
  - intros l Hl%(typed_listb_spec v1_fields _ _ typed_wire_fields). by apply (list_written v1_fields ENTRY).
  - intros l Hl%(typed_listb_spec v2_fields _ _ typed_wire_v2_fields). by apply (list_written v2_fields ENTRY_V2).
  - intros b l. cbn [read_list wire_reader]. destruct (text_of_bytes b) as [t|]; [|done]. cbn [mbind option_bind].
    intros H%checked_typed. by apply (typed_listb_spec v1_fields _ _ typed_wire_fields).
  - intros b l. cbn [read_list_v2 wire_reader]. destruct (text_of_bytes b) as [t|]; [|done]. cbn [mbind option_bind].
    intros H%checked_typed. by apply (typed_listb_spec v2_fields _ _ typed_wire_v2_fields).
Qed.
