(* ===== verification/DropKeyListTheorems.v ===== *)
(** * The key list: what its users rely on

    The claims about [DropKeyList] and [DropKeyListWire].  The witnesses use the
    ASCII operations, the base64 of [DirectTheorems], the reader of
    [DropWireReader] and the cipher of [EnvelopeCanon]. *)
From stdpp Require Import sorting gmap.
From S2P Require Import Prelude EnvelopeFormat EnvelopeName EnvelopeKey Envelope EnvelopeProofs EnvelopeCanon.
From S2P Require Import DirectText DirectJson DirectPath DirectMessages DirectMessagesProofs DirectTheorems.
From S2P Require Import DropLayout DropLayoutProofs DropLayoutTheorems DropKeyList DropKeyListProofs DropMerge DropKeyListWire DropKeyListWireProofs DropWireReader.
#[local] Open Scope Z_scope.

Section Claims.
Context `{U : Unicode} {UL : UnicodeLaws U} `{B : Base64} {BL : Base64Laws B} {BA : Base64Ascii B}.
Context `{R : WireReader} {RL : WireReaderLaws R} `{C : Crypto} {CL : CryptoLaws C} `{J : Json} {JL : JsonLaws J}.

(** The row of an entry the key list accepts is one the layout is total on. *)
Lemma checked_listed e i p h : typed e -> check_entry e = Ok tt ->
  listed {| DropLayout.id := i; DropLayout.path := path e; DropLayout.prev := p; DropLayout.added := added e;
            DropLayout.from := from e; DropLayout.plain := h |} = true.
Proof.
  intros Ht. pose proof (ty_added _ Ht) as H0. unfold check_entry, listed, between. cbn [DropLayout.id DropLayout.path DropLayout.added DropLayout.from].
  destruct (bool_decide_reflect (name e = [])) as [|_]; [done|].
  destruct (bool_decide_reflect (sanitise_name (name e) = name e)) as [Hn|]; [|done]. cbn [negb orb].
  destruct (negb _); [done|]. destruct ((size e <? _) || _ || _); [done|].
  destruct ((added e =? 0) || _) eqn:Ha; [done|]. rewrite orb_false_iff in Ha.
  destruct (negb (bool_decide (path e = name e)) && _) eqn:Hp; [done|]. destruct (bool_decide (prev e = Some (id e))); [done|].
  destruct (valid_from (from e)); [|done]. intros _. rewrite !andb_true_iff. split_and!; [done|lia|lia|].
  apply andb_false_iff in Hp as [Hp|Hp]; rewrite negb_false_iff in Hp.
  - apply bool_decide_eq_true in Hp as ->. pose proof (sanitise_name_is_canonical (name e)) as Hc. rewrite Hn in Hc.
    rewrite split_on_none; [done|]. intros H. pose proof (cn_plain _ Hc) as Hf. rewrite Forall_forall in Hf.
    by specialize (Hf _ H).
  - unfold valid_path, between in Hp. lia.
Qed.

(** The lists the operations make: every list of the program is one. *)
Inductive made : KeyList -> Prop :=
  | made_new : made new
  | made_insert l e l' : made l -> typed e -> insert l e = Ok l' -> made l'
  | made_remove l k a l' o : made l -> length k = 16%nat -> 0 <= a -> remove l k a = Ok (l', o) -> made l'
  | made_merge ls l : (forall x, x ∈ ls -> made x) -> merge ls = Ok l -> made l
  | made_seal draw vault l env l' : made l -> seal draw vault l = Ok (env, l') -> made l'
  | made_open vault env l : open vault env = Ok l -> made l
  | made_newest vault cs s l : open_newest vault cs s = Ok l -> made l.

Lemma open_newest_inv vault cs s m : open_newest vault cs s = Ok m ->
  merge (open_all vault cs).1 = Ok m /\ s <= seq m.
Proof.
  unfold open_newest. destruct (open_all vault cs) as [opened first]; cbn [fst]. destruct opened as [|l ls]; [done|].
  destruct (merge (l :: ls)) as [x|]; [|done]. destruct (Z.ltb_spec (seq x) s); [done|]. by intros [= <-].
Qed.

(** C26: Whatever order the operations run in, a key list is in order and
    consistent: entries and tombstones are in strictly ascending id order, no
    id is both kept and removed, every entry passes the checks of the format,
    and every time and the sequence number are within their limits. *)
Theorem key_lists_are_well_formed l : made l -> wf l.
Proof.
  induction 1 as [|l e l' _ IH Ht H|l k a l' o _ IH Hk Ha H|ls l _ IH H|draw vault l env l' _ IH H|vault env l H|vault cs s l H].
  - apply wf_new.
  - by apply (insert_spec l e).
  - by eapply (remove_spec l k a l').
  - eapply merge_wf; [|exact H]. by apply Forall_forall.
  - by eapply seal_inv in H as (_ & H & _).
  - by apply open_iff in H as [H _].
  - apply open_newest_inv in H as [H _]. eapply merge_wf; [apply open_all_wf|exact H].
Qed.

(** C20: An envelope opens as a key list exactly when it is a seal, under the
    same vault key and the key list's name and type, of the canonical text of
    that well-formed list: nothing is lost or added by sealing, and no other
    text, version or field order stands for a list. *)
Theorem key_list_opens_iff_sealed vault env l : open vault env = Ok l <->
  wf l /\ 1 <= seq l /\ exists fresh, fresh_ok fresh /\
    seal_bytes (Some fresh) vault KEY_LIST_NAME KEY_LIST_MEDIA_TYPE (to_canonical_json l) KEY_LIST_LIMITS = Ok env.
Proof. apply open_iff. Qed.

(** C7: Merging is joining what the copies know: on copies that agree on
    each id's entry, [merge] succeeds and holds every removal of any copy at
    its latest time, and every entry of any copy that no copy has removed.  So
    it does not matter how copies are grouped, ordered or repeated. *)
Theorem merge_refines_join lists : lists <> [] -> Forall wf lists -> agree lists ->
  exists m, merge lists = Ok m /\ content m = foldr join (∅, ∅) (map content lists) /\
    forall l, l ∈ lists -> seq l <= seq m /\ join (content l) (content m) = content m.
Proof.
  intros Hne Hwf Ha. destruct (merge_join lists Hne Hwf Ha) as (m & Hm & Hw & Hc). exists m.
  split_and!; [done..|]. intros l Hl. split; [|rewrite Hc; by apply joined_content_in].
  destruct (merge_inv _ _ Hm) as (Hs & _). pose proof (max_seq_spec lists) as H. rewrite Hs in H. by apply H.
Qed.

(** C32: Opening the candidate copies in any order gives the same list, never
    one older than [last_seen] or than any copy that opens, and nothing that
    any of those copies has removed is in it. *)
Theorem open_newest_keeps_up vault candidates last_seen m : open_newest vault candidates last_seen = Ok m ->
  last_seen <= seq m /\
  (forall candidates', Permutation candidates candidates' -> open_newest vault candidates' last_seen = Ok m) /\
  forall c l, c ∈ candidates -> open vault c = Ok l ->
    seq l <= seq m /\ forall t, t ∈ removed l -> get m (stone_id t) = None /\
      exists t', t' ∈ removed m /\ stone_id t' = stone_id t /\ at_ t <= at_ t'.
Proof.
  intros H. destruct (open_newest_inv _ _ _ _ H) as [Hm Hs]. split_and!; [done|..].
  - intros cs' Hp. assert ((open_all vault candidates).1 ≡ₚ (open_all vault cs').1) as Hp'.
    { clear -Hp. induction Hp as [|c l l' _ IH|c d l|l1 l2 l3 _ IH1 _ IH2]; [done|..|by etransitivity]; cbn.
      - destruct (open_all vault l), (open_all vault l'); cbn in *. destruct (open vault c); cbn; [by constructor|done].
      - destruct (open_all vault l). destruct (open vault c), (open vault d); cbn; done || constructor. }
    rewrite (merge_perm _ _ Hp') in Hm. unfold open_newest in *. destruct (open_all vault cs') as [o f]; cbn in *.
    destruct o; [done|]. rewrite Hm. by destruct (Z.ltb_spec (seq m) last_seen); [lia|].
  - intros c l Hc Hl. assert (l ∈ (open_all vault candidates).1) as Hin by (apply open_all_elem; eauto).
    pose proof (open_all_wf vault candidates) as Hwf. pose proof (merge_wf _ _ Hwf Hm) as Hw.
    destruct (merge_inv _ _ Hm) as (Hmax & Hu & _). pose proof (max_seq_spec (open_all vault candidates).1) as Hsp.
    rewrite Hmax in Hsp. split; [by apply Hsp|]. intros t Ht.
    pose proof (union_removed_latest (open_all vault candidates).1 (stone_id t)) as Hlat.
    assert (t ∈ stones_of (open_all vault candidates).1) as Hts by (apply stones_of_elem; eauto).
    destruct (union_removed _ !! stone_id t) as [a|] eqn:Ea; [|by apply Hlat in Hts].
    assert ({| stone_id := stone_id t; at_ := a |} ∈ removed m) as Hrm by by apply (merged_stone _ _ _ Hm).
    split; [|exists {| stone_id := stone_id t; at_ := a |}; split_and!; [done..|by apply Hlat]].
    rewrite get_entry_map by done. apply eq_None_not_Some. intros [e He]. apply entry_map_lookup in He as [He Hid]; [|done].
    by apply (wf_apart _ Hw e _ He Hrm).
Qed.
End Claims.

(** ** Witnesses *)

#[local] Existing Instances ascii_unicode ascii_unicode_laws ascii_base64 ascii_base64_laws ascii_base64_ascii
  wire_reader wire_reader_laws toy_crypto toy_crypto_laws.

Definition an_id (b : byte) : FileId := replicate 16 b.

Definition an_entry (b : byte) : KeyListEntry :=
  {| id := an_id b; sha256 := replicate 32 b; size := MIN_ENVELOPE_BYTES; key := toy_key; name := lit "a.txt";
     media_type := lit "text/plain"; bytes := 3; added := 1792324800; path := lit "Docs/a.txt"; prev := None;
     plain := Some (replicate 32 b); from := lit "Laptop" |}.

Lemma an_entry_typed b : typed (an_entry b).
Proof.
  split; [reflexivity|reflexivity|intros p [=]|intros p [= <-]; reflexivity|by cbn|by cbn|].
  split_and!; apply is_text_forallb; vm_compute; reflexivity.
Qed.

(** One file kept, another removed. *)
Definition a_list : KeyList :=
  {| seq := 3; entries := [an_entry Byte.x01]; removed := [{| stone_id := an_id Byte.x02; at_ := 7 |}] |}.

(** A copy that has not seen the removal. *)
Definition stale_list : KeyList := {| seq := 2; entries := [an_entry Byte.x02]; removed := [] |}.

Lemma a_list_wf : wf a_list /\ wf stale_list.
Proof.
  split; (split; cbn; [unfold MAX_SAFE_INTEGER; lia|repeat constructor|repeat constructor| | |]).
  all: try (constructor; [split; [apply an_entry_typed|vm_compute; reflexivity]|constructor]).
  all: try (repeat constructor; cbn; unfold MAX_SAFE_INTEGER; lia).
  all: intros e t He Ht; apply list_elem_of_singleton in He as ->.
  - apply list_elem_of_singleton in Ht as ->. done.
  - by apply elem_of_nil in Ht.
Qed.

Lemma key_lists_are_well_formed_witness : exists l, insert new (an_entry Byte.x01) = Ok l /\ wf l.
Proof.
  eexists. split; [vm_compute; reflexivity|]. apply (@key_lists_are_well_formed _ _ ascii_base64 _ _ _ _ _ _ toy_json toy_json_laws).
  eapply made_insert; [apply made_new|apply (an_entry_typed Byte.x01)|vm_compute; reflexivity].
Defined.

Lemma merge_refines_join_witness : exists m, merge [a_list; stale_list] = Ok m /\ seq m = 3 /\
  get m (an_id Byte.x02) = None.
Proof.
  destruct (merge_refines_join [a_list; stale_list]) as (m & H & _).
  - discriminate.
  - constructor; [apply a_list_wf|constructor; [apply a_list_wf|constructor]].
  - intros l l' e e' [->|[->|Hl]%elem_of_cons]%elem_of_cons [->|[->|Hl']%elem_of_cons]%elem_of_cons He He';
      try (by apply elem_of_nil in Hl); try (by apply elem_of_nil in Hl');
      apply list_elem_of_singleton in He as ->; apply list_elem_of_singleton in He' as ->; by vm_compute.
  - exists m. split; [exact H|]. vm_compute in H. injection H as <-. split; vm_compute; reflexivity.
Defined.

(** The metadata of the envelope of [a_list], and a JSON table that knows it. *)
Definition list_metadata : Metadata :=
  {| EnvelopeFormat.name := KEY_LIST_NAME; EnvelopeFormat.size := blen (to_canonical_json a_list);
     EnvelopeFormat.media_type := KEY_LIST_MEDIA_TYPE |}.

Definition list_json : Json :=
  {| json_encode m := if decide (m = list_metadata) then Some (ascii_bytes "{}") else None;
     json_decode l := if decide (l = ascii_bytes "{}") then Some list_metadata else None |}.

Lemma list_json_laws : JsonLaws list_json.
Proof.
  split; cbn [json_encode json_decode list_json]; intros m l.
  1-3: destruct (decide (m = list_metadata)) as [->|]; [|done]; by intros [= <-].
  destruct (decide (l = ascii_bytes "{}")) as [->|]; [|done]. intros [= <-]. vm_compute. done.
Qed.

#[local] Existing Instances list_json list_json_laws.

Lemma a_list_layout : Envelope.layout KEY_LIST_NAME KEY_LIST_MEDIA_TYPE (blen (r_bytes (mem_reader (to_canonical_json a_list)))) KEY_LIST_LIMITS
  = Ok {| l_metadata := list_metadata; l_prefix := be_bytes 4 2 ++ ascii_bytes "{}";
          plaintext_len := MIN_PADDING_BUCKET; record_count := 1 |}.
Proof. vm_compute. reflexivity. Qed.

Lemma a_list_sealed : exists env,
  seal_bytes (Some toy_fresh) toy_key KEY_LIST_NAME KEY_LIST_MEDIA_TYPE (to_canonical_json a_list) KEY_LIST_LIMITS = Ok env.
Proof.
  pose proof (encrypt_with_total toy_key (mem_reader (to_canonical_json a_list)) KEY_LIST_NAME KEY_LIST_MEDIA_TYPE
    KEY_LIST_LIMITS toy_fresh mem_writer _ toy_fresh_total a_list_layout eq_refl eq_refl eq_refl) as (sealed & w' & H).
  exists (w_out w'). unfold seal_bytes, encrypt. cbn [ok_or]. change (fun _ _ : Z => true) with always.
  cbn [mem_reader r_bytes] in H. unfold mem_reader in *. by rewrite H.
Qed.

Lemma a_list_opens : exists env, open toy_key env = Ok a_list.
Proof.
  destruct a_list_sealed as [env H]. exists env. apply open_iff. split; [apply a_list_wf|]. split; [cbn; lia|].
  exists toy_fresh. split; [apply toy_fresh_total|exact H].
Qed.

Lemma key_list_opens_iff_sealed_witness : exists env, open toy_key env = Ok a_list.
Proof.
  destruct a_list_sealed as [env H]. exists env. apply key_list_opens_iff_sealed.
  split; [apply a_list_wf|]. split; [cbn; lia|]. exists toy_fresh. split; [apply toy_fresh_total|exact H].
Defined.

Lemma open_newest_keeps_up_witness : exists env, open_newest toy_key [env; []] 3 = Ok a_list /\ 3 <= seq a_list /\
  open_newest toy_key [[]; env] 3 = Ok a_list.
Proof.
  destruct a_list_opens as [env H]. exists env.
  assert (open_newest toy_key [env; []] 3 = Ok a_list) as Hn.
  { unfold open_newest. cbn [open_all]. rewrite H. assert (exists e, open toy_key [] = Err e) as [e ->] by (eexists; vm_compute; reflexivity).
    vm_compute. reflexivity. }
  destruct (open_newest_keeps_up toy_key [env; []] 3 a_list Hn) as (H1 & H2 & _).
  split; [exact Hn|]. split; [exact H1|]. apply H2. apply perm_swap.
Defined.
