(* ===== verification/DropWatch.v ===== *)
(** * When a missing file counts as deleted

    Models [desktop/src-tauri/src/drop/watch.rs]: the names a scan skips, the
    rule that infers deletions, the mass-removal brake, settling, why a file is
    not kept, the layout of the rows, the loop, and the part of a folder pass that
    turns one scan into removals and holds; with [folder::stat_under] and
    [folder::join] of [drop/folder.rs].  Instants and durations are in
    nanoseconds; the file system is what a scan and its lookups answer.  The
    pass's writes to the folder are in [DropFolder]; how it takes in edits and
    new files is not modelled. *)
From stdpp Require Import gmap.
From S2P Require Import Prelude EnvelopeFormat EnvelopeName DirectText DirectPath DropLayout.
From S2P Require Import DropKeyListWire.
#[local] Open Scope Z_scope.

Definition SECOND : Z := 1000000000.
Definition SETTLE : Z := 3 * SECOND.
Definition IMPORT_WAIT_SECONDS : Z := 600.
Definition BRAKE_WINDOW : Z := 600 * SECOND.
Definition BRAKE_FLOOR : Z := 10.
Definition BRAKE_ANY : Z := 50.

(** [Instant::duration_since], which saturates. *)
Definition since (now earlier : Z) : Z := Z.max (now - earlier) 0.

(** Names never taken in. *)
Definition ignored (name : text) : bool :=
  let lower := map (fun c => if between 65 c 90 then c + 32 else c) name in
  has_prefix [46] name || has_prefix (lit "~$") name ||
  existsb (fun suffix => has_suffix suffix lower) [lit ".part"; lit ".crdownload"; lit ".download"; lit ".tmp"] ||
  bool_decide (lower ∈ [lit "desktop.ini"; lit "thumbs.db"]).

(** ** What is at a path *)

Record Meta := { len : Z; mtime : Z }.

Inductive Stat := Present (m : Meta) | Missing | Unknown.

Definition is_missing (s : Stat) : bool := match s with Missing => true | _ => false end.
Definition is_present (s : Stat) : bool := match s with Present _ => true | _ => false end.

(** [symlink_metadata]. *)
Inductive Lstat := LFile (m : Meta) | LDir | LLink | LOther | LNotFound | LError.

(** [folder::join] refuses the path or names a file below the root. *)
Definition joinable (rel : list text) : bool :=
  negb (bool_decide (rel = [])) &&
  forallb (fun c => negb (bool_decide (c = []) || bool_decide (c = lit ".") || bool_decide (c = lit "..") ||
                          existsb (fun x => (x =? 47) || (x =? 92) || (x =? 0)) c)) rel.

(** The loop of [stat_under]; [current] is what was pushed. *)
Fixpoint stat_from (lstat : list text -> Lstat) (current rel : list text) : Stat :=
  match rel with
  | [] => Unknown
  | component :: rest =>
      let current := current ++ [component] in
      match lstat current, rest with
      | LLink, _ => Unknown
      | LFile m, [] => Present m
      | (LDir | LOther), [] => Missing
      | LDir, _ => stat_from lstat current rest
      | (LFile _ | LOther), _ => Missing
      | LNotFound, _ => Missing
      | LError, _ => Unknown
      end
  end.

(** [root_is_dir] is [lstat []]. *)
Definition stat_under (lstat : list text -> Lstat) (rel : list text) : Stat :=
  match lstat [] with
  | LDir => if joinable rel then stat_from lstat [] rel else Unknown
  | _ => Unknown
  end.

Definition matches (m : Meta) (size time : option Z) : bool :=
  bool_decide (Some (len m) = size) && bool_decide (Some (mtime m) = time).

(** ** The deletion rule *)

Definition retained (checks : list (text * Stat)) (missing : gmap text Z) : gmap text Z :=
  filter (fun kv => kv.1 ∈ map fst checks) missing.

(** The loop over [checks]. *)
Fixpoint infer_loop (available truncated importing : bool) (checks : list (text * Stat))
    (missing : gmap text Z) (now : Z) (out : list text) : list text * gmap text Z :=
  match checks with
  | [] => (out, missing)
  | (i, stat) :: checks =>
      if negb (is_missing stat) then infer_loop available truncated importing checks (delete i missing) now out
      else if negb available || truncated || importing
      then infer_loop available truncated importing checks missing now out
      else
        match missing !! i with
        | Some first =>
            infer_loop available truncated importing checks missing now
              (if SETTLE <=? since now first then out ++ [i] else out)
        | None => infer_loop available truncated importing checks (<[i := now]> missing) now out
        end
  end.

Definition infer_missing (available truncated importing : bool) (checks : list (text * Stat))
    (missing : gmap text Z) (now : Z) : list text * gmap text Z :=
  let '(out, missing) := infer_loop available truncated importing checks missing now [] in
  (out, retained checks missing).

(** ** The brake *)

Record Braked := { release : list text; hold : list text }.

(** [while front is too old { pop_front }]. *)
Fixpoint drop_old (recent : list Z) (now : Z) : list Z :=
  match recent with
  | at_ :: rest => if BRAKE_WINDOW <=? since now at_ then drop_old rest now else recent
  | [] => []
  end.

Definition brake (inferred : list text) (moved : text -> bool) (holding : bool) (pending linked : Z)
    (recent : list Z) (now : Z) : Braked * list Z :=
  let recent := drop_old recent now in
  let released := List.filter moved inferred in
  let losing := List.filter (fun i => negb (moved i)) inferred in
  match losing with
  | [] => ({| release := released; hold := [] |}, recent)
  | _ =>
      let total := Z.of_nat (length recent) + Z.of_nat (length losing) + pending in
      let base := linked + Z.of_nat (length recent) in
      if holding || (BRAKE_ANY <=? total) || (BRAKE_FLOOR <=? total) && (base <=? total * 2)
      then ({| release := released; hold := losing |}, recent)
      else ({| release := released ++ losing; hold := [] |}, recent ++ replicate (length losing) now)
  end.

(** ** Settling *)

Record Seen := { seen_len : Z; seen_mtime : Z; seen_since : Z }.

Definition settled {K} `{Countable K} (seen : gmap K Seen) (key : K) (m : Meta) (now : Z) : bool * gmap K Seen :=
  match seen !! key with
  | Some s =>
      if (seen_len s =? len m) && (seen_mtime s =? mtime m) then (SETTLE <=? since now (seen_since s), seen)
      else (false, <[key := {| seen_len := len m; seen_mtime := mtime m; seen_since := now |}]> seen)
  | None => (false, <[key := {| seen_len := len m; seen_mtime := mtime m; seen_since := now |}]> seen)
  end.

Section Paths.
Context `{U : Unicode}.

(** Why a file at [rel] can't be kept, if it can't. *)
Definition not_kept_reason (rel : text) (deep : bool) (size limit : Z) : option string :=
  if deep || (MAX_COMPONENTS <? Z.of_nat (length (split_on 47 rel))) then Some "too_deep"%string
  else if negb (valid_path rel) then
    if (MAX_PATH_UTF16 <? utf16_count rel) && forallb valid_component (split_on 47 rel)
    then Some "too_long"%string else Some "name"%string
  else if limit <? size then Some "too_big"%string
  else None.
End Paths.

(** ** One pass *)

Inductive Local := ENCRYPTING | PENDING | OK | MISSING | RESTORING | UNREADABLE | NOT_KEPT.
#[export] Instance Local_eq_dec : EqDecision Local.
Proof. solve_decision. Defined.

(** A row of the index, as far as the folder and the key list read it. *)
Record FileRecord := {
  row_id : text;
  row_name : text;
  row_path : text;
  row_prev : option text;
  row_media_type : text;
  row_bytes : Z;
  row_added : Z;
  origin : text;
  entry_plain : text;
  row_sha256 : option text;
  row_size : option Z;
  row_local : Local;
  watch_path : option text;
  watch_size : option Z;
  watch_mtime : option Z;
  plain_sha256 : text
}.

(** [parse_sha256(..).is_some()]. *)
Definition known_hash (s : text) : bool := bool_decide (is_Some (parse_sha256 s)).

(** What one turn of the loop meets: whether it is enabled and, again in the
    pass, whether the folder is mirrored, the folder before and after the walk, the walk (if
    its task returned), what is at each link, the spelling a present link has
    on disk when the walk lists it otherwise, the files of the walk, the rows,
    the held ids, whether the brake's window could be locked and the time. *)
Record Scan := {
  enabled : bool;
  mirror_on : bool;
  there_before : bool;
  walked : option bool;             (** [Some truncated] *)
  there_after : bool;
  unreadable : text -> bool;
  stat_path : text -> Stat;
  respelled : text -> option text;
  found : list (text * Meta);
  rows : list FileRecord;
  held : list text;
  window_locked : bool;
  now : Z;
  seconds : Z
}.

Record Memory := { missing : gmap text Z; recent : list Z }.

Definition stat_of (s : Scan) (link : text) : Stat := if unreadable s link then Unknown else stat_path s link.

(** Where a link is taken to be after its spelling was checked. *)
Definition path_of (s : Scan) (link : text) : text :=
  if is_present (stat_of s link) then default link (respelled s link) else link.

Record Linked := {
  checks : list (FileRecord * Stat);
  known : list text;
  ended : list text;
  held_missing : list FileRecord;
  dropped : list text               (** rows of files not kept, deleted at once *)
}.

(** One row of the loop over linked files. *)
Definition look_at (s : Scan) (acc : Linked) (row : FileRecord) : Linked :=
  match watch_path row with
  | None => acc
  | Some link =>
      let stat := stat_of s link in
      let path := path_of s link in
      if bool_decide (row_local row = NOT_KEPT) then
        let keep :=
          match stat with
          | Unknown => true
          | Present m => matches m (watch_size row) (watch_mtime row)
          | Missing => false
          end in
        {| checks := checks acc; known := if keep then known acc ++ [path] else known acc;
           ended := ended acc; held_missing := held_missing acc;
           dropped := if keep then dropped acc else dropped acc ++ [row_id row] |}
      else if bool_decide (row_id row ∈ held s) && negb (is_present stat) then
        {| checks := checks acc; known := known acc ++ [path]; ended := ended acc;
           held_missing := if is_missing stat then held_missing acc ++ [row] else held_missing acc;
           dropped := dropped acc |}
      else
        {| checks := checks acc ++ [(row, stat)]; known := known acc ++ [path];
           ended := if bool_decide (row_id row ∈ held s) then ended acc ++ [row_id row] else ended acc;
           held_missing := held_missing acc; dropped := dropped acc |}
  end.

Definition look_at_all (s : Scan) : Linked :=
  foldl (look_at s) {| checks := []; known := []; ended := []; held_missing := []; dropped := [] |} (rows s).

Definition importing (s : Scan) : bool :=
  existsb (fun r => bool_decide (is_Some (watch_path r)) &&
                    (bool_decide (row_local r = ENCRYPTING) || bool_decide (row_local r = PENDING)) &&
                    (seconds s <=? row_added r + IMPORT_WAIT_SECONDS)) (rows s).

(** Content still in the folder: a linked file as last seen with the same
    plaintext, or a file not taken in yet with the same size and time. *)
Definition still_here (s : Scan) (l : Linked) (row : FileRecord) : bool :=
  existsb (fun c =>
    match c.2 with
    | Present m => matches m (watch_size c.1) (watch_mtime c.1) && known_hash (plain_sha256 c.1) &&
                   bool_decide (plain_sha256 c.1 = plain_sha256 row)
    | _ => false
    end) (checks l) ||
  match watch_size row, watch_mtime row with
  | Some size, Some time =>
      existsb (fun f => negb (bool_decide (f.1 ∈ known l)) && (len f.2 =? size) && (mtime f.2 =? time)) (found s)
  | _, _ => false
  end.

(** The row of an id, as [by_id] has it: the last of that id. *)
Definition row_of (s : Scan) (i : text) : option FileRecord :=
  foldl (fun o r => if bool_decide (row_id r = i) then Some r else o) None (rows s).

Definition here (s : Scan) (l : Linked) (i : text) : bool :=
  match row_of s i with Some r => still_here s l r | None => false end.

(** Missed once and still settling, and not a move. *)
Definition settling (s : Scan) (l : Linked) (missing : gmap text Z) (inferred : list text) : Z :=
  Z.of_nat (length (List.filter
    (fun i => negb (bool_decide (i ∈ inferred)) &&
              match row_of s i with Some r => negb (still_here s l r) | None => false end)
    (map fst (map_to_list missing)))).

(** The rows a pass asks to remove, those it holds, and the rows of files not
    kept that it deletes on the spot. *)
Record Removals := { removed_rows : list text; held_rows : list text; dropped_rows : list text }.

Definition no_removals : Removals := {| removed_rows := []; held_rows := []; dropped_rows := [] |}.

(** The brake, when its window can be locked; nothing is removed without it. *)
Definition brake_if (locked : bool) (inferred : list text) (moved : text -> bool) (holding : bool)
    (pending linked : Z) (recent : list Z) (now : Z) : Braked * list Z :=
  if locked then brake inferred moved holding pending linked recent now
  else ({| release := []; hold := [] |}, recent).

(** The removals and holds of a pass over a whole folder, and what it
    remembers. *)
Definition take_out (s : Scan) (m : Memory) : Removals * Memory :=
  let l := look_at_all s in
  let '(inferred, missed) :=
    infer_missing true false (importing s) (map (fun c => (row_id c.1, c.2)) (checks l)) (missing m) (now s) in
  let moved_held := map row_id (List.filter (still_here s l) (held_missing l)) in
  let ended_now := ended l ++ moved_held in
  let holding := existsb (fun i => negb (bool_decide (i ∈ ended_now))) (held s) in
  let '(braked, recent') :=
    brake_if (window_locked s) inferred (here s l) holding (settling s l missed inferred)
      (Z.of_nat (length (checks l))) (recent m) (now s) in
  let gone := moved_held ++ release braked in
  ({| removed_rows := gone; held_rows := hold braked; dropped_rows := dropped l |},
   {| missing := foldr delete missed gone; recent := recent' |}).

Definition forget (m : Memory) : Memory := {| missing := ∅; recent := recent m |}.

(** One pass, up to its removals: where it stops early, and what it forgets. *)
Definition folder_pass (s : Scan) (m : Memory) : Removals * Memory :=
  if negb (mirror_on s) then (no_removals, m)
  else if negb (there_before s) then (no_removals, forget m)
  else
    match walked s with
    | None => (no_removals, m)
    | Some true => (no_removals, forget m)
    | Some false => if negb (there_after s) then (no_removals, m) else take_out s m
    end.

(** One turn of the loop; the brake's window belongs to the engine and stays. *)
Definition watch_loop (s : Scan) (m : Memory) : Removals * Memory :=
  if negb (enabled s) then (no_removals, forget m) else folder_pass s m.

(** ** The layout of the rows *)

(** [keysync::entry_path]. *)
Definition entry_path (r : FileRecord) : text := match row_path r with [] => row_name r | p => p end.

Definition layout_entry (r : FileRecord) : LayoutEntry :=
  {| id := row_id r; path := entry_path r; prev := row_prev r; added := row_added r; from := origin r;
     plain := parse_sha256 (entry_plain r) |}.

Definition layout_of `{U : Unicode} (rs : list FileRecord) : option Layout :=
  layout (map layout_entry (List.filter (fun r => negb (bool_decide (row_local r = NOT_KEPT))) rs)).

Example watch_examples :
  ignored (lit ".hidden") = true /\ ignored (lit "a.PART") = true /\ ignored (lit "a.txt") = false /\
  ignored (lit "~$a.doc") = true /\ ignored (lit "Thumbs.db") = true /\
  brake [lit "a"; lit "b"] (fun i => bool_decide (i = lit "a")) false 0 100 [] 5 =
    ({| release := [lit "a"; lit "b"]; hold := [] |}, [5]) /\
  (brake (replicate 10 (lit "a")) (fun _ => false) false 0 20 [] 5).1 =
    {| release := []; hold := replicate 10 (lit "a") |} /\
  (brake (replicate 10 (lit "a")) (fun _ => false) false 0 21 [] 5).1 =
    {| release := replicate 10 (lit "a"); hold := [] |}.
Proof. vm_compute. repeat split. Qed.
