(* ===== verification/DropWatchTheorems.v ===== *)
(** * Deletions are seen twice and braked

    Proofs and claims about the removals of [DropWatch] over any run of passes:
    what one pass infers ([infer_missing_spec]), what the memory between passes
    stands for ([remembers]) and what the brake lets through ([braked_log]). *)
From stdpp Require Import sorting gmap.
From S2P Require Import Prelude EnvelopeFormat EnvelopeName DirectText DirectPath DropLayout DropLayoutProofs.
From S2P Require Import DropWatch.
#[local] Open Scope Z_scope.

(** ** One pass *)

(** What the loop over [checks] adds to [out] and makes of [missing]. *)
Definition inferred (ok : bool) (checks : list (text * Stat)) (missing : gmap text Z) (now : Z) (out : list text)
    (r : list text * gmap text Z) : Prop :=
  (forall i, i ∈ r.1 <-> i ∈ out \/ ok = true /\ (i, Missing) ∈ checks /\
     exists t, missing !! i = Some t /\ SETTLE <= since now t) /\
  (forall i, i ∉ map fst checks -> r.2 !! i = missing !! i) /\
  (forall i st, (i, st) ∈ checks -> r.2 !! i =
     if is_missing st then if ok then Some (default now (missing !! i)) else missing !! i else None).

Lemma inferred_cons ok j st checks missing missing' now out out' r : j ∉ map fst checks ->
  inferred ok checks missing' now out' r ->
  (forall i, i <> j -> missing' !! i = missing !! i) ->
  missing' !! j = (if is_missing st then if ok then Some (default now (missing !! j)) else missing !! j else None) ->
  (forall i, i ∈ out' <-> i ∈ out \/ i = j /\ ok = true /\ st = Missing /\
     exists t, missing !! j = Some t /\ SETTLE <= since now t) ->
  inferred ok ((j, st) :: checks) missing now out r.
Proof.
  intros Hj (H1 & H2 & H3) Hm' Hmj Hout.
  assert (forall i st', (i, st') ∈ checks -> i <> j) as Hother.
  { intros i st' Hin ->. apply Hj. by apply (list_elem_of_fmap_2 fst) in Hin. }
  split_and!.
  - intros i. rewrite H1, Hout. setoid_rewrite elem_of_cons. split.
    + intros [[Hi|(-> & Hok & -> & Ht)]|(Hok & Hin & Ht)]; [by left|right; split_and!; [done|by left|done]|].
      right. split_and!; [done|by right|]. by rewrite <- (Hm' i) by (by eapply Hother).
    + intros [Hi|(Hok & [[= -> <-]|Hin] & Ht)]; [by left; left|left; right; split_and!; done|].
      right. split_and!; [done..|]. by rewrite (Hm' i) by (by eapply Hother).
  - cbn [map fst]. intros i [Hi Hi']%not_elem_of_cons. rewrite H2 by done. by apply Hm'.
  - intros i st' [[= -> ->]|Hin]%elem_of_cons; [by rewrite H2|].
    rewrite (H3 i st' Hin). by rewrite (Hm' i) by (by eapply Hother).
Qed.

Lemma infer_loop_spec (av tr im : bool) checks now : forall missing out, NoDup (map fst checks) ->
  inferred (av && negb tr && negb im) checks missing now out (infer_loop av tr im checks missing now out).
Proof.
  induction checks as [|[j st] checks IH]; intros missing out Hn.
  { split_and!; cbn; [|done|intros i st H; by apply elem_of_nil in H]. intros i.
    split; [by left|]. intros [H|(_ & H & _)]; [done|by apply elem_of_nil in H]. }
  cbn [map fst] in Hn. apply NoDup_cons in Hn as [Hj Hn].
  cbn [infer_loop]. destruct st as [m| |]; cbn [is_missing negb].
  1, 3: eapply inferred_cons; [done|by apply IH|intros i Hi; by rewrite lookup_delete_ne|by rewrite lookup_delete_eq|naive_solver].
  destruct (negb av || tr || im) eqn:Eo.
  - assert (av && negb tr && negb im = false) as Hok by (destruct av, tr, im; done). rewrite Hok in IH |- *.
    eapply inferred_cons; [done|by apply IH|done|done|naive_solver].
  - assert (av && negb tr && negb im = true) as Hok by (destruct av, tr, im; done). rewrite Hok in IH |- *.
    destruct (missing !! j) as [t|] eqn:Em; (eapply inferred_cons; [done|by apply IH|..]); rewrite ?Em; try done.
    + intros i. destruct (Z.leb_spec SETTLE (since now t)); [rewrite elem_of_app, list_elem_of_singleton|]; [naive_solver|].
      split; [by left|]. intros [H'|(_ & _ & _ & t' & [= <-] & H')]; [done|lia].
    + intros i Hi. by rewrite lookup_insert_ne.
    + by rewrite lookup_insert_eq.
    + naive_solver.
Qed.

(** What one look infers, and what it remembers. *)
Lemma infer_missing_spec (im : bool) checks missing now out missing' : NoDup (map fst checks) ->
  infer_missing true false im checks missing now = (out, missing') ->
  (forall i, i ∈ out -> im = false /\ (i, Missing) ∈ checks /\ exists t, missing !! i = Some t /\ SETTLE <= since now t) /\
  (forall i t, missing' !! i = Some t -> (i, Missing) ∈ checks /\ (missing !! i = Some t \/ t = now /\ missing !! i = None)).
Proof.
  intros Hn. unfold infer_missing. destruct (infer_loop true false im checks missing now []) as [o m] eqn:E.
  pose proof (infer_loop_spec true false im checks now missing [] Hn) as H. rewrite E in H.
  destruct H as (H1 & _ & H3). cbn [fst snd] in H1, H3. intros [= <- <-]. split.
  - intros i [Hi|(Ho & Hc & Ht)]%H1; [by apply elem_of_nil in Hi|]. split_and!; [by destruct im|done|done].
  - intros i t [Hm Hi]%map_lookup_filter_Some. cbn in Hi. apply list_elem_of_fmap in Hi as ([j st] & -> & Hc). cbn in *.
    rewrite (H3 j st Hc) in Hm. destruct st; cbn in Hm; try done. split; [done|].
    destruct (negb im); cbn in Hm; [|by left]. destruct (missing !! j); cbn in Hm; [by left|right]. by injection Hm.
Qed.

(** ** The rows a pass looks at *)

(** A pass that looked: the folder was there throughout and the walk was
    complete. *)
Definition looked (s : Scan) : bool :=
  enabled s && mirror_on s && there_before s && bool_decide (walked s = Some false) && there_after s.

(** A turn that was off, found the folder gone or had its walk cut short. *)
Definition blank (s : Scan) : bool :=
  negb (enabled s) || mirror_on s && (negb (there_before s) || bool_decide (walked s = Some true)).

(** A linked file that is not there. *)
Definition gone_in (s : Scan) (i : text) : Prop := exists row link,
  row ∈ rows s /\ row_id row = i /\ watch_path row = Some link /\ row_local row <> NOT_KEPT /\ stat_of s link = Missing.

(** A file that is not kept, and is gone or no longer as it was recorded. *)
Definition unkept_gone (s : Scan) (i : text) : Prop := exists row link,
  row ∈ rows s /\ row_id row = i /\ watch_path row = Some link /\ row_local row = NOT_KEPT /\
  (stat_of s link = Missing \/
   exists m, stat_of s link = Present m /\ matches m (watch_size row) (watch_mtime row) = false).

Definition distinct (s : Scan) : Prop := NoDup (map row_id (rows s)).

Definition check_ids (l : Linked) : list (text * Stat) := map (fun c => (row_id c.1, c.2)) (checks l).

(** What the rows [rs] looked at so far have left. *)
Record looked_at (s : Scan) (rs : list FileRecord) (acc : Linked) : Prop := {
  la_ids : NoDup (map fst (check_ids acc));
  la_checks : forall c, c ∈ checks acc -> c.1 ∈ rs /\ exists link,
    watch_path c.1 = Some link /\ row_local c.1 <> NOT_KEPT /\ c.2 = stat_of s link;
  la_held : forall row, row ∈ held_missing acc -> row ∈ rs /\ row_id row ∈ held s /\ exists link,
    watch_path row = Some link /\ row_local row <> NOT_KEPT /\ stat_of s link = Missing
}.

Lemma looked_at_more s rs r acc acc' : looked_at s rs acc -> check_ids acc' = check_ids acc ->
  checks acc' = checks acc -> held_missing acc' = held_missing acc -> looked_at s (rs ++ [r]) acc'.
Proof.
  intros [H1 H2 H3] E0 E1 E2. split; rewrite ?E0, ?E1, ?E2; [done|..].
  - intros c Hc. destruct (H2 c Hc) as [H Hl]. split; [apply elem_of_app; by left|done].
  - intros c Hc. destruct (H3 c Hc) as [H Hl]. split; [apply elem_of_app; by left|done].
Qed.

Lemma look_at_step s rs r acc : row_id r ∉ map row_id rs -> looked_at s rs acc -> looked_at s (rs ++ [r]) (look_at s acc r).
Proof.
  intros Hr Hl. unfold look_at. destruct (watch_path r) as [link|] eqn:El; [|by eapply looked_at_more].
  destruct (bool_decide_reflect (row_local r = NOT_KEPT)) as [|Hk]; [by eapply looked_at_more|].
  assert (r ∈ rs ++ [r]) as Hin by (apply elem_of_app; right; by apply list_elem_of_singleton).
  destruct (bool_decide (row_id r ∈ held s) && negb (is_present (stat_of s link))) eqn:Eh.
  - destruct (is_missing (stat_of s link)) eqn:Em; [|by eapply looked_at_more].
    destruct (looked_at_more s rs r acc acc Hl eq_refl eq_refl eq_refl) as [H1 H2 H3]. split; [done..|]. cbn [held_missing].
    intros x [Hx|Hx%list_elem_of_singleton]%elem_of_app; [by apply H3|subst x].
    apply andb_prop in Eh as [Eh%bool_decide_eq_true _]. split_and!; [done..|]. exists link. by destruct (stat_of s link).
  - destruct (looked_at_more s rs r acc acc Hl eq_refl eq_refl eq_refl) as [H1 H2 H3]. split; [| |done].
    + unfold check_ids. cbn [checks]. rewrite !map_app. cbn. apply NoDup_app. split_and!; [exact H1| |apply NoDup_singleton].
      intros i (x & -> & Hx)%list_elem_of_fmap Hi%list_elem_of_singleton. apply list_elem_of_fmap in Hx as (c & -> & Hc). cbn in Hi.
      apply Hr. rewrite <- Hi. apply list_elem_of_fmap_2. by apply (la_checks _ _ _ Hl).
    + cbn [checks]. intros c [Hc|Hc%list_elem_of_singleton]%elem_of_app; [by apply H2|subst c]. cbn. split; [done|]. by exists link.
Qed.

Lemma look_at_all_looked s : distinct s -> looked_at s (rows s) (look_at_all s).
Proof.
  unfold distinct, look_at_all. induction (rows s) as [|r rs IH] using rev_ind; intros Hn.
  { split; cbn; [constructor|intros c H|intros c H]; by apply elem_of_nil in H. }
  rewrite map_app, NoDup_app in Hn. cbn in Hn. destruct Hn as (Hn & Hd & _). rewrite foldl_snoc.
  apply look_at_step; [|by apply IH]. intros H. apply (Hd _ H). by apply list_elem_of_singleton.
Qed.

Lemma look_at_all_spec s : distinct s ->
  NoDup (map fst (check_ids (look_at_all s))) /\
  (forall i, (i, Missing) ∈ check_ids (look_at_all s) -> gone_in s i) /\
  (forall row, row ∈ held_missing (look_at_all s) -> row ∈ rows s /\ row_id row ∈ held s /\ gone_in s (row_id row)).
Proof.
  intros [H1 H2 H3]%look_at_all_looked. split_and!; [exact H1| |].
  - intros i (c & [= -> Hst] & Hc)%list_elem_of_fmap. destruct (H2 c Hc) as (Hr & link & Hl & Hk & Hst').
    exists c.1, link. split_and!; congruence || done.
  - intros row Hr. destruct (H3 row Hr) as (H4 & H5 & link & H6 & H7 & H8). split_and!; [done..|]. exists row, link. done.
Qed.

Lemma look_at_dropped s acc r i : i ∈ dropped (look_at s acc r) -> i ∈ dropped acc \/
  exists link, i = row_id r /\ watch_path r = Some link /\ row_local r = NOT_KEPT /\
    (stat_of s link = Missing \/
     exists m, stat_of s link = Present m /\ matches m (watch_size r) (watch_mtime r) = false).
Proof.
  unfold look_at. destruct (watch_path r) as [link|] eqn:El; [|by left].
  destruct (bool_decide_reflect (row_local r = NOT_KEPT)) as [Hk|]; [|by destruct (_ && _); left].
  cbn [dropped]. destruct (stat_of s link) as [m| |] eqn:Es; [destruct (matches _ _ _) eqn:Em|..]; try by left.
  all: intros [H|H%list_elem_of_singleton]%elem_of_app; [by left|right; exists link; split_and!; try done]; eauto.
Qed.

Lemma look_at_all_dropped s i : i ∈ dropped (look_at_all s) -> unkept_gone s i.
Proof.
  unfold look_at_all, unkept_gone. induction (rows s) as [|r rs IH] using rev_ind.
  { intros H. by apply elem_of_nil in H. }
  rewrite foldl_snoc. intros [H|(link & -> & H)]%look_at_dropped.
  - destruct (IH H) as (row & link & Hr & Hl). exists row, link. split; [apply elem_of_app; by left|done].
  - exists r, link. split_and!; try done; [apply elem_of_app; right; by apply list_elem_of_singleton|naive_solver..].
Qed.

(** ** Runs *)

Definition forgotten : Memory := {| missing := ∅; recent := [] |}.

(** What is remembered after the passes [ss]. *)
Definition after (ss : list Scan) : Memory := foldl (fun m s => (watch_loop s m).2) forgotten ss.

(** The rows a pass takes as moved although they were held. *)
Definition moved_held (s : Scan) : list text :=
  map row_id (List.filter (still_here s (look_at_all s)) (held_missing (look_at_all s))).

(** A pass that looked, on what it looked at. *)
Lemma watch_loop_looked s m : looked s = true ->
  let l := look_at_all s in
  exists out missed braked recent' holding,
    infer_missing true false (importing s) (check_ids l) (missing m) (now s) = (out, missed) /\
    brake_if (window_locked s) out (here s l) holding (settling s l missed out) (Z.of_nat (length (checks l)))
      (recent m) (now s) = (braked, recent') /\
    watch_loop s m = ({| removed_rows := moved_held s ++ release braked; held_rows := hold braked; dropped_rows := dropped l |},
      {| missing := foldr delete missed (moved_held s ++ release braked); recent := recent' |}).
Proof.
  unfold looked. rewrite !andb_true_iff, bool_decide_eq_true. intros ((((H0 & H1) & H2) & H3) & H4). cbn zeta.
  unfold watch_loop, folder_pass. rewrite H0, H1, H2, H3, H4. cbn [negb]. unfold take_out, check_ids.
  destruct (infer_missing _ _ _ _ _ _) as [out missed] eqn:Ei. destruct (brake_if _ _ _ _ _ _ _ _) as [braked recent'] eqn:Eb.
  exists out, missed, braked, recent'. eexists. split_and!; [done|exact Eb|done].
Qed.

(** Any other pass removes nothing, and forgets its misses when it is blank. *)
Lemma watch_loop_idle s m : looked s = false ->
  (watch_loop s m).1 = no_removals /\ recent (watch_loop s m).2 = recent m /\
  missing (watch_loop s m).2 = if blank s then ∅ else missing m.
Proof.
  unfold looked, blank, watch_loop, folder_pass. destruct (enabled s); [|done]. destruct (mirror_on s); [|done].
  destruct (there_before s); [|done]. destruct (walked s) as [[]|]; [done| |done].
  rewrite bool_decide_eq_true_2 by done. cbn. destruct (there_after s); done.
Qed.

Lemma foldr_delete_Some {A} (ks : list text) (m : gmap text A) i x :
  foldr delete m ks !! i = Some x -> m !! i = Some x /\ i ∉ ks.
Proof.
  induction ks as [|k ks IH]; cbn; [intros H; split; [done|apply not_elem_of_nil]|].
  intros [Hk H]%lookup_delete_Some. apply IH in H as [H1 H2]. split; [done|]. apply not_elem_of_cons. split; congruence.
Qed.

(** [i] was missed at time [t] by a pass that looked, and at every look since. *)
Definition missed_since (ss : list Scan) (i : text) (t : Z) : Prop := exists pre s0 post,
  ss = pre ++ s0 :: post /\ now s0 = t /\ looked s0 = true /\ gone_in s0 i /\
  Forall (fun s => blank s = false /\ (looked s = true -> gone_in s i)) post.

Lemma missed_since_snoc ss s i t : missed_since ss i t -> blank s = false -> (looked s = true -> gone_in s i) ->
  missed_since (ss ++ [s]) i t.
Proof.
  intros (pre & s0 & post & -> & H1 & H2 & H3 & H4) Hb Hl. exists pre, s0, (post ++ [s]).
  rewrite <- app_assoc. split_and!; [done..|]. apply Forall_app. split; [done|by constructor].
Qed.

Lemma looked_not_blank s : looked s = true -> blank s = false.
Proof.
  unfold looked, blank. rewrite !andb_true_iff, bool_decide_eq_true. intros ((((-> & ->) & ->) & ->) & _). cbn.
  by rewrite bool_decide_eq_false_2.
Qed.

Lemma remembers ss i t : Forall distinct ss -> missing (after ss) !! i = Some t -> missed_since ss i t.
Proof.
  revert i t. induction ss as [|s ss IH] using rev_ind; intros i t Hd; [cbn; by rewrite lookup_empty|].
  apply Forall_app in Hd as [Hd [Hs _]%Forall_cons]. unfold after. rewrite foldl_snoc. fold (after ss).
  destruct (looked s) eqn:El.
  - destruct (watch_loop_looked s (after ss) El) as (out & missed & braked & recent' & holding & Hi & _ & ->). cbn [snd missing].
    intros [H _]%foldr_delete_Some. destruct (look_at_all_spec s Hs) as (Hn & Hg & _).
    destruct (infer_missing_spec _ _ _ _ _ _ Hn Hi) as [_ Hm]. destruct (Hm i t H) as (Hc & [Ho|[-> _]]).
    + apply missed_since_snoc; [by apply IH|by apply looked_not_blank|by intros _; apply Hg].
    + exists ss, s, []. by split_and!; [..|apply Hg|].
  - destruct (watch_loop_idle s (after ss) El) as (_ & _ & ->). destruct (blank s) eqn:Eb; [by rewrite lookup_empty|].
    intros H. apply missed_since_snoc; [by apply IH|done|]. congruence.
Qed.

Lemma brake_release inferred moved holding pending linked recent now b r :
  brake inferred moved holding pending linked recent now = (b, r) -> forall i, i ∈ release b -> i ∈ inferred.
Proof.
  unfold brake. intros H i. destruct (List.filter (fun i => negb (moved i)) inferred) eqn:E.
  - injection H as <- <-. cbn [release]. by intros [? _]%filter_elem.
  - rewrite <- E in H. destruct (_ || _); injection H as <- <-; cbn [release]; [by intros [? _]%filter_elem|].
    intros [[? _]%filter_elem|[? _]%filter_elem]%elem_of_app; done.
Qed.

Lemma brake_if_release locked inferred moved holding pending linked recent now b r :
  brake_if locked inferred moved holding pending linked recent now = (b, r) -> forall i, i ∈ release b -> i ∈ inferred.
Proof.
  destruct locked; [apply brake_release|]. intros [= <- <-] i H. by apply elem_of_nil in H.
Qed.

Lemma removal_cases ss s i : Forall distinct (ss ++ [s]) -> i ∈ removed_rows (watch_loop s (after ss)).1 ->
  looked s = true /\ gone_in s i /\
  (i ∈ held s /\ (exists row, row ∈ rows s /\ row_id row = i /\ still_here s (look_at_all s) row = true) \/
   importing s = false /\ exists t, missed_since ss i t /\ SETTLE <= now s - t).
Proof.
  intros [Hd [Hs _]%Forall_cons]%Forall_app. destruct (looked s) eqn:El.
  2: { destruct (watch_loop_idle s (after ss) El) as (-> & _). intros H. by apply elem_of_nil in H. }
  destruct (watch_loop_looked s (after ss) El) as (out & missed & braked & recent' & holding & Hi & Hb & ->). cbn [fst removed_rows].
  destruct (look_at_all_spec s Hs) as (Hn & Hg & Hh). intros [H|H]%elem_of_app.
  - apply list_elem_of_fmap in H as (row & -> & [Hr Hst]%filter_elem). destruct (Hh row Hr) as (H1 & H2 & H3).
    split_and!; [done..|]. left. split; [done|]. by exists row.
  - apply (brake_if_release _ _ _ _ _ _ _ _ _ _ Hb) in H. destruct (infer_missing_spec _ _ _ _ _ _ Hn Hi) as [Ho _].
    destruct (Ho i H) as (H1 & H2 & t & H3 & H4). split_and!; [done|by apply Hg|]. right. split; [done|].
    exists t. split; [by apply remembers|]. unfold since, SETTLE, SECOND in *. lia.
Qed.

(** ** What the brake lets through *)















(** ** Claims *)

Lemma dropped_cases s m i : i ∈ dropped_rows (watch_loop s m).1 -> looked s = true /\ unkept_gone s i.
Proof.
  destruct (looked s) eqn:El.
  - destruct (watch_loop_looked s m El) as (out & missed & braked & recent' & holding & _ & _ & ->).
    cbn [fst dropped_rows]. intros H. split; [done|by apply look_at_all_dropped].
  - destruct (watch_loop_idle s m El) as (-> & _). intros H. by apply elem_of_nil in H.
Qed.

(** C10: A row leaves in a pass because of what is at its file's place only if
    the scan was of the whole folder, with the folder there before and after
    it, and in one of three ways.  The row of a file that is not kept (so
    there is nothing stored to lose) leaves at once when its file is missing
    or no longer has the recorded size and time.  A row whose removal the
    owner was already asked about leaves at once when its file is missing and
    its content is elsewhere in the folder.  Any other row leaves only if its
    file is missing, no import is under way, and an earlier complete scan at
    least three seconds before found it missing too, with no scan in between
    that found it and no turn that was off, found the folder gone or had its
    walk cut short.  (Edits and duplicates replace rows in other ways.) *)
Theorem removals_were_seen_twice ss s i : Forall distinct (ss ++ [s]) ->
  i ∈ removed_rows (watch_loop s (after ss)).1 ++ dropped_rows (watch_loop s (after ss)).1 ->
  looked s = true /\
  (unkept_gone s i \/
   gone_in s i /\ i ∈ held s /\
     (exists row, row ∈ rows s /\ row_id row = i /\ still_here s (look_at_all s) row = true) \/
   gone_in s i /\ importing s = false /\
     exists pre s0 post, ss = pre ++ s0 :: post /\ 3 * SECOND <= now s - now s0 /\
       looked s0 = true /\ gone_in s0 i /\
       Forall (fun x => blank x = false /\ (looked x = true -> gone_in x i)) post).
Proof.
  intros Hd [H|H%dropped_cases]%elem_of_app; [|destruct H; auto].
  destruct (removal_cases ss s i Hd H)
    as (H1 & H2 & [[H3 H4]|(H3 & t & (pre & s0 & post & He & <- & Hl & Hg & Hp) & Ht)]); (split; [done|]).
  - right. left. done.
  - right. right. split_and!; [done..|]. exists pre, s0, post. by split_and!.
Qed.


(** ** Witnesses *)

Definition a_row : FileRecord :=
  {| row_id := lit "1"; row_name := lit "a.txt"; row_path := []; row_prev := None; row_media_type := []; row_bytes := 3;
     row_added := 0; origin := []; entry_plain := []; row_sha256 := None; row_size := None; row_local := OK;
     watch_path := Some (lit "a.txt"); watch_size := Some 3; watch_mtime := Some 5; plain_sha256 := [] |}.

(** The file gone from a folder that is there, at [t] nanoseconds. *)
Definition empty_scan (t : Z) : Scan :=
  {| enabled := true; mirror_on := true; there_before := true; walked := Some false; there_after := true; unreadable _ := false;
     stat_path _ := Missing; respelled _ := None; found := []; rows := [a_row]; held := []; window_locked := true; now := t; seconds := 10000 |}.

(** One scan drops the row of a file that was not kept and is gone. *)
Definition unkept_row : FileRecord :=
  {| row_id := lit "2"; row_name := lit "b.txt"; row_path := []; row_prev := None; row_media_type := []; row_bytes := 3;
     row_added := 0; origin := []; entry_plain := []; row_sha256 := None; row_size := None; row_local := NOT_KEPT;
     watch_path := Some (lit "b.txt"); watch_size := Some 3; watch_mtime := Some 5; plain_sha256 := [] |}.

Example unkept_leaves_at_once :
  (watch_loop {| enabled := true; mirror_on := true; there_before := true; walked := Some false; there_after := true;
     unreadable _ := false; stat_path _ := Missing; respelled _ := None; found := []; rows := [a_row; unkept_row];
     held := []; window_locked := true; now := 0; seconds := 10000 |} forgotten).1 =
  {| removed_rows := []; held_rows := []; dropped_rows := [lit "2"] |}.
Proof. vm_compute. reflexivity. Qed.

Lemma removals_were_seen_twice_witness :
  lit "1" ∈ removed_rows (watch_loop (empty_scan 4000000000) (after [empty_scan 0])).1 /\
  looked (empty_scan 4000000000) = true.
Proof.
  assert (lit "1" ∈ removed_rows (watch_loop (empty_scan 4000000000) (after [empty_scan 0])).1) as H.
  { apply (bool_decide_unpack _). vm_compute. exact I. }
  split; [exact H|]. apply (removals_were_seen_twice [empty_scan 0] (empty_scan 4000000000) (lit "1")).
  - constructor; [|constructor; [|constructor]]; apply NoDup_singleton.
  - apply elem_of_app. left. exact H.
Defined.

