(* ===== verification/DropWalk.v ===== *)
(** * One scan of the Wildbloom folder

    Models [walk] of [desktop/src-tauri/src/drop/watch.rs]: the bounded scan
    that lists the folder's regular files and says what it could not see.  A
    path is its components below the root.  What [read_dir] and
    [symlink_metadata] answer is the parameter [Reads]; [truthful] says that an
    answer that is not a failure is true of the tree on disk.  A scan visits at
    most [MAX_ENTRIES] entries and pushes a folder only for one of them, so the
    loop's fuel of one round more is enough ([walk_total]). *)
From stdpp Require Import gmap.
From S2P Require Import Prelude EnvelopeFormat EnvelopeName DirectText DirectPath DropWatch.
#[local] Open Scope Z_scope.

Definition MAX_DEPTH : Z := 16.
Definition MAX_ENTRIES : Z := 20000.

(** An item of a folder's listing: one that could not be read, a name that is
    not UTF-8, or a name. *)
Inductive Item := Broken | NotUtf8 | Named (name : text).

#[export] Instance Item_eq_dec : EqDecision Item.
Proof. solve_decision. Defined.

Record Reads := {
  read_dir : list text -> option (list Item);
  symlink_metadata : list text -> Lstat
}.

Record WalkReport := {
  walk_files : list (list text * Meta);
  too_deep : list (list text * Meta);
  walk_unreadable : list (list text);
  truncated : bool
}.

(** The scan's state; the head of [stack] is popped first. *)
Record Walk := { report : WalkReport; stack : list (list text * Z); visited : Z }.

Definition no_report : WalkReport :=
  {| walk_files := []; too_deep := []; walk_unreadable := []; truncated := false |}.

Definition with_unreadable (p : list text) (r : WalkReport) : WalkReport :=
  {| walk_files := walk_files r; too_deep := too_deep r; walk_unreadable := walk_unreadable r ++ [p];
     truncated := truncated r |}.

Definition with_file (deep : bool) (f : list text * Meta) (r : WalkReport) : WalkReport :=
  {| walk_files := if deep then walk_files r else walk_files r ++ [f];
     too_deep := if deep then too_deep r ++ [f] else too_deep r;
     walk_unreadable := walk_unreadable r; truncated := truncated r |}.

Definition cut_short (r : WalkReport) : WalkReport :=
  {| walk_files := walk_files r; too_deep := too_deep r; walk_unreadable := walk_unreadable r; truncated := true |}.

Lemma prefix_of_snoc {A} (q d : list A) x : q `prefix_of` d ++ [x] -> q `prefix_of` d \/ q = d ++ [x].
Proof.
  intros [k Hk]. destruct k as [|y k _] using rev_ind; [right; by rewrite app_nil_r in Hk|].
  rewrite app_assoc in Hk. apply app_inj_tail in Hk as [-> _]. left. by exists k.
Qed.

Section Walk.
Context (fs : Reads).

(** An entry of a folder [depth] levels down, after its name was accepted. *)
Definition visit (path : list text) (depth : Z) (w : Walk) : Walk :=
  match symlink_metadata fs path with
  | LError | LNotFound => {| report := with_unreadable path (report w); stack := stack w; visited := visited w |}
  | LDir =>
      if depth <? MAX_DEPTH + 1
      then {| report := report w; stack := (path, depth + 1) :: stack w; visited := visited w |} else w
  | LFile m => {| report := with_file (MAX_DEPTH <? depth) (path, m) (report w); stack := stack w; visited := visited w |}
  | LLink | LOther => w
  end.

(** The loop over a folder's entries; [true] when the scan returns at once. *)
Fixpoint walk_entries (dir : list text) (depth : Z) (items : list Item) (w : Walk) : Walk * bool :=
  match items with
  | [] => (w, false)
  | Broken :: _ => ({| report := with_unreadable dir (report w); stack := stack w; visited := visited w |}, false)
  | item :: items =>
      let n := visited w + 1 in
      if MAX_ENTRIES <? n then ({| report := cut_short (report w); stack := stack w; visited := n |}, true)
      else
        let w := {| report := report w; stack := stack w; visited := n |} in
        match item with
        | Named name =>
            if ignored name then walk_entries dir depth items w
            else walk_entries dir depth items (visit (dir ++ [name]) depth w)
        | _ => walk_entries dir depth items w
        end
  end.

(** The loop over the stack. *)
Fixpoint walk_loop (fuel : nat) (w : Walk) : option WalkReport :=
  match fuel, stack w with
  | _, [] => Some (report w)
  | O, _ => None
  | S fuel, (dir, depth) :: rest =>
      match read_dir fs dir with
      | None => walk_loop fuel {| report := with_unreadable dir (report w); stack := rest; visited := visited w |}
      | Some items =>
          let '(w, stop) := walk_entries dir depth items {| report := report w; stack := rest; visited := visited w |} in
          if stop then Some (report w) else walk_loop fuel w
      end
  end.

Definition walk : option WalkReport :=
  walk_loop (Z.to_nat (MAX_ENTRIES + 1)) {| report := no_report; stack := [([], 0)]; visited := 0 |}.

(** ** It ends *)

Lemma visit_shape path depth w : visited (visit path depth w) = visited w /\
  (length (stack (visit path depth w)) <= S (length (stack w)))%nat.
Proof. unfold visit. destruct (symlink_metadata fs path); try destruct (_ <? _); cbn; lia. Qed.

Definition measure (w : Walk) : Z := Z.of_nat (length (stack w)) + (MAX_ENTRIES - visited w).

Lemma walk_entries_measure dir depth items : forall w w',
  walk_entries dir depth items w = (w', false) -> visited w <= MAX_ENTRIES ->
  visited w' <= MAX_ENTRIES /\ measure w' <= measure w.
Proof.
  induction items as [|item items IH]; intros w w' H Hv; [injection H as <-; lia|].
  cbn [walk_entries] in H. destruct item as [| |name]; [injection H as <-; unfold measure; cbn; lia|..];
    destruct (Z.ltb_spec MAX_ENTRIES (visited w + 1)) as [|Hn]; try done.
  - apply IH in H as [H1 H2]; [|cbn; lia]. split; [done|]. unfold measure in *. cbn in *. lia.
  - set (w1 := {| report := report w; stack := stack w; visited := visited w + 1 |}) in *.
    destruct (visit_shape (dir ++ [name]) depth w1) as [E1 E2]. cbn [visited stack w1] in E1, E2.
    destruct (ignored name); (apply IH in H as [H1 H2]; [|rewrite ?E1; cbn; lia]); (split; [done|]);
      unfold measure in *; rewrite ?E1 in H2; cbn [visited stack w1] in *; lia.
Qed.

Lemma walk_loop_total fuel : forall w, visited w <= MAX_ENTRIES -> measure w <= Z.of_nat fuel -> is_Some (walk_loop fuel w).
Proof.
  induction fuel as [|fuel IH]; intros w Hv Hm; cbn [walk_loop].
  { destruct (stack w) eqn:E; [done|]. unfold measure in Hm. rewrite E in Hm. cbn in Hm. lia. }
  destruct (stack w) as [|[dir depth] rest] eqn:E; [done|]. unfold measure in Hm. rewrite E in Hm. cbn [length] in Hm.
  destruct (read_dir fs dir) as [items|]; [|apply IH; unfold measure; cbn; lia].
  destruct (walk_entries _ _ _ _) as [w' []] eqn:Ew; [done|].
  apply walk_entries_measure in Ew as [H1 H2]; [|done]. apply IH; [done|]. unfold measure in *. cbn in *. lia.
Qed.

Lemma walk_total : is_Some walk.
Proof. apply walk_loop_total; cbn; unfold measure, MAX_ENTRIES; cbn; lia. Qed.

(** ** What it sees *)

(** What is really at a path below the root. *)
Inductive Node := NFile (m : Meta) | NDir | NLink | NOther.

Definition answer (n : Node) : Lstat :=
  match n with NFile m => LFile m | NDir => LDir | NLink => LLink | NOther => LOther end.

Context (tree : list text -> option Node).

(** Looking at something that is there fails or says what it is; a listing
    names only what is there, and all of it unless an item was broken. *)
Record truthful : Prop := {
  tr_stat : forall p n, tree p = Some n -> symlink_metadata fs p = answer n \/ symlink_metadata fs p = LError;
  tr_listed : forall d items n, read_dir fs d = Some items -> Named n ∈ items -> is_Some (tree (d ++ [n]));
  tr_all : forall d items n, read_dir fs d = Some items -> Broken ∉ items -> is_Some (tree (d ++ [n])) -> Named n ∈ items
}.

(** A folder below the root, none of its names skipped. *)
Definition folder_at (d : list text) : Prop :=
  Forall (fun c => ignored c = false) d /\ forall q, q `prefix_of` d -> q <> [] -> tree q = Some NDir.

(** A regular file in such a folder. *)
Definition regular_at (p : list text) (m : Meta) : Prop := exists d n,
  p = d ++ [n] /\ folder_at d /\ ignored n = false /\ tree p = Some (NFile m).

Lemma folder_child d n : folder_at d -> ignored n = false -> tree (d ++ [n]) = Some NDir -> folder_at (d ++ [n]).
Proof.
  intros [H1 H2] Hn Ht. split; [by apply Forall_app; split; [|constructor]|]. intros q Hq Hne.
  apply prefix_of_snoc in Hq as [Hq| ->]; [by apply H2|done].
Qed.

(** The next component on the way to a file. *)
Lemma regular_next d p m : regular_at p m -> d `prefix_of` p -> (length d < length p)%nat -> exists n rest,
  p = d ++ n :: rest /\ ignored n = false /\
  tree (d ++ [n]) = Some (match rest with [] => NFile m | _ => NDir end).
Proof.
  intros (d' & n' & -> & [H1 H2] & Hn & Ht) [k Hk] Hl. destruct k as [|n rest].
  { rewrite app_nil_r in Hk. subst. lia. }
  exists n, rest. split; [done|].
  assert (Forall (fun c => ignored c = false) (d' ++ [n'])) as Hall by (apply Forall_app; split; [done|by constructor]).
  rewrite Hk in Hall. apply Forall_app in Hall as [_ [Hi _]%Forall_cons]. split; [done|].
  destruct rest as [|c rest]; [by rewrite <- Hk|]. apply H2; [|by destruct d].
  assert (d ++ [n] `prefix_of` d' ++ [n']) as Hp by (rewrite Hk; exists (c :: rest); by rewrite <- app_assoc).
  apply prefix_of_snoc in Hp as [Hp|Hp]; [done|]. rewrite <- Hp in Hk.
  apply (f_equal length) in Hk. rewrite !length_app in Hk. cbn in Hk. lia.
Qed.

(** The list a file at this depth goes to. *)
Definition reported (r : WalkReport) (p : list text) (m : Meta) : Prop :=
  if Z.of_nat (length p) <=? MAX_DEPTH + 1 then (p, m) ∈ walk_files r else (p, m) ∈ too_deep r.

Definition accounted_for (r : WalkReport) (p : list text) (m : Meta) : Prop :=
  (exists q, q ∈ walk_unreadable r /\ q `prefix_of` p) \/ reported r p m.

(** What is reported is there, and the stack holds folders that are. *)
Record sound (w : Walk) : Prop := {
  so_files : forall p m, (p, m) ∈ walk_files (report w) -> regular_at p m /\ Z.of_nat (length p) <= MAX_DEPTH + 1;
  so_deep : forall p m, (p, m) ∈ too_deep (report w) -> regular_at p m /\ Z.of_nat (length p) = MAX_DEPTH + 2;
  so_stack : forall d k, (d, k) ∈ stack w -> folder_at d /\ k = Z.of_nat (length d) /\ k <= MAX_DEPTH + 1
}.

(** [w'] has all that [w] has. *)
Record grows (w w' : Walk) : Prop := {
  gr_files : walk_files (report w) ⊆ walk_files (report w');
  gr_deep : too_deep (report w) ⊆ too_deep (report w');
  gr_unreadable : walk_unreadable (report w) ⊆ walk_unreadable (report w');
  gr_stack : stack w ⊆ stack w';
  gr_truncated : truncated (report w') = truncated (report w)
}.

#[local] Instance grows_preorder : PreOrder grows.
Proof.
  split; [by intros w; split|]. intros a b c [] []. split; [set_solver..|congruence].
Qed.

Lemma accounted_grows w w' p m : grows w w' -> accounted_for (report w) p m -> accounted_for (report w') p m.
Proof.
  intros [H1 H2 H3 _ _] [(q & Hq & Hp)|H]; [left; exists q; set_solver|right].
  unfold reported in *. destruct (_ <=? _); set_solver.
Qed.

(** Reported, or below a folder still to be looked at. *)
Definition covered (w : Walk) (p : list text) (m : Meta) : Prop :=
  accounted_for (report w) p m \/
  exists d k, (d, k) ∈ stack w /\ d `prefix_of` p /\ (length d < length p)%nat.

Lemma covered_grows w w' p m : grows w w' -> covered w p m -> covered w' p m.
Proof.
  intros G [H|(d & k & H & Hd)]; [left; by eapply accounted_grows|right]. exists d, k. split; [by apply (gr_stack _ _ G)|done].
Qed.

Lemma visit_grows path depth w : grows w (visit path depth w).
Proof.
  unfold visit. destruct (symlink_metadata fs path); try destruct (_ <? _); split; cbn; set_solver.
Qed.

Context (Tr : truthful).

Lemma visit_sound d n k w : sound w -> folder_at d -> k = Z.of_nat (length d) -> k <= MAX_DEPTH + 1 ->
  ignored n = false -> is_Some (tree (d ++ [n])) -> sound (visit (d ++ [n]) k w).
Proof.
  intros [S1 S2 S3] Hd Hk Hle Hn [nd Ht].
  assert (forall m, symlink_metadata fs (d ++ [n]) = LFile m -> regular_at (d ++ [n]) m) as Hf.
  { intros m E. exists d, n. split_and!; [done..|]. destruct (tr_stat Tr _ _ Ht) as [E'|E']; rewrite E in E'; [|done].
    destruct nd; cbn in E'; congruence. }
  unfold visit. destruct (symlink_metadata fs (d ++ [n])) as [m| | | | |] eqn:E; [..|by split|by split]; try by split.
  - specialize (Hf m eq_refl). assert (Z.of_nat (length (d ++ [n])) = k + 1) as Hl by (rewrite length_app; cbn; lia).
    destruct (Z.ltb_spec MAX_DEPTH k); split; cbn; try done; intros p m'; rewrite elem_of_app, list_elem_of_singleton;
      (intros [Hp|[= -> ->]]; [by auto|split; [done|lia]]).
  - destruct (Z.ltb_spec k (MAX_DEPTH + 1)); [|by split]. split; cbn; [done..|].
    intros d' k' [[= -> ->]|Hin]%elem_of_cons; [|by apply S3]. split_and!; [|rewrite length_app; cbn; lia|lia].
    apply folder_child; [done..|]. rewrite Ht. destruct (tr_stat Tr _ _ Ht) as [E'|E']; rewrite E in E'; [|done].
    by destruct nd.
Qed.

Lemma visit_covers d n rest k w m : let p := d ++ n :: rest in
  k = Z.of_nat (length d) -> Z.of_nat (length p) <= MAX_DEPTH + 2 ->
  tree (d ++ [n]) = Some (match rest with [] => NFile m | _ => NDir end) -> covered (visit (d ++ [n]) k w) p m.
Proof.
  cbn zeta. intros Hk Hl Ht. rewrite length_app in Hl. cbn [length] in Hl.
  assert (d ++ [n] `prefix_of` d ++ n :: rest) as Hp by (exists rest; by rewrite <- app_assoc).
  unfold visit. destruct (tr_stat Tr _ _ Ht) as [E|E]; rewrite E.
  2: { left. left. exists (d ++ [n]). cbn. split; [set_solver|done]. }
  destruct rest as [|c rest]; cbn [answer].
  - left. right. unfold reported. rewrite length_app. cbn [length]. destruct (Z.leb_spec (Z.of_nat (length d + 1)) (MAX_DEPTH + 1)),
      (Z.ltb_spec MAX_DEPTH k); try lia; cbn; set_solver.
  - rewrite (proj2 (Z.ltb_lt k (MAX_DEPTH + 1))) by (cbn [length] in Hl; lia). right.
    exists (d ++ [n]), (k + 1). cbn [stack]. split_and!; [set_solver|done|rewrite !length_app; cbn; lia].
Qed.

(** Only the count of visited entries differs. *)
Lemma sound_count w n : sound w -> sound {| report := report w; stack := stack w; visited := n |}.
Proof. by intros [S1 S2 S3]. Qed.

Lemma grows_count w n : grows w {| report := report w; stack := stack w; visited := n |}.
Proof. by split. Qed.

Lemma entries_sound d k items : forall w w' stop, walk_entries d k items w = (w', stop) ->
  (forall n, Named n ∈ items -> is_Some (tree (d ++ [n]))) ->
  folder_at d -> k = Z.of_nat (length d) -> k <= MAX_DEPTH + 1 -> sound w ->
  sound w' /\ (if stop then truncated (report w') = true else grows w w').
Proof.
  induction items as [|item items IH]; intros w w' stop H Hi Hd Hk Hle Hs; [by injection H as <- <-|].
  cbn [walk_entries] in H. assert (forall n, Named n ∈ items -> is_Some (tree (d ++ [n]))) as Hi' by (intros n Hn; apply Hi; set_solver).
  destruct item as [| |n].
  { injection H as <- <-. split; [by destruct Hs|]. split; cbn; set_solver. }
  all: destruct (MAX_ENTRIES <? visited w + 1); [injection H as <- <-; split; [by destruct Hs|done]|].
  - eapply IH in H as [H1 H2]; [|done..|by apply sound_count]. split; [done|]. destruct stop; [done|].
    by etransitivity; [apply grows_count|].
  - destruct (ignored n) eqn:En.
    + eapply IH in H as [H1 H2]; [|done..|by apply sound_count]. split; [done|]. destruct stop; [done|].
      by etransitivity; [apply grows_count|].
    + eapply IH in H as [H1 H2]; [|done..|].
      * split; [done|]. destruct stop; [done|]. etransitivity; [apply grows_count|]. etransitivity; [apply visit_grows|done].
      * apply visit_sound; try done; [by apply sound_count|apply Hi; set_solver].
Qed.

Lemma entries_cover d k items : forall w w', walk_entries d k items w = (w', false) ->
  (forall n, Named n ∈ items -> is_Some (tree (d ++ [n]))) ->
  folder_at d -> k = Z.of_nat (length d) -> k <= MAX_DEPTH + 1 -> sound w ->
  d ∈ walk_unreadable (report w') \/
  Broken ∉ items /\ forall n rest m, Named n ∈ items -> ignored n = false ->
    Z.of_nat (length (d ++ n :: rest)) <= MAX_DEPTH + 2 ->
    tree (d ++ [n]) = Some (match rest with [] => NFile m | _ => NDir end) -> covered w' (d ++ n :: rest) m.
Proof.
  induction items as [|item items IH]; intros w w' H Hi Hd Hk Hle Hs; [right; set_solver|].
  cbn [walk_entries] in H. assert (forall n, Named n ∈ items -> is_Some (tree (d ++ [n]))) as Hi' by (intros n Hn; apply Hi; set_solver).
  destruct item as [| |n]; [injection H as <-; left; cbn; set_solver|..];
    (destruct (MAX_ENTRIES <? visited w + 1); [done|]); [|destruct (ignored n) eqn:En].
  - destruct (IH _ _ H Hi' Hd Hk Hle (sound_count _ _ Hs)) as [?|[Hb Hc]]; [by left|right]. split; [set_solver|].
    intros n' rest m [|Hn]%elem_of_cons; [done|by apply Hc].
  - destruct (IH _ _ H Hi' Hd Hk Hle (sound_count _ _ Hs)) as [?|[Hb Hc]]; [by left|right]. split; [set_solver|].
    intros n' rest m [[= ->]|Hn]%elem_of_cons; [congruence|by apply Hc].
  - set (w1 := visit (d ++ [n]) k _) in H.
    assert (sound w1) as Hs1 by (apply visit_sound; try done; [by apply sound_count|apply Hi; set_solver]).
    destruct (entries_sound _ _ _ _ _ _ H Hi' Hd Hk Hle Hs1) as [_ Hg].
    destruct (IH _ _ H Hi' Hd Hk Hle Hs1) as [?|[Hb Hc]]; [by left|right]. split; [set_solver|].
    intros n' rest m [[= ->]|Hn]%elem_of_cons; [|by apply Hc]. intros _ Hl Ht.
    eapply covered_grows; [exact Hg|]. by apply visit_covers.
Qed.

(** Every file not too deep to be reported is covered. *)
Definition covers (w : Walk) : Prop := forall p m,
  regular_at p m -> Z.of_nat (length p) <= MAX_DEPTH + 2 -> covered w p m.

(** Taking a folder off the stack covers what is below it. *)
Lemma pop_covers w w' d k rest : stack w = (d, k) :: rest -> covers w ->
  grows {| report := report w; stack := rest; visited := visited w |} w' ->
  (forall p m, regular_at p m -> Z.of_nat (length p) <= MAX_DEPTH + 2 -> d `prefix_of` p -> (length d < length p)%nat ->
     covered w' p m) -> covers w'.
Proof.
  intros Es Hc Hg Hd p m Hp Hl. destruct (Hc p m Hp Hl) as [Ha|(d' & k' & Hin & Hpre & Hlt)].
  - left. by eapply (accounted_grows _ _ _ _ Hg).
  - rewrite Es in Hin. apply elem_of_cons in Hin as [[= -> ->]|Hin]; [by apply Hd|].
    right. exists d', k'. split; [by apply (gr_stack _ _ Hg)|done].
Qed.

Lemma walk_loop_spec fuel : forall w r, walk_loop fuel w = Some r -> sound w -> covers w ->
  exists w', report w' = r /\ sound w' /\ (truncated r = true \/ stack w' = [] /\ covers w').
Proof.
  induction fuel as [|fuel IH]; intros w r H Hs Hc; cbn [walk_loop] in H; destruct (stack w) as [|[d k] rest] eqn:Es;
    try done; [injection H as <-; exists w; auto..|].
  destruct (so_stack _ Hs d k ltac:(rewrite Es; set_solver)) as (Hd & Hk & Hle).
  assert (sound {| report := report w; stack := rest; visited := visited w |}) as Hs'.
  { destruct Hs as [S1 S2 S3]. split; cbn; [done..|]. intros d' k' Hin. apply S3. rewrite Es. set_solver. }
  destruct (read_dir fs d) as [items|] eqn:Er.
  - destruct (walk_entries _ _ _ _) as [w' stop] eqn:Ew.
    assert (forall n, Named n ∈ items -> is_Some (tree (d ++ [n]))) as Hi by (intros n; by apply (tr_listed Tr)).
    destruct (entries_sound _ _ _ _ _ _ Ew Hi Hd Hk Hle Hs') as [Hs1 Hg]. destruct stop; [injection H as <-; exists w'; auto|].
    apply IH in H; [done..|]. eapply pop_covers; [exact Es|done|exact Hg|]. intros p m Hp Hl Hpre Hlt.
    destruct (regular_next d p m Hp Hpre Hlt) as (n & more & -> & Hn & Ht).
    destruct (entries_cover _ _ _ _ _ Ew Hi Hd Hk Hle Hs') as [Hu|[Hb Hall]]; [left; left; by exists d|].
    apply Hall; try done. eapply (tr_all Tr); [done..|]. by rewrite Ht.
  - apply IH in H; [done|by destruct Hs'|]. eapply pop_covers; [exact Es|done|split; cbn; set_solver|].
    intros p m _ _ Hpre _. left. left. exists d. split; [cbn; set_solver|done].
Qed.

(** The start of the scan. *)
Lemma walk_spec r : walk = Some r ->
  exists w', report w' = r /\ sound w' /\ (truncated r = true \/ stack w' = [] /\ covers w').
Proof.
  intros H. apply walk_loop_spec in H; [done|..].
  - split; cbn; [intros p m []%elem_of_nil..|]. intros d k [= -> ->]%list_elem_of_singleton.
    split_and!; [|done|unfold MAX_DEPTH; lia]. split; [constructor|]. by intros q ->%prefix_nil_inv.
  - intros p m (d & n & -> & _) _. right. exists [], 0. cbn. split_and!; [set_solver|by exists (d ++ [n])|].
    rewrite length_app. cbn. lia.
Qed.
End Walk.

(** ** Claim *)

(** C25: A scan ends, and reports only regular files that are there, no deeper
    than a kept path may be, with those one level deeper apart.  Unless it says
    that it was cut short, every such file none of whose names is skipped is in
    its report, or below a place it says it could not read, so that a file it
    is silent about is one that is not there. *)
Theorem walk_accounts_for_every_file fs tree : truthful fs tree -> exists r, walk fs = Some r /\
  (forall p m, (p, m) ∈ walk_files r -> regular_at tree p m /\ (length p <= 17)%nat) /\
  (forall p m, (p, m) ∈ too_deep r -> regular_at tree p m /\ length p = 18%nat) /\
  (truncated r = false -> forall p m, regular_at tree p m -> (length p <= 18)%nat ->
     (exists q, q ∈ walk_unreadable r /\ q `prefix_of` p) \/
     (p, m) ∈ (if decide (length p <= 17)%nat then walk_files r else too_deep r)).
Proof.
  intros Tr. destruct (walk_total fs) as [r Hr]. exists r. split; [done|].
  destruct (walk_spec fs tree Tr r Hr) as (w' & <- & [S1 S2 _] & Hc). unfold MAX_DEPTH in *. split_and!.
  - intros p m H. destruct (S1 p m H). split; [done|lia].
  - intros p m H. destruct (S2 p m H). split; [done|lia].
  - intros Ht p m Hp Hl. destruct Hc as [|[Es Hc]]; [congruence|].
    destruct (Hc p m Hp ltac:(unfold MAX_DEPTH; lia)) as [[H|H]|(d & k & H & _)]; [by left| |rewrite Es in H; by apply elem_of_nil in H].
    right. unfold reported, MAX_DEPTH in H. destruct (Z.leb_spec (Z.of_nat (length p)) (16 + 1)), (decide (length p <= 17)%nat); try lia; done.
Qed.

(** ** Witness *)

(** A folder with a file, a hidden file and an unreadable folder. *)
Definition a_tree (p : list text) : option Node :=
  if bool_decide (p = [lit "a.txt"]) then Some (NFile {| len := 3; mtime := 5 |})
  else if bool_decide (p = [lit ".b"]) then Some (NFile {| len := 1; mtime := 1 |})
  else if bool_decide (p = [lit "c"]) then Some NDir
  else None.

Definition some_reads : Reads :=
  {| read_dir d := match d with [] => Some [Named (lit ".b"); Named (lit "c"); NotUtf8; Named (lit "a.txt")] | _ => None end;
     symlink_metadata p := match a_tree p with Some n => answer n | None => LNotFound end |}.

Lemma some_reads_truthful : truthful some_reads a_tree.
Proof.
  split.
  - intros p n H. left. cbn. by rewrite H.
  - intros [|x d] items n [= <-]. rewrite !elem_of_cons. intros [[= ->]|[[= ->]|[|[[= ->]|H]]]]; try done; [..|by apply elem_of_nil in H];
      by vm_compute; eexists.
  - intros [|x d] items n [= <-] _. cbn [app]. unfold a_tree.
    repeat (case_bool_decide as H; [injection H as ->; intros _; set_solver|clear H]). by intros [].
Qed.

Lemma walk_accounts_for_every_file_witness :
  walk some_reads = Some {| walk_files := [([lit "a.txt"], {| len := 3; mtime := 5 |})]; too_deep := [];
                            walk_unreadable := [[lit "c"]]; truncated := false |} /\
  exists r, walk some_reads = Some r /\ forall p m, (p, m) ∈ walk_files r -> regular_at a_tree p m.
Proof.
  split; [vm_compute; reflexivity|].
  destruct (walk_accounts_for_every_file some_reads a_tree some_reads_truthful) as (r & H & Hf & _).
  exists r. split; [exact H|]. intros p m Hp. exact (proj1 (Hf p m Hp)).
Defined.
