(* ===== verification/DropFolder.v ===== *)
(** * What the app writes in the Wildbloom folder

    Models the operations of [desktop/src-tauri/src/drop/folder.rs] that change
    the folder, and their callers: [rename_moved], [place_missing] and
    [place_row] of [watch.rs], [move_to_trash] and [remove_folder_file] of
    [engine.rs].  A path is its components below the root; the folder is a
    finite map from paths to what is there, on a file system that tells names
    apart by their characters.  Every system call, and every statement of the
    index, may fail ([fault]).  The callers hold the folder lock; programs
    other than this one are not modelled.  [decrypt_to_temp] (keychain, nodes,
    temp files) is the environment's [decrypt], whose answers are arbitrary. *)
From stdpp Require Import sorting gmap.
From S2P Require Import Prelude EnvelopeFormat EnvelopeName Envelope DirectText DirectPath DropLayout.
From S2P Require Import DropKeyListWire DropWatch.
#[local] Open Scope Z_scope.

Definition PLACE_RETRY : Z := 30 * SECOND.

(** ** The folder *)

Inductive ErrorKind := AlreadyExists | NotFound | InvalidData | OtherKind.

#[export] Instance ErrorKind_eq_dec : EqDecision ErrorKind.
Proof. solve_decision. Defined.

Inductive Thing := File (content : list byte) (m : Meta) | Dir | Link | Special.

#[export] Instance Meta_eq_dec : EqDecision Meta.
Proof. solve_decision. Defined.
#[export] Instance Thing_eq_dec : EqDecision Thing.
Proof. solve_decision. Defined.

(** What is written to the index. *)
Inductive Update :=
  | SetLink (row : text) (link : option (text * Z * Z))
  | SetPlain (row : text) (hash : text)
  | SetLocal (row : text) (local : Local).

Record Folder := {
  tree : gmap (list text) Thing;
  trash : list (list byte);
  updates : list Update;
  retry : gmap text Z;
  calls : nat
}.

Inductive Call := Metadata_ | ReadDir | CreateDir | RemoveDir | HardLink | Remove | Rename | Create | Copy | Sync
  | Trash | Index.

(** What the environment answers at each call: the failures, the time stamped
    on a new file, how much of a failing copy was written, random names, the
    clocks and the decrypted copies. *)
Record Env := {
  root : list text;
  fault : nat -> Call -> option ErrorKind;
  stamp : nat -> Z;
  written : nat -> nat;
  random_hex : nat -> option text;
  clock : nat -> Z;
  unix : nat -> Z;
  decrypt : nat -> FileRecord -> result string (list byte)
}.

Definition with_tree (t : gmap (list text) Thing) (d : Folder) : Folder :=
  {| tree := t; trash := trash d; updates := updates d; retry := retry d; calls := calls d |}.

Definition tick (d : Folder) : Folder :=
  {| tree := tree d; trash := trash d; updates := updates d; retry := retry d; calls := S (calls d) |}.

Definition FM (A : Type) : Type := SM Folder ErrorKind A.

(** The outcome as a value. *)
Definition outcome {A} (m : FM A) : FM (result ErrorKind A) := fun d => let '(r, d) := m d in (Ok r, d).

(** What the environment says now. *)
Definition ask {A} (f : nat -> A) : FM A := fun d => (Ok (f (calls d)), tick d).

Definition parent_of (p : list text) : list text := removelast p.

(** The folder that is to hold a new entry is there. *)
Definition has_parent (d : Folder) (p : list text) : bool := bool_decide (tree d !! parent_of p = Some Dir).

Definition children (d : Folder) (p : list text) : list text :=
  omap (fun kv => if bool_decide (parent_of kv.1 = p) then last kv.1 else None) (map_to_list (tree d)).

Definition kind_of (o : option Thing) : Lstat :=
  match o with
  | Some (File _ m) => LFile m | Some Dir => LDir | Some Link => LLink | Some Special => LOther | None => LNotFound
  end.

(** [Path::components] of an absolute path. *)
Definition path_components (p : text) : list text :=
  List.filter (fun c => negb (bool_decide (c = []) || bool_decide (c = lit "."))) (split_on 47 p).

Fixpoint strip_root (r p : list text) : option (list text) :=
  match r, p with
  | [], _ => Some p
  | x :: r, y :: p => if bool_decide (x = y) then strip_root r p else None
  | _ :: _, [] => None
  end.

(** The order of a set of paths. *)
Fixpoint path_le (a b : list text) : bool :=
  match a, b with
  | [], _ => true
  | _ :: _, [] => false
  | x :: a, y :: b => if bool_decide (x = y) then path_le a b else lex_le x y
  end.

Definition deeper_first (a b : list text) : Prop := path_le b a = true.
#[export] Instance deeper_first_dec : RelDecision deeper_first := fun a b => decide (path_le b a = true).

Section Folder.
Context `{U : Unicode, C : Crypto} (e : Env).

(** ** System calls *)

Definition call {A} (c : Call) (op : Folder -> result ErrorKind A * Folder) : FM A :=
  fun d => match fault e (calls d) c with Some k => (Err k, tick d) | None => op (tick d) end.

(** [symlink_metadata]: never an error, but [LError] when it fails. *)
Definition lstat (p : list text) : FM Lstat :=
  fun d => (Ok (match fault e (calls d) Metadata_ with Some _ => LError | None => kind_of (tree d !! p) end), tick d).

(** [symlink_metadata(..).is_ok()]. *)
Definition is_there (p : list text) : FM bool :=
  let! k := lstat p in ret (match k with LNotFound | LError => false | _ => true end).

Definition read_dir (p : list text) : FM (list text) :=
  call ReadDir (fun d => (if bool_decide (tree d !! p = Some Dir) then Ok (children d p) else Err OtherKind, d)).

Definition create_dir (p : list text) : FM unit :=
  call CreateDir (fun d =>
    match tree d !! p with
    | Some _ => (Err AlreadyExists, d)
    | None => if has_parent d p then (Ok tt, with_tree (<[p := Dir]> (tree d)) d) else (Err NotFound, d)
    end).

Definition remove_dir (p : list text) : FM unit :=
  call RemoveDir (fun d =>
    if bool_decide (tree d !! p = Some Dir) && bool_decide (children d p = [])
    then (Ok tt, with_tree (delete p (tree d)) d) else (Err OtherKind, d)).

Definition hard_link (from to : list text) : FM unit :=
  call HardLink (fun d =>
    match tree d !! from, tree d !! to with
    | None, _ => (Err NotFound, d)
    | Some _, Some _ => (Err AlreadyExists, d)
    | Some (File c m), None =>
        if has_parent d to then (Ok tt, with_tree (<[to := File c m]> (tree d)) d) else (Err NotFound, d)
    | Some _, None => (Err OtherKind, d)
    end).

Definition remove_file (p : list text) : FM unit :=
  call Remove (fun d =>
    match tree d !! p with
    | None => (Err NotFound, d)
    | Some Dir => (Err OtherKind, d)
    | Some _ => (Ok tt, with_tree (delete p (tree d)) d)
    end).

(** [std::fs::rename] of a file replaces a file at the target; the callers
    have just seen a regular file at the source. *)
Definition rename (from to : list text) : FM unit :=
  call Rename (fun d =>
    match tree d !! from, tree d !! to with
    | None, _ => (Err NotFound, d)
    | Some (File c m), Some Dir => (Err OtherKind, d)
    | Some (File c m), _ =>
        if has_parent d to then (Ok tt, with_tree (<[to := File c m]> (delete from (tree d))) d) else (Err NotFound, d)
    | Some _, _ => (Err OtherKind, d)
    end).

(** [create_new]. *)
Definition create_new (p : list text) : FM unit :=
  call Create (fun d =>
    match tree d !! p with
    | Some _ => (Err AlreadyExists, d)
    | None =>
        if has_parent d p
        then (Ok tt, with_tree (<[p := File [] {| len := 0; mtime := stamp e (calls d) |}]> (tree d)) d)
        else (Err NotFound, d)
    end).

(** The copy loop into the file just created: all of [content], or what was
    written before it failed. *)
Definition copy_into (p : list text) (content : list byte) : FM unit :=
  fun d =>
    let n := calls d in
    let put bytes := with_tree (<[p := File bytes {| len := blen bytes; mtime := stamp e n |}]> (tree d)) (tick d) in
    match fault e n Copy with
    | Some k => (Err k, put (take (written e n) content))
    | None => (Ok tt, put content)
    end.

(** [host.trash]. *)
Definition system_trash (p : list text) : FM unit :=
  call Trash (fun d =>
    match tree d !! p with
    | Some (File c m) =>
        (Ok tt, {| tree := delete p (tree d); trash := trash d ++ [c]; updates := updates d; retry := retry d;
                   calls := calls d |})
    | _ => (Err OtherKind, d)
    end).

Definition write_index (u : Update) : FM unit :=
  call Index (fun d =>
    (Ok tt, {| tree := tree d; trash := trash d; updates := updates d ++ [u]; retry := retry d; calls := calls d |})).

Definition set_retry (f : gmap text Z -> gmap text Z) : FM unit :=
  fun d => (Ok tt, {| tree := tree d; trash := trash d; updates := updates d; retry := f (retry d); calls := calls d |}).

(** [let _ = ..]. *)
Definition ignoring {A} (m : FM A) : FM unit := let! _ := outcome m in ret tt.

(** ** [folder.rs] *)

Definition relative (link : text) : option (list text) :=
  if negb (has_prefix [47] link) then None
  else
    rel ← strip_root (root e) (path_components link);
    if bool_decide (rel = []) || existsb (fun c => bool_decide (c = lit "..")) rel then None else Some rel.

Definition relative_nfc (link : text) : option text := (fun rel => joined (map nfc rel)) <$> relative link.

(** A path as the index writes it. *)
Definition link_text (rel : list text) : text := 47 :: joined (root e ++ rel).

Fixpoint stat_steps (current rel : list text) : FM Stat :=
  match rel with
  | [] => ret Unknown
  | component :: rest =>
      let current := current ++ [component] in
      let! k := lstat current in
      match k, rest with
      | LLink, _ => ret Unknown
      | LFile m, [] => ret (Present m)
      | (LDir | LOther), [] => ret Missing
      | LDir, _ => stat_steps current rest
      | (LFile _ | LOther), _ => ret Missing
      | LNotFound, _ => ret Missing
      | LError, _ => ret Unknown
      end
  end.

Definition root_is_dir : FM bool := let! k := lstat [] in ret (match k with LDir => true | _ => false end).

Definition stat_at (rel : list text) : FM Stat :=
  let! ok := root_is_dir in
  if negb ok then ret Unknown else if joinable rel then stat_steps [] rel else ret Unknown.

Definition stat_link (link : text) : FM Stat :=
  match relative link with Some rel => stat_at rel | None => ret Unknown end.

(** One folder above a new file. *)
Definition ensure_folder (p : list text) : FM unit :=
  let! k := lstat p in
  match k with
  | LDir => ret tt
  | LFile _ | LLink | LOther => throw OtherKind
  | LNotFound =>
      let! made := outcome (create_dir p) in
      match made with
      | Ok _ => ret tt
      | Err AlreadyExists =>
          let! k := lstat p in
          match k with LDir => ret tt | _ => throw OtherKind end
      | Err k => throw k
      end
  | LError => throw OtherKind
  end.

Fixpoint ensure_folders (current rel : list text) : FM unit :=
  match rel with
  | [] => ret tt
  | component :: rel =>
      let! _ := ensure_folder (current ++ [component]) in
      ensure_folders (current ++ [component]) rel
  end.

Definition ensure_parent (rel : list text) : FM unit :=
  let! ok := root_is_dir in
  if negb ok then throw OtherKind
  else if negb (joinable rel) then throw OtherKind
  else ensure_folders [] (removelast rel).

(** The name in [names] for [component]: itself, or the first that folds
    equal. *)
Definition spelled (names : list text) (component : text) : option text :=
  if bool_decide (component ∈ names) then Some component
  else List.find (fun n => bool_decide (fold n = fold component)) names.

Fixpoint actual_from (current rel : list text) : FM (list text) :=
  match rel with
  | [] => ret current
  | component :: rel =>
      let! names := read_dir current in
      match spelled names component with
      | Some n => actual_from (current ++ [n]) rel
      | None => throw OtherKind
      end
  end.

(** [actual_path(..).unwrap_or(target)]. *)
Definition actual_or (rel : list text) : FM (list text) :=
  let! r := outcome (actual_from [] rel) in
  ret (match r with Ok p => p | Err _ => rel end).

Definition staging_name (hex : text) : text := lit ".wildbloom-" ++ hex ++ lit ".part".

(** The staging copy becomes the target. *)
Definition publish (staging target : list text) : FM unit :=
  let! linked := outcome (hard_link staging target) in
  match linked with
  | Ok _ => ignoring (remove_file staging)
  | Err AlreadyExists => let! _ := ignoring (remove_file staging) in throw AlreadyExists
  | Err _ =>
      let! there := is_there target in
      if there : bool then let! _ := ignoring (remove_file staging) in throw AlreadyExists
      else
        let! renamed := outcome (rename staging target) in
        match renamed with
        | Ok _ => ret tt
        | Err k => let! _ := ignoring (remove_file staging) in throw k
        end
  end.

(** The last look is at a path where a file has just been put, so that what it
    finds is that file's metadata or nothing. *)
Definition place_file (rel : list text) (source : list byte) (expect : option (list byte))
    : FM (list text * Meta * text) :=
  let! _ := ensure_parent rel in
  let! there := is_there rel in
  if there : bool then throw AlreadyExists
  else
    let! hex := ask (random_hex e) in
    match hex with
    | None => throw OtherKind
    | Some hex =>
        let staging := parent_of rel ++ [staging_name hex] in
        let! copied := outcome
          (let! _ := create_new staging in
           let! _ := copy_into staging source in
           call Sync (fun d => (Ok tt, d))) in
        match copied with
        | Err k => let! _ := ignoring (remove_file staging) in throw k
        | Ok _ =>
            let hash := sha256 source in
            if bool_decide (is_Some expect) && negb (bool_decide (expect = Some hash))
            then let! _ := ignoring (remove_file staging) in throw InvalidData
            else
              let! _ := publish staging rel in
              let! actual := actual_or rel in
              let! k := lstat actual in
              match k with
              | LFile m => ret (actual, m, hex_lower hash)
              | LNotFound => throw NotFound
              | LError => throw OtherKind
              | _ => ret (actual, {| len := 0; mtime := 0 |}, hex_lower hash)
              end
        end
    end.

Definition move_no_clobber (from to : list text) : FM unit :=
  let! linked := outcome (hard_link from to) in
  match linked with
  | Ok _ =>
      let! removed := outcome (remove_file from) in
      match removed with
      | Ok _ => ret tt
      | Err k => let! _ := ignoring (remove_file to) in throw k
      end
  | Err AlreadyExists => throw AlreadyExists
  | Err _ =>
      let! there := is_there to in
      if there : bool then throw AlreadyExists else rename from to
  end.

(** ["{stem} {n}{ext}"], within one component's length limit. *)
Definition numbered (component : text) (n : Z) : text :=
  let '(stem, ext) := stem_ext component in
  let suffix := 32 :: u64_to_string n ++ ext in
  let room := saturating_sub MAX_COMPONENT_UTF16 (utf16_count suffix) in
  safe_component (truncate_path stem room ++ suffix).

(** The loop over the names in the hidden folder: [tries] more from [n]. *)
Fixpoint hide_as (tries : nat) (n : Z) (path parent : list text) (name : text) : FM bool :=
  match tries with
  | O => ret false
  | S tries =>
      let candidate := if n =? 1 then name else numbered name n in
      let! moved := outcome (move_no_clobber path (parent ++ [candidate])) in
      match moved with
      | Ok _ => ret true
      | Err AlreadyExists => hide_as tries (n + 1) path parent name
      | Err _ => ret false
      end
  end.

Definition remove_to_trash (rel : list text) (date : text) : FM bool :=
  if negb (joinable rel) then ret false
  else
    let! there := stat_at rel in
    if negb (is_present there) then ret false
    else
      let! trashed := outcome (system_trash rel) in
      match trashed with
      | Ok _ => ret true
      | Err _ =>
          let hidden := [lit ".wildbloom"; lit "removed"; date] ++ rel in
          let! made := outcome (ensure_parent hidden) in
          match made with
          | Err _ => ret false
          | Ok _ => hide_as 999 1 rel (parent_of hidden) (default [] (last rel))
          end
      end.

(** Removes [current] and then its parents while they are empty; [steps] is
    the number of components below the root. *)
Fixpoint sweep_up (steps : nat) (current : list text) : FM unit :=
  match steps with
  | O => ret tt
  | S steps =>
      let! k := lstat current in
      match k with
      | LDir =>
          let! listed := outcome (read_dir current) in
          match listed with
          | Ok [] =>
              let! removed := outcome (remove_dir current) in
              match removed with Ok _ => sweep_up steps (parent_of current) | Err _ => ret tt end
          | _ => ret tt
          end
      | _ => ret tt
      end
  end.

Fixpoint sweep_each (dirs : list (list text)) : FM unit :=
  match dirs with
  | [] => ret tt
  | dir :: dirs => let! _ := sweep_up (length dir) dir in sweep_each dirs
  end.

(** [sweep_empty] of a [BTreeSet], in reverse order. *)
Definition sweep_empty (dirs : gset (list text)) : FM unit := sweep_each (merge_sort deeper_first (elements dirs)).

(** ** [engine.rs] *)

Definition move_to_trash (rel : list text) : FM bool :=
  let! now := ask (unix e) in
  remove_to_trash rel (utc_date now).

(** What [remove_folder_file] tells its caller. *)
Inductive Refused := FolderUnavailable | TrashFailed | Internal.

Definition remove_folder_file (available : bool) (file : FileRecord) : FM (result Refused unit) :=
  let unlink :=
    let! r := outcome (write_index (SetLink (row_id file) None)) in
    ret (match r with Ok _ => Ok tt | Err _ => Err Internal end) in
  match watch_path file with
  | None => ret (Ok tt)
  | Some link =>
      if negb available then ret (Err FolderUnavailable)
      else
        match relative link with
        | None => unlink
        | Some rel =>
            let! there := stat_at rel in
            match there with
            | Present m =>
                if matches m (watch_size file) (watch_mtime file) then
                  let! moved := move_to_trash rel in
                  if negb moved then ret (Err TrashFailed)
                  else let! _ := sweep_empty {[ parent_of rel ]} in ret (Ok tt)
                else unlink
            | Unknown => unlink
            | Missing => ret (Ok tt)
            end
        end
  end.

(** ** [watch.rs] *)

Definition components (rel : text) : list text := split_on 47 rel.

(** One row of [rename_moved]: whether it moved, and from where. *)
Definition rename_one (layout : Layout) (row : FileRecord) : FM (option (list text)) :=
  match watch_path row, placed layout !! row_id row with
  | Some link, Some target =>
      if bool_decide (row_local row = NOT_KEPT) then ret None
      else
        match relative link, relative_nfc link with
        | Some path, Some current =>
            if bool_decide (fold current = fold target) then ret None
            else
              let! there := stat_link link in
              match there with
              | Present m =>
                  if negb (matches m (watch_size row) (watch_mtime row)) then ret None
                  else
                    let rel := components target in
                    let! at_target := stat_at rel in
                    if negb (is_missing at_target) then ret None
                    else
                      let! made := outcome (ensure_parent rel) in
                      match made with
                      | Err _ => ret None
                      | Ok _ =>
                          let! moved := outcome (move_no_clobber path rel) in
                          match moved with
                          | Err _ => ret None
                          | Ok _ =>
                              let! actual := actual_or rel in
                              let! _ := ignoring (write_index
                                (SetLink (row_id row) (Some (link_text actual, len m, mtime m)))) in
                              ret (Some (parent_of path))
                          end
                      end
              | _ => ret None
              end
        | _, _ => ret None
        end
  | _, _ => ret None
  end.

Fixpoint rename_moved (layout : Layout) (rows : list FileRecord) (emptied : gset (list text)) (changed : bool)
    : FM (gset (list text) * bool) :=
  match rows with
  | [] => ret (emptied, changed)
  | row :: rows =>
      let! moved := rename_one layout row in
      match moved with
      | Some dir => rename_moved layout rows ({[ dir ]} ∪ emptied) true
      | None => rename_moved layout rows emptied changed
      end
  end.

Definition retry_later (row : FileRecord) : FM bool :=
  let! now := ask (clock e) in
  let! _ := set_retry (fun r => <[row_id row := now + PLACE_RETRY]> r) in
  ret false.

Definition unreadable_row (row : FileRecord) : FM bool :=
  let! _ := ignoring (write_index (SetLocal (row_id row) UNREADABLE)) in
  ret true.

Definition place_row (row : FileRecord) (rel : list text) : FM bool :=
  let! got := ask (fun n => decrypt e n row) in
  match got with
  | Err code => if bool_decide (code = "unreadable"%string) then unreadable_row row else retry_later row
  | Ok plain =>
      let! placed := outcome (place_file rel plain (parse_sha256 (entry_plain row))) in
      match placed with
      | Ok (path, m, hash) =>
          let! _ := ignoring (write_index (SetLink (row_id row) (Some (link_text path, len m, mtime m)))) in
          let! _ := ignoring (write_index (SetPlain (row_id row) hash)) in
          ret true
      | Err InvalidData => unreadable_row row
      | Err AlreadyExists => ret false
      | Err _ => retry_later row
      end
  end.

(** Another row linked where the target folds to. *)
Definition linked_at (key : text) (row other : FileRecord) : bool :=
  negb (bool_decide (row_id other = row_id row)) &&
  match watch_path other with
  | Some link => match relative_nfc link with Some p => bool_decide (fold p = key) | None => false end
  | None => false
  end.

Definition wants_place (rows : list FileRecord) (held : list text) (row : FileRecord) (retry : gmap text Z) : bool :=
  negb (bool_decide (is_Some (watch_path row)) || bool_decide (row_sha256 row = None)
        || negb (bool_decide (row_local row ∈ [OK; MISSING; PENDING]))
        || existsb (fun r => bool_decide (row_prev r = Some (row_id row))) rows
        || bool_decide (row_id row ∈ held) || bool_decide (is_Some (retry !! row_id row))).

(** Held rows still linked to the empty place let go of it. *)
Fixpoint let_go (others : list FileRecord) : FM unit :=
  match others with
  | [] => ret tt
  | other :: others =>
      let! _ := ignoring (write_index (SetLink (row_id other) None)) in
      let_go others
  end.

(** Whether the place is free for the row, and whether that took a change. *)
Definition make_room (layout : Layout) (rows : list FileRecord) (held : list text) (row : FileRecord) (target : text)
    : FM (option bool) :=
  let rel := components target in
  let key := fold target in
  let! there := stat_at rel in
  match there with
  | Missing =>
      let! _ := let_go (List.filter (fun r => bool_decide (row_id r ∈ held) && linked_at key row r) rows) in
      ret (Some false)
  | Present m =>
      match List.find (fun r => negb (bool_decide (row_local r = NOT_KEPT)) && linked_at key row r) rows with
      | None => ret None
      | Some occupant =>
          if bool_decide (is_Some (placed layout !! row_id occupant))
             || negb (matches m (watch_size occupant) (watch_mtime occupant))
          then ret None
          else
            let! moved := move_to_trash rel in
            if negb moved then ret None
            else
              let! _ := ignoring (write_index (SetLink (row_id occupant) None)) in
              ret (Some true)
      end
  | Unknown => ret None
  end.

Definition place_one (layout : Layout) (rows : list FileRecord) (held : list text) (row : FileRecord) : FM bool :=
  match placed layout !! row_id row with
  | None => ret false
  | Some target =>
      let! waiting := (fun d => (Ok (retry d), d)) in
      if negb (wants_place rows held row waiting) then ret false
      else
        let! room := make_room layout rows held row target in
        match room with
        | None => ret false
        | Some changed =>
            let! done := place_row row (components target) in
            ret (changed || done)
        end
  end.

Fixpoint place_each (layout : Layout) (all : list FileRecord) (held : list text) (rows : list FileRecord)
    (changed : bool) : FM bool :=
  match rows with
  | [] => ret changed
  | row :: rows =>
      let! c := place_one layout all held row in
      place_each layout all held rows (changed || c)
  end.

Definition place_missing (layout : Layout) (rows : list FileRecord) (held : list text) : FM bool :=
  let! now := ask (clock e) in
  let! _ := set_retry (filter (fun kv => now < kv.2)) in
  place_each layout rows held rows false.

(** The end of a folder pass: renames, placements and emptied folders.  The
    index is read again in between, so the rows may differ. *)
Definition settle_folder (layout : Layout) (rows rows' : list FileRecord) (held : list text) : FM bool :=
  let! (emptied, moved) := rename_moved layout rows ∅ false in
  let! placed := place_missing layout rows' held in
  let! _ := if bool_decide (emptied = ∅) then ret tt else sweep_empty emptied in
  ret (moved || placed).
End Folder.
