(* ===== verification/DropFolderProofs.v ===== *)
(** * What the writes to the folder leave as it was

    Two relations between the folder before and after.  [eqv]: the same files,
    the app's own hidden staging copies aside.  [safe K]: no content is gone
    from both the folder and the Trash, and a file that is not known ([K]) as
    it is stays where and as it was.  Looking and making folders keep [eqv];
    [move_spec], [trash_spec] and [place_file_spec] say what the others do. *)
From stdpp Require Import sorting gmap.
From S2P Require Import Prelude EnvelopeFormat EnvelopeName Envelope DirectText DirectPath DropLayout DropLayoutProofs.
From S2P Require Import DropKeyListWire DropWatch DropFolder.
#[local] Open Scope Z_scope.

(** The names of the hidden copies [place_file] stages. *)
Definition visible (p : list text) : Prop := forall hex, last p <> Some (staging_name hex).

Definition file_in (d : Folder) (p : list text) (c : list byte) (m : Meta) : Prop := tree d !! p = Some (File c m).

Record eqv (d d' : Folder) : Prop := {
  eq_files : forall p c m, visible p -> file_in d p c m <-> file_in d' p c m;
  eq_trash : trash d' = trash d
}.

#[export] Instance eqv_preorder : PreOrder eqv.
Proof.
  split; [by intros d; split|]. intros a b c [H1 H2] [H3 H4]. split; [|congruence].
  intros p x m Hp. by rewrite H1, H3.
Qed.

Record safe (K : list text -> Meta -> Prop) (d d' : Folder) : Prop := {
  sf_kept : forall p c m, visible p -> file_in d p c m ->
    (exists p', visible p' /\ file_in d' p' c m) \/ c ∈ trash d';
  sf_trash : trash d ⊆ trash d';
  sf_still : forall p c m, visible p -> ~ K p m -> file_in d p c m -> file_in d' p c m
}.

#[export] Instance safe_preorder K : PreOrder (safe K).
Proof.
  split; [intros d; split; [intros p c m Hp H; left; by exists p|done|done]|].
  intros a b c [A1 A2 A3] [B1 B2 B3]. split; [|set_solver|by eauto].
  intros p x m Hp H. destruct (A1 p x m Hp H) as [(p' & Hp' & H')|H']; [by eapply B1|right; set_solver].
Qed.

Lemma eqv_safe K d d' : eqv d d' -> safe K d d'.
Proof.
  intros [H1 H2]. split; [|by rewrite H2|intros p c m Hp _; by apply H1].
  intros p c m Hp H. left. exists p. split; [done|by apply H1].
Qed.

(** Only what is known differs. *)
Lemma safe_weaken (K K' : list text -> Meta -> Prop) d d' : (forall p m, K p m -> K' p m) -> safe K d d' -> safe K' d d'.
Proof. intros HK [H1 H2 H3]. split; [done..|]. intros p c m Hp Hn. apply H3; [done|]. auto. Qed.

Lemma respects_weaken {A} (R S : Folder -> Folder -> Prop) (m : FM A) :
  (forall d d', R d d' -> S d d') -> respects R m -> respects S m.
Proof. intros H Hm d. apply H, Hm. Qed.

Lemma respects_outcome {A} R (m : FM A) : respects R m -> respects R (outcome m).
Proof. intros H d. unfold outcome. specialize (H d). by destruct (m d). Qed.

Lemma wp_outcome {A} (m : FM A) Q d : wp m (fun r d' => Q (Ok r) d') d -> wp (outcome m) Q d.
Proof. unfold wp, outcome. by destruct (m d). Qed.

Lemma respects_ignoring {A} R `{!PreOrder R} (m : FM A) : respects R m -> respects R (ignoring m).
Proof. intros H. unfold ignoring. apply respects_bind; [exact _|by apply respects_outcome|intros; apply respects_ret; exact _]. Qed.

Lemma eqv_same_tree d d' : tree d' = tree d -> trash d' = trash d -> eqv d d'.
Proof. intros H1 H2. split; [|done]. intros p c m _. unfold file_in. by rewrite H1. Qed.

#[export] Hint Resolve respects_outcome respects_ignoring : respects.
#[export] Hint Extern 1 (PreOrder _) => exact _ : respects.

Section Eqv.
Context `{U : Unicode, C : Crypto} (e : Env).

Lemma respects_call {A} c (op : Folder -> result ErrorKind A * Folder) :
  (forall d, eqv d (op d).2) -> respects eqv (call e c op).
Proof.
  intros H d. unfold call. destruct (fault e (calls d) c); cbn [snd]; [by apply eqv_same_tree|].
  etransitivity; [|apply H]. by apply eqv_same_tree.
Qed.

Lemma lstat_eqv p : respects eqv (lstat e p).
Proof. intros d. by apply eqv_same_tree. Qed.

Lemma ask_eqv {A} (f : nat -> A) : respects eqv (ask f).
Proof. intros d. by apply eqv_same_tree. Qed.

Lemma set_retry_eqv f : respects eqv (set_retry f).
Proof. intros d. by apply eqv_same_tree. Qed.

Lemma read_dir_eqv p : respects eqv (read_dir e p).
Proof. apply respects_call. by intros d. Qed.

Lemma write_index_eqv u : respects eqv (write_index e u).
Proof. apply respects_call. intros d. by apply eqv_same_tree. Qed.

(** Changing what is not a visible file. *)
Lemma eqv_insert d p x : (visible p -> (forall c m, ~ file_in d p c m) /\ forall c m, x <> File c m) ->
  eqv d (with_tree (<[p := x]> (tree d)) d).
Proof.
  intros Hp. split; [|done]. intros q c m Hq. unfold file_in. cbn. destruct (decide (q = p)) as [-> |].
  - rewrite lookup_insert_eq. destruct (Hp Hq) as [H1 H2]. split; [by intros ?%H1|intros [= ->]; by destruct (H2 c m)].
  - by rewrite lookup_insert_ne.
Qed.

Lemma eqv_delete d p : (visible p -> forall c m, ~ file_in d p c m) -> eqv d (with_tree (delete p (tree d)) d).
Proof.
  intros Hp. split; [|done]. intros q c m Hq. unfold file_in. cbn. destruct (decide (q = p)) as [-> |].
  - rewrite lookup_delete_eq. split; [by intros ?%(Hp Hq)|done].
  - by rewrite lookup_delete_ne.
Qed.

Lemma create_dir_eqv p : respects eqv (create_dir e p).
Proof.
  apply respects_call. intros d. destruct (tree d !! p) eqn:E; [done|]. destruct (has_parent d p); [|done].
  apply eqv_insert. intros _. unfold file_in. rewrite E. done.
Qed.

Lemma remove_dir_eqv p : respects eqv (remove_dir e p).
Proof.
  apply respects_call. intros d. destruct (bool_decide_reflect (tree d !! p = Some Dir)) as [E|]; [|done].
  destruct (bool_decide _); [|done]. apply eqv_delete. intros _. unfold file_in. rewrite E. done.
Qed.

Lemma staging_hidden d hex : visible (d ++ [staging_name hex]) -> False.
Proof. intros H. apply (H hex). apply last_snoc. Qed.

Lemma create_staging_eqv d hex : respects eqv (create_new e (d ++ [staging_name hex])).
Proof.
  apply respects_call. intros x. destruct (tree x !! _); [done|]. destruct (has_parent _ _); [|done].
  apply eqv_insert. intros []%staging_hidden.
Qed.

Lemma copy_staging_eqv d hex c : respects eqv (copy_into e (d ++ [staging_name hex]) c).
Proof.
  intros x. unfold copy_into. destruct (fault e (calls x) Copy); cbn [snd];
    (etransitivity; [apply (eqv_insert x); intros []%staging_hidden|by apply eqv_same_tree]).
Qed.

Lemma remove_staging_eqv d hex : respects eqv (remove_file e (d ++ [staging_name hex])).
Proof.
  apply respects_call. intros x. destruct (tree x !! _) as [[]|] eqn:E; try done; apply eqv_delete; intros []%staging_hidden.
Qed.

Lemma sync_eqv : respects eqv (call e Sync (fun d => (Ok tt, d))).
Proof. by apply respects_call. Qed.
End Eqv.

#[export] Hint Resolve lstat_eqv ask_eqv set_retry_eqv read_dir_eqv write_index_eqv create_dir_eqv remove_dir_eqv
  create_staging_eqv copy_staging_eqv remove_staging_eqv sync_eqv : respects.

Section Eqv2.
Context `{U : Unicode, C : Crypto} (e : Env).

Lemma is_there_eqv p : respects eqv (is_there e p).
Proof. unfold is_there. respects. Qed.

Lemma root_is_dir_eqv : respects eqv (root_is_dir e).
Proof. unfold root_is_dir. respects. Qed.

Lemma stat_steps_eqv rel : forall current, respects eqv (stat_steps e current rel).
Proof. induction rel as [|c rel IH]; intros current; cbn [stat_steps]; respects. Qed.

Lemma ensure_folder_eqv p : respects eqv (ensure_folder e p).
Proof. unfold ensure_folder. respects. Qed.

#[local] Hint Resolve is_there_eqv root_is_dir_eqv stat_steps_eqv ensure_folder_eqv : respects.

Lemma stat_at_eqv rel : respects eqv (stat_at e rel).
Proof. unfold stat_at. respects. Qed.

Lemma ensure_folders_eqv rel : forall current, respects eqv (ensure_folders e current rel).
Proof. induction rel as [|c rel IH]; intros current; cbn [ensure_folders]; respects. Qed.

#[local] Hint Resolve stat_at_eqv ensure_folders_eqv : respects.

Lemma stat_link_eqv link : respects eqv (stat_link e link).
Proof. unfold stat_link. respects. Qed.

Lemma ensure_parent_eqv rel : respects eqv (ensure_parent e rel).
Proof. unfold ensure_parent. respects. Qed.

Lemma actual_from_eqv rel : forall current, respects eqv (actual_from e current rel).
Proof. induction rel as [|c rel IH]; intros current; cbn [actual_from]; respects. Qed.

Lemma actual_or_eqv rel : respects eqv (actual_or e rel).
Proof. unfold actual_or. pose proof (actual_from_eqv rel []). respects. Qed.

Lemma sweep_up_eqv steps : forall p, respects eqv (sweep_up e steps p).
Proof. induction steps as [|n IH]; intros p; cbn [sweep_up]; respects. Qed.

#[local] Hint Resolve sweep_up_eqv : respects.

Lemma sweep_empty_eqv dirs : respects eqv (sweep_empty e dirs).
Proof. unfold sweep_empty. induction (merge_sort _ _) as [|d ds IH]; cbn [sweep_each]; respects. Qed.

Lemma retry_later_eqv row : respects eqv (retry_later e row).
Proof. unfold retry_later. respects. Qed.

Lemma unreadable_row_eqv row : respects eqv (unreadable_row e row).
Proof. unfold unreadable_row. respects. Qed.

Lemma let_go_eqv others : respects eqv (let_go e others).
Proof. induction others as [|o others IH]; cbn [let_go]; respects. Qed.
End Eqv2.

#[export] Hint Resolve is_there_eqv root_is_dir_eqv stat_at_eqv stat_link_eqv ensure_parent_eqv actual_or_eqv
  sweep_empty_eqv retry_later_eqv unreadable_row_eqv let_go_eqv : respects.

(** ** Moving and placing *)

Section Moves.
Context `{U : Unicode, C : Crypto} (e : Env).

(** When a hard link cannot be made for a reason of its own, the look at its
    target that follows works.  Without it a rename replaces what is there. *)
Definition careful : Prop := forall n k,
  fault e n HardLink = Some k -> k <> AlreadyExists -> fault e (S n) Metadata_ = None.

(** Only the count of calls and the index differ. *)
Definition same (d d' : Folder) : Prop := tree d' = tree d /\ trash d' = trash d.

Lemma same_eqv d d' : same d d' -> eqv d d'.
Proof. intros []. by apply eqv_same_tree. Qed.

(** What a hard link that fails for another reason than its target leaves
    possible. *)
Lemma hard_link_cases from to d r d' : hard_link e from to d = (r, d') ->
  match r with
  | Ok _ => exists c m, file_in d from c m /\ tree d !! to = None /\ tree d' = <[to := File c m]> (tree d) /\ trash d' = trash d
  | Err k => same d d' /\ calls d' = S (calls d) /\ (k <> AlreadyExists ->
      fault e (calls d) HardLink = Some k \/ forall c m, file_in d from c m -> has_parent d to = false)
  end.
Proof.
  unfold hard_link, call, file_in. destruct (fault e (calls d) HardLink); [intros [= <- <-]; split_and!; [done..|by left]|].
  cbn [tree tick]. destruct (tree d !! from) as [[c m| | |]|] eqn:Ef; destruct (tree d !! to) as [x|] eqn:Et;
    try (intros [= <- <-]; split_and!; [done..|intros Hk; right; naive_solver]).
  destruct (has_parent (tick d) to) eqn:Ep; intros [= <- <-].
  - by exists c, m.
  - split_and!; [done..|]. intros _. right. intros c' m' _. exact Ep.
Qed.

(** A rename after a link failed and nothing was seen at the target. *)
Lemma checked_rename from to d d1 d2 d3 k : careful ->
  hard_link e from to d = (Err k, d1) -> k <> AlreadyExists ->
  is_there e to d1 = (Ok false, d2) -> rename e from to d2 = (Ok tt, d3) ->
  exists c m, file_in d from c m /\ tree d !! to = None /\ tree d3 = <[to := File c m]> (delete from (tree d)) /\
    trash d3 = trash d.
Proof.
  intros Hc [[Ht1 Hr1] [Hn Hl]]%hard_link_cases Hk Hi Hr. specialize (Hl Hk).
  assert (tree d2 = tree d /\ trash d2 = trash d /\ (fault e (calls d1) Metadata_ = None -> tree d !! to = None)) as (Ht2 & Hr2 & Hs).
  { unfold is_there, bind, lstat in Hi. cbn in Hi. injection Hi as Hi <-. cbn. split_and!; [done..|].
    intros E. rewrite E, Ht1 in Hi. by destruct (tree d !! to) as [[]|]. }
  unfold rename, call in Hr. destruct (fault e (calls d2) Rename); [done|]. cbn [tree tick] in Hr. rewrite Ht2 in Hr.
  destruct (tree d !! from) as [[c m| | |]|] eqn:Ef; try done.
  assert (has_parent (tick d2) to = has_parent d to) as Ep by (unfold has_parent; cbn; by rewrite Ht2).
  exists c, m. assert (tree d !! to = None) as Eto.
  { destruct Hl as [Hl|Hl]; [apply Hs; rewrite Hn; by eapply Hc|]. specialize (Hl c m Ef).
    rewrite Ep, Hl in Hr. by destruct (tree d !! to) as [[]|]. }
  rewrite Eto, Ep in Hr. destruct (has_parent d to); [|done]. injection Hr as <-. cbn. by split_and!.
Qed.

Lemma remove_file_cases p d r d' : remove_file e p d = (r, d') ->
  trash d' = trash d /\ (if is_ok r then tree d' = delete p (tree d) else tree d' = tree d).
Proof.
  unfold remove_file, call. destruct (fault e (calls d) Remove); [by intros [= <- <-]|]. cbn [tree tick].
  destruct (tree d !! p) as [[]|]; by intros [= <- <-].
Qed.

(** A file that went from one place to another, where nothing was. *)
Lemma safe_moved (K : list text -> Meta -> Prop) d d' from to c m :
  file_in d from c m -> tree d !! to = None -> tree d' = <[to := File c m]> (delete from (tree d)) -> trash d' = trash d ->
  (visible from -> visible to /\ K from m) -> safe K d d'.
Proof.
  intros Hf Ht Htree Htrash HK. unfold file_in in *. split; [..|by rewrite Htrash|].
  - intros p x m' Hp H. unfold file_in in *. left. destruct (decide (p = from)) as [-> |Hne].
    + rewrite Hf in H. injection H as <- <-. exists to. split; [by apply HK|]. by rewrite Htree, lookup_insert_eq.
    + exists p. split; [done|]. rewrite Htree, lookup_insert_ne by congruence. by rewrite lookup_delete_ne.
  - intros p x m' Hp Hn H. unfold file_in in *. destruct (decide (p = from)) as [-> |Hne].
    + rewrite Hf in H. injection H as <- <-. destruct Hn. by apply HK.
    + rewrite Htree, lookup_insert_ne by congruence. by rewrite lookup_delete_ne.
Qed.

Lemma move_spec (K : list text -> Meta -> Prop) from to d r d' : careful ->
  (visible from -> visible to /\ forall c m, file_in d from c m -> K from m) ->
  move_no_clobber e from to d = (r, d') -> if is_ok r then safe K d d' else
    safe K d d' /\ forall c m, file_in d from c m -> file_in d' from c m.
Proof.
  intros Hc HK. unfold move_no_clobber, bind, outcome, ignoring. destruct (hard_link e from to d) as [[[]|k] d1] eqn:El.
  - apply hard_link_cases in El as (c & m & Hf & Ht & Htree & Htrash).
    destruct (remove_file e from d1) as [[[]|k] d2] eqn:Er; apply remove_file_cases in Er as [Hr1 Hr2]; cbn in Hr2.
    + intros [= <- <-]. cbn. apply (safe_moved K d d2 from to c m); [done|done| |congruence|].
      * rewrite Hr2, Htree, delete_insert_ne; [done|]. intros ->. unfold file_in in Hf. congruence.
      * intros Hv. destruct (HK Hv). split; [done|eauto].
    + unfold bind, outcome. destruct (remove_file e to d2) as [r3 d3] eqn:Er3. apply remove_file_cases in Er3 as [Hr3 Hr4].
      intros [= <- <-]. cbn.
      assert (forall p x mm, file_in d p x mm -> file_in d3 p x mm) as Hall.
      { intros p x mm H. unfold file_in in *. assert (p <> to) by congruence.
        destruct (is_ok r3); rewrite Hr4, Hr2, Htree; rewrite ?lookup_delete_ne by done; by rewrite lookup_insert_ne. }
      split; [|apply Hall]. split; [|rewrite Hr3, Hr1, Htrash; done|intros p x mm _ _; apply Hall].
      intros p x mm Hp H. left. exists p. split; [done|by apply Hall].
  - pose proof El as El'. apply hard_link_cases in El' as [[Hs1 Hs2] _].
    assert (forall d2, same d1 d2 -> safe K d d2 /\ forall c m, file_in d from c m -> file_in d2 from c m) as Hsame.
    { intros d2 [Hs3 Hs4]. split; [apply eqv_safe, eqv_same_tree; congruence|]. intros c m. unfold file_in. congruence. }
    destruct (decide (k = AlreadyExists)) as [-> |Hk]; [intros [= <- <-]; by apply Hsame|].
    assert (forall A (x y : A), match k with AlreadyExists => x | _ => y end = y) as Hm by by destruct k. rewrite Hm.
    destruct (is_there e to d1) as [[[]|k'] d2] eqn:Ei.
    + intros [= <- <-]. apply Hsame. unfold is_there, bind, lstat in Ei. cbn in Ei. by injection Ei as _ <-.
    + destruct (rename e from to d2) as [[[]|k''] d3] eqn:Er; intros [= <- <-]; cbn [is_ok].
      * destruct (checked_rename _ _ _ _ _ _ _ Hc El Hk Ei Er) as (c & m & Hf & Ht & Htree & Htrash).
        apply (safe_moved K d d3 from to c m); try done. intros Hv. destruct (HK Hv). split; [done|eauto].
      * apply Hsame. unfold is_there, bind, lstat in Ei. cbn in Ei. injection Ei as _ <-.
        unfold rename, call in Er. repeat (case_match; try done); by injection Er as <- <-.
    + unfold is_there, bind, lstat in Ei. cbn in Ei. done.
Qed.

(** [c] is new at [p], where no file was, and nothing else changed. *)
Record put_in (p : list text) (c : list byte) (d d' : Folder) : Prop := {
  pi_others : forall q x m, visible q -> q <> p -> file_in d q x m <-> file_in d' q x m;
  pi_new : exists m, file_in d' p c m;
  pi_free : forall x m, ~ file_in d p x m;
  pi_trash : trash d' = trash d
}.

Lemma put_in_eqv p c a b b' z : visible p -> eqv a b -> put_in p c b b' -> eqv b' z -> put_in p c a z.
Proof.
  intros Hp [A1 A2] [B1 (m & B2) B3 B4] [C1 C2]. split.
  - intros q x m' Hq Hn. by rewrite A1, B1, C1.
  - exists m. by apply C1.
  - intros x m' H. apply (B3 x m'). by apply A1.
  - congruence.
Qed.

Lemma put_in_safe K p c d d' : put_in p c d d' -> safe K d d'.
Proof.
  intros [H1 H2 H3 H4]. assert (forall q x m, visible q -> file_in d q x m -> file_in d' q x m) as Hall.
  { intros q x m Hq H. apply H1; [done| |done]. intros ->. by apply H3 in H. }
  split; [|by rewrite H4|auto]. intros q x m Hq H. left. exists q. auto.
Qed.

(** The staging copy is taken away, or stays. *)
Lemma ignoring_eq {A} (m : FM A) d : ignoring m d = (Ok tt, (m d).2).
Proof. unfold ignoring, bind, outcome. by destruct (m d). Qed.

Lemma publish_spec dir hex target c ms d r d' : careful -> visible target ->
  file_in d (dir ++ [staging_name hex]) c ms ->
  publish e (dir ++ [staging_name hex]) target d = (r, d') ->
  if is_ok r then put_in target c d d' else eqv d d'.
Proof.
  set (staging := dir ++ [staging_name hex]). intros Hc Hv Hs.
  assert (forall x, eqv x (remove_file e staging x).2) as Hrm by apply remove_staging_eqv.
  assert (forall x t, tree x = <[target := File c ms]> t -> t = tree d \/ t = delete staging (tree d) -> trash x = trash d ->
    tree d !! target = None -> put_in target c d x) as Hput.
  { intros x t Ht Hor Htr Hn. split; unfold file_in; [|exists ms; by rewrite Ht, lookup_insert_eq|by rewrite Hn|done].
    intros q y m Hq Hne. rewrite Ht, lookup_insert_ne by done. destruct Hor as [-> | ->]; [done|].
    rewrite lookup_delete_ne; [done|]. intros <-. by apply staging_hidden in Hq. }
  unfold publish, bind, outcome. destruct (hard_link e staging target d) as [[[]|k] d1] eqn:El.
  - apply hard_link_cases in El as (c' & m' & Hf & Ht & Htree & Htrash). unfold file_in in *. rewrite Hs in Hf. injection Hf as <- <-.
    rewrite ignoring_eq. intros [= <- <-]. cbn. eapply put_in_eqv; [done|reflexivity| |apply Hrm]. by eapply Hput; [|left|..].
  - pose proof El as El'. apply hard_link_cases in El' as [[Hs1 Hs2] _]. assert (eqv d d1) as Hd1 by by apply eqv_same_tree.
    destruct (decide (k = AlreadyExists)) as [-> |Hk].
    { rewrite ignoring_eq. intros [= <- <-]. cbn. by etransitivity. }
    assert (forall A (x y : A), match k with AlreadyExists => x | _ => y end = y) as Hm by by destruct k. rewrite Hm.
    destruct (is_there e target d1) as [[[]|k'] d2] eqn:Ei; [..|done].
    all: assert (eqv d d2) as Hd2 by (etransitivity; [exact Hd1|]; pose proof (is_there_eqv e target d1) as H; by rewrite Ei in H).
    + rewrite ignoring_eq. intros [= <- <-]. cbn. by etransitivity.
    + destruct (rename e staging target d2) as [[[]|k''] d3] eqn:Er.
      * intros [= <- <-]. cbn. destruct (checked_rename _ _ _ _ _ _ _ Hc El Hk Ei Er) as (c' & m' & Hf & Ht & Htree & Htrash).
        unfold file_in in *. rewrite Hs in Hf. injection Hf as <- <-. by eapply Hput; [|right|..].
      * rewrite ignoring_eq. intros [= <- <-]. cbn. etransitivity; [|apply Hrm]. etransitivity; [exact Hd2|].
        unfold rename, call in Er. repeat (case_match; try done); injection Er as <- <-; by apply eqv_same_tree.
Qed.

(** The staging copy holds the whole source. *)
Lemma staged staging source d d' :
  (let! _ := create_new e staging in let! _ := copy_into e staging source in call e Sync (fun d => (Ok tt, d))) d = (Ok tt, d') ->
  exists m, file_in d' staging source m.
Proof.
  unfold bind. destruct (create_new e staging d) as [[[]|] d1]; [|done].
  unfold copy_into. destruct (fault e (calls d1) Copy); [done|]. unfold call. destruct (fault e _ Sync); [done|].
  intros [= <-]. unfold file_in. cbn. rewrite lookup_insert_eq. eauto.
Qed.

(** [eqv], then [m]. *)
Lemma after_eqv {A B} (m : FM A) (k : A -> FM B) (Q : result ErrorKind B -> Folder -> Prop) d0 d :
  respects eqv m -> eqv d0 d -> (forall a d', eqv d0 d' -> wp (k a) Q d') -> (forall x d', eqv d0 d' -> Q (Err x) d') ->
  wp (bind m k) Q d.
Proof.
  intros Hm Hd Hk He. apply wp_bind, (wp_respects eqv); [done|]. intros [a|x] d' H.
  - apply Hk. by etransitivity.
  - apply He. by etransitivity.
Qed.

Definition expected (expect : option (list byte)) (source : list byte) : Prop := expect = None \/ expect = Some (sha256 source).

Lemma place_file_spec rel source expect d : careful -> visible rel ->
  wp (place_file e rel source expect) (fun r d' =>
    match r with
    | Ok (_, _, hash) => put_in rel source d d' /\ expected expect source /\ hash = hex_lower (sha256 source)
    | Err _ => eqv d d' \/ put_in rel source d d' /\ expected expect source
    end) d.
Proof.
  intros Hc Hv. unfold place_file. apply (after_eqv _ _ _ d); [auto with respects|reflexivity| |by left]. intros [] d1 E1.
  apply (after_eqv _ _ _ d); [auto with respects|done| |by left]. intros [] d2 E2; [by left|].
  apply (after_eqv _ _ _ d); [auto with respects|done| |by left]. intros [hex|] d3 E3; [|by left].
  set (staging := parent_of rel ++ [staging_name hex]).
  assert (forall x k, eqv d x -> wp (let! _ := ignoring (remove_file e staging) in throw (A := list text * Meta * text) k)
    (fun r d' => match r with Ok _ => False | Err _ => eqv d d' end) x) as Hdiscard.
  { intros x k Hx. apply (after_eqv _ _ _ d); [|done|done|done]. apply respects_ignoring; [exact _|apply remove_staging_eqv]. }
  apply wp_bind. unfold wp at 1. set (stage := bind _ _). assert (respects eqv stage) as Hst.
  { unfold stage, staging. respects. }
  specialize (Hst d3). unfold outcome. destruct (stage d3) as [[[]|k] d4] eqn:Est; cbn [fst snd] in *.
  2: { eapply wp_impl; [apply Hdiscard; by etransitivity|]. intros [[[]]|] d5; [done|by left]. }
  apply staged in Est as [ms Hfile]. assert (eqv d d4) as E4 by by etransitivity.
  destruct (bool_decide (is_Some expect) && negb (bool_decide (expect = Some (sha256 source)))) eqn:Ex.
  { eapply wp_impl; [by apply Hdiscard|]. intros [[[]]|] d5; [done|by left]. }
  assert (expected expect source) as Hexp.
  { destruct expect as [h|]; [right|by left]. cbn in Ex. by destruct (bool_decide_reflect (Some h = Some (sha256 source))). }
  apply wp_bind. unfold wp at 1. destruct (publish e staging rel d4) as [r d5] eqn:Ep.
  apply (publish_spec _ _ _ source ms) in Ep; [|done..]. destruct r as [[]|k]; cbn [fst snd is_ok] in *.
  2: { left. by etransitivity. }
  assert (forall x, eqv d5 x -> put_in rel source d x) as Hput by (intros x Hx; by eapply put_in_eqv).
  apply (after_eqv _ _ _ d5); [auto with respects|reflexivity| |intros x d' H; right; auto]. intros actual d6 E6.
  apply (after_eqv _ _ _ d5); [auto with respects|done| |intros x d' H; right; auto]. intros k d7 E7.
  destruct k; cbn; auto.
Qed.
End Moves.
