(* ===== verification/DropFolderTheorems.v ===== *)
(** * The app loses nothing in the owner's folder

    The callers of the writes of [DropFolder]: each keeps [safe] of the files
    it may move, those a row knows as they are ([known_as]), as long as a look
    that follows a failed hard link works ([careful]); the last lemmas show
    what is replaced when it does not. *)
From stdpp Require Import sorting gmap.
From S2P Require Import Prelude EnvelopeFormat EnvelopeName Envelope DirectText DirectPath DropLayout DropLayoutProofs.
From S2P Require Import EnvelopeCanon DropConflict DropKeyListWire DropWatch DropFolder DropFolderProofs.
#[local] Open Scope Z_scope.

Section Callers.
Context `{U : Unicode, C : Crypto} {UL : UnicodeLaws U} {CL : CaseLaws U} (e : Env).

(** A row of [rows], linked to [p] or to a path that folds equal, has the file
    there as it was last seen. *)
Definition known_as (rows : list FileRecord) (p : list text) (m : Meta) : Prop := exists row link,
  row ∈ rows /\ watch_path row = Some link /\ matches m (watch_size row) (watch_mtime row) = true /\
  (relative e link = Some p \/ exists q, relative_nfc e link = Some q /\ fold q = fold (joined p)).

(** ** Names *)

Lemma valid_visible d c : valid_component c = true -> visible (d ++ [c]).
Proof.
  intros (Hc & _)%valid_component_spec hex. rewrite last_snoc. intros [= ->].
  by specialize (cn_head _ Hc 46 eq_refl).
Qed.

Lemma valid_parts_visible cs : cs <> [] -> Forall (fun c => valid_component c = true) cs -> visible cs.
Proof.
  intros Hne Hf. destruct cs as [|c cs _] using rev_ind; [done|]. apply Forall_app in Hf as [_ [Hc _]%Forall_cons].
  by apply valid_visible.
Qed.

Lemma numbered_visible d name n : visible (d ++ [numbered name n]).
Proof. apply valid_visible. unfold numbered. destruct (stem_ext name). apply safe_component_valid. Qed.

(** ** Looking *)

Lemma stat_steps_present rel : forall current d m d', stat_steps e current rel d = (Ok (Present m), d') ->
  exists c, file_in d (current ++ rel) c m.
Proof.
  induction rel as [|x rel IH]; intros current d m d'; cbn [stat_steps]; [done|].
  unfold bind. cbn [lstat]. destruct (fault e (calls d) Metadata_); [done|].
  unfold file_in. destruct (tree d !! (current ++ [x])) as [[c m'| | |]|] eqn:E; cbn [kind_of]; try (by destruct rel).
  - destruct rel; [|done]. intros [= -> <-]. by exists c.
  - destruct rel as [|y rel]; [done|]. intros [c H]%IH. exists c. unfold file_in in H. cbn in H.
    by rewrite <- app_assoc in H.
Qed.

Lemma stat_at_spec rel d (Q : result ErrorKind Stat -> Folder -> Prop) :
  (forall st d', eqv d d' -> (forall m, st = Present m -> exists c, file_in d rel c m) -> Q (Ok st) d') ->
  wp (stat_at e rel) Q d.
Proof.
  intros H. unfold wp. pose proof (stat_at_eqv e rel d) as Hq. destruct (stat_at e rel d) as [[st|k] d'] eqn:E; cbn [fst snd] in *.
  - apply H; [done|]. intros m ->. unfold stat_at, root_is_dir, bind in E. cbn in E.
    repeat case_match; try done; by apply stat_steps_present in E.
  - exfalso. unfold stat_at, root_is_dir, bind in E. cbn in E. repeat case_match; try done.
    clear -E. revert E. generalize (tick d) as x, (@nil text) as cur.
    induction rel as [|c rel IH]; intros x cur; cbn [stat_steps]; [done|]. unfold bind. cbn [lstat].
    repeat case_match; try done; apply IH.
Qed.

Lemma wp_stop (K : list text -> Meta -> Prop) {A} (a : A) d : wp (ret a : FM A) (fun _ d' => safe K d d') d.
Proof. unfold wp. cbn. reflexivity. Qed.

(** ** Removing *)

Context (Hc : careful e).

Lemma hide_as_spec (K : list text -> Meta -> Prop) tries : forall n path parent name d,
  (visible path -> visible (parent ++ [name]) /\ exists c m, file_in d path c m /\ K path m) ->
  wp (hide_as e tries n path parent name) (fun _ d' => safe K d d') d.
Proof.
  induction tries as [|tries IH]; intros n path parent name d HK; cbn [hide_as]; [apply wp_stop|].
  set (to := if n =? 1 then name else numbered name n). apply wp_bind, wp_outcome. unfold wp at 1.
  destruct (move_no_clobber e path (parent ++ [to]) d) as [r d1] eqn:Em. cbn [fst snd].
  apply (move_spec e K) in Em; [|done|].
  2: { intros Hv. destruct (HK Hv) as (Hn & c & m & Hf & HK'). split; [|intros c' m' Hf'; unfold file_in in *; congruence].
       unfold to. destruct (n =? 1); [done|apply numbered_visible]. }
  destruct r as [[]|k]; cbn [is_ok] in Em; [done|]. destruct Em as [Hs Hkeep].
  destruct k; try done. eapply wp_impl; [apply IH|intros r d2 H; by etransitivity].
  intros Hv. destruct (HK Hv) as (Hn & c & m & Hf & HK'). eauto 6.
Qed.

Lemma system_trash_spec (K : list text -> Meta -> Prop) p d r d' : (visible p -> forall c m, file_in d p c m -> K p m) ->
  system_trash e p d = (r, d') -> if is_ok r then safe K d d' else eqv d d'.
Proof.
  intros HK. unfold system_trash, call. destruct (fault e (calls d) Trash); [intros [= <- <-]; by apply eqv_same_tree|].
  cbn [tree tick]. destruct (tree d !! p) as [[c m| | |]|] eqn:E; try (intros [= <- <-]; by apply eqv_same_tree).
  intros [= <- <-]. cbn [is_ok].
  assert (forall q x m', q <> p -> file_in d q x m' -> tree d !! q = Some (File x m') /\ delete p (tree d) !! q = Some (File x m')) as Ho.
  { intros q x m' Hq H. split; [done|]. by rewrite lookup_delete_ne. }
  split; cbn [trash]; [|set_solver|]; intros q x m' Hq; (destruct (decide (q = p)) as [-> |Hne]; [|]).
  - unfold file_in. rewrite E. intros [= <- <-]. right. apply elem_of_app. right. by apply list_elem_of_singleton.
  - intros H. left. exists q. split; [done|by apply Ho].
  - intros Hn H. destruct Hn. unfold file_in in H. rewrite E in H. injection H as <- <-. by apply (HK Hq c).
  - intros _ H. by apply Ho.
Qed.

Lemma last_hidden rel name (l : list text) : last rel = Some name -> visible rel -> visible (l ++ [name]).
Proof. intros Hl Hv hex. rewrite last_snoc, <- Hl. apply Hv. Qed.

Lemma trash_spec (K : list text -> Meta -> Prop) rel date d : (visible rel -> forall c m, file_in d rel c m -> K rel m) ->
  wp (remove_to_trash e rel date) (fun _ d' => safe K d d') d.
Proof.
  intros HK. unfold remove_to_trash. destruct (joinable rel) eqn:Ej; [cbn [negb]|apply wp_stop].
  assert (exists name, last rel = Some name) as [name Hl].
  { destruct rel as [|x rel _] using rev_ind; [done|]. exists x. apply last_snoc. }
  apply wp_bind, stat_at_spec. intros st d1 E1 Hst. destruct st as [m| |]; cbn [is_present negb]; try by apply eqv_safe.
  destruct (Hst m eq_refl) as [c Hf]. clear Hst.
  apply wp_bind, wp_outcome. unfold wp at 1. destruct (system_trash e rel d1) as [r d2] eqn:Et. cbn [fst snd].
  apply (system_trash_spec K) in Et.
  2: { intros Hv c' m' H. apply (HK Hv c'). by apply (eq_files _ _ E1). }
  destruct r as [[]|k]; cbn [is_ok] in Et; [unfold wp; cbn; by etransitivity; [apply eqv_safe|]|].
  assert (eqv d d2) as E2 by by etransitivity.
  apply (after_eqv _ _ _ d); [auto with respects|done| |intros x d' H; by apply eqv_safe]. intros [[]|x] d3 E3; [|by apply eqv_safe].
  eapply wp_impl; [apply (hide_as_spec K)|intros r d4 H; etransitivity; [by apply eqv_safe|done]].
  intros Hv. rewrite Hl. split; [by eapply last_hidden|]. exists c, m. split; [by apply (eq_files _ _ E3)|eauto].
Qed.

Lemma move_to_trash_spec (K : list text -> Meta -> Prop) rel d : (visible rel -> forall c m, file_in d rel c m -> K rel m) ->
  wp (move_to_trash e rel) (fun _ d' => safe K d d') d.
Proof.
  intros HK. unfold move_to_trash. apply (after_eqv _ _ _ d); [auto with respects|reflexivity| |intros x d' H; by apply eqv_safe].
  intros now d1 E1. eapply wp_impl; [apply (trash_spec K)|intros r d2 H; etransitivity; [by apply eqv_safe|done]].
  intros Hv c m H. apply (HK Hv c). by apply (eq_files _ _ E1).
Qed.

(** A computation that only looks, in a run that is safe so far. *)
Lemma eqv_then K {A} (m : FM A) d0 d : respects eqv m -> safe K d0 d -> wp m (fun _ d' => safe K d0 d') d.
Proof. intros Hm Hs. apply (wp_respects eqv); [done|]. intros r d' H. etransitivity; [done|by apply eqv_safe]. Qed.

Lemma remove_folder_file_spec available file d :
  wp (remove_folder_file e available file) (fun _ d' => safe (known_as [file]) d d') d.
Proof.
  unfold remove_folder_file. destruct (watch_path file) as [link|] eqn:El; [|apply wp_stop].
  destruct available; [cbn [negb]|apply wp_stop]. set (unlink := bind _ _).
  assert (forall d', eqv d d' -> wp unlink (fun _ d' => safe (known_as [file]) d d') d') as Hu.
  { intros d' H. apply eqv_then; [|by apply eqv_safe]. unfold unlink. respects. }
  destruct (relative e link) as [rel|] eqn:Er; [|by apply Hu].
  apply wp_bind, stat_at_spec. intros st d1 E1 Hst. destruct st as [m| |]; [|by apply eqv_safe|by apply Hu].
  destruct (Hst m eq_refl) as [c Hf]. destruct (matches m _ _) eqn:Em; [|by apply Hu].
  apply wp_bind. eapply wp_impl; [apply (move_to_trash_spec (known_as [file]))|].
  { intros Hv c' m' H. apply (eq_files _ _ E1) in H; [|done]. unfold file_in in *. rewrite Hf in H. injection H as <- <-.
    exists file, link. split_and!; [by apply list_elem_of_singleton|done..|by left]. }
  intros [moved|k] d2 Hs; cbn beta iota; (assert (safe (known_as [file]) d d2) as Hs2 by (etransitivity; [by apply eqv_safe|done])); [|done].
  destruct moved; [|done]. cbn [negb]. apply eqv_then; [respects|done].
Qed.

(** ** Renaming and placing *)

(** The places of a layout can be seen. *)
Definition in_sight (l : Layout) : Prop := forall i target, placed l !! i = Some target -> visible (components target).

Lemma layout_in_sight rows l : layout_of rows = Some l -> in_sight l.
Proof.
  intros H i target Ht. destruct (layout_tree _ _ H i target Ht) as [Hv _].
  by apply valid_parts_visible; [apply split_on_nonempty|].
Qed.

Lemma safe_known (rows : list FileRecord) row d d' : row ∈ rows -> safe (known_as [row]) d d' -> safe (known_as rows) d d'.
Proof.
  intros Hr. apply safe_weaken. intros p m (r & link & ->%list_elem_of_singleton & H). by exists row, link.
Qed.

Lemma rename_one_spec l row d : in_sight l -> wp (rename_one e l row) (fun _ d' => safe (known_as [row]) d d') d.
Proof.
  intros Hl. unfold rename_one. destruct (watch_path row) as [link|] eqn:El; [|apply wp_stop].
  destruct (placed l !! row_id row) as [target|] eqn:Et; [|apply wp_stop]. destruct (bool_decide _); [apply wp_stop|].
  destruct (relative e link) as [path|] eqn:Er; [|apply wp_stop]. destruct (relative_nfc e link) as [current|]; [|apply wp_stop].
  destruct (bool_decide _); [apply wp_stop|]. unfold stat_link. rewrite Er.
  apply wp_bind, stat_at_spec. intros st d1 E1 Hst. destruct st as [m| |]; try by apply eqv_safe.
  destruct (Hst m eq_refl) as [c Hf]. destruct (matches m _ _) eqn:Em; cbn [negb]; [|by apply eqv_safe].
  apply (after_eqv _ _ _ d); [auto with respects|done| |intros x d' H; by apply eqv_safe]. intros there d2 E2.
  destruct (is_missing there); cbn [negb]; [|by apply eqv_safe].
  apply (after_eqv _ _ _ d); [auto with respects|done| |intros x d' H; by apply eqv_safe]. intros [[]|x] d3 E3; [|by apply eqv_safe].
  apply wp_bind, wp_outcome. unfold wp at 1. destruct (move_no_clobber e path (components target) d3) as [r d4] eqn:Emv. cbn [fst snd].
  apply (move_spec e (known_as [row])) in Emv; [|done|].
  2: { intros Hv. split; [by eapply Hl|]. intros c' m' H. apply (eq_files _ _ E3) in H; [|done].
       unfold file_in in *. rewrite Hf in H. injection H as <- <-.
       exists row, link. split_and!; [by apply list_elem_of_singleton|done..|by left]. }
  assert (safe (known_as [row]) d d4) as Hs by (etransitivity; [by apply eqv_safe|]; by destruct r; [|destruct Emv]).
  destruct r as [[]|k]; [|done]. apply eqv_then; [respects|done].
Qed.

Lemma rename_moved_spec l rows all : in_sight l -> rows ⊆ all -> forall emptied changed d,
  wp (rename_moved e l rows emptied changed) (fun _ d' => safe (known_as all) d d') d.
Proof.
  intros Hl. induction rows as [|row rows IH]; intros Hall emptied changed d; cbn [rename_moved]; [apply wp_stop|].
  apply wp_bind. eapply wp_impl; [by apply rename_one_spec|]. intros [moved|k] d1 Hs; apply (safe_known all) in Hs; try set_solver.
  destruct moved as [dir|]; (eapply wp_impl; [apply IH; set_solver|intros r d2 H; by etransitivity]).
Qed.

Lemma place_row_spec K row rel d : visible rel -> wp (place_row e row rel) (fun _ d' => safe K d d') d.
Proof.
  intros Hv. unfold place_row. apply (after_eqv _ _ _ d); [auto with respects|reflexivity| |intros x d' H; by apply eqv_safe].
  intros [plain|code] d1 E1.
  2: { destruct (bool_decide _); (apply eqv_then; [auto with respects|by apply eqv_safe]). }
  apply wp_bind, wp_outcome. eapply wp_impl; [by apply place_file_spec|].
  intros r d2 H. assert (safe K d d2) as Hs.
  { etransitivity; [by apply eqv_safe|]. destruct r as [[[]]|]; [destruct H as [H _]; by eapply put_in_safe|].
    destruct H as [H|[H _]]; [by apply eqv_safe|by eapply put_in_safe]. }
  destruct r as [[[path m] hash]|k]; [apply eqv_then; [respects|done]|].
  destruct k; (apply eqv_then; [respects|done]).
Qed.

Lemma make_room_spec l rows held row target d : visible (components target) ->
  wp (make_room e l rows held row target) (fun _ d' => safe (known_as rows) d d') d.
Proof.
  intros Hv. unfold make_room. apply wp_bind, stat_at_spec. intros st d1 E1 Hst.
  destruct st as [m| |]; [|apply eqv_then; [respects|by apply eqv_safe]|by apply eqv_safe].
  destruct (Hst m eq_refl) as [c Hf]. destruct (List.find _ rows) as [o|] eqn:Ef; [|by apply eqv_safe].
  apply List.find_some in Ef as [Ho Hl]. apply list_elem_of_In in Ho. unfold linked_at in Hl. rewrite !andb_true_iff in Hl. destruct Hl as [_ [_ Hl]].
  destruct (bool_decide (is_Some _)); [by apply eqv_safe|]. destruct (matches m _ _) eqn:Em; cbn [orb negb]; [|by apply eqv_safe].
  destruct (watch_path o) as [link|] eqn:El; [|done]. destruct (relative_nfc e link) as [q|] eqn:Eq; [|done].
  apply bool_decide_eq_true in Hl.
  apply wp_bind. eapply wp_impl; [apply (move_to_trash_spec (known_as rows))|].
  { intros _ c' m' H. apply (eq_files _ _ E1) in H; [|done]. unfold file_in in *. rewrite Hf in H. injection H as <- <-.
    exists o, link. split_and!; [done..|]. right. exists q. split; [done|].
    unfold joined, components. by rewrite join_split_on. }
  intros [moved|k] d2 Hs; (assert (safe (known_as rows) d d2) as Hs2 by (etransitivity; [by apply eqv_safe|done])); [|done].
  destruct moved; cbn [negb]; [|done]. apply eqv_then; [respects|done].
Qed.

Lemma place_one_spec l rows held row d : in_sight l ->
  wp (place_one e l rows held row) (fun _ d' => safe (known_as rows) d d') d.
Proof.
  intros Hl. unfold place_one. destruct (placed l !! row_id row) as [target|] eqn:Et; [|apply wp_stop].
  apply wp_bind. unfold wp at 1. cbn [fst snd]. destruct (wants_place _ _ _ _); cbn [negb]; [|apply wp_stop].
  apply wp_bind. eapply wp_impl; [apply make_room_spec; by eapply Hl|]. intros [[room|]|k] d1 Hs; try done.
  apply wp_bind. eapply wp_impl; [apply (place_row_spec (known_as rows)); by eapply Hl|].
  intros [done_|k] d2 Hs2; cbn beta iota; [unfold wp; cbn|]; by etransitivity.
Qed.

Lemma place_each_spec l all held rows : in_sight l -> forall changed d,
  wp (place_each e l all held rows changed) (fun _ d' => safe (known_as all) d d') d.
Proof.
  intros Hl. induction rows as [|row rows IH]; intros changed d; cbn [place_each]; [apply wp_stop|].
  apply wp_bind. eapply wp_impl; [by apply place_one_spec|]. intros [c|k] d1 Hs; [|done].
  eapply wp_impl; [apply IH|intros r d2 H; by etransitivity].
Qed.

Lemma settle_folder_spec l rows rows' held d : in_sight l ->
  wp (settle_folder e l rows rows' held) (fun _ d' => safe (known_as (rows ++ rows')) d d') d.
Proof.
  intros Hl. unfold settle_folder. apply wp_bind. eapply wp_impl; [by apply (rename_moved_spec l rows (rows ++ rows')); [|set_solver]|].
  intros [[emptied moved]|k] d1 Hs; [|done]. apply wp_bind. unfold place_missing.
  apply (after_eqv _ _ _ d1); [auto with respects|reflexivity| |intros x d' H; etransitivity; [done|by apply eqv_safe]]. intros now d2 E2.
  apply (after_eqv _ _ _ d1); [auto with respects|done| |intros x d' H; etransitivity; [done|by apply eqv_safe]]. intros [] d3 E3.
  eapply wp_impl; [by apply place_each_spec|]. intros r d4 H4.
  assert (safe (known_as (rows ++ rows')) d d4) as Hs4.
  { etransitivity; [exact Hs|]. etransitivity; [apply eqv_safe; exact E3|]. eapply safe_weaken; [|exact H4].
    intros p m (row & link & Hr & H). exists row, link. split; [set_solver|done]. }
  destruct r as [placed_|k]; [|done]. apply eqv_then; [|done]. respects.
Qed.
End Callers.

(** ** Claims *)

(** What changes the folder: the end of a pass over a layout of some rows, and
    a removal in the window or from another computer. *)
Inductive FolderOp :=
  | Settle (l : Layout) (rows rows' : list FileRecord) (held : list text)
  | RemoveFile (available : bool) (file : FileRecord).

Definition rows_of (op : FolderOp) : list FileRecord :=
  match op with Settle _ rows rows' _ => rows ++ rows' | RemoveFile _ file => [file] end.

Definition laid_out `{U : Unicode} (op : FolderOp) : Prop :=
  match op with Settle l _ _ _ => exists rows, layout_of rows = Some l | RemoveFile _ _ => True end.

Definition run_op `{U : Unicode, C : Crypto} (e : Env) (d : Folder) (op : FolderOp) : Folder :=
  match op with
  | Settle l rows rows' held => (settle_folder e l rows rows' held d).2
  | RemoveFile available file => (remove_folder_file e available file d).2
  end.

Section Claims.
Context `{U : Unicode, C : Crypto} {UL : UnicodeLaws U} {CL : CaseLaws U} (e : Env).

Lemma run_ops_safe ops : careful e -> Forall laid_out ops -> forall d,
  safe (known_as e (flat_map rows_of ops)) d (foldl (run_op e) d ops).
Proof.
  intros Hc. induction 1 as [|op ops Hop _ IH]; intros d; [reflexivity|]. cbn [foldl flat_map].
  assert (forall d1 d2 (rows : list FileRecord), (forall r, r ∈ rows -> r ∈ rows_of op ++ flat_map rows_of ops) ->
    safe (known_as e rows) d1 d2 -> safe (known_as e (rows_of op ++ flat_map rows_of ops)) d1 d2) as Hw.
  { intros d1 d2 rows Hsub. apply safe_weaken. intros p m (row & link & Hr & H). exists row, link. split; [by apply Hsub|done]. }
  etransitivity; [|eapply Hw; [|apply IH]; intros r Hr; apply elem_of_app; by right].
  apply (Hw _ _ (rows_of op)); [intros r Hr; apply elem_of_app; by left|].
  destruct op as [l rows rows' held|available file]; cbn [rows_of run_op].
  - destruct Hop as [rows0 Hl]. pose proof (settle_folder_spec e Hc l rows rows' held d (layout_in_sight _ _ Hl)) as H.
    unfold wp in H. exact H.
  - pose proof (remove_folder_file_spec e Hc available file d) as H. unfold wp in H. exact H.
Qed.

(** C5: However the passes and removals follow each other and whatever fails
    in them, except that the look at a target after a hard link to it could
    not be made works ([careful]; [clobbered_when_blind] is what happens
    otherwise), no content of a file in the owner's folder is lost: it is in
    the folder still or in the Trash.  A file moves at all only if a row with
    its size and time is linked to its path or to a path that differs from it
    in case or Unicode form only; any other stays where it was, as it was.
    The app's own hidden staging copies are not counted among the files. *)
Theorem folder_loses_nothing ops d p c m : careful e -> Forall laid_out ops -> visible p -> file_in d p c m ->
  let d' := foldl (run_op e) d ops in
  ((exists p', visible p' /\ file_in d' p' c m) \/ c ∈ trash d') /\
  (~ known_as e (flat_map rows_of ops) p m -> file_in d' p c m).
Proof.
  intros Hc Ho Hv Hf. cbn zeta. destruct (run_ops_safe ops Hc Ho d) as [H1 _ H3]. split; [by eapply H1|].
  intros Hn. by apply H3.
Qed.

(** C28: A kept file is placed whole or not at all.  Whatever fails, except that
    the look at the target after a hard link to it could not be made works
    ([careful]), placing changes no other file but its own hidden staging
    copy.  If its target has changed, no file was there before and it now
    holds the whole source, whose hash is the expected one if one was; if it
    reports success, it did change it, and reports that hash. *)
Theorem place_file_whole_or_not rel source expect d r d' : careful e -> visible rel ->
  place_file e rel source expect d = (r, d') ->
  (forall p c m, visible p -> p <> rel -> file_in d p c m <-> file_in d' p c m) /\
  (is_ok r = false /\ (forall c m, file_in d rel c m <-> file_in d' rel c m) \/
   (forall c m, ~ file_in d rel c m) /\ (exists m, file_in d' rel source m) /\
   (expect = None \/ expect = Some (sha256 source))) /\
  (forall path m hash, r = Ok (path, m, hash) -> hash = hex_lower (sha256 source)).
Proof.
  intros Hc Hv H. pose proof (place_file_spec e rel source expect d Hc Hv) as Hs. unfold wp in Hs. rewrite H in Hs. cbn [fst snd] in Hs.
  destruct r as [[[path m] hash]|k].
  - destruct Hs as ([H1 H2 H3 H4] & H5 & ->). split_and!; [done|right; by split_and!|]. by intros ? ? ? [= _ _ <-].
  - destruct Hs as [[H1 _]|[[H1 H2 H3 H4] H5]]; (split_and!; [|..|done]).
    + intros p c m Hp _. by apply H1.
    + left. split; [done|]. intros c m. by apply H1.
    + done.
    + right. by split_and!.
Qed.
End Claims.

(** ** Witnesses *)

(** An environment in which nothing fails. *)
Definition calm : Env :=
  {| root := [lit "w"]; fault _ _ := None; stamp n := Z.of_nat n; written _ := 0%nat; random_hex _ := Some (lit "00");
     clock _ := 0; unix _ := 0; decrypt _ _ := Ok [Byte.x41; Byte.x42] |}.

Definition old_file : Thing := File [Byte.x61] {| len := 1; mtime := 7 |}.

(** The folder with the version a row of another computer replaces. *)
Definition old_folder : Folder :=
  {| tree := <[[lit "a.txt"] := old_file]> {[ [] := Dir ]}; trash := []; updates := []; retry := ∅; calls := 0 |}.

Definition version (i : Z) (prev_ : option text) (link : option text) : FileRecord :=
  {| row_id := u64_to_string i; row_name := lit "a.txt"; row_path := []; row_prev := prev_; row_media_type := []; row_bytes := 1;
     row_added := i; origin := []; entry_plain := []; row_sha256 := Some []; row_size := Some 1; row_local := OK;
     watch_path := link; watch_size := Some 1; watch_mtime := Some 7; plain_sha256 := [] |}.

Definition versions : list FileRecord :=
  [version 1 None (Some (lit "/w/a.txt")); version 2 (Some (u64_to_string 1)) None].

Definition versions_op : FolderOp :=
  Settle (default no_layout (@layout_of ascii_unicode versions)) versions versions [].

Lemma calm_careful : careful calm.
Proof. done. Qed.

Lemma a_txt_visible : visible [lit "a.txt"].
Proof. intros hex. cbn. discriminate. Qed.

Lemma folder_loses_nothing_witness :
  let d' := foldl (@run_op ascii_unicode toy_crypto calm) old_folder [versions_op] in
  tree d' !! [lit "a.txt"] = Some (File [Byte.x41; Byte.x42] {| len := 2; mtime := 13 |}) /\ trash d' = [[Byte.x61]] /\
  ((exists p', visible p' /\ file_in d' p' [Byte.x61] {| len := 1; mtime := 7 |}) \/ [Byte.x61] ∈ trash d').
Proof.
  cbn zeta. split; [vm_compute; reflexivity|]. split; [vm_compute; reflexivity|].
  apply (@folder_loses_nothing ascii_unicode toy_crypto ascii_unicode_laws ascii_case_laws calm [versions_op] old_folder
           [lit "a.txt"] [Byte.x61] {| len := 1; mtime := 7 |}).
  - exact calm_careful.
  - constructor; [|constructor]. exists versions. vm_compute. reflexivity.
  - exact a_txt_visible.
  - vm_compute. reflexivity.
Defined.

Lemma place_file_whole_or_not_witness :
  let start_ := {| tree := {[ [] := Dir ]}; trash := []; updates := []; retry := ∅; calls := 0 |} in
  let run := @place_file ascii_unicode toy_crypto calm [lit "a.txt"] [Byte.x41] None start_ in
  is_ok run.1 = true /\ exists m, file_in run.2 [lit "a.txt"] [Byte.x41] m.
Proof.
  cbn zeta. set (start_ := Build_Folder _ _ _ _ _).
  destruct (@place_file ascii_unicode toy_crypto calm [lit "a.txt"] [Byte.x41] None start_) as [r d'] eqn:E.
  destruct (@place_file_whole_or_not ascii_unicode toy_crypto calm _ _ _ _ _ _ calm_careful a_txt_visible E) as (_ & H & _).
  assert (is_ok r = true) as Hr by (vm_compute in E; injection E as <- _; reflexivity).
  split; [exact Hr|]. destruct H as [[H _]|(_ & H & _)]; [cbn in Hr; rewrite H in Hr; discriminate Hr|exact H].
Defined.

(** No Trash, no hard links, and looking at a path fails from the [from]-th
    call on. *)
Definition blind (from : nat) : Env :=
  {| root := [lit "w"];
     fault n c := match c with
                  | HardLink | Trash => Some OtherKind
                  | Metadata_ => if (from <=? n)%nat then Some OtherKind else None
                  | _ => None
                  end;
     stamp n := Z.of_nat n; written _ := 0%nat; random_hex _ := Some (lit "00"); clock _ := 0; unix _ := 0;
     decrypt _ _ := Ok [Byte.x41; Byte.x42] |}.

(** What [careful] is for: a look that fails is taken for a free path, and the
    rename that follows replaces the file there.  So a removal into the hidden
    folder that reports success can destroy a file removed before. *)
Definition removed_before : Folder :=
  {| tree := <[[lit "a.txt"] := old_file]>
       (<[[lit ".wildbloom"; lit "removed"; lit "d"; lit "a.txt"] := File [Byte.x7a] {| len := 1; mtime := 9 |}]>
       (<[[lit ".wildbloom"; lit "removed"; lit "d"] := Dir]>
       (<[[lit ".wildbloom"; lit "removed"] := Dir]>
       (<[[lit ".wildbloom"] := Dir]> {[ [] := Dir ]}))));
     trash := []; updates := []; retry := ∅; calls := 0 |}.

Lemma clobbered_when_blind :
  let '(r, d') := @remove_to_trash ascii_unicode (blind 8) [lit "a.txt"] (lit "d") removed_before in
  r = Ok true /\ trash d' = [] /\
  tree d' !! [lit ".wildbloom"; lit "removed"; lit "d"; lit "a.txt"] = Some old_file /\
  tree d' !! [lit "a.txt"] = None.
Proof. vm_compute. repeat split. Qed.

(** ... and placing a file can replace the one that is there. *)
Lemma placed_over_when_blind :
  let '(r, d') := @place_file ascii_unicode toy_crypto (blind 1) [lit "a.txt"] [Byte.x41] None old_folder in
  is_ok r = false /\ tree d' !! [lit "a.txt"] = Some (File [Byte.x41] {| len := 1; mtime := 4 |}).
Proof. vm_compute. split; reflexivity. Qed.

(** Where names that differ in case are two files, a file no row knows gives
    way when it has the size and time of a replaced version linked under the
    other spelling: it goes to the Trash. *)
Definition twin_folder : Folder :=
  {| tree := <[[lit "A.txt"] := old_file]> (<[[lit "a.txt"] := File [Byte.x7a] {| len := 1; mtime := 7 |}]> {[ [] := Dir ]});
     trash := []; updates := []; retry := ∅; calls := 0 |}.

Definition twin_versions : list FileRecord :=
  [version 1 None (Some (lit "/w/A.txt")); version 2 (Some (u64_to_string 1)) None].

Lemma unknown_twin_is_trashed :
  let l := default no_layout (@layout_of ascii_unicode twin_versions) in
  let d' := (@settle_folder ascii_unicode toy_crypto calm l twin_versions twin_versions [] twin_folder).2 in
  trash d' = [[Byte.x7a]] /\ tree d' !! [lit "A.txt"] = Some old_file.
Proof. vm_compute. split; reflexivity. Qed.
